(* ===== verification/_CoqProject ===== *)
-Q . S2P
Prelude.v
Paths.v
Bytes.v
Coordinate.v
LinquHeader.v
UnixSocketTransport.v
StdMap.v
PeerRegistry.v
FilesystemDiscovery.v
MsgTypes.v
LinquHeapRing.v
LinquDepListPool.v
LinquTaskRing.v
LinquScopeStack.v
LinquTensorMap.v
OrchestrationApi.v
Dispatchers.v
RingMetrics.v
Json.v
Scan.v
CoordinateMapper.v
LinquOrchestratorState.v
Caches.v
NodeDaemon.v
RemoteCall.v
CallsInFlight.v
Programs.v
OrchestratorGraph.v
OrchestratorInvariant.v
OrchestratorSafety.v
KernelRuntime.v
LocalKernels.v
ExampleKernels.v
LeafKernels.v
KernelAbi.v
LevelRuntime.v
LevelRuntimeView.v
LevelRuntimeSteps.v
LevelRuntimeSubmit.v
LevelRuntimeState.v
LevelRuntimeSafety.v
LevelRuntimeDrain.v
LevelRuntimeTheorems.v
LevelRuntimeOrder.v
LevelRuntimeWriters.v
LevelRuntimeFlow.v
LevelRuntimeDataflow.v
RuntimeThreads.v
TraceWriter.v
TreeReduce.v
ReduceOnRuntime.v
