(* ===== verification/Prelude.v ===== *)
(** * Linqu distributed runtime: a verification development (root file)

    The program ([src/src]) runs task graphs on a hierarchy of machines.  A
    node of the hierarchy has a level (0, a core, to 6, the cluster) and a
    coordinate, one index per level.  The parts:

    - the data structures of a scheduler ([ring/], [runtime/linqu_scope],
      [runtime/linqu_tensormap]): a window of task descriptors, a heap ring
      for output buffers, a pool of dependency list cells, a stack of scopes,
      a map from tensor handles to the task that produces them;
    - two schedulers built on them: [LinquOrchestratorState], driven by a
      kernel through a table of operations and completing tasks through a
      dispatcher, and [LevelRuntime], with worker and scheduler threads of its
      own; [tree_reduce] is a client of the second;
    - the network: message headers and payloads ([transport/]), stream sockets
      whose paths are made of the coordinate, the registry of peers and its
      discovery in the file system ([discovery/]);
    - the processes: [RemoteDispatcher] sends a task to the node below as a
      CALL_TASK message; [NodeDaemon] receives it, loads the kernel, runs it on
      a fresh orchestrator and answers with TASK_COMPLETE; the two programs
      [daemon/main.cpp] and [orchestrator_main.cpp] run a daemon, and find and
      shut down those of a cluster; the kernels of [src/examples] are clients;
    - the reports: ring metrics and traces as JSON files ([profiling/]).

    ** Conventions

    A C++ function is a definition of the same name; a method takes the state
    record of its class last and returns the new one.  A call that can fail to
    return a value is an [outcome] (below): asserts are compiled in (the
    project builds with [Debug]), an index out of range and a signed overflow
    are faults, and so is a second lock of a [std::mutex] by its owner.
    Integers are [Z] with the wrap-around of their width written out ([u8],
    [u16], [u32], [u64], [i32]; signed arithmetic that must not overflow is
    [i32_add], [i32_sub]).  A [std::vector] or array is a [list] read with
    [vec_get] and written with [vec_set], which fault out of range.  A pointer
    is what it was obtained with: the id of a task, the offset of a cell, the
    position in the heap ring, the address in a store.  What lies outside the
    source is an argument: answers of system calls, environment variables, the
    clock, the dynamic loader ([Caches.Host]), what a kernel or a submitted
    function computes.

    A loop that is not structural takes fuel, and running out is the fault
    [OutOfFuel]; the theorems show that it is not reached: bucket chains and
    dependency lists get one unit per pool cell, nested completions one per
    descriptor, the ring walk one per window slot, [tree_reduce] one per round
    (the logarithm of the number of leaves), the regular expression search one
    per character.  A loop that waits for other threads or for the kernel takes
    the list of what it meets, and says so when the list is used up.

    ** The files

    - [Prelude] (this file): outcomes, machine integers, vectors, record
      update, a weakest-precondition style of reasoning and its automation.
      [Paths]: strings and paths.  [Bytes]: byte buffers and network order.
      [StdMap]: [std::map] as an ordered list, with its contract.  [Scan]: the
      integer conversions of [sscanf].  [Json]: the JSON grammar as a relation
      between values and texts, and the text of the profile report.
    - [Coordinate]: [core/level.h], [coordinate.h], [task_key.h],
      [node_identity.h].  [CoordinateMapper]: [core/coordinate_mapper.h].
    - [LinquHeader], [MsgTypes]: [transport/linqu_header.h], [msg_types.h].
      Round trips for the header and the ten payloads; parsing an arbitrary
      buffer never reads outside it, except for the message length that
      [call_task_deserialize_bounds] characterises.
    - [UnixSocketTransport]: [transport/unix_socket_transport.cpp].  Delivery
      under any splitting of reads and writes, no cut message taken for a whole
      one, a message reaches exactly the node it is for.
    - [PeerRegistry], [FilesystemDiscovery]: [discovery/].  The registry is a
      finite map; parsing a socket path inverts making it; discovery finds
      every socket of a tree.
    - [LinquHeapRing], [LinquDepListPool], [LinquTaskRing], [LinquScopeStack],
      [LinquTensorMap]: the five data structures, each with its invariant, the
      abstract object it implements (a set of disjoint regions, lists, a
      window, a stack of lists, a partial map) and every branch of every
      operation.
    - [OrchestrationApi], [RingMetrics]: the data a kernel and a dispatcher
      exchange; counters and the JSON report.
    - [LinquOrchestratorState]: every operation of the orchestrator.
      [OrchestratorGraph] is the abstract dependency graph with its reference
      counts, [OrchestratorInvariant] the refinement of it by the memory of the
      state for completions, [OrchestratorSafety] that of every operation and
      the theorems about all reachable states.
    - [LevelRuntime]: the threads as program counters over one shared state.
      [LevelRuntimeView] is the abstract account of tokens, locks and
      references, [LevelRuntimeSteps] and [LevelRuntimeSubmit] its
      preservation, [LevelRuntimeState] the memory, [LevelRuntimeSafety] their
      composition, [LevelRuntimeDrain] progress, [LevelRuntimeTheorems] the
      results that hold in every run.  [LevelRuntimeOrder] bounds what a task
      can overtake in such a run; [LevelRuntimeWriters] says what the tensor
      map knows after some calls, [LevelRuntimeFlow] what the links of a task
      have to do with it, and [LevelRuntimeDataflow] concludes for the runs
      without a race.  [RuntimeThreads] adds what these leave out: [start], [stop], the
      waits on condition variables with lost, late and spurious wake-ups, and the
      queue of orchestrator functions; it refines [LevelRuntime].
      [TreeReduce]: [runtime/tree_reduce.h], against the interface
      [ReduceRuntime]; [ReduceOnRuntime] puts it on the threads of
      [LevelRuntime], with a run in which its result is wrong.
    - [Dispatchers]: the three dispatchers.  [Caches]: [daemon/storage],
      [code_cache], [data_cache].  [NodeDaemon]: the message handlers.
      [RemoteCall]: one remote call end to end, byte for byte.
      [CallsInFlight]: any number of them, interleaved in any way.
      [Programs]: both [main] functions, from environment and arguments to exit
      code, output and messages; the shutdown of a cluster end to end.
    - [KernelRuntime]: the function table a kernel sees and the kernels as trees
      of calls; [LocalKernels]: a kernel run by a daemon; [ExampleKernels],
      [LeafKernels]: the kernels of [src/examples], the second with [float]
      arithmetic, files read and files written.  [KernelAbi]: the structs and
      the function table as the header and as each separately compiled kernel
      declares them, and that the two meet in memory.
    - [TraceWriter]: [profiling/trace_writer.cpp] and the naming of threads; its
      file is JSON.

    ** What the theorems are about

    The orchestrator theorems quantify over the states reachable by operations
    whose callers respect [OrchestratorSafety.permitted]; those of
    [LevelRuntime] over every interleaving of actions from [start] in which the
    window of tasks is not exceeded and no submission waits for a tensor from
    outside ([calm_run]).  In such a run a task can be counted twice for a
    producer that finishes while it is being linked; the account of
    [LevelRuntimeView] is kept in two strengths ([strict]), the stronger one for
    the runs in which that does not happen ([race_free_run]), where tasks run in
    dataflow order.  Memory is sequentially consistent and an action of
    [LevelRuntime] is one access to shared memory; sections under a mutex are
    one step.  The kernel's part of the socket contract is [serves] and
    [honest].  Some theorems describe behaviour that a comment or document of
    the source denies; they are closed runs or characterisations ([error]).

    ** Not modelled

    - The tracing calls inside the loops of [LevelRuntime] (what they record is
      [TraceWriter]), and what submitted functions do to tensor data, apart from
      those of a reduction ([TreeReduce.run_calls]).
    - Text on [stderr]; the logging macros; declarations that hold no state or
      code (the getters of test access, the level constants of the C header).
    - Calling conventions: a call through a pointer of another function type is
      a fault.
    - The hashes of the standard library, which [hash_key] takes as arguments.
    - Weak memory: relaxed loads and stores are taken in program order.
    - Tests, launch scripts and documents. *)

From Stdlib Require Export ZArith Lia.
From stdpp Require Export sorting relations base tactics gmap strings numbers.
From stdpp Require Export functions list.

#[global] Open Scope Z_scope.

(** ** Outcomes: the ways a C++ call can end

    [Ok] is a normal return.  A fault is a way the call does not return a
    value: a failed [assert] (the project builds with [Debug], so asserts are
    compiled in), an index outside a [std::vector] or a raw buffer and a
    signed overflow (both undefined behaviour), a division by zero, a use of a
    null pointer, a second [lock] of a non-recursive [std::mutex] by its owner,
    and the exhaustion of the fuel that bounds a loop of the model. *)
Inductive fault : Type :=
  | AssertFailed
  | OutOfBounds
  | SignedOverflow
  | DivideByZero
  | NullPointer
  | SelfDeadlock
  | OutOfFuel.

Inductive outcome (A : Type) : Type :=
  | Ok (a : A)
  | Fault (f : fault).

Arguments Ok {A} a.
Arguments Fault {A} f.

#[export] Instance fault_eq_dec : EqDecision fault.
Proof. solve_decision. Defined.

#[export] Instance outcome_eq_dec `{EqDecision A} : EqDecision (outcome A).
Proof. solve_decision. Defined.

#[export] Instance outcome_ret : MRet outcome := fun A a => Ok a.
#[export] Instance outcome_bind : MBind outcome := fun A B f m =>
  match m with Ok a => f a | Fault e => Fault e end.
#[export] Instance outcome_fmap : FMap outcome := fun A B f m =>
  match m with Ok a => Ok (f a) | Fault e => Fault e end.

Declare Scope linqu_scope.
Delimit Scope linqu_scope with linqu.
#[global] Open Scope linqu_scope.

(** Sequencing in the outcome monad. *)
Notation "'let!' x ':=' m 'in' k" := (mbind (M := outcome) (fun x => k) m)
  (at level 10, x pattern, m at level 100, k at level 200,
   format "'[v' 'let!'  x  ':='  m  'in' '/' k ']'") : linqu_scope.
Notation "'do!' m 'in' k" := (mbind (M := outcome) (fun _ => k) m)
  (at level 10, m at level 100, k at level 200,
   format "'[v' 'do!'  m  'in' '/' k ']'") : linqu_scope.

Definition assert_that (b : bool) : outcome unit :=
  if b then Ok tt else Fault AssertFailed.

Definition of_option {A} (f : fault) (o : option A) : outcome A :=
  match o with Some a => Ok a | None => Fault f end.

(** [wp E m Q]: [m] returns a value that satisfies [Q], or faults with a fault
    that [E] permits.  With [E := fun _ => False] it is total correctness. *)
Definition wp {A} (E : fault -> Prop) (m : outcome A) (Q : A -> Prop) : Prop :=
  match m with Ok a => Q a | Fault f => E f end.

Definition no_fault : fault -> Prop := fun _ => False.

Section wp.
Context {A B : Type} (E : fault -> Prop).
Implicit Types (m : outcome A) (Q : A -> Prop).

Lemma wp_ret (a : A) Q : Q a -> wp E (Ok a) Q.
Proof. done. Qed.

Lemma wp_bind m (k : A -> outcome B) (R : B -> Prop) :
  wp E m (fun a => wp E (k a) R) -> wp E (m ≫= k) R.
Proof. by destruct m. Qed.

Lemma wp_mono m Q Q' : wp E m Q -> (forall a, Q a -> Q' a) -> wp E m Q'.
Proof. destruct m; simpl; auto. Qed.

Lemma wp_step m Q (k : A -> outcome B) (R : B -> Prop) :
  wp E m Q -> (forall a, Q a -> wp E (k a) R) -> wp E (m ≫= k) R.
Proof. destruct m; simpl; auto. Qed.

Lemma wp_faults (E' : fault -> Prop) m Q :
  wp E m Q -> (forall f, E f -> E' f) -> wp E' m Q.
Proof. destruct m; simpl; auto. Qed.

Lemma wp_assert (b : bool) (R : unit -> Prop) :
  (b = true -> R tt) -> (b = false -> E AssertFailed) -> wp E (assert_that b) R.
Proof. destruct b; simpl; auto. Qed.

Lemma wp_conj m Q Q' : wp E m Q -> wp E m Q' -> wp E m (fun a => Q a /\ Q' a).
Proof. destruct m; simpl; auto. Qed.

Lemma wp_Ok m Q a : wp E m Q -> m = Ok a -> Q a.
Proof. by intros H ->. Qed.
End wp.

Lemma wp_total {A} (m : outcome A) (Q : A -> Prop) :
  wp no_fault m Q <-> exists a, m = Ok a /\ Q a.
Proof.
  split.
  - destruct m as [a|f]; simpl; [eauto | intros []].
  - by intros (a & -> & ?).
Qed.

(** A run that can neither return nor fault otherwise faults with [e]. *)
Lemma wp_must_fault {A} (m : outcome A) e :
  wp (fun f => f = e) m (fun _ => False) -> m = Fault e.
Proof. destruct m; simpl; [done|by intros ->]. Qed.

Lemma bind_Ok {A B} (m : outcome A) (k : A -> outcome B) b :
  m ≫= k = Ok b <-> exists a, m = Ok a /\ k a = Ok b.
Proof.
  destruct m; simpl; split; [eauto|by intros (? & [= <-] & ?)|done|by intros (? & ? & ?)].
Qed.

Lemma bind_Fault {A B} (m : outcome A) (k : A -> outcome B) f :
  m ≫= k = Fault f <-> m = Fault f \/ exists a, m = Ok a /\ k a = Fault f.
Proof.
  destruct m; simpl; split; [eauto|by intros [?|(? & [= <-] & ?)]|by left; congruence|].
  intros [[= <-]|(? & ? & ?)]; done.
Qed.

Lemma assert_Ok b u : assert_that b = Ok u <-> b = true.
Proof. by destruct b, u. Qed.

(** Inversion of a successful run: one equation per monadic step. *)
Ltac inv_ok :=
  repeat match goal with
  | H : mbind _ _ = Ok _ |- _ =>
      apply bind_Ok in H; destruct H as (? & ? & ?)
  | H : assert_that _ = Ok _ |- _ => apply assert_Ok in H
  | H : Ok _ = Ok _ |- _ => injection H as H; try subst
  | H : Fault _ = Ok _ |- _ => discriminate H
  | H : (_, _) = (_, _) |- _ => injection H as ? ?; try subst
  end.

(** Reduce the binds at the head of the goal and nothing else. *)
Ltac bind_simpl := cbn [mbind outcome_bind of_option fst snd].

Create HintDb linqu.
Create Rewrite HintDb linqu_len.
#[export] Hint Resolve wp_ret : linqu.

(** ** Machine integers

    A C++ integer is a [Z] in the range of its type.  Unsigned arithmetic and
    every [static_cast] to an unsigned type reduce modulo [2^w]; a cast to
    [int32_t] is the two's complement reading; signed arithmetic that leaves
    the range is the fault [SignedOverflow]. *)
Definition u8 (z : Z) : Z := z mod 2 ^ 8.
Definition u16 (z : Z) : Z := z mod 2 ^ 16.
Definition u32 (z : Z) : Z := z mod 2 ^ 32.
Definition u64 (z : Z) : Z := z mod 2 ^ 64.
Definition i32 (z : Z) : Z := (z + 2 ^ 31) mod 2 ^ 32 - 2 ^ 31.

Definition in_u8 (z : Z) : Prop := 0 <= z < 2 ^ 8.
Definition in_u16 (z : Z) : Prop := 0 <= z < 2 ^ 16.
Definition in_u32 (z : Z) : Prop := 0 <= z < 2 ^ 32.
Definition in_u64 (z : Z) : Prop := 0 <= z < 2 ^ 64.
Definition in_i32 (z : Z) : Prop := - 2 ^ 31 <= z < 2 ^ 31.

Definition i32_range (z : Z) : bool := (- 2 ^ 31 <=? z) && (z <? 2 ^ 31).

Definition i32_add (a b : Z) : outcome Z :=
  if i32_range (a + b) then Ok (a + b) else Fault SignedOverflow.
Definition i32_sub (a b : Z) : outcome Z :=
  if i32_range (a - b) then Ok (a - b) else Fault SignedOverflow.

Lemma i32_range_spec z : i32_range z = true <-> in_i32 z.
Proof. unfold i32_range, in_i32. rewrite andb_true_iff, Z.leb_le, Z.ltb_lt. lia. Qed.

Ltac unfold_ints :=
  unfold u8, u16, u32, u64, i32, in_u8, in_u16, in_u32, in_u64, in_i32 in *.

Lemma u8_id z : in_u8 z -> u8 z = z.
Proof. unfold_ints. apply Z.mod_small. Qed.
Lemma u16_id z : in_u16 z -> u16 z = z.
Proof. unfold_ints. apply Z.mod_small. Qed.
Lemma u32_id z : in_u32 z -> u32 z = z.
Proof. unfold_ints. apply Z.mod_small. Qed.
Lemma u64_id z : in_u64 z -> u64 z = z.
Proof. unfold_ints. apply Z.mod_small. Qed.
Lemma i32_id z : in_i32 z -> i32 z = z.
Proof. unfold_ints. intros. rewrite Z.mod_small; lia. Qed.

Lemma u8_range z : in_u8 (u8 z).
Proof. unfold_ints. apply Z.mod_pos_bound. lia. Qed.
Lemma u16_range z : in_u16 (u16 z).
Proof. unfold_ints. apply Z.mod_pos_bound. lia. Qed.
Lemma u32_range z : in_u32 (u32 z).
Proof. unfold_ints. apply Z.mod_pos_bound. lia. Qed.
Lemma u64_range z : in_u64 (u64 z).
Proof. unfold_ints. apply Z.mod_pos_bound. lia. Qed.
Lemma i32_in_range z : in_i32 (i32 z).
Proof. unfold_ints. pose proof (Z.mod_pos_bound (z + 2 ^ 31) (2 ^ 32)). lia. Qed.

(** A signed value survives the trip through [static_cast<uint32_t>]. *)
Lemma i32_u32 z : in_i32 z -> i32 (u32 z) = z.
Proof.
  unfold_ints. intros Hz. rewrite Zplus_mod_idemp_l. rewrite Z.mod_small; lia.
Qed.

Lemma u32_i32 z : in_u32 z -> u32 (i32 z) = z.
Proof.
  unfold_ints. intros Hz.
  rewrite Zminus_mod_idemp_l. rewrite Z.mod_small; lia.
Qed.

#[export] Hint Resolve u8_range u16_range u32_range u64_range i32_in_range : linqu.

(** *** Powers of two: the ring and hash masks [x & (n - 1)] *)
Definition is_pow2 (n : Z) : bool := (0 <? n) && (Z.land n (n - 1) =? 0).

Lemma is_pow2_spec n : is_pow2 n = true <-> exists k, 0 <= k /\ n = 2 ^ k.
Proof.
  unfold is_pow2. rewrite andb_true_iff, Z.ltb_lt, Z.eqb_eq. split.
  - intros [Hn Hl]. exists (Z.log2 n). split; [apply Z.log2_nonneg|].
    destruct (Z.log2_spec n Hn) as [Hlo Hhi].
    destruct (decide (n = 2 ^ Z.log2 n)) as [?|Hne]; [done|exfalso].
    assert (Hb : Z.testbit (Z.land n (n - 1)) (Z.log2 n) = true).
    { rewrite Z.land_spec, Z.bit_log2 by done. simpl.
      rewrite <- (Z.log2_unique (n - 1) (Z.log2 n) (Z.log2_nonneg n)) at 1 by lia.
      apply Z.bit_log2. pose proof (Z.log2_nonneg n).
      pose proof (Z.pow_pos_nonneg 2 (Z.log2 n)). lia. }
    rewrite Hl, Z.bits_0 in Hb. done.
  - intros (k & Hk & ->). split; [apply Z.pow_pos_nonneg; lia|].
    replace (2 ^ k - 1) with (Z.ones k) by (rewrite Z.ones_equiv; lia).
    rewrite Z.land_ones by done. apply Z_mod_same_full.
Qed.

Lemma is_pow2_pos n : is_pow2 n = true -> 0 < n.
Proof. unfold is_pow2. rewrite andb_true_iff, Z.ltb_lt. tauto. Qed.

(** Masking with [n - 1] is reduction modulo [n], for negative ids too. *)
Lemma land_mask n x : is_pow2 n = true -> Z.land x (n - 1) = x mod n.
Proof.
  intros (k & Hk & ->)%is_pow2_spec.
  replace (2 ^ k - 1) with (Z.ones k) by (rewrite Z.ones_equiv; lia).
  by apply Z.land_ones.
Qed.

Lemma land_mask_range n x : is_pow2 n = true -> 0 <= Z.land x (n - 1) < n.
Proof.
  intros H. rewrite land_mask by done. apply Z.mod_pos_bound. by apply is_pow2_pos.
Qed.

(** Two integers less than [n] apart with the same residue are equal. *)
Lemma mod_window_inj n a b : 0 < n -> a mod n = b mod n -> Z.abs (a - b) < n -> a = b.
Proof.
  intros Hn Heq Hd.
  pose proof (Z.div_mod a n). pose proof (Z.div_mod b n).
  assert (a - b = n * (a / n - b / n)) by lia.
  destruct (decide (a / n = b / n)); nia.
Qed.

(** ** Vectors indexed by a C++ integer *)
Definition zlookup {A} (v : list A) (i : Z) : option A :=
  if 0 <=? i then v !! Z.to_nat i else None.
Definition zinsert {A} (i : Z) (x : A) (v : list A) : list A :=
  if 0 <=? i then <[Z.to_nat i := x]> v else v.
Definition zlength {A} (v : list A) : Z := Z.of_nat (length v).

(** [v[i]] read and written; outside the vector it is undefined behaviour. *)
Definition vec_get {A} (v : list A) (i : Z) : outcome A :=
  of_option OutOfBounds (zlookup v i).
Definition vec_set {A} (v : list A) (i : Z) (x : A) : outcome (list A) :=
  match zlookup v i with Some _ => Ok (zinsert i x v) | None => Fault OutOfBounds end.

Section vectors.
Context {A : Type}.
Implicit Types (v : list A) (i j : Z) (x : A).

Lemma zlookup_Some_range v i x : zlookup v i = Some x -> 0 <= i < zlength v.
Proof.
  unfold zlookup, zlength. destruct (Z.leb_spec 0 i); [|done].
  intros ?%lookup_lt_Some. lia.
Qed.

Lemma zlookup_is_Some v i : 0 <= i < zlength v -> exists x, zlookup v i = Some x.
Proof.
  unfold zlookup, zlength. intros. destruct (Z.leb_spec 0 i); [|lia].
  apply lookup_lt_is_Some_2. lia.
Qed.

Lemma zlookup_None_range v i : zlookup v i = None -> ~ 0 <= i < zlength v.
Proof. intros HN [x Hx]%zlookup_is_Some. congruence. Qed.

Lemma zlength_zinsert v i x : zlength (zinsert i x v) = zlength v.
Proof. unfold zlength, zinsert. destruct (0 <=? i); [|done]. by rewrite length_insert. Qed.

Lemma zlookup_zinsert_eq v i x :
  0 <= i < zlength v -> zlookup (zinsert i x v) i = Some x.
Proof.
  unfold zlookup, zinsert, zlength. intros. destruct (Z.leb_spec 0 i); [|lia].
  apply list_lookup_insert_eq. lia.
Qed.

Lemma zlookup_zinsert_ne v i j x :
  i <> j -> zlookup (zinsert i x v) j = zlookup v j.
Proof.
  unfold zlookup, zinsert. intros.
  destruct (Z.leb_spec 0 i), (Z.leb_spec 0 j); try done.
  apply list_lookup_insert_ne. lia.
Qed.

Lemma zlookup_zinsert v i j x :
  0 <= i < zlength v ->
  zlookup (zinsert i x v) j = if decide (i = j) then Some x else zlookup v j.
Proof.
  intros. case_decide; subst; [by apply zlookup_zinsert_eq | by apply zlookup_zinsert_ne].
Qed.

Lemma zlookup_app_l v w i : i < zlength v -> zlookup (v ++ w) i = zlookup v i.
Proof.
  unfold zlookup, zlength. intros. destruct (Z.leb_spec 0 i); [|done].
  apply lookup_app_l. lia.
Qed.

Lemma zlookup_fmap {B} (f : A -> B) v i : zlookup (f <$> v) i = f <$> zlookup v i.
Proof. unfold zlookup. destruct (0 <=? i); [|done]. apply list_lookup_fmap. Qed.

Lemma zlength_fmap {B} (f : A -> B) v : zlength (f <$> v) = zlength v.
Proof. unfold zlength. by rewrite length_fmap. Qed.

Lemma list_eq_zlookup v w : (forall i, zlookup v i = zlookup w i) -> v = w.
Proof.
  intros H. apply list_eq. intros i. specialize (H (Z.of_nat i)). unfold zlookup in H.
  rewrite (proj2 (Z.leb_le 0 _)), Nat2Z.id in H by lia. done.
Qed.

(** Distinct positions of a vector are at most as many as its cells. *)
Lemma NoDup_positions (l : list Z) v :
  NoDup l -> (forall i, i ∈ l -> 0 <= i < zlength v) -> (length l <= length v)%nat.
Proof.
  intros Hnd Hr.
  assert (Hs : l ⊆ seqZ 0 (zlength v))
    by (intros i Hi; apply elem_of_seqZ; specialize (Hr i Hi); lia).
  pose proof (submseteq_length _ _ (NoDup_submseteq _ _ Hnd Hs)) as Hl.
  rewrite length_seqZ in *. unfold zlength in *. lia.
Qed.

Lemma zlookup_replicate n x i :
  0 <= i < n -> zlookup (replicate (Z.to_nat n) x) i = Some x.
Proof.
  unfold zlookup. intros. destruct (Z.leb_spec 0 i); [|lia].
  apply lookup_replicate_2. lia.
Qed.

Lemma zlength_replicate n x : 0 <= n -> zlength (replicate (Z.to_nat n) x) = n.
Proof. unfold zlength. intros. rewrite length_replicate. lia. Qed.

Lemma zlength_nonneg v : 0 <= zlength v.
Proof. unfold zlength. lia. Qed.

Lemma vec_get_Ok v i x : vec_get v i = Ok x <-> zlookup v i = Some x.
Proof. unfold vec_get. destruct (zlookup v i); simpl; split; congruence. Qed.

Lemma vec_set_Ok v v' i x :
  vec_set v i x = Ok v' <-> 0 <= i < zlength v /\ v' = zinsert i x v.
Proof.
  unfold vec_set. destruct (zlookup v i) eqn:E.
  - apply zlookup_Some_range in E. split; [intros [= <-]|intros [_ ->]]; done.
  - apply zlookup_None_range in E. split; [done|intros [? _]; done].
Qed.

Lemma wp_vec_get E v i (Q : A -> Prop) :
  0 <= i < zlength v -> (forall x, zlookup v i = Some x -> Q x) -> wp E (vec_get v i) Q.
Proof.
  intros [x Hx]%zlookup_is_Some HQ. unfold vec_get. rewrite Hx. simpl. auto.
Qed.

Lemma wp_vec_set E v i x (Q : list A -> Prop) :
  0 <= i < zlength v -> Q (zinsert i x v) -> wp E (vec_set v i x) Q.
Proof. intros [y Hy]%zlookup_is_Some HQ. unfold vec_set. by rewrite Hy. Qed.
End vectors.

#[export] Hint Rewrite @zlength_zinsert : linqu_len.

(** An earlier element of a strongly sorted list is related to a later one. *)
Lemma sorted_lookup {A} (R : A -> A -> Prop) (l : list A) i j a b :
  StronglySorted R l -> l !! i = Some a -> l !! j = Some b -> (i < j)%nat -> R a b.
Proof.
  intros Hs. revert i j. induction Hs as [|x l _ IH Hx]; intros [|i] [|j] Hi Hj Hij;
    simplify_eq/=; try lia.
  - by eapply Forall_lookup in Hx.
  - eapply IH; eauto. lia.
Qed.

(** ** Counting and summing over lists *)
Fixpoint occ (x : Z) (l : list Z) : Z :=
  match l with [] => 0 | y :: l => (if decide (y = x) then 1 else 0) + occ x l end.

Lemma occ_nonneg x l : 0 <= occ x l.
Proof. induction l; simpl; [done|]. case_decide; lia. Qed.
Lemma occ_elem_of x l : 0 < occ x l <-> x ∈ l.
Proof.
  induction l as [|y l IH]; simpl; [split; [lia|by intros ?%not_elem_of_nil]|].
  rewrite elem_of_cons. pose proof (occ_nonneg x l). case_decide; subst.
  - split; [by left|lia].
  - rewrite <- IH. split; [intros; right; lia|]. intros [->|?]; [done|lia].
Qed.
Lemma occ_notin x l : x ∉ l -> occ x l = 0.
Proof. intros Hx. pose proof (occ_nonneg x l). rewrite <- occ_elem_of in Hx. lia. Qed.

Lemma occ_app x l1 l2 : occ x (l1 ++ l2) = occ x l1 + occ x l2.
Proof. induction l1; simpl; [done|lia]. Qed.

(** No element occurs twice, each element of [l] once: a permutation. *)
Lemma occ_NoDup l : (forall x, occ x l <= 1) -> NoDup l.
Proof.
  induction l as [|y l IH]; intros H; constructor.
  - intros Hy%occ_elem_of. specialize (H y). simpl in H. rewrite decide_True in H by done. lia.
  - apply IH. intros x. specialize (H x). simpl in H. case_decide; lia.
Qed.

Fixpoint zsum {A} (f : A -> Z) (l : list A) : Z :=
  match l with [] => 0 | x :: l => f x + zsum f l end.

Section zsum.
Context {A : Type}.
Implicit Types (f g : A -> Z) (l : list A).

Lemma zsum_app f l1 l2 : zsum f (l1 ++ l2) = zsum f l1 + zsum f l2.
Proof. induction l1; simpl; [done|lia]. Qed.

Lemma zsum_ext f g l : (forall x, x ∈ l -> f x = g x) -> zsum f l = zsum g l.
Proof.
  induction l as [|x l IH]; intros H; simpl; [done|].
  rewrite (H x) by set_solver. rewrite IH; [done|]. intros y Hy. apply H. set_solver.
Qed.

Lemma zsum_nonneg f l : (forall x, x ∈ l -> 0 <= f x) -> 0 <= zsum f l.
Proof.
  induction l as [|x l IH]; intros H; simpl; [lia|].
  assert (0 <= f x) by (apply H; set_solver).
  assert (0 <= zsum f l) by (apply IH; intros y Hy; apply H; set_solver). lia.
Qed.

Lemma zsum_zero f l : (forall x, x ∈ l -> f x = 0) -> zsum f l = 0.
Proof.
  induction l as [|x l IH]; intros H; simpl; [done|].
  rewrite (H x) by set_solver. rewrite IH; [done|]. intros y Hy. apply H. set_solver.
Qed.

Lemma zsum_elem f l x : (forall y, y ∈ l -> 0 <= f y) -> x ∈ l -> f x <= zsum f l.
Proof.
  induction l as [|y l IH]; intros H Hx; [by apply not_elem_of_nil in Hx|]. simpl.
  assert (0 <= f y) by (apply H; set_solver).
  assert (0 <= zsum f l) by (apply zsum_nonneg; intros z Hz; apply H; set_solver).
  apply elem_of_cons in Hx as [->|Hx]; [lia|].
  assert (f x <= zsum f l) by (apply IH; [intros z Hz; apply H; set_solver|done]). lia.
Qed.

Lemma zsum_mono f g l : (forall x, x ∈ l -> g x <= f x) -> zsum g l <= zsum f l.
Proof.
  induction l as [|x l IH]; intros Hg; simpl; [lia|]. specialize (IH ltac:(set_solver)).
  pose proof (Hg x ltac:(set_solver)). lia.
Qed.

Lemma zsum_drop f g l x :
  (forall y, y ∈ l -> g y <= f y) -> x ∈ l -> zsum g l + (f x - g x) <= zsum f l.
Proof.
  induction l as [|y l IH]; intros Hg Hx; [by apply not_elem_of_nil in Hx|]. simpl.
  pose proof (Hg y ltac:(set_solver)). pose proof (zsum_mono f g l ltac:(set_solver)).
  apply elem_of_cons in Hx as [->|Hx]; [lia|]. specialize (IH ltac:(set_solver) Hx). lia.
Qed.

Lemma zsum_affine f g h k l :
  (forall x, x ∈ l -> f x = g x + h x * k) -> zsum f l = zsum g l + zsum h l * k.
Proof.
  induction l as [|x l IH]; intros H; simpl; [done|].
  rewrite (H x) by set_solver. rewrite IH; [lia|]. intros y Hy. apply H. set_solver.
Qed.

(** A part of a list sums to less. *)
Lemma zsum_submseteq f l k : (forall x, 0 <= f x) -> l ⊆+ k -> zsum f l <= zsum f k.
Proof.
  intros Hf. induction 1 as [|x l k _ IH|x y l|x l k _ IH|l1 l2 l3 _ IH1 _ IH2]; simpl; try lia.
  specialize (Hf x). lia.
Qed.

Lemma zsum_pos f l : 0 < zsum f l -> exists x, x ∈ l /\ 0 < f x.
Proof.
  induction l as [|x l IH]; simpl; [lia|]. intros Hs. destruct (decide (0 < f x)) as [Hx|Hx].
  - exists x. split; [by left|done].
  - destruct IH as (y & Hy & Hf); [lia|]. exists y. split; [by right|done].
Qed.

(** Overwriting one position. *)
Lemma zsum_insert f l i x y :
  l !! i = Some x -> zsum f (<[i := y]> l) = zsum f l - f x + f y.
Proof.
  revert i. induction l as [|z l IH]; intros [|i] Hi; simplify_eq/=; [lia|].
  rewrite IH by done. lia.
Qed.

(** Changing the summand of one element. *)
Lemma zsum_change f g l x :
  NoDup l -> x ∈ l -> (forall y, y ∈ l -> y <> x -> g y = f y) ->
  zsum g l = zsum f l - f x + g x.
Proof.
  induction 1 as [|y l Hy Hnd IH]; intros Hx Hg; [by apply not_elem_of_nil in Hx|]. simpl.
  apply elem_of_cons in Hx as [->|Hx].
  - rewrite (zsum_ext g f l); [lia|]. intros z Hz. apply Hg; set_solver.
  - rewrite IH by (done || (intros z Hz; apply Hg; set_solver)).
    rewrite (Hg y); [lia|set_solver|]. intros ->. done.
Qed.
End zsum.

(** An invariant of every step holds in every reachable state. *)
Lemma rtc_invariant {S} (R : relation S) (P : S -> Prop) a b :
  (forall x y, P x -> R x y -> P y) -> rtc R a b -> P a -> P b.
Proof. intros HP. induction 1; eauto. Qed.

(** ** Record update

    [r <| f := v |>] is the assignment [r.f = v] of one field.  A field has a
    [Setter] instance next to its record. *)
Class Setter {R F} (proj : R -> F) := setter : (F -> F) -> R -> R.
Notation "r <| p := v |>" := (setter (proj := p) (fun _ => v) r)
  (at level 1, left associativity, p constr, v constr at level 200,
   format "r <| p  :=  v |>") : linqu_scope.
