(* ===== verification/Paths.v ===== *)
(** * Strings and file paths

    What the components that live in the file system share: the last slash of
    a path ([rfind]), the helper [mkdir_p], which four files of [src/src]
    define with the same body, and the truncating [strncpy].  A [std::string]
    that holds text is a [string]; the bytes of one are [bytes_of_string]. *)

From Stdlib Require Export Ascii.
From S2P Require Import Prelude.

(** [p.back() == '/'] *)
Fixpoint ends_with_slash (s : string) : bool :=
  match s with
  | EmptyString => false
  | String c EmptyString => Ascii.eqb c "/"
  | String _ s' => ends_with_slash s'
  end.

(** The arguments of the [mkdir] calls of [mkdir_p], in their order. *)
Fixpoint mkdir_p_loop (cur rest : string) : list string :=
  match rest with
  | EmptyString => []
  | String c rest' =>
      let cur := cur +:+ String c "" in
      if Ascii.eqb c "/" || String.eqb rest' "" then cur :: mkdir_p_loop cur rest'
      else mkdir_p_loop cur rest'
  end.
Definition mkdir_p (path : string) : list string := mkdir_p_loop "" path.

(** [rfind('/')]: the text before and after the last slash. *)
Fixpoint split_last_slash (s : string) : option (string * string) :=
  match s with
  | EmptyString => None
  | String c s' =>
      match split_last_slash s' with
      | Some (d, f) => Some (String c d, f)
      | None => if Ascii.eqb c "/" then Some ("", s') else None
      end
  end.

(** [path.substr(0, path.rfind('/'))]: all of it when there is no slash. *)
Definition dir_of (s : string) : string :=
  match split_last_slash s with Some (d, _) => d | None => s end.

(** The first [n] characters. *)
Fixpoint string_take (n : nat) (s : string) : string :=
  match n, s with
  | S n, String c s => String c (string_take n s)
  | _, _ => ""
  end.

Definition str_size (s : string) : Z := Z.of_nat (String.length s).

Fixpoint bytes_of_string (s : string) : list Z :=
  match s with
  | EmptyString => []
  | String c s => Z.of_nat (Ascii.nat_of_ascii c) :: bytes_of_string s
  end.

(** ** Concatenation *)
Lemma sapp_cons c (a b : string) : String c a +:+ b = String c (a +:+ b).
Proof. done. Qed.
Lemma sapp_nil_l (a : string) : "" +:+ a = a.
Proof. done. Qed.

Lemma sapp_assoc (a b c : string) : a +:+ b +:+ c = (a +:+ b) +:+ c.
Proof. induction a as [|x a IH]; [done|exact (f_equal (String x) IH)]. Qed.

Lemma sapp_nil_r (a : string) : a +:+ "" = a.
Proof. induction a as [|x a IH]; [done|exact (f_equal (String x) IH)]. Qed.

Lemma sapp_length (a b : string) : String.length (a +:+ b) = (String.length a + String.length b)%nat.
Proof. induction a as [|x a IH]; [done|exact (f_equal S IH)]. Qed.

Lemma sapp_cancel (a b c : string) : a +:+ b = a +:+ c -> b = c.
Proof. apply String.app_inj. Qed.

Lemma sapp_eq_length (a b c d : string) :
  a +:+ b = c +:+ d -> String.length a = String.length c -> a = c /\ b = d.
Proof.
  revert c. induction a as [|x a IH]; intros [|y c] H Hl; try discriminate Hl; [done|].
  injection H as -> H. injection Hl as Hl. by destruct (IH c H Hl) as [-> ->].
Qed.

Lemma string_take_all n s : (String.length s <= n)%nat -> string_take n s = s.
Proof. revert n. induction s as [|c s IH]; intros [|n] H; simpl in *; try done; [lia|]. rewrite IH; [done|lia]. Qed.

(** What is cut off by [string_take]. *)
Lemma string_take_prefix n s : exists t, s = string_take n s +:+ t.
Proof.
  revert s. induction n as [|n IH]; intros [|c s]; simpl; eauto.
  destruct (IH s) as [t Ht]. exists t. exact (f_equal (String c) Ht).
Qed.

(** ** The last slash *)
Fixpoint no_slash (s : string) : bool :=
  match s with
  | EmptyString => true
  | String c s' => negb (Ascii.eqb c "/") && no_slash s'
  end.

Lemma split_no_slash s : no_slash s = true -> split_last_slash s = None.
Proof.
  induction s as [|c s IH]; simpl; [done|]. rewrite andb_true_iff, negb_true_iff.
  intros [-> ->%IH]. done.
Qed.

Lemma split_last_slash_eq d f :
  no_slash f = true -> split_last_slash (d +:+ String "/" f) = Some (d, f).
Proof.
  intros Hf. induction d as [|c d IH].
  - change ("" +:+ String "/" f) with (String "/" f). simpl. by rewrite (split_no_slash f Hf).
  - change (String c d +:+ String "/" f) with (String c (d +:+ String "/" f)). simpl. by rewrite IH.
Qed.

Lemma dir_of_eq d f : no_slash f = true -> dir_of (d +:+ String "/" f) = d.
Proof. intros Hf. unfold dir_of. by rewrite split_last_slash_eq. Qed.
