(* ===== verification/Bytes.v ===== *)
(** * Byte buffers and network byte order

    The raw buffers of [src/src/transport]: a [uint8_t] array or vector is a
    list of bytes, each a [Z] in the range of [uint8_t].  [memcpy] into a
    buffer is [poke], [memcpy] out of one is [peek]; both fault outside the
    buffer.  [htonl]/[htons]/[__builtin_bswap64] followed by a [memcpy] on the
    little-endian hosts the project targets write the big-endian bytes [be];
    the reverse is [unbe]. *)

From S2P Require Import Prelude.

Definition bytes_ok (bs : list Z) : Prop := Forall in_u8 bs.

Lemma zero_in_u8 : in_u8 0. Proof. unfold in_u8; lia. Qed.
Lemma zero_in_u16 : in_u16 0. Proof. unfold in_u16; lia. Qed.
Lemma zero_in_u32 : in_u32 0. Proof. unfold in_u32; lia. Qed.
Lemma zero_in_u64 : in_u64 0. Proof. unfold in_u64; lia. Qed.
Lemma zero_in_i32 : in_i32 0. Proof. unfold in_i32; lia. Qed.
Lemma bytes_nil : bytes_ok []. Proof. constructor. Qed.
#[export] Hint Resolve zero_in_u8 zero_in_u16 zero_in_u32 zero_in_u64 zero_in_i32 bytes_nil : linqu.

(** The [n] low bytes of [v], most significant first. *)
Fixpoint be (n : nat) (v : Z) : list Z :=
  match n with
  | O => []
  | S n' => u8 (Z.shiftr v (8 * Z.of_nat n')) :: be n' v
  end.

Fixpoint unbe (bs : list Z) : Z :=
  match bs with
  | [] => 0
  | b :: bs' => Z.shiftl b (8 * Z.of_nat (length bs')) + unbe bs'
  end.

(** [memcpy(buf + off, bs, |bs|)] *)
Definition poke (buf : list Z) (off : Z) (bs : list Z) : outcome (list Z) :=
  if (0 <=? off) && (off + zlength bs <=? zlength buf)
  then Ok (take (Z.to_nat off) buf ++ bs ++ drop (Z.to_nat (off + zlength bs)) buf)
  else Fault OutOfBounds.

(** [memcpy(dst, buf + off, n)] *)
Definition peek (buf : list Z) (off n : Z) : outcome (list Z) :=
  if (0 <=? off) && (0 <=? n) && (off + n <=? zlength buf)
  then Ok (take (Z.to_nat n) (drop (Z.to_nat off) buf))
  else Fault OutOfBounds.

(** [memcpy] of an [n]-byte integer followed by [ntoh*]. *)
Definition peek_be (buf : list Z) (off n : Z) : outcome Z :=
  let! bs := peek buf off n in Ok (unbe bs).

(** [n] value-initialised bytes, as [resize] appends them. *)
Definition zeros (n : Z) : list Z := replicate (Z.to_nat n) 0.

(** [vec.resize(n)] *)
Definition resize (v : list Z) (n : Z) : list Z :=
  take (Z.to_nat n) v ++ zeros (n - zlength v).

(** ** Lengths *)
Lemma length_be n v : length (be n v) = n.
Proof. induction n; simpl; congruence. Qed.

Lemma zlength_be n v : zlength (be n v) = Z.of_nat n.
Proof. unfold zlength. by rewrite length_be. Qed.

Lemma zlength_app {A} (v w : list A) : zlength (v ++ w) = zlength v + zlength w.
Proof. unfold zlength. rewrite length_app. lia. Qed.

Lemma zlength_cons {A} (x : A) (v : list A) : zlength (x :: v) = 1 + zlength v.
Proof. unfold zlength. simpl. lia. Qed.

Lemma zlength_nil {A} : zlength (@nil A) = 0.
Proof. done. Qed.

Lemma zlength_zeros n : 0 <= n -> zlength (zeros n) = n.
Proof. apply zlength_replicate. Qed.

Lemma zlength_ge_0 {A} (v : list A) : 0 <= zlength v.
Proof. apply zlength_nonneg. Qed.

Create Rewrite HintDb bytes_len.
#[export] Hint Rewrite @zlength_app @zlength_cons @zlength_nil zlength_be : bytes_len.

(** Arithmetic on the lengths of buffers. *)
Ltac blia :=
  repeat match goal with
  | |- context [zlength ?v] =>
      lazymatch goal with H : 0 <= zlength v |- _ => fail | _ => pose proof (zlength_ge_0 v) end
  end;
  autorewrite with bytes_len in *; lia.

(** ** Network byte order *)
Lemma unbe_be_mod n v : unbe (be n v) = v mod 2 ^ (8 * Z.of_nat n).
Proof.
  induction n as [|n IH]; simpl unbe; simpl be.
  - by rewrite Z.mod_1_r.
  - cbn [unbe]. rewrite IH, length_be. unfold u8.
    rewrite Z.shiftl_mul_pow2, Z.shiftr_div_pow2 by lia.
    replace (8 * Z.of_nat (S n)) with (8 * Z.of_nat n + 8) by lia.
    pose proof (Z.pow_pos_nonneg 2 (8 * Z.of_nat n)).
    rewrite Z.pow_add_r by lia. rewrite Z.rem_mul_r by lia. ring.
Qed.

Lemma unbe_be n v : 0 <= v < 2 ^ (8 * Z.of_nat n) -> unbe (be n v) = v.
Proof. intros. rewrite unbe_be_mod. by apply Z.mod_small. Qed.

Lemma unbe_be2 v : in_u16 v -> unbe (be 2 v) = v.
Proof. apply (unbe_be 2). Qed.
Lemma unbe_be4 v : in_u32 v -> unbe (be 4 v) = v.
Proof. apply (unbe_be 4). Qed.
Lemma unbe_be8 v : in_u64 v -> unbe (be 8 v) = v.
Proof. apply (unbe_be 8). Qed.

Lemma unbe_range bs : bytes_ok bs -> 0 <= unbe bs < 2 ^ (8 * zlength bs).
Proof.
  induction 1 as [|b bs Hb _ IH]; [done|]. cbn [unbe].
  change (Z.of_nat (length bs)) with (zlength bs). rewrite zlength_cons.
  rewrite Z.shiftl_mul_pow2 by (pose proof (zlength_ge_0 bs); lia).
  replace (8 * (1 + zlength bs)) with (8 + 8 * zlength bs) by lia.
  rewrite Z.pow_add_r by (pose proof (zlength_ge_0 bs); lia).
  unfold in_u8 in Hb. nia.
Qed.

Lemma be_ok n v : bytes_ok (be n v).
Proof. induction n; simpl; constructor; auto with linqu. Qed.

Lemma zeros_ok n : bytes_ok (zeros n).
Proof. apply Forall_replicate. unfold in_u8. lia. Qed.

Lemma bytes_app a b : bytes_ok (a ++ b) <-> bytes_ok a /\ bytes_ok b.
Proof. apply Forall_app. Qed.

#[export] Hint Resolve be_ok zeros_ok : linqu.

(** ** Filling a buffer from the left

    A serializer writes its fields in order into a zeroed buffer: before each
    write the buffer is what has been written followed by zeros. *)
Lemma zeros_split n m : 0 <= n -> 0 <= m -> zeros (n + m) = zeros n ++ zeros m.
Proof. intros. unfold zeros. rewrite Z2Nat.inj_add by lia. apply replicate_add. Qed.

Lemma drop_zeros n m : 0 <= m <= n -> drop (Z.to_nat m) (zeros n) = zeros (n - m).
Proof. intros. unfold zeros. rewrite drop_replicate. f_equal. lia. Qed.

Lemma zeros_start n : zeros n = [] ++ zeros n.
Proof. done. Qed.

Lemma poke_fill d bs n off :
  off = zlength d -> zlength bs <= n ->
  poke (d ++ zeros n) off bs = Ok ((d ++ bs) ++ zeros (n - zlength bs)).
Proof.
  intros -> Hn. unfold poke.
  pose proof (zlength_ge_0 d). pose proof (zlength_ge_0 bs).
  rewrite zlength_app, zlength_zeros by lia.
  rewrite (proj2 (Z.leb_le 0 _)), (proj2 (Z.leb_le _ _)) by lia. simpl.
  unfold zlength at 1. rewrite Nat2Z.id, take_app_length.
  rewrite Z2Nat.inj_add by lia. unfold zlength at 1.
  rewrite Nat2Z.id, drop_app_add, drop_zeros by lia. by rewrite app_assoc.
Qed.

(** The fill of the last field leaves no zeros. *)
Lemma zeros_nonpos n : n <= 0 -> zeros n = [].
Proof. intros. unfold zeros. by replace (Z.to_nat n) with 0%nat by lia. Qed.

Lemma zinsert_as_poke buf off b :
  0 <= off < zlength buf -> vec_set buf off b = poke buf off [b].
Proof.
  intros Hr. unfold poke. rewrite (proj2 (Z.leb_le 0 _)) by lia.
  rewrite (proj2 (Z.leb_le _ _)) by (autorewrite with bytes_len; lia). simpl.
  destruct (zlookup_is_Some buf off Hr) as [x Hx].
  unfold vec_set. rewrite Hx. f_equal. unfold zinsert.
  rewrite (proj2 (Z.leb_le 0 _)) by lia.
  rewrite insert_take_drop by (unfold zlength in Hr; lia). do 3 f_equal.
  autorewrite with bytes_len. rewrite Z2Nat.inj_add by lia. simpl. lia.
Qed.

Lemma resize_nil n : 0 <= n -> resize [] n = [] ++ zeros n.
Proof. intros. unfold resize. rewrite take_nil. by rewrite Z.sub_0_r. Qed.

Lemma resize_grow d n : 0 <= n -> resize d (zlength d + n) = d ++ zeros n.
Proof.
  intros. pose proof (zlength_ge_0 d). unfold resize.
  rewrite take_ge by (unfold zlength in *; lia). do 2 f_equal. lia.
Qed.

Lemma resize_same d n : n = zlength d -> resize d n = d.
Proof.
  intros ->. replace (zlength d) with (zlength d + 0) by lia.
  rewrite resize_grow by lia. apply app_nil_r.
Qed.

Lemma set_fill d b n off :
  off = zlength d -> 1 <= n ->
  vec_set (d ++ zeros n) off b = Ok ((d ++ [b]) ++ zeros (n - 1)).
Proof.
  intros -> Hn. pose proof (zlength_ge_0 d).
  rewrite zinsert_as_poke by (rewrite zlength_app, zlength_zeros; lia).
  by rewrite poke_fill by (done || autorewrite with bytes_len; lia).
Qed.

(** ** Reading fields back *)
Lemma peek_here bs r off n :
  off = 0 -> n = zlength bs -> peek (bs ++ r) off n = Ok bs.
Proof.
  intros -> ->. unfold peek. pose proof (zlength_ge_0 bs). pose proof (zlength_ge_0 r).
  rewrite zlength_app, !(proj2 (Z.leb_le _ _)) by lia. simpl.
  unfold zlength. by rewrite Nat2Z.id, drop_0, take_app_length.
Qed.

Lemma peek_skip d r off n :
  zlength d <= off -> peek (d ++ r) off n = peek r (off - zlength d) n.
Proof.
  intros Hd. unfold peek. pose proof (zlength_ge_0 d). rewrite zlength_app.
  rewrite !(proj2 (Z.leb_le 0 off)), (proj2 (Z.leb_le 0 (off - _))) by lia. simpl.
  replace (off - zlength d + n <=? zlength r) with (off + n <=? zlength d + zlength r)
    by (apply eq_true_iff_eq; rewrite !Z.leb_le; lia).
  destruct (_ && _); [|done]. do 2 f_equal.
  replace (Z.to_nat off) with (length d + Z.to_nat (off - zlength d))%nat
    by (unfold zlength; unfold zlength in Hd; lia).
  apply drop_app_add.
Qed.

Lemma peek_end bs off n : off = 0 -> n = zlength bs -> peek bs off n = Ok bs.
Proof. intros. rewrite <- (app_nil_r bs) at 1. by apply peek_here. Qed.

Lemma vec_get_here {A} (b : A) r off : off = 0 -> vec_get ([b] ++ r) off = Ok b.
Proof. by intros ->. Qed.

Lemma vec_get_skip {A} (d r : list A) off :
  zlength d <= off -> vec_get (d ++ r) off = vec_get r (off - zlength d).
Proof.
  intros Hd. pose proof (zlength_ge_0 d). unfold vec_get, zlookup. f_equal.
  rewrite !(proj2 (Z.leb_le 0 _)) by lia.
  rewrite lookup_app_r by (unfold zlength in *; lia). f_equal. unfold zlength. lia.
Qed.

Lemma wp_vec_get_byte E buf i (Q : Z -> Prop) :
  0 <= i < zlength buf -> (forall b, (bytes_ok buf -> in_u8 b) -> Q b) ->
  wp E (vec_get buf i) Q.
Proof.
  intros Hi HQ. apply wp_vec_get; [done|]. intros x Hx. apply HQ. intros Hb.
  unfold zlookup in Hx. destruct (0 <=? i); [|done]. exact (Forall_lookup_1 _ _ _ _ Hb Hx).
Qed.

(** [v[i] = v[i];] *)
Lemma vec_self_assign {A B} (v : list A) i (k : list A -> outcome B) :
  0 <= i < zlength v ->
  (let! b := vec_get v i in let! w := vec_set v i b in k w) = k v.
Proof.
  intros [x Hx]%zlookup_is_Some. unfold vec_get, vec_set. rewrite Hx. simpl. f_equal. apply list_eq_zlookup. intros j.
  rewrite zlookup_zinsert by (by eapply zlookup_Some_range). case_decide; congruence.
Qed.

(** The writes of a serializer, one after the other. *)
Ltac fill :=
  repeat (first [rewrite poke_fill by blia | rewrite set_fill by blia]; bind_simpl).

(** The reads of a deserializer from the concatenation of the fields. *)
Ltac read_field :=
  first
    [ rewrite peek_here by blia
    | rewrite vec_get_here by blia
    | rewrite peek_end by blia
    | rewrite peek_skip by blia
    | rewrite vec_get_skip by blia ].
Ltac read_fields := repeat (read_field; bind_simpl).

Lemma peek_length buf off n bs : peek buf off n = Ok bs -> zlength bs = n.
Proof.
  unfold peek. destruct (_ && _) eqn:E; [|done]. intros [= <-].
  rewrite !andb_true_iff, !Z.leb_le in E. unfold zlength in *.
  rewrite length_take, length_drop. lia.
Qed.

Lemma wp_peek_be_outside (E : fault -> Prop) buf off n (Q : Z -> Prop) :
  0 <= off -> 0 <= n -> zlength buf < off + n -> E OutOfBounds ->
  wp E (peek_be buf off n) Q.
Proof.
  intros. unfold peek_be, peek. rewrite (proj2 (Z.leb_gt _ (zlength buf))) by lia.
  by rewrite andb_false_r.
Qed.

Lemma wp_peek E buf off n (Q : list Z -> Prop) :
  0 <= off -> 0 <= n -> off + n <= zlength buf ->
  (forall bs, zlength bs = n -> (bytes_ok buf -> bytes_ok bs) -> Q bs) ->
  wp E (peek buf off n) Q.
Proof.
  intros Ho Hn Hl HQ. destruct (peek buf off n) as [bs|f] eqn:P.
  - apply HQ; [by eapply peek_length|].
    unfold peek in P. rewrite !(proj2 (Z.leb_le _ _)) in P by lia. injection P as <-.
    intros Hb. by apply Forall_take, Forall_drop.
  - unfold peek in P. by rewrite !(proj2 (Z.leb_le _ _)) in P by lia.
Qed.

Lemma wp_peek_be E buf off n (Q : Z -> Prop) :
  0 <= off -> 0 <= n -> off + n <= zlength buf ->
  (forall v, (bytes_ok buf -> 0 <= v < 2 ^ (8 * n)) -> Q v) ->
  wp E (peek_be buf off n) Q.
Proof.
  intros Ho Hn Hl HQ. unfold peek_be. apply wp_bind.
  apply wp_peek; [done..|]. intros bs Hbs Hb. apply HQ. intros ?.
  rewrite <- Hbs. apply unbe_range. auto.
Qed.

Lemma wp_peek_be2 E buf off (Q : Z -> Prop) :
  0 <= off -> off + 2 <= zlength buf -> (forall v, (bytes_ok buf -> in_u16 v) -> Q v) ->
  wp E (peek_be buf off 2) Q.
Proof. intros. apply wp_peek_be; auto with lia. Qed.

Lemma wp_peek_be4 E buf off (Q : Z -> Prop) :
  0 <= off -> off + 4 <= zlength buf -> (forall v, (bytes_ok buf -> in_u32 v) -> Q v) ->
  wp E (peek_be buf off 4) Q.
Proof. intros. apply wp_peek_be; auto with lia. Qed.

Lemma wp_peek_be8 E buf off (Q : Z -> Prop) :
  0 <= off -> off + 8 <= zlength buf -> (forall v, (bytes_ok buf -> in_u64 v) -> Q v) ->
  wp E (peek_be buf off 8) Q.
Proof. intros. apply wp_peek_be; auto with lia. Qed.
