(* ===== verification/Coordinate.v ===== *)
(** * Levels, coordinates and task keys

    Models [src/src/core/level.h], [coordinate.h],
    [task_key.h] and [node_identity.h].  A [Level] is its underlying [uint8_t]
    (the enumerators are aliases of seven values, and the daemon casts an
    arbitrary integer to it).  Environment variables are a parameter
    [env : string -> option string] of the definitions that read them. *)

From Stdlib Require Import Ascii.
From stdpp Require Import pretty.
From S2P Require Import Prelude.

(** ** level.h *)
Definition Level := Z.
Definition CORE : Level := 0.
Definition CHIP_DIE : Level := 1.
Definition CHIP : Level := 2.
Definition HOST : Level := 3.
Definition POD : Level := 4.
Definition CLOS1 : Level := 5.
Definition CLOS2 : Level := 6.
Definition NUM_LEVELS : Z := 7.

Definition level_value (l : Level) : Z := u8 l.

Definition level_name (l : Level) : string :=
  match level_value l with
  | 0 => "CORE"
  | 1 => "CHIP_DIE"
  | 2 => "CHIP"
  | 3 => "HOST"
  | 4 => "POD"
  | 5 => "CLOS1"
  | 6 => "CLOS2"
  | _ => "UNKNOWN"
  end.

(** ** coordinate.h *)
Record LinquCoordinate := mkCoord {
  l6_idx : Z; l5_idx : Z; l4_idx : Z; l3_idx : Z; l2_idx : Z; l1_idx : Z; l0_idx : Z;
}.

#[export] Instance coord_eq_dec : EqDecision LinquCoordinate.
Proof. solve_decision. Defined.

(** The default-constructed coordinate. *)
Definition zero_coord : LinquCoordinate := mkCoord 0 0 0 0 0 0 0.

(** The ranges of the C++ fields. *)
Definition coord_ok (c : LinquCoordinate) : Prop :=
  in_u8 (l6_idx c) /\ in_u8 (l5_idx c) /\ in_u8 (l4_idx c) /\ in_u16 (l3_idx c) /\
  in_u16 (l2_idx c) /\ in_u8 (l1_idx c) /\ in_u16 (l0_idx c).

Definition coord_eqb (a b : LinquCoordinate) : bool :=
  (l6_idx a =? l6_idx b) && (l5_idx a =? l5_idx b) && (l4_idx a =? l4_idx b) &&
  (l3_idx a =? l3_idx b) && (l2_idx a =? l2_idx b) && (l1_idx a =? l1_idx b) &&
  (l0_idx a =? l0_idx b).

Definition coord_ltb (a b : LinquCoordinate) : bool :=
  if negb (l6_idx a =? l6_idx b) then l6_idx a <? l6_idx b else
  if negb (l5_idx a =? l5_idx b) then l5_idx a <? l5_idx b else
  if negb (l4_idx a =? l4_idx b) then l4_idx a <? l4_idx b else
  if negb (l3_idx a =? l3_idx b) then l3_idx a <? l3_idx b else
  if negb (l2_idx a =? l2_idx b) then l2_idx a <? l2_idx b else
  if negb (l1_idx a =? l1_idx b) then l1_idx a <? l1_idx b else
  l0_idx a <? l0_idx b.

(** [std::to_string] of an unsigned value. *)
Definition std_to_string (z : Z) : string := pretty (Z.to_N z).

Definition to_string (c : LinquCoordinate) : string :=
  "(l6=" +:+ std_to_string (l6_idx c) +:+ ",l5=" +:+ std_to_string (l5_idx c) +:+
  ",l4=" +:+ std_to_string (l4_idx c) +:+ ",l3=" +:+ std_to_string (l3_idx c) +:+
  ",l2=" +:+ std_to_string (l2_idx c) +:+ ",l1=" +:+ std_to_string (l1_idx c) +:+
  ",l0=" +:+ std_to_string (l0_idx c) +:+ ")".

Definition to_path (c : LinquCoordinate) : string :=
  "L6_" +:+ std_to_string (l6_idx c) +:+ "/L5_" +:+ std_to_string (l5_idx c) +:+
  "/L4_" +:+ std_to_string (l4_idx c) +:+ "/L3_" +:+ std_to_string (l3_idx c) +:+
  "/L2_" +:+ std_to_string (l2_idx c) +:+ "/L1_" +:+ std_to_string (l1_idx c) +:+
  "/L0_" +:+ std_to_string (l0_idx c).

(** The result type is [uint8_t]: the 16-bit fields are truncated. *)
Definition index_at (level : Level) (c : LinquCoordinate) : Z :=
  match level_value level with
  | 0 => u8 (l0_idx c)
  | 1 => l1_idx c
  | 2 => u8 (l2_idx c)
  | 3 => u8 (l3_idx c)
  | 4 => l4_idx c
  | 5 => l5_idx c
  | 6 => l6_idx c
  | _ => 0
  end.

(** ** [std::atoi]: white space, a sign, digits; a value that does not fit in
    [int] is undefined behaviour. *)
Definition is_digit (c : Ascii.ascii) : bool :=
  let n := Z.of_nat (Ascii.nat_of_ascii c) in (48 <=? n) && (n <=? 57).
Definition digit_val (c : Ascii.ascii) : Z := Z.of_nat (Ascii.nat_of_ascii c) - 48.
Definition is_space (c : Ascii.ascii) : bool :=
  let n := Z.of_nat (Ascii.nat_of_ascii c) in (n =? 32) || ((9 <=? n) && (n <=? 13)).

Fixpoint skip_space (s : string) : string :=
  match s with
  | String c s' => if is_space c then skip_space s' else s
  | EmptyString => s
  end.

Fixpoint parse_digits (acc : Z) (s : string) : Z :=
  match s with
  | String c s' => if is_digit c then parse_digits (10 * acc + digit_val c) s' else acc
  | EmptyString => acc
  end.

Definition atoi (s : string) : outcome Z :=
  let v := match skip_space s with
           | String "-"%char s' => - parse_digits 0 s'
           | String "+"%char s' => parse_digits 0 s'
           | s' => parse_digits 0 s'
           end in
  if i32_range v then Ok v else Fault SignedOverflow.

Definition getenv_int (env : string -> option string) (key : string)
    (cast : Z -> Z) (dflt : Z) : outcome Z :=
  match env key with
  | Some v => let! n := atoi v in Ok (cast n)
  | None => Ok dflt
  end.

Definition from_env (env : string -> option string) : outcome LinquCoordinate :=
  let! l0 := getenv_int env "LINQU_L0" u16 0 in
  let! l1 := getenv_int env "LINQU_L1" u8 0 in
  let! l2 := getenv_int env "LINQU_L2" u16 0 in
  let! l3 := getenv_int env "LINQU_L3" u16 0 in
  let! l4 := getenv_int env "LINQU_L4" u8 0 in
  let! l5 := getenv_int env "LINQU_L5" u8 0 in
  let! l6 := getenv_int env "LINQU_L6" u8 0 in
  Ok (mkCoord l6 l5 l4 l3 l2 l1 l0).

(** ** task_key.h *)
Record TaskKey := mkTaskKey {
  logical_system : string;
  coord : LinquCoordinate;
  scope_depth : Z;
  task_id : Z;
}.

#[export] Instance set_scope_depth : Setter scope_depth := fun f k =>
  mkTaskKey (logical_system k) (coord k) (f (scope_depth k)) (task_id k).
#[export] Instance set_task_id : Setter task_id := fun f k =>
  mkTaskKey (logical_system k) (coord k) (scope_depth k) (f (task_id k)).

Definition empty_key : TaskKey := mkTaskKey "" zero_coord 0 0.

Definition key_eqb (a b : TaskKey) : bool :=
  String.eqb (logical_system a) (logical_system b) && coord_eqb (coord a) (coord b) &&
  (scope_depth a =? scope_depth b) && (task_id a =? task_id b).

Definition key_ltb (a b : TaskKey) : bool :=
  if negb (String.eqb (logical_system a) (logical_system b))
  then String.ltb (logical_system a) (logical_system b) else
  if negb (coord_eqb (coord a) (coord b)) then coord_ltb (coord a) (coord b) else
  if negb (scope_depth a =? scope_depth b) then scope_depth a <? scope_depth b else
  task_id a <? task_id b.

Definition key_to_string (k : TaskKey) : string :=
  logical_system k +:+ ":(" +:+ std_to_string (l6_idx (coord k)) +:+ "," +:+
  std_to_string (l5_idx (coord k)) +:+ "," +:+ std_to_string (l4_idx (coord k)) +:+ "," +:+
  std_to_string (l3_idx (coord k)) +:+ "):d" +:+ std_to_string (scope_depth k) +:+
  ":t" +:+ std_to_string (task_id k).

(** [std::hash<TaskKey>]: the hashes of the fields, combined with xor.  Those
    of strings and integers are the library's. *)
Section hash.
Context (hash_string : string -> Z) (hash_u8 hash_u16 hash_u32 : Z -> Z).

Definition hash_key (k : TaskKey) : Z :=
  let h := hash_string (logical_system k) in
  let h := Z.lxor h (hash_u8 (l6_idx (coord k))) in
  let h := Z.lxor h (hash_u8 (l5_idx (coord k))) in
  let h := Z.lxor h (hash_u8 (l4_idx (coord k))) in
  let h := Z.lxor h (hash_u16 (l3_idx (coord k))) in
  let h := Z.lxor h (hash_u16 (l2_idx (coord k))) in
  let h := Z.lxor h (hash_u8 (l1_idx (coord k))) in
  let h := Z.lxor h (hash_u16 (l0_idx (coord k))) in
  let h := Z.lxor h (hash_u16 (scope_depth k)) in
  Z.lxor h (hash_u32 (task_id k)).

(** Keys that compare equal have the same hash, as an unordered container
    needs it; and keys of nodes whose indices at two 8-bit levels are exchanged
    collide, whatever the hashes of the fields are. *)
Lemma hash_key_respects_eq a b : key_eqb a b = true -> hash_key a = hash_key b.
Proof.
  unfold key_eqb, coord_eqb, hash_key. rewrite !andb_true_iff, !Z.eqb_eq, String.eqb_eq.
  intros [[[-> Hc] ->] ->]. by destruct Hc as [[[[[[-> ->] ->] ->] ->] ->] ->].
Qed.
Lemma hash_key_symmetric ls l6 l5 l4 l3 l2 l1 l0 d t :
  hash_key (mkTaskKey ls (mkCoord l6 l5 l4 l3 l2 l1 l0) d t) = hash_key (mkTaskKey ls (mkCoord l5 l6 l4 l3 l2 l1 l0) d t).
Proof.
  unfold hash_key. cbn [logical_system coord l6_idx l5_idx l4_idx l3_idx l2_idx l1_idx l0_idx scope_depth task_id].
  by rewrite (Z.lxor_assoc (hash_string ls) (hash_u8 l6)), (Z.lxor_comm (hash_u8 l6)), <- Z.lxor_assoc.
Qed.
End hash.

(** ** node_identity.h *)
Record NodeIdentity := mkNodeIdentity {
  node_coord : LinquCoordinate;
  physical_system_name : string;
  logical_system_name : string;
}.

Definition identity_from_env (env : string -> option string) : outcome NodeIdentity :=
  let! c := from_env env in
  Ok (mkNodeIdentity c (default "" (env "LINQU_PHYSICAL_SYSTEM"))
                       (default "" (env "LINQU_LOGICAL_SYSTEM"))).

Definition identity_to_string (n : NodeIdentity) : string :=
  "NodeIdentity{coord=" +:+ to_string (node_coord n) +:+ ", phys=" +:+
  physical_system_name n +:+ ", logic=" +:+ logical_system_name n +:+ "}".

(** ** The order on coordinates *)

Lemma coord_eqb_spec a b : coord_eqb a b = true <-> a = b.
Proof.
  unfold coord_eqb. rewrite !andb_true_iff, !Z.eqb_eq. destruct a, b; simpl.
  split; [intros; destruct_and!; congruence|by intros [= -> -> -> -> -> -> ->]].
Qed.

(** A C++ lexicographic comparison step: [if (x != y) return x < y; rest]. *)
Definition lex_ltb (x y : Z) (rest : bool) : bool :=
  if negb (x =? y) then x <? y else rest.

Lemma lex_ltb_true x y r : lex_ltb x y r = true <-> x < y \/ (x = y /\ r = true).
Proof.
  unfold lex_ltb. destruct (Z.eqb_spec x y); simpl.
  - split; [auto|]. intros [?|[_ ?]]; [lia|done].
  - rewrite Z.ltb_lt. lia.
Qed.

Lemma coord_ltb_lex a b :
  coord_ltb a b = true <->
  l6_idx a < l6_idx b \/ (l6_idx a = l6_idx b /\
  (l5_idx a < l5_idx b \/ (l5_idx a = l5_idx b /\
  (l4_idx a < l4_idx b \/ (l4_idx a = l4_idx b /\
  (l3_idx a < l3_idx b \/ (l3_idx a = l3_idx b /\
  (l2_idx a < l2_idx b \/ (l2_idx a = l2_idx b /\
  (l1_idx a < l1_idx b \/ (l1_idx a = l1_idx b /\ l0_idx a < l0_idx b))))))))))).
Proof.
  change (coord_ltb a b) with
    (lex_ltb (l6_idx a) (l6_idx b) (lex_ltb (l5_idx a) (l5_idx b)
    (lex_ltb (l4_idx a) (l4_idx b) (lex_ltb (l3_idx a) (l3_idx b)
    (lex_ltb (l2_idx a) (l2_idx b) (lex_ltb (l1_idx a) (l1_idx b)
    (l0_idx a <? l0_idx b))))))).
  by rewrite !lex_ltb_true, Z.ltb_lt.
Qed.

Definition coord_lt (a b : LinquCoordinate) : Prop := coord_ltb a b = true.

Lemma coord_lt_irrefl a : ~ coord_lt a a.
Proof. unfold coord_lt. rewrite coord_ltb_lex. lia. Qed.

Lemma coord_lt_trans a b c : coord_lt a b -> coord_lt b c -> coord_lt a c.
Proof. unfold coord_lt. rewrite !coord_ltb_lex. lia. Qed.

Lemma coord_lt_total a b : coord_lt a b \/ a = b \/ coord_lt b a.
Proof.
  unfold coord_lt. rewrite !coord_ltb_lex. destruct a, b; simpl.
  destruct (decide (l6_idx0 = l6_idx1 /\ l5_idx0 = l5_idx1 /\ l4_idx0 = l4_idx1 /\
    l3_idx0 = l3_idx1 /\ l2_idx0 = l2_idx1 /\ l1_idx0 = l1_idx1 /\ l0_idx0 = l0_idx1)); [|lia].
  right. left. destruct_and!. congruence.
Qed.

#[export] Instance coord_lt_strict : StrictOrder coord_lt.
Proof. split; [exact coord_lt_irrefl | exact coord_lt_trans]. Qed.

(** ** Decimal printing and reading *)

Fixpoint all_digits (s : string) : bool :=
  match s with
  | EmptyString => true
  | String c s' => is_digit c && all_digits s'
  end.

(** The string is empty or starts with a character that is not a digit. *)
Definition stops (s : string) : bool :=
  match s with EmptyString => true | String c _ => negb (is_digit c) end.

Lemma pretty_char_digit (x : N) :
  (x < 10)%N -> is_digit (pretty_N_char x) = true /\ digit_val (pretty_N_char x) = Z.of_N x.
Proof.
  intros Hx. destruct x as [|[[[p|p|]|[p|p|]|]|[[p|p|]|[p|p|]|]|]]; try lia; try done;
    destruct p; try lia; done.
Qed.

Lemma parse_pretty_go (x : N) (s : string) :
  parse_digits 0 (pretty_N_go x s) = parse_digits (Z.of_N x) s.
Proof.
  revert s. induction (N.lt_wf_0 x) as [x _ IH]; intros s.
  assert (x = 0 \/ 0 < x)%N as [->|Hx] by lia; [by rewrite pretty_N_go_0|].
  rewrite pretty_N_go_step by done. rewrite IH by (apply N.div_lt; lia). simpl.
  destruct (pretty_char_digit (x mod 10)) as [-> ->]; [apply N.mod_lt; lia|].
  f_equal. rewrite N2Z.inj_div, N2Z.inj_mod. pose proof (Z.div_mod (Z.of_N x) 10). lia.
Qed.

Lemma all_digits_pretty_go (x : N) (s : string) :
  all_digits s = true -> all_digits (pretty_N_go x s) = true.
Proof.
  revert s. induction (N.lt_wf_0 x) as [x _ IH]; intros s Hs.
  assert (x = 0 \/ 0 < x)%N as [->|Hx] by lia; [by rewrite pretty_N_go_0|].
  rewrite pretty_N_go_step by done. apply IH; [apply N.div_lt; lia|]. simpl.
  rewrite Hs. destruct (pretty_char_digit (x mod 10)) as [-> _]; [apply N.mod_lt; lia|done].
Qed.

Lemma all_digits_std_to_string z : all_digits (std_to_string z) = true.
Proof.
  unfold std_to_string, pretty, pretty_N. case_decide; [done|]. by apply all_digits_pretty_go.
Qed.

Lemma parse_std_to_string z : 0 <= z -> parse_digits 0 (std_to_string z) = z.
Proof.
  intros. unfold std_to_string, pretty, pretty_N. case_decide.
  { change (parse_digits 0 "0") with 0. lia. }
  rewrite parse_pretty_go. simpl. lia.
Qed.

Lemma std_to_string_inj a b : 0 <= a -> 0 <= b -> std_to_string a = std_to_string b -> a = b.
Proof.
  intros Ha Hb H. rewrite <- (parse_std_to_string a), <- (parse_std_to_string b) by done.
  by rewrite H.
Qed.

Lemma std_to_string_nonempty z : std_to_string z <> "".
Proof.
  intros H. assert (Hx : 0 <= z \/ z < 0) by lia. destruct Hx as [Hx|Hx].
  - destruct (decide (z = 0)) as [->|]; [done|].
    pose proof (parse_std_to_string z Hx) as Hp. rewrite H in Hp. simpl in Hp. lia.
  - unfold std_to_string in H. by replace (Z.to_N z) with 0%N in H by lia.
Qed.

(** Two digit runs followed by a stop are equal piecewise. *)
Lemma digits_app_inj s1 s2 t1 t2 :
  all_digits s1 = true -> all_digits s2 = true -> stops t1 = true -> stops t2 = true ->
  s1 +:+ t1 = s2 +:+ t2 -> s1 = s2 /\ t1 = t2.
Proof.
  revert s2. induction s1 as [|c s1 IH]; intros [|d s2] H1 H2 H3 H4 Heq; simpl in *.
  - done.
  - destruct t1 as [|e t1]; [done|]. injection Heq as -> _.
    simpl in H3. by destruct (is_digit d).
  - destruct t2 as [|e t2]; [done|]. injection Heq as -> _.
    simpl in H4. by destruct (is_digit e).
  - apply andb_true_iff in H1 as [_ H1]. apply andb_true_iff in H2 as [_ H2].
    injection Heq as -> Heq. destruct (IH s2) as [-> ->]; done.
Qed.

Lemma std_to_string_app_inj a b t1 t2 :
  0 <= a -> 0 <= b -> stops t1 = true -> stops t2 = true ->
  std_to_string a +:+ t1 = std_to_string b +:+ t2 -> a = b /\ t1 = t2.
Proof.
  intros Ha Hb H1 H2 H.
  destruct (digits_app_inj _ _ _ _ (all_digits_std_to_string a) (all_digits_std_to_string b)
    H1 H2 H). split; [by apply std_to_string_inj|done].
Qed.

(** C37.  [operator<] on coordinates is a strict total order and [operator==] is
    equality: what [std::map] requires of the key of the peer registry. *)
Theorem coord_order_total a b c :
  coord_ltb a a = false /\
  (coord_ltb a b = true -> coord_ltb b c = true -> coord_ltb a c = true) /\
  (coord_ltb a b = true -> coord_ltb b a = false) /\
  (coord_eqb a b = true <-> coord_ltb a b = false /\ coord_ltb b a = false) /\
  (coord_eqb a b = true <-> a = b).
Proof.
  pose proof (coord_lt_total a b) as Ht.
  assert (Hn : forall x y, coord_ltb x y = false <-> ~ coord_lt x y)
    by (intros; unfold coord_lt; destruct (coord_ltb x y); split; congruence).
  split_and!.
  - apply Hn, coord_lt_irrefl.
  - apply coord_lt_trans.
  - intros H. apply Hn. intros H'. apply (coord_lt_irrefl a). by eapply coord_lt_trans.
  - rewrite coord_eqb_spec, !Hn. split; [intros ->; split; apply coord_lt_irrefl|tauto].
  - apply coord_eqb_spec.
Qed.

Lemma coord_order_total_witness :
  coord_ltb (mkCoord 0 1 2 300 0 0 0) (mkCoord 0 1 3 7 0 0 0) = true /\
  coord_ltb (mkCoord 0 1 3 7 0 0 0) (mkCoord 0 1 2 300 0 0 0) = false.
Proof.
  split; [reflexivity|].
  apply (proj1 (proj2 (proj2 (coord_order_total (mkCoord 0 1 2 300 0 0 0)
    (mkCoord 0 1 3 7 0 0 0) zero_coord)))). reflexivity.
Defined.

Ltac coord_nonneg :=
  repeat match goal with H : coord_ok _ |- _ => destruct H as (? & ? & ? & ? & ? & ? & ?) end;
  unfold_ints; lia.

(** Peel equal literal characters and one number off an equation of paths. *)
Ltac peel_number H E :=
  apply std_to_string_app_inj in H as [E H]; [simpl in H; injection H as H|coord_nonneg|coord_nonneg|reflexivity|reflexivity].

Lemma to_path_inj_full a b : coord_ok a -> coord_ok b -> to_path a = to_path b -> a = b.
Proof.
  intros Ha Hb H. unfold to_path in H. simpl in H. injection H as H.
  peel_number H E6. peel_number H E5. peel_number H E4.
  peel_number H E3. peel_number H E2. peel_number H E1.
  apply std_to_string_inj in H; [|coord_nonneg..]. destruct a, b; simpl in *; congruence.
Qed.

Lemma to_string_inj_full a b : coord_ok a -> coord_ok b -> to_string a = to_string b -> a = b.
Proof.
  intros Ha Hb H. unfold to_string in H. simpl in H. injection H as H.
  peel_number H E6. peel_number H E5. peel_number H E4.
  peel_number H E3. peel_number H E2. peel_number H E1.
  apply std_to_string_app_inj in H as [E0 _]; [|coord_nonneg|coord_nonneg|reflexivity|reflexivity].
  destruct a, b; simpl in *; congruence.
Qed.

(**  The path and the label of a coordinate identify it: two coordinates
    with fields in range that print to the same path (or the same label) are
    equal, so two nodes never share a directory of the cluster tree. *)
Theorem coord_printing_injective a b :
  coord_ok a -> coord_ok b ->
  (to_path a = to_path b <-> a = b) /\ (to_string a = to_string b <-> a = b).
Proof.
  intros Ha Hb. split; (split; [|by intros ->]);
    eauto using to_path_inj_full, to_string_inj_full.
Qed.

Lemma coord_printing_injective_witness :
  to_path (mkCoord 0 1 12 3 0 0 0) <> to_path (mkCoord 0 11 2 3 0 0 0).
Proof.
  intros H. apply (coord_printing_injective (mkCoord 0 1 12 3 0 0 0) (mkCoord 0 11 2 3 0 0 0)) in H;
    [discriminate|repeat split; unfold_ints; simpl; lia..].
Defined.

(** The environment a launcher sets for a node. *)
Definition env_of (c : LinquCoordinate) (k : string) : option string :=
  if String.eqb k "LINQU_L0" then Some (std_to_string (l0_idx c)) else
  if String.eqb k "LINQU_L1" then Some (std_to_string (l1_idx c)) else
  if String.eqb k "LINQU_L2" then Some (std_to_string (l2_idx c)) else
  if String.eqb k "LINQU_L3" then Some (std_to_string (l3_idx c)) else
  if String.eqb k "LINQU_L4" then Some (std_to_string (l4_idx c)) else
  if String.eqb k "LINQU_L5" then Some (std_to_string (l5_idx c)) else
  if String.eqb k "LINQU_L6" then Some (std_to_string (l6_idx c)) else None.

Lemma digit_not_special c : is_digit c = true -> is_space c = false /\ c <> "-"%char /\ c <> "+"%char.
Proof.
  intros H. split; [|split; intros ->; vm_compute in H; congruence].
  unfold is_digit, is_space in *. apply andb_true_iff in H as [H1%Z.leb_le H2%Z.leb_le].
  rewrite (proj2 (Z.eqb_neq _ _)), (proj2 (Z.leb_gt _ 13)) by lia. by rewrite andb_false_r.
Qed.

Lemma atoi_std_to_string z : 0 <= z < 2 ^ 31 -> atoi (std_to_string z) = Ok z.
Proof.
  intros Hz. pose proof (all_digits_std_to_string z) as Hd.
  pose proof (parse_std_to_string z ltac:(lia)) as Hp.
  unfold atoi. destruct (std_to_string z) as [|c s] eqn:E; [by destruct (std_to_string_nonempty z)|].
  simpl in Hd. apply andb_true_iff in Hd as [Hc _].
  destruct (digit_not_special c Hc) as (Hs & Hm & Hpl).
  cbn [skip_space]. rewrite Hs.
  assert (Hv : match String c s with
     | String "-"%char s' => - parse_digits 0 s'
     | String "+"%char s' => parse_digits 0 s'
     | s' => parse_digits 0 s' end = z).
  { rewrite <- Hp. destruct c as [[] [] [] [] [] [] [] []]; done. }
  rewrite Hv, (proj2 (i32_range_spec z)) by (unfold_ints; lia). done.
Qed.

Lemma getenv_int_printed env k z cast d :
  env k = Some (std_to_string z) -> 0 <= z < 2 ^ 31 -> cast z = z ->
  getenv_int env k cast d = Ok z.
Proof. intros Hk Hz Hc. unfold getenv_int. rewrite Hk, atoi_std_to_string by done. simpl. by rewrite Hc. Qed.

(**  [from_env] reads back the coordinate a launcher put in the seven
    [LINQU_L*] variables in decimal, for every coordinate with fields in range,
    whatever else the environment holds. *)
Theorem coord_from_env_roundtrip c env :
  coord_ok c -> (forall k v, env_of c k = Some v -> env k = Some v) -> from_env env = Ok c.
Proof.
  intros (H6 & H5 & H4 & H3 & H2 & H1 & H0) He. unfold from_env.
  assert (Hg : forall k z cast, env_of c k = Some (std_to_string z) -> in_u16 z -> cast z = z ->
    getenv_int env k cast 0 = Ok z).
  { intros k z cast Hk Hz Hcast. apply getenv_int_printed; auto. unfold_ints. lia. }
  assert (Hu : forall z, in_u8 z -> in_u16 z) by (unfold_ints; lia).
  rewrite (Hg "LINQU_L0" (l0_idx c) u16), (Hg "LINQU_L1" (l1_idx c) u8),
    (Hg "LINQU_L2" (l2_idx c) u16), (Hg "LINQU_L3" (l3_idx c) u16),
    (Hg "LINQU_L4" (l4_idx c) u8), (Hg "LINQU_L5" (l5_idx c) u8),
    (Hg "LINQU_L6" (l6_idx c) u8); auto using u8_id, u16_id.
  by destruct c.
Qed.

Lemma coord_from_env_roundtrip_witness :
  from_env (env_of (mkCoord 0 2 1 300 0 0 9)) = Ok (mkCoord 0 2 1 300 0 0 9).
Proof.
  apply (coord_from_env_roundtrip (mkCoord 0 2 1 300 0 0 9));
    [repeat split; unfold_ints; simpl; lia|done].
Defined.
