(* ===== verification/LinquHeader.v ===== *)
(** * The message header

    Models [src/src/transport/linqu_header.h].  [MsgType] is its underlying
    [uint8_t]: [deserialize] casts any byte to it.  [padding[2]] is the pair
    [padding0], [padding1]. *)

From S2P Require Import Prelude Coordinate Bytes.

Definition MsgType := Z.
Definition HEARTBEAT : MsgType := 0.
Definition REG_CODE : MsgType := 1.
Definition REG_DATA : MsgType := 2.
Definition CALL_TASK : MsgType := 3.
Definition SCOPE_EXIT : MsgType := 4.
Definition RETRY_WITH_CODE : MsgType := 5.
Definition TASK_COMPLETE : MsgType := 6.
Definition SHUTDOWN : MsgType := 7.

Definition LINQU_MAGIC : Z := 0x4C51524D.
Definition WIRE_SIZE : Z := 24.

Record LinquHeader := mkHeader {
  magic : Z;
  version : Z;
  msg_type : Z;
  sender_level : Z;
  reserved : Z;
  payload_size : Z;
  sender_l6 : Z;
  sender_l5 : Z;
  sender_l4 : Z;
  sender_l3_hi : Z;
  sender_l3_lo : Z;
  target_l6 : Z;
  target_l5 : Z;
  target_l4 : Z;
  target_l3_hi : Z;
  target_l3_lo : Z;
  padding0 : Z;
  padding1 : Z;
}.

#[export] Instance set_magic : Setter magic := fun f h =>
  mkHeader (f (magic h)) (version h) (msg_type h) (sender_level h) (reserved h) (payload_size h)
    (sender_l6 h) (sender_l5 h) (sender_l4 h) (sender_l3_hi h) (sender_l3_lo h) (target_l6 h)
    (target_l5 h) (target_l4 h) (target_l3_hi h) (target_l3_lo h) (padding0 h) (padding1 h).
#[export] Instance set_version : Setter version := fun f h =>
  mkHeader (magic h) (f (version h)) (msg_type h) (sender_level h) (reserved h) (payload_size h)
    (sender_l6 h) (sender_l5 h) (sender_l4 h) (sender_l3_hi h) (sender_l3_lo h) (target_l6 h)
    (target_l5 h) (target_l4 h) (target_l3_hi h) (target_l3_lo h) (padding0 h) (padding1 h).
#[export] Instance set_msg_type : Setter msg_type := fun f h =>
  mkHeader (magic h) (version h) (f (msg_type h)) (sender_level h) (reserved h) (payload_size h)
    (sender_l6 h) (sender_l5 h) (sender_l4 h) (sender_l3_hi h) (sender_l3_lo h) (target_l6 h)
    (target_l5 h) (target_l4 h) (target_l3_hi h) (target_l3_lo h) (padding0 h) (padding1 h).
#[export] Instance set_sender_level : Setter sender_level := fun f h =>
  mkHeader (magic h) (version h) (msg_type h) (f (sender_level h)) (reserved h) (payload_size h)
    (sender_l6 h) (sender_l5 h) (sender_l4 h) (sender_l3_hi h) (sender_l3_lo h) (target_l6 h)
    (target_l5 h) (target_l4 h) (target_l3_hi h) (target_l3_lo h) (padding0 h) (padding1 h).
#[export] Instance set_reserved : Setter reserved := fun f h =>
  mkHeader (magic h) (version h) (msg_type h) (sender_level h) (f (reserved h)) (payload_size h)
    (sender_l6 h) (sender_l5 h) (sender_l4 h) (sender_l3_hi h) (sender_l3_lo h) (target_l6 h)
    (target_l5 h) (target_l4 h) (target_l3_hi h) (target_l3_lo h) (padding0 h) (padding1 h).
#[export] Instance set_payload_size : Setter payload_size := fun f h =>
  mkHeader (magic h) (version h) (msg_type h) (sender_level h) (reserved h) (f (payload_size h))
    (sender_l6 h) (sender_l5 h) (sender_l4 h) (sender_l3_hi h) (sender_l3_lo h) (target_l6 h)
    (target_l5 h) (target_l4 h) (target_l3_hi h) (target_l3_lo h) (padding0 h) (padding1 h).
#[export] Instance set_sender_l6 : Setter sender_l6 := fun f h =>
  mkHeader (magic h) (version h) (msg_type h) (sender_level h) (reserved h) (payload_size h)
    (f (sender_l6 h)) (sender_l5 h) (sender_l4 h) (sender_l3_hi h) (sender_l3_lo h)
    (target_l6 h) (target_l5 h) (target_l4 h) (target_l3_hi h) (target_l3_lo h) (padding0 h)
    (padding1 h).
#[export] Instance set_sender_l5 : Setter sender_l5 := fun f h =>
  mkHeader (magic h) (version h) (msg_type h) (sender_level h) (reserved h) (payload_size h)
    (sender_l6 h) (f (sender_l5 h)) (sender_l4 h) (sender_l3_hi h) (sender_l3_lo h)
    (target_l6 h) (target_l5 h) (target_l4 h) (target_l3_hi h) (target_l3_lo h) (padding0 h)
    (padding1 h).
#[export] Instance set_sender_l4 : Setter sender_l4 := fun f h =>
  mkHeader (magic h) (version h) (msg_type h) (sender_level h) (reserved h) (payload_size h)
    (sender_l6 h) (sender_l5 h) (f (sender_l4 h)) (sender_l3_hi h) (sender_l3_lo h)
    (target_l6 h) (target_l5 h) (target_l4 h) (target_l3_hi h) (target_l3_lo h) (padding0 h)
    (padding1 h).
#[export] Instance set_sender_l3_hi : Setter sender_l3_hi := fun f h =>
  mkHeader (magic h) (version h) (msg_type h) (sender_level h) (reserved h) (payload_size h)
    (sender_l6 h) (sender_l5 h) (sender_l4 h) (f (sender_l3_hi h)) (sender_l3_lo h)
    (target_l6 h) (target_l5 h) (target_l4 h) (target_l3_hi h) (target_l3_lo h) (padding0 h)
    (padding1 h).
#[export] Instance set_sender_l3_lo : Setter sender_l3_lo := fun f h =>
  mkHeader (magic h) (version h) (msg_type h) (sender_level h) (reserved h) (payload_size h)
    (sender_l6 h) (sender_l5 h) (sender_l4 h) (sender_l3_hi h) (f (sender_l3_lo h))
    (target_l6 h) (target_l5 h) (target_l4 h) (target_l3_hi h) (target_l3_lo h) (padding0 h)
    (padding1 h).
#[export] Instance set_target_l6 : Setter target_l6 := fun f h =>
  mkHeader (magic h) (version h) (msg_type h) (sender_level h) (reserved h) (payload_size h)
    (sender_l6 h) (sender_l5 h) (sender_l4 h) (sender_l3_hi h) (sender_l3_lo h)
    (f (target_l6 h)) (target_l5 h) (target_l4 h) (target_l3_hi h) (target_l3_lo h) (padding0 h)
    (padding1 h).
#[export] Instance set_target_l5 : Setter target_l5 := fun f h =>
  mkHeader (magic h) (version h) (msg_type h) (sender_level h) (reserved h) (payload_size h)
    (sender_l6 h) (sender_l5 h) (sender_l4 h) (sender_l3_hi h) (sender_l3_lo h) (target_l6 h)
    (f (target_l5 h)) (target_l4 h) (target_l3_hi h) (target_l3_lo h) (padding0 h) (padding1 h).
#[export] Instance set_target_l4 : Setter target_l4 := fun f h =>
  mkHeader (magic h) (version h) (msg_type h) (sender_level h) (reserved h) (payload_size h)
    (sender_l6 h) (sender_l5 h) (sender_l4 h) (sender_l3_hi h) (sender_l3_lo h) (target_l6 h)
    (target_l5 h) (f (target_l4 h)) (target_l3_hi h) (target_l3_lo h) (padding0 h) (padding1 h).
#[export] Instance set_target_l3_hi : Setter target_l3_hi := fun f h =>
  mkHeader (magic h) (version h) (msg_type h) (sender_level h) (reserved h) (payload_size h)
    (sender_l6 h) (sender_l5 h) (sender_l4 h) (sender_l3_hi h) (sender_l3_lo h) (target_l6 h)
    (target_l5 h) (target_l4 h) (f (target_l3_hi h)) (target_l3_lo h) (padding0 h) (padding1 h).
#[export] Instance set_target_l3_lo : Setter target_l3_lo := fun f h =>
  mkHeader (magic h) (version h) (msg_type h) (sender_level h) (reserved h) (payload_size h)
    (sender_l6 h) (sender_l5 h) (sender_l4 h) (sender_l3_hi h) (sender_l3_lo h) (target_l6 h)
    (target_l5 h) (target_l4 h) (target_l3_hi h) (f (target_l3_lo h)) (padding0 h) (padding1 h).
#[export] Instance set_padding0 : Setter padding0 := fun f h =>
  mkHeader (magic h) (version h) (msg_type h) (sender_level h) (reserved h) (payload_size h)
    (sender_l6 h) (sender_l5 h) (sender_l4 h) (sender_l3_hi h) (sender_l3_lo h) (target_l6 h)
    (target_l5 h) (target_l4 h) (target_l3_hi h) (target_l3_lo h) (f (padding0 h)) (padding1 h).
#[export] Instance set_padding1 : Setter padding1 := fun f h =>
  mkHeader (magic h) (version h) (msg_type h) (sender_level h) (reserved h) (payload_size h)
    (sender_l6 h) (sender_l5 h) (sender_l4 h) (sender_l3_hi h) (sender_l3_lo h) (target_l6 h)
    (target_l5 h) (target_l4 h) (target_l3_hi h) (target_l3_lo h) (padding0 h) (f (padding1 h)).

#[export] Instance header_eq_dec : EqDecision LinquHeader.
Proof. solve_decision. Defined.

(** The ranges of the C++ fields. *)
Definition header_ok (h : LinquHeader) : Prop :=
  in_u32 (magic h) /\ in_u8 (version h) /\ in_u8 (msg_type h) /\
  in_u8 (sender_level h) /\ in_u8 (reserved h) /\ in_u32 (payload_size h) /\
  in_u8 (sender_l6 h) /\ in_u8 (sender_l5 h) /\ in_u8 (sender_l4 h) /\
  in_u8 (sender_l3_hi h) /\ in_u8 (sender_l3_lo h) /\
  in_u8 (target_l6 h) /\ in_u8 (target_l5 h) /\ in_u8 (target_l4 h) /\
  in_u8 (target_l3_hi h) /\ in_u8 (target_l3_lo h) /\
  in_u8 (padding0 h) /\ in_u8 (padding1 h).

Definition set_sender (c : LinquCoordinate) (h : LinquHeader) : LinquHeader :=
  h <| sender_l6 := l6_idx c |> <| sender_l5 := l5_idx c |> <| sender_l4 := l4_idx c |>
    <| sender_l3_hi := u8 (Z.shiftr (l3_idx c) 8) |>
    <| sender_l3_lo := u8 (Z.land (l3_idx c) 0xFF) |>.

Definition get_sender (h : LinquHeader) : LinquCoordinate :=
  {| l6_idx := sender_l6 h; l5_idx := sender_l5 h; l4_idx := sender_l4 h;
     l3_idx := u16 (Z.lor (Z.shiftl (sender_l3_hi h) 8) (sender_l3_lo h));
     l2_idx := 0; l1_idx := 0; l0_idx := 0 |}.

Definition set_target (c : LinquCoordinate) (h : LinquHeader) : LinquHeader :=
  h <| target_l6 := l6_idx c |> <| target_l5 := l5_idx c |> <| target_l4 := l4_idx c |>
    <| target_l3_hi := u8 (Z.shiftr (l3_idx c) 8) |>
    <| target_l3_lo := u8 (Z.land (l3_idx c) 0xFF) |>.

Definition get_target (h : LinquHeader) : LinquCoordinate :=
  {| l6_idx := target_l6 h; l5_idx := target_l5 h; l4_idx := target_l4 h;
     l3_idx := u16 (Z.lor (Z.shiftl (target_l3_hi h) 8) (target_l3_lo h));
     l2_idx := 0; l1_idx := 0; l0_idx := 0 |}.

(** Writes the 24 bytes into the caller's buffer. *)
Definition serialize (h : LinquHeader) (buf : list Z) : outcome (list Z) :=
  let! buf := poke buf 0 (be 4 (magic h)) in
  let! buf := vec_set buf 4 (version h) in
  let! buf := vec_set buf 5 (msg_type h) in
  let! buf := vec_set buf 6 (sender_level h) in
  let! buf := vec_set buf 7 (reserved h) in
  let! buf := poke buf 8 (be 4 (payload_size h)) in
  let! buf := vec_set buf 12 (sender_l6 h) in
  let! buf := vec_set buf 13 (sender_l5 h) in
  let! buf := vec_set buf 14 (sender_l4 h) in
  let! buf := vec_set buf 15 (sender_l3_hi h) in
  let! buf := vec_set buf 16 (sender_l3_lo h) in
  let! buf := vec_set buf 17 (target_l6 h) in
  let! buf := vec_set buf 18 (target_l5 h) in
  let! buf := vec_set buf 19 (target_l4 h) in
  let! buf := vec_set buf 20 (target_l3_hi h) in
  let! buf := vec_set buf 21 (target_l3_lo h) in
  let! buf := vec_set buf 22 (padding0 h) in
  vec_set buf 23 (padding1 h).

Definition deserialize (buf : list Z) : outcome LinquHeader :=
  let! magic := peek_be buf 0 4 in
  let! version := vec_get buf 4 in
  let! msg_type := vec_get buf 5 in
  let! sender_level := vec_get buf 6 in
  let! reserved := vec_get buf 7 in
  let! payload_size := peek_be buf 8 4 in
  let! sender_l6 := vec_get buf 12 in
  let! sender_l5 := vec_get buf 13 in
  let! sender_l4 := vec_get buf 14 in
  let! sender_l3_hi := vec_get buf 15 in
  let! sender_l3_lo := vec_get buf 16 in
  let! target_l6 := vec_get buf 17 in
  let! target_l5 := vec_get buf 18 in
  let! target_l4 := vec_get buf 19 in
  let! target_l3_hi := vec_get buf 20 in
  let! target_l3_lo := vec_get buf 21 in
  let! padding0 := vec_get buf 22 in
  let! padding1 := vec_get buf 23 in
  Ok (mkHeader magic version msg_type sender_level reserved payload_size
        sender_l6 sender_l5 sender_l4 sender_l3_hi sender_l3_lo
        target_l6 target_l5 target_l4 target_l3_hi target_l3_lo padding0 padding1).

Definition make (type : MsgType) (level : Z) (sender target : LinquCoordinate)
    (size : Z) : LinquHeader :=
  let h := mkHeader 0 0 0 0 0 0 0 0 0 0 0 0 0 0 0 0 0 0 in
  let h := h <| magic := LINQU_MAGIC |> <| version := 1 |> <| msg_type := type |>
             <| sender_level := level |> <| payload_size := size |> in
  set_target target (set_sender sender h).

(** ** The encoding *)
Definition encoding (h : LinquHeader) : list Z :=
  be 4 (magic h) ++ [version h; msg_type h; sender_level h; reserved h] ++
  be 4 (payload_size h) ++
  [sender_l6 h; sender_l5 h; sender_l4 h; sender_l3_hi h; sender_l3_lo h;
   target_l6 h; target_l5 h; target_l4 h; target_l3_hi h; target_l3_lo h;
   padding0 h; padding1 h].

Lemma zlength_header h : zlength (encoding h) = WIRE_SIZE.
Proof. done. Qed.

Lemma encoding_ok h : header_ok h -> bytes_ok (encoding h).
Proof.
  unfold header_ok, bytes_ok, encoding. rewrite !Forall_app, !Forall_cons. intros H.
  destruct_and! H. split_and!; try apply be_ok; auto using Forall_nil_2.
Qed.

Lemma header_serialize_eq h buf : zlength buf = WIRE_SIZE -> serialize h buf = Ok (encoding h).
Proof.
  intros Hl. unfold zlength, WIRE_SIZE in Hl.
  do 24 (destruct buf as [|? buf]; [done|]). destruct buf; [done|simpl in Hl; lia].
Qed.

Lemma deserialize_encoding h : header_ok h -> deserialize (encoding h) = Ok h.
Proof.
  intros (Hm & _ & _ & _ & _ & Hp & _).
  trans (Ok (h <| magic := unbe (be 4 (magic h)) |>
               <| payload_size := unbe (be 4 (payload_size h)) |>)); [by destruct h|].
  rewrite !unbe_be4 by done. by destruct h.
Qed.

(** Any 24 bytes are a header with fields in range. *)
Lemma wp_deserialize E buf :
  bytes_ok buf -> WIRE_SIZE <= zlength buf -> wp E (deserialize buf) header_ok.
Proof.
  intros Hb Hl. unfold WIRE_SIZE in Hl. unfold deserialize.
  assert (Hg : forall A i (k : Z -> outcome A) (Q : A -> Prop), 0 <= i < 24 ->
    (forall b, in_u8 b -> wp E (k b) Q) -> wp E (vec_get buf i ≫= k) Q).
  { intros A i k Q Hi Hk. apply wp_bind. apply wp_vec_get; [lia|]. intros x Hx.
    apply Hk. unfold zlookup in Hx. destruct (0 <=? i); [|done].
    exact (Forall_lookup_1 _ _ _ _ Hb Hx). }
  assert (Hp : forall A i (k : Z -> outcome A) (Q : A -> Prop), 0 <= i <= 20 ->
    (forall v, in_u32 v -> wp E (k v) Q) -> wp E (peek_be buf i 4 ≫= k) Q).
  { intros A i k Q Hi Hk. apply wp_bind. apply wp_peek_be; [lia..|].
    intros v Hv. apply Hk. exact (Hv Hb). }
  repeat first [apply Hp; [lia|intros ? ?] | apply Hg; [lia|intros ? ?]].
  simpl. unfold header_ok. by split_and!.
Qed.

(** *** The two address bytes of [l3_idx] *)
Lemma l3_bytes x : in_u16 x ->
  u16 (Z.lor (Z.shiftl (u8 (Z.shiftr x 8)) 8) (u8 (Z.land x 0xFF))) = x.
Proof.
  intros Hx. rewrite <- (u16_id x Hx) at 3. unfold u8, u16.
  apply Z.bits_inj'. intros n Hn.
  rewrite <- !Z.land_ones, !Z.land_spec, Z.lor_spec by lia.
  destruct (Z.ltb_spec n 16); [|by rewrite !Z.ones_spec_high, !andb_false_r by lia].
  rewrite (Z.ones_spec_low 16), !andb_true_r by lia.
  change 0xFF with (Z.ones 8). destruct (Z.ltb_spec n 8).
  - rewrite Z.shiftl_spec_low by lia.
    by rewrite !Z.land_spec, Z.ones_spec_low, !andb_true_r by lia.
  - rewrite Z.shiftl_spec, !Z.land_spec, Z.shiftr_spec by lia.
    rewrite (Z.ones_spec_low 8 (n - 8)), (Z.ones_spec_high 8 n) by lia.
    rewrite !andb_false_r, orb_false_r, andb_true_r. f_equal. lia.
Qed.

Lemma get_sender_make type level sender target size : coord_ok sender ->
  get_sender (make type level sender target size) =
    mkCoord (l6_idx sender) (l5_idx sender) (l4_idx sender) (l3_idx sender) 0 0 0.
Proof.
  intros (_ & _ & _ & Hl3 & _). unfold get_sender, make. simpl. by rewrite l3_bytes.
Qed.

Lemma get_target_make type level sender target size : coord_ok target ->
  get_target (make type level sender target size) =
    mkCoord (l6_idx target) (l5_idx target) (l4_idx target) (l3_idx target) 0 0 0.
Proof.
  intros (_ & _ & _ & Hl3 & _). unfold get_target, make. simpl. by rewrite l3_bytes.
Qed.

Lemma make_ok type level sender target size :
  in_u8 type -> in_u8 level -> coord_ok sender -> coord_ok target -> in_u32 size ->
  header_ok (make type level sender target size).
Proof.
  intros ? ? (? & ? & ? & ? & _) (? & ? & ? & ? & _) ?.
  unfold make, header_ok. simpl.
  split_and!; auto with linqu; unfold in_u32, in_u8, LINQU_MAGIC; lia.
Qed.

(** ** Properties *)

(** A header crosses the wire unchanged: [serialize] writes exactly the
    24 bytes of a 24-byte buffer, every one of them a byte, whatever the buffer
    held before, and [deserialize] of these bytes is the header it started
    from, for every header whose fields are in the range of their types. *)
Theorem header_roundtrip (h : LinquHeader) (buf : list Z) :
  header_ok h -> zlength buf = WIRE_SIZE ->
  exists wire, serialize h buf = Ok wire /\ zlength wire = WIRE_SIZE /\
    bytes_ok wire /\ deserialize wire = Ok h.
Proof.
  intros Hh Hb. exists (encoding h).
  split_and!; auto using header_serialize_eq, zlength_header, encoding_ok, deserialize_encoding.
Qed.

Theorem header_roundtrip_witness :
  exists wire, serialize (make CALL_TASK 4 (mkCoord 1 2 3 0x1234 0 0 0)
                            (mkCoord 1 2 3 0x5678 0 0 0) 1000) (zeros 24) = Ok wire /\
    zlength wire = WIRE_SIZE /\ bytes_ok wire /\
    deserialize wire = Ok (make CALL_TASK 4 (mkCoord 1 2 3 0x1234 0 0 0)
                             (mkCoord 1 2 3 0x5678 0 0 0) 1000).
Proof.
  apply header_roundtrip; [|reflexivity].
  unfold header_ok. split_and!; vm_compute; split; congruence.
Defined.

(** What the receiver of a message built by [make] learns about the two
    endpoints: exactly the indices of the levels 6 to 3.  Sender and target
    come back with these four indices unchanged (the 16-bit [l3_idx] through
    its two bytes) and with the indices of the levels 2 to 0 reset to zero, so
    the address survives whole exactly when those were zero. *)
Theorem header_addresses (type : MsgType) (level : Z) (sender target : LinquCoordinate)
    (size : Z) (buf : list Z) :
  in_u8 type -> in_u8 level -> coord_ok sender -> coord_ok target -> in_u32 size ->
  zlength buf = WIRE_SIZE ->
  exists wire h,
    serialize (make type level sender target size) buf = Ok wire /\
    deserialize wire = Ok h /\
    magic h = LINQU_MAGIC /\ msg_type h = type /\ sender_level h = level /\
    payload_size h = size /\
    get_sender h =
      mkCoord (l6_idx sender) (l5_idx sender) (l4_idx sender) (l3_idx sender) 0 0 0 /\
    get_target h =
      mkCoord (l6_idx target) (l5_idx target) (l4_idx target) (l3_idx target) 0 0 0 /\
    (get_sender h = sender <-> l2_idx sender = 0 /\ l1_idx sender = 0 /\ l0_idx sender = 0).
Proof.
  intros Ht Hl Hs Hg Hz Hb. exists (encoding (make type level sender target size)).
  eexists. split; [by apply header_serialize_eq|].
  split; [by apply deserialize_encoding, make_ok|].
  do 4 (split; [done|]). rewrite get_sender_make, get_target_make by done.
  do 2 (split; [done|]). destruct sender as [a6 a5 a4 a3 a2 a1 a0]; simpl.
  split; [intros [=]; auto|intros (-> & -> & ->); done].
Qed.

Theorem header_addresses_witness :
  let sender := mkCoord 1 2 3 0x1234 7 0 0 in
  exists wire h,
    serialize (make CALL_TASK 4 sender zero_coord 1000) (zeros 24) = Ok wire /\
    deserialize wire = Ok h /\
    magic h = LINQU_MAGIC /\ msg_type h = CALL_TASK /\ sender_level h = 4 /\
    payload_size h = 1000 /\
    get_sender h = mkCoord 1 2 3 0x1234 0 0 0 /\
    get_target h = mkCoord 0 0 0 0 0 0 0 /\
    (get_sender h = sender <-> 7 = 0 /\ 0 = 0 /\ 0 = 0).
Proof.
  apply (header_addresses CALL_TASK 4 (mkCoord 1 2 3 0x1234 7 0 0) zero_coord 1000 (zeros 24));
    [..|reflexivity]; try (vm_compute; split; congruence);
    unfold coord_ok; split_and!; vm_compute; split; congruence.
Defined.
