(* ===== verification/UnixSocketTransport.v ===== *)
(** * UnixSocketTransport: messages over stream sockets

    Models [src/src/transport/transport.h], [unix_socket_transport.h] and
    [unix_socket_transport.cpp].  The kernel is known by its answers: an
    [answer] is the return value of one [read] or [write] with whether [errno]
    was [EINTR] after it, and the answers to the calls of one loop are a list,
    in their order; a loop that asks for an answer the list does not hold is
    still inside its system call ([None]).  A connection is the path it was
    made to and the bytes that went into it.  The calls on the file system
    and on the listening socket are recorded in their order ([SysCall]).

    The contract of the kernel ([serves], [honest]): a call moves at least one
    byte when it moves any, never more than it was asked for, and a [read]
    never more than the peer has sent. *)

From S2P Require Import Prelude Paths Bytes Coordinate LinquHeader.

(** ** Paths *)
Definition make_socket_path (base_path : string) (coord : LinquCoordinate) (level : Z) : string :=
  let p := base_path in
  let p := if String.eqb p "" then "/tmp/linqu" else p in
  let p := if negb (ends_with_slash p) then p +:+ "/" else p in
  let p := p +:+ ("L6_" +:+ std_to_string (l6_idx coord) +:+ "/") in
  let p := if level <=? 5 then p +:+ ("L5_" +:+ std_to_string (l5_idx coord) +:+ "/") else p in
  let p := if level <=? 4 then p +:+ ("L4_" +:+ std_to_string (l4_idx coord) +:+ "/") else p in
  let p := if level <=? 3 then p +:+ ("L3_" +:+ std_to_string (l3_idx coord) +:+ "/") else p in
  p +:+ ("daemon_L" +:+ std_to_string level +:+ ".sock").

(** [sizeof(addr.sun_path)] and the [strncpy] into it. *)
Definition SUN_PATH_SIZE : Z := 108.
Definition sun_path (p : string) : string := string_take (Z.to_nat (SUN_PATH_SIZE - 1)) p.

(** ** The object *)
Record UnixSocketTransport := mkTransport {
  base_path_ : string;
  self_coord_ : LinquCoordinate;
  self_level_ : Z;
  socket_path_ : string;
  listen_fd_ : Z;
  stopped_ : bool;
}.

#[export] Instance set_listen_fd : Setter listen_fd_ := fun f t =>
  mkTransport (base_path_ t) (self_coord_ t) (self_level_ t) (socket_path_ t)
    (f (listen_fd_ t)) (stopped_ t).
#[export] Instance set_stopped : Setter stopped_ := fun f t =>
  mkTransport (base_path_ t) (self_coord_ t) (self_level_ t) (socket_path_ t)
    (listen_fd_ t) (f (stopped_ t)).

Definition new_transport (base_path : string) (self_coord : LinquCoordinate) (self_level : Z)
    : UnixSocketTransport :=
  mkTransport base_path self_coord self_level (make_socket_path base_path self_coord self_level)
    (-1) false.

Definition is_listening (t : UnixSocketTransport) : bool := 0 <=? listen_fd_ t.

Inductive SysCall :=
  | Mkdir (path : string)
  | Unlink (path : string)
  | Bind (path : string)
  | Listen (backlog : Z)
  | Close (fd : Z).

(** [socket_ret], [bind_ret], [listen_ret]: what the three calls return. *)
Definition start_listening (socket_ret bind_ret listen_ret : Z) (t : UnixSocketTransport)
    : bool * UnixSocketTransport * list SysCall :=
  if 0 <=? listen_fd_ t then (true, t, []) else
  let dir := dir_of (socket_path_ t) in
  let calls := (Mkdir <$> mkdir_p dir) ++ [Unlink (socket_path_ t)] in
  let t := t <| listen_fd_ := socket_ret |> in
  if listen_fd_ t <? 0 then (false, t, calls) else
  let abandon c := (false, t <| listen_fd_ := -1 |>, c ++ [Close (listen_fd_ t)]) in
  if SUN_PATH_SIZE <=? str_size (socket_path_ t) then abandon calls else
  let calls := calls ++ [Bind (sun_path (socket_path_ t))] in
  if bind_ret <? 0 then abandon calls else
  let calls := calls ++ [Listen 32] in
  if listen_ret <? 0 then abandon calls else
  (true, t <| stopped_ := false |>, calls).

Definition stop (t : UnixSocketTransport) : UnixSocketTransport * list SysCall :=
  let t := t <| stopped_ := true |> in
  if 0 <=? listen_fd_ t
  then (t <| listen_fd_ := -1 |>, [Close (listen_fd_ t); Unlink (socket_path_ t)])
  else (t, [Unlink (socket_path_ t)]).

(** ** The loops over partial reads and writes *)
Record answer := mkAnswer { ret : Z; eintr : bool }.

(** The result and the bytes written. *)
Fixpoint send_all_loop (data : list Z) (sent : Z) (rs : list answer) : option bool * list Z :=
  if sent <? zlength data then
    match rs with
    | [] => (None, [])
    | r :: rs =>
        if ret r <=? 0 then
          if eintr r then send_all_loop data sent rs else (Some false, [])
        else
          let '(b, out) := send_all_loop data (sent + ret r) rs in
          (b, take (Z.to_nat (ret r)) (drop (Z.to_nat sent) data) ++ out)
    end
  else (Some true, []).
Definition send_all (data : list Z) (rs : list answer) : option bool * list Z :=
  send_all_loop data 0 rs.

(** The result, the bytes read and the bytes still in the connection. *)
Fixpoint recv_all_loop (len got : Z) (stream : list Z) (rs : list answer)
    : option bool * list Z * list Z :=
  if got <? len then
    match rs with
    | [] => (None, [], stream)
    | r :: rs =>
        if ret r <=? 0 then
          if (ret r <? 0) && eintr r then recv_all_loop len got stream rs
          else (Some false, [], stream)
        else
          let n := Z.to_nat (ret r) in
          let '(b, out, stream') := recv_all_loop len (got + ret r) (drop n stream) rs in
          (b, take n stream ++ out, stream')
    end
  else (Some true, [], stream).
Definition recv_all (len : Z) (stream : list Z) (rs : list answer) : option bool * list Z * list Z :=
  recv_all_loop len 0 stream rs.

(** ** Sending and receiving a message *)
Definition connection : Type := string * list Z.

(** What one call of [send] meets: the results of [socket] and of [connect] to
    a path, and the answers to the writes of the header and of the payload. *)
Record outgoing := mkOutgoing {
  socket_ret : Z;
  connect : string -> Z;
  header_writes : list answer;
  payload_writes : list answer;
}.

Definition target_level (hdr : LinquHeader) : Z :=
  u8 (if msg_type hdr =? TASK_COMPLETE then sender_level hdr else sender_level hdr - 1).

Definition send (t : UnixSocketTransport) (target : LinquCoordinate) (hdr : LinquHeader)
    (payload : list Z) (out : outgoing) : outcome (option bool * option connection) :=
  let target_path := make_socket_path (base_path_ t) target (target_level hdr) in
  if socket_ret out <? 0 then Ok (Some false, None) else
  let path := sun_path target_path in
  if connect out path <? 0 then Ok (Some false, None) else
  let! wire := serialize hdr (zeros WIRE_SIZE) in
  let '(ok, written) := send_all wire (header_writes out) in
  match ok with
  | Some true =>
      if 0 <? zlength payload then
        let '(ok, written') := send_all payload (payload_writes out) in
        Ok (ok, Some (path, written ++ written'))
      else Ok (ok, Some (path, written))
  | _ => Ok (ok, Some (path, written))
  end.

(** What one call of [recv] meets: the result of [poll], whether [stop] ran
    meanwhile, the accepted descriptor, the bytes of the connection, and the
    answers to the reads of the header and of the payload. *)
Record incoming := mkIncoming {
  poll_ret : Z;
  stopped_now : bool;
  client_fd : Z;
  stream : list Z;
  header_reads : list answer;
  payload_reads : list answer;
}.

(** [hdr] and [payload] are the output parameters of the code, returned as the
    call leaves them. *)
Definition recv (t : UnixSocketTransport) (inc : incoming) (hdr : LinquHeader) (payload : list Z)
    : outcome (option bool * LinquHeader * list Z) :=
  if (listen_fd_ t <? 0) || stopped_ t then Ok (Some false, hdr, payload) else
  if (poll_ret inc <=? 0) || stopped_now inc then Ok (Some false, hdr, payload) else
  if client_fd inc <? 0 then Ok (Some false, hdr, payload) else
  let '(ok, wire, rest) := recv_all WIRE_SIZE (stream inc) (header_reads inc) in
  match ok with
  | Some true =>
      let! hdr := deserialize wire in
      if negb (magic hdr =? LINQU_MAGIC) then Ok (Some false, hdr, payload) else
      if 0 <? payload_size hdr then
        let payload := resize payload (payload_size hdr) in
        let '(ok, data, _) := recv_all (payload_size hdr) rest (payload_reads inc) in
        Ok (ok, hdr, data ++ drop (length data) payload)
      else Ok (ok, hdr, [])
  | _ => Ok (ok, hdr, payload)
  end.

(** ** The contract of the kernel *)

(** The answers move exactly [n] bytes, interrupted any number of times. *)
Inductive serves : Z -> list answer -> Prop :=
  | serves_done : serves 0 []
  | serves_interrupted n r rs :
      0 < n -> ret r < 0 -> eintr r = true -> serves n rs -> serves n (r :: rs)
  | serves_moved n r rs :
      0 < ret r <= n -> serves (n - ret r) rs -> serves n (r :: rs).

(** No answer moves more than what is left of [n] bytes. *)
Fixpoint honest (n : Z) (rs : list answer) : Prop :=
  match rs with
  | [] => True
  | r :: rs => if 0 <? ret r then ret r <= n /\ honest (n - ret r) rs else honest n rs
  end.

Lemma serves_nonneg n rs : serves n rs -> 0 <= n.
Proof. destruct 1; lia. Qed.

Lemma serves_honest n rs : serves n rs -> honest n rs.
Proof.
  induction 1 as [|n r rs Hn Hr _ _ IH|n r rs Hr _ IH]; simpl; [done| |].
  - by rewrite (proj2 (Z.ltb_ge _ _)) by lia.
  - rewrite (proj2 (Z.ltb_lt _ _)) by lia. split; [lia|done].
Qed.

Lemma honest_mono n m rs : n <= m -> honest n rs -> honest m rs.
Proof.
  revert n m. induction rs as [|r rs IH]; intros n m Hnm; simpl; [done|].
  destruct (0 <? ret r); [|by apply IH]. intros [? H]. split; [lia|]. eapply IH; [|done]. lia.
Qed.

Lemma take_drop_skip {A} (v : list A) (i n m : Z) :
  0 <= i -> 0 <= n -> i + n + m = zlength v -> 0 <= m ->
  take (Z.to_nat n) (drop (Z.to_nat i) v) ++ drop (Z.to_nat (i + n)) v = drop (Z.to_nat i) v.
Proof.
  intros. rewrite Z2Nat.inj_add, <- drop_drop by lia. apply take_drop.
Qed.

Lemma send_all_loop_serves data rs : forall sent,
  0 <= sent -> serves (zlength data - sent) rs ->
  send_all_loop data sent rs = (Some true, drop (Z.to_nat sent) data).
Proof.
  induction rs as [|r rs IH]; intros sent Hs Hr; inversion Hr as [Hz|? ? ? Hn Hret He Hr'|? ? ? Hret Hr']; subst; simpl.
  - rewrite (proj2 (Z.ltb_ge _ _)) by lia. rewrite drop_ge; [done|]. unfold zlength in Hz. lia.
  - rewrite (proj2 (Z.ltb_lt _ _)), (proj2 (Z.leb_le _ _)), He by lia. by apply IH.
  - rewrite (proj2 (Z.ltb_lt _ _)), (proj2 (Z.leb_gt _ _)) by lia.
    pose proof (serves_nonneg _ _ Hr').
    rewrite IH by (lia || by replace (zlength data - (sent + ret r)) with (zlength data - sent - ret r) by lia).
    by rewrite take_drop_skip with (m := zlength data - sent - ret r) by lia.
Qed.

Lemma send_all_serves data rs : serves (zlength data) rs -> send_all data rs = (Some true, data).
Proof.
  intros H. unfold send_all. rewrite send_all_loop_serves; [done|lia|].
  by rewrite Z.sub_0_r.
Qed.

Lemma recv_all_loop_serves rs : forall len got s,
  serves (len - got) rs -> len - got <= zlength s ->
  recv_all_loop len got s rs =
    (Some true, take (Z.to_nat (len - got)) s, drop (Z.to_nat (len - got)) s).
Proof.
  induction rs as [|r rs IH]; intros len got s Hr Hl;
    inversion Hr as [Hz|? ? ? Hn Hret He Hr'|? ? ? Hret Hr']; subst; simpl.
  - rewrite (proj2 (Z.ltb_ge _ _)) by lia. by replace (len - got) with 0 by lia.
  - rewrite (proj2 (Z.ltb_lt _ _)), (proj2 (Z.leb_le _ _)), (proj2 (Z.ltb_lt _ 0)), He by lia.
    by apply IH.
  - rewrite (proj2 (Z.ltb_lt _ _)), (proj2 (Z.leb_gt _ _)) by lia.
    pose proof (serves_nonneg _ _ Hr').
    assert (zlength (drop (Z.to_nat (ret r)) s) = zlength s - ret r)
      by (unfold zlength in *; rewrite length_drop; lia).
    rewrite IH by (lia || by replace (len - (got + ret r)) with (len - got - ret r) by lia).
    rewrite drop_drop, take_take_drop. do 2 f_equal; f_equal; lia.
Qed.

Lemma recv_all_serves len s rs :
  serves len rs -> len <= zlength s ->
  recv_all len s rs = (Some true, take (Z.to_nat len) s, drop (Z.to_nat len) s).
Proof.
  intros Hr Hl. unfold recv_all.
  rewrite recv_all_loop_serves by (rewrite ?Z.sub_0_r; done). by rewrite Z.sub_0_r.
Qed.

(** Whatever happens, the bytes written are the first ones of the data. *)
Lemma send_all_loop_prefix data rs : forall sent b out,
  0 <= sent <= zlength data -> honest (zlength data - sent) rs ->
  send_all_loop data sent rs = (b, out) ->
  exists k, 0 <= k /\ sent + k <= zlength data /\
    out = take (Z.to_nat k) (drop (Z.to_nat sent) data) /\
    (b = Some true <-> sent + k = zlength data).
Proof.
  induction rs as [|r rs IH]; intros sent b out Hs Hh; simpl;
    destruct (Z.ltb_spec sent (zlength data)).
  - intros [= <- <-]. exists 0. split_and!; [lia..|done|]. split; [done|lia].
  - intros [= <- <-]. exists 0. split_and!; [lia..|done|]. split; [lia|done].
  - simpl in Hh. destruct (Z.leb_spec (ret r) 0).
    + rewrite (proj2 (Z.ltb_ge _ _)) in Hh by lia. destruct (eintr r).
      * by apply IH.
      * intros [= <- <-]. exists 0. split_and!; [lia..|done|]. split; [done|lia].
    + rewrite (proj2 (Z.ltb_lt _ _)) in Hh by lia. destruct Hh as [Hle Hh].
      destruct (send_all_loop data (sent + ret r) rs) as [b' out'] eqn:E. intros [= <- <-].
      destruct (IH (sent + ret r) b' out') as (k & Hk & Hkl & -> & Hb);
        [lia|by replace (zlength data - (sent + ret r)) with (zlength data - sent - ret r) by lia|done|].
      exists (ret r + k). split_and!; [lia..| |].
      * rewrite !Z2Nat.inj_add, <- drop_drop by lia. by rewrite take_take_drop.
      * rewrite Hb. lia.
  - intros [= <- <-]. exists 0. split_and!; [lia..|done|]. split; [lia|done].
Qed.

Lemma send_all_prefix data rs b out :
  honest (zlength data) rs -> send_all data rs = (b, out) ->
  exists k, 0 <= k <= zlength data /\ out = take (Z.to_nat k) data /\
    (b = Some true <-> k = zlength data).
Proof.
  intros Hh Hs. pose proof (zlength_ge_0 data).
  destruct (send_all_loop_prefix data rs 0 b out) as (k & ? & ? & -> & Hb);
    [lia|by rewrite Z.sub_0_r|done|]. exists k. split_and!; [lia..|done|]. rewrite Hb. lia.
Qed.

(** Whatever happens, reading splits the stream; it succeeds with [len] bytes. *)
Lemma recv_all_loop_split rs : forall len got s b out rest,
  got <= len -> honest (len - got) rs -> honest (zlength s) rs ->
  recv_all_loop len got s rs = (b, out, rest) ->
  s = out ++ rest /\ zlength out <= len - got /\ (b = Some true <-> zlength out = len - got).
Proof.
  induction rs as [|r rs IH]; intros len got s b out rest Hg Hh Ha; simpl;
    destruct (Z.ltb_spec got len).
  - intros [= <- <- <-]. rewrite zlength_nil. split_and!; [done|lia|]. split; [done|lia].
  - intros [= <- <- <-]. rewrite zlength_nil. split_and!; [done|lia|]. split; [lia|done].
  - simpl in Hh, Ha. destruct (Z.leb_spec (ret r) 0).
    + rewrite (proj2 (Z.ltb_ge 0 _)) in Hh, Ha by lia. destruct ((ret r <? 0) && eintr r).
      * by apply IH.
      * intros [= <- <- <-]. rewrite zlength_nil. split_and!; [done|lia|]. split; [done|lia].
    + rewrite (proj2 (Z.ltb_lt 0 _)) in Hh, Ha by lia. destruct Hh as [Hle Hh], Ha as [Hal Ha].
      destruct (recv_all_loop len (got + ret r) (drop (Z.to_nat (ret r)) s) rs) as [[b' out'] rest'] eqn:E.
      intros [= <- <- <-].
      assert (Hd : zlength (drop (Z.to_nat (ret r)) s) = zlength s - ret r)
        by (unfold zlength in *; rewrite length_drop; lia).
      assert (Ht : zlength (take (Z.to_nat (ret r)) s) = ret r)
        by (unfold zlength in *; rewrite length_take; lia).
      destruct (IH len (got + ret r) (drop (Z.to_nat (ret r)) s) b' out' rest') as (Hs & Hl & Hb);
        [lia|by replace (len - (got + ret r)) with (len - got - ret r) by lia|by rewrite Hd|done|].
      rewrite zlength_app, Ht. split_and!; [|lia|rewrite Hb; lia].
      by rewrite <- app_assoc, <- Hs, take_drop.
  - intros [= <- <- <-]. rewrite zlength_nil. split_and!; [done|lia|]. split; [lia|done].
Qed.

Lemma recv_all_split len s rs b out rest :
  0 <= len -> honest len rs -> honest (zlength s) rs -> recv_all len s rs = (b, out, rest) ->
  s = out ++ rest /\ zlength out <= len /\ (b = Some true <-> zlength out = len).
Proof.
  intros Hl Hh Ha Hr. destruct (recv_all_loop_split rs len 0 s b out rest) as (? & ? & ?);
    rewrite ?Z.sub_0_r in *; done || lia || auto.
Qed.

(** ** Sending and receiving *)

Lemma length_resize v n : 0 <= n -> zlength (resize v n) = n.
Proof.
  intros. unfold resize, zlength, zeros. rewrite length_app, length_take, length_replicate.
  unfold zlength. lia.
Qed.

(** The message as it crosses the connection. *)
Definition message (hdr : LinquHeader) (payload : list Z) : list Z := encoding hdr ++ payload.

Definition accepts (t : UnixSocketTransport) (inc : incoming) : Prop :=
  0 <= listen_fd_ t /\ stopped_ t = false /\ 0 < poll_ret inc /\ stopped_now inc = false /\
  0 <= client_fd inc.

Definition target_socket (t : UnixSocketTransport) (target : LinquCoordinate) (hdr : LinquHeader)
    : string :=
  sun_path (make_socket_path (base_path_ t) target (target_level hdr)).

Lemma send_connected t target hdr payload out :
  0 <= socket_ret out -> 0 <= connect out (target_socket t target hdr) ->
  send t target hdr payload out =
    let path := target_socket t target hdr in
    let '(ok, w) := send_all (encoding hdr) (header_writes out) in
    match ok with
    | Some true =>
        if 0 <? zlength payload then
          let '(ok, w') := send_all payload (payload_writes out) in
          Ok (ok, Some (path, w ++ w'))
        else Ok (ok, Some (path, w))
    | _ => Ok (ok, Some (path, w))
    end.
Proof.
  intros Hs Hc. unfold send. fold (target_socket t target hdr).
  rewrite !(proj2 (Z.ltb_ge _ 0)) by done. by rewrite header_serialize_eq.
Qed.

Lemma recv_accepted t inc hdr0 payload0 :
  accepts t inc ->
  recv t inc hdr0 payload0 =
    let '(ok, wire, rest) := recv_all WIRE_SIZE (stream inc) (header_reads inc) in
    match ok with
    | Some true =>
        let! hdr := deserialize wire in
        if negb (magic hdr =? LINQU_MAGIC) then Ok (Some false, hdr, payload0) else
        if 0 <? payload_size hdr then
          let payload := resize payload0 (payload_size hdr) in
          let '(ok, data, _) := recv_all (payload_size hdr) rest (payload_reads inc) in
          Ok (ok, hdr, data ++ drop (length data) payload)
        else Ok (ok, hdr, [])
    | _ => Ok (ok, hdr0, payload0)
    end.
Proof.
  intros (H1 & H2 & H3 & H4 & H5). unfold recv.
  rewrite (proj2 (Z.ltb_ge (listen_fd_ t) 0)), (proj2 (Z.leb_gt (poll_ret inc) 0)),
    (proj2 (Z.ltb_ge (client_fd inc) 0)) by lia.
  by rewrite H2, H4.
Qed.

Lemma take_wire (w r : list Z) : zlength w = WIRE_SIZE ->
  take (Z.to_nat WIRE_SIZE) (w ++ r) = w /\ drop (Z.to_nat WIRE_SIZE) (w ++ r) = r.
Proof.
  intros H. replace (Z.to_nat WIRE_SIZE) with (length w) by (unfold zlength in H; lia).
  by rewrite take_app_length, drop_app_length.
Qed.

(** Reading a whole message back, in pieces of any size. *)
Lemma recv_message t inc hdr payload hdr0 payload0 :
  accepts t inc -> header_ok hdr -> magic hdr = LINQU_MAGIC -> payload_size hdr = zlength payload ->
  stream inc = message hdr payload ->
  serves WIRE_SIZE (header_reads inc) -> serves (zlength payload) (payload_reads inc) ->
  recv t inc hdr0 payload0 = Ok (Some true, hdr, payload).
Proof.
  intros Ha Hh Hm Hp Hs Hhr Hpr. rewrite recv_accepted by done. rewrite Hs. unfold message.
  pose proof (zlength_header hdr) as Hw.
  rewrite recv_all_serves; [|done|rewrite zlength_app, Hw; pose proof (zlength_ge_0 payload); lia].
  destruct (take_wire (encoding hdr) payload Hw) as [-> ->]. cbv zeta iota.
  rewrite deserialize_encoding by done. bind_simpl. rewrite Hm, Z.eqb_refl. cbn [negb].
  rewrite Hp. destruct (Z.ltb_spec 0 (zlength payload)) as [Hl|Hl].
  - rewrite recv_all_serves by (done || lia). do 2 f_equal.
    rewrite take_ge by (unfold zlength; lia). rewrite drop_ge; [apply app_nil_r|].
    pose proof (length_resize payload0 (zlength payload) ltac:(lia)) as Hr.
    unfold zlength in *. lia.
  - do 2 f_equal. destruct payload; [done|]. rewrite zlength_cons in Hl.
    pose proof (zlength_ge_0 payload). lia.
Qed.

(** Whatever goes wrong, what went into the connection is a prefix of the
    message, all of it exactly when [send] reports success. *)
Lemma send_prefix t target hdr payload out ok path bytes :
  honest WIRE_SIZE (header_writes out) -> honest (zlength payload) (payload_writes out) ->
  send t target hdr payload out = Ok (ok, Some (path, bytes)) ->
  exists k, 0 <= k <= zlength (message hdr payload) /\
    bytes = take (Z.to_nat k) (message hdr payload) /\
    (ok = Some true <-> k = zlength (message hdr payload)).
Proof.
  intros Hhw Hpw Hs.
  assert (Hcon : 0 <= socket_ret out /\ 0 <= connect out (target_socket t target hdr)).
  { unfold send in Hs. fold (target_socket t target hdr) in Hs.
    destruct (Z.ltb_spec (socket_ret out) 0); [done|].
    destruct (Z.ltb_spec (connect out (target_socket t target hdr)) 0); done. }
  rewrite send_connected in Hs by tauto. cbv zeta in Hs. unfold message.
  pose proof (zlength_header hdr) as Hlh. pose proof (zlength_ge_0 payload) as Hlp.
  set (enc := encoding hdr) in *. clearbody enc. rewrite zlength_app, Hlh.
  destruct (send_all enc (header_writes out)) as [ok1 w1] eqn:E1.
  rewrite <- Hlh in Hhw.
  destruct (send_all_prefix _ _ _ _ Hhw E1) as (k & Hk & -> & Hk1). rewrite Hlh in Hk, Hk1.
  destruct (decide (ok1 = Some true)) as [->|Hne].
  - pose proof (proj1 Hk1 eq_refl) as ->. rewrite take_ge in Hs by (unfold zlength in *; lia).
    destruct (Z.ltb_spec 0 (zlength payload)).
    + destruct (send_all payload (payload_writes out)) as [ok2 w2] eqn:E2.
      destruct (send_all_prefix _ _ _ _ Hpw E2) as (k2 & Hk2 & -> & Hk2').
      injection Hs as <- _ <-. exists (WIRE_SIZE + k2). split_and!; [lia..| |rewrite Hk2'; lia].
      rewrite take_app_ge by (unfold zlength in *; lia). apply (f_equal2 app eq_refl). f_equal. unfold zlength in Hlh. lia.
    + injection Hs as <- _ <-. exists WIRE_SIZE.
      split_and!; [unfold WIRE_SIZE; lia|lia| |split; [lia|done]].
      by destruct (take_wire enc payload Hlh) as [-> _].
  - assert (Ok (ok1, Some (target_socket t target hdr, take (Z.to_nat k) enc)) =
            Ok (ok, Some (path, bytes))) as [= <- _ <-] by (by destruct ok1 as [[]|]).
    assert (k <> WIRE_SIZE) by (intros ?; by apply Hne, Hk1).
    exists k. split_and!; [lia..| |split; [done|lia]].
    rewrite take_app_le; [done|unfold zlength in *; lia].
Qed.

(** What [recv] takes for a message is one: a prefix of the stream. *)
Lemma recv_true_inv t inc hdr0 payload0 h p :
  accepts t inc -> recv t inc hdr0 payload0 = Ok (Some true, h, p) ->
  honest WIRE_SIZE (header_reads inc) -> honest (zlength (stream inc)) (header_reads inc) ->
  honest (payload_size h) (payload_reads inc) ->
  honest (zlength (stream inc) - WIRE_SIZE) (payload_reads inc) ->
  exists wire rest, stream inc = wire ++ p ++ rest /\ zlength wire = WIRE_SIZE /\
    deserialize wire = Ok h /\ magic h = LINQU_MAGIC /\ zlength p = Z.max 0 (payload_size h).
Proof.
  intros Ha. rewrite recv_accepted by done.
  destruct (recv_all WIRE_SIZE (stream inc) (header_reads inc)) as [[ok wire] rest] eqn:Ew.
  intros Hr Hh Hha Hp Hpa.
  destruct (recv_all_split WIRE_SIZE _ _ _ _ _ ltac:(done) Hh Hha Ew) as (Hs & _ & Hok).
  destruct ok as [[]|]; [|by injection Hr|by injection Hr].
  pose proof (proj1 Hok eq_refl) as Hwl. clear Hok.
  apply bind_Ok in Hr as (h' & Hd & Hr).
  destruct (Z.eqb_spec (magic h') LINQU_MAGIC) as [Hm|]; [|by injection Hr]. cbn [negb] in Hr.
  destruct (Z.ltb_spec 0 (payload_size h')) as [Hl|Hl].
  - destruct (recv_all (payload_size h') rest (payload_reads inc)) as [[ok data] rest'] eqn:Ep.
    injection Hr as -> -> <-. exists wire.
    assert (Hrl : honest (zlength rest) (payload_reads inc)).
    { rewrite Hs, zlength_app, Hwl in Hpa.
      by replace (zlength rest) with (WIRE_SIZE + zlength rest - WIRE_SIZE) by lia. }
    destruct (recv_all_split (payload_size h) _ _ _ _ _ ltac:(lia) Hp Hrl Ep) as (Hrs & _ & Hdl).
    pose proof (proj1 Hdl eq_refl) as Hdl'.
    assert (Hnil : drop (length data) (resize payload0 (payload_size h)) = []).
    { apply drop_ge. pose proof (length_resize payload0 (payload_size h) ltac:(lia)).
      unfold zlength in *. lia. }
    rewrite Hnil, app_nil_r. exists rest'. rewrite Hs, Hrs.
    split_and!; [done..|]. rewrite Hdl'. lia.
  - injection Hr as -> <-. exists wire, rest. rewrite Hs, zlength_nil. split_and!; [done..|]. lia.
Qed.

(** ** Which node a path names *)

(** The indices of a coordinate that the path of a level shows. *)
Definition visible (level : Z) (c : LinquCoordinate) : LinquCoordinate :=
  mkCoord (l6_idx c) (if level <=? 5 then l5_idx c else 0) (if level <=? 4 then l4_idx c else 0)
    (if level <=? 3 then l3_idx c else 0) 0 0 0.

(** The base path with the slash that ends it. *)
Definition root_of (base_path : string) : string :=
  let p := if String.eqb base_path "" then "/tmp/linqu" else base_path in
  if negb (ends_with_slash p) then p +:+ "/" else p.

Definition dir_part (name : string) (shown : bool) (idx : Z) (rest : string) : string :=
  if shown then name +:+ std_to_string idx +:+ "/" +:+ rest else rest.

Definition file_name (level : Z) : string := "daemon_L" +:+ std_to_string level +:+ ".sock".

Definition path_tail (c : LinquCoordinate) (level : Z) : string :=
  dir_part "L6_" true (l6_idx c)
    (dir_part "L5_" (level <=? 5) (l5_idx c)
       (dir_part "L4_" (level <=? 4) (l4_idx c)
          (dir_part "L3_" (level <=? 3) (l3_idx c) (file_name level)))).

Lemma make_socket_path_eq base c level :
  make_socket_path base c level = root_of base +:+ path_tail c level.
Proof.
  unfold make_socket_path, path_tail, dir_part. fold (root_of base). cbv zeta.
  destruct (level <=? 5), (level <=? 4), (level <=? 3); by rewrite <- ?sapp_assoc.
Qed.

(** One component after the other of two equal paths. *)
Ltac peel_path H :=
  repeat first
    [ discriminate H
    | match type of H with
      | std_to_string _ +:+ _ = std_to_string _ +:+ _ =>
          let E := fresh "E" in
          apply std_to_string_app_inj in H as [E H]; [|lia|lia|reflexivity|reflexivity]
      | ?a +:+ _ = ?a +:+ _ => apply sapp_cancel in H
      end ].

(** No path of a node is a proper prefix of one of another node. *)
Lemma path_tail_prefix_free c1 l1 c2 l2 t :
  coord_ok c1 -> coord_ok c2 -> in_u8 l1 -> in_u8 l2 ->
  path_tail c1 l1 +:+ t = path_tail c2 l2 -> t = "" /\ l1 = l2 /\ visible l1 c1 = visible l2 c2.
Proof.
  intros (A6 & A5 & A4 & A3 & _) (B6 & B5 & B4 & B3 & _) Hl1 Hl2 H. unfold_ints.
  unfold path_tail, visible, dir_part, file_name in *.
  destruct (Z.leb_spec l1 5), (Z.leb_spec l1 4), (Z.leb_spec l1 3); try lia;
    destruct (Z.leb_spec l2 5), (Z.leb_spec l2 4), (Z.leb_spec l2 3); try lia;
    rewrite <- !sapp_assoc in H; peel_path H;
    (destruct t; [|discriminate H]); subst; (split_and!; [done..|congruence]).
Qed.

Lemma path_tail_visible c level : path_tail (visible level c) level = path_tail c level.
Proof.
  unfold path_tail, visible, dir_part. simpl.
  by destruct (level <=? 5), (level <=? 4), (level <=? 3).
Qed.

Lemma socket_path_visible base c1 c2 level :
  visible level c1 = visible level c2 ->
  make_socket_path base c1 level = make_socket_path base c2 level.
Proof. intros H. by rewrite !make_socket_path_eq, <- (path_tail_visible c1), H, path_tail_visible. Qed.

(** A transport that listens is bound to its whole path. *)
Lemma listening_bound sr br lr t t' calls :
  listen_fd_ t < 0 -> start_listening sr br lr t = (true, t', calls) ->
  str_size (socket_path_ t) < SUN_PATH_SIZE /\
  (forall p, Bind p ∈ calls <-> p = socket_path_ t).
Proof.
  intros Hfd. unfold start_listening. rewrite (proj2 (Z.leb_gt _ _)) by done.
  destruct (sr <? 0) eqn:Esr; cbn [setter set_listen_fd listen_fd_]; rewrite Esr; [done|].
  change (socket_path_ (t <| listen_fd_ := sr |>)) with (socket_path_ t).
  destruct (Z.leb_spec SUN_PATH_SIZE (str_size (socket_path_ t))) as [|Hsz]; [done|].
  destruct (br <? 0); [done|]. destruct (lr <? 0); [done|]. intros [= <- <-].
  split; [done|]. intros p.
  assert (Hsun : sun_path (socket_path_ t) = socket_path_ t).
  { apply string_take_all. unfold str_size, SUN_PATH_SIZE in *. lia. }
  rewrite <- !app_assoc, elem_of_app, list_elem_of_fmap. cbn [app setter set_listen_fd socket_path_].
  rewrite Hsun. split.
  - intros [(? & ? & _)|H]; [done|]. set_solver.
  - intros ->. set_solver.
Qed.

(** ** Properties *)

(** C29.  A message arrives whole.  When the receiver accepts the connection
    and the kernel moves all the bytes, in pieces of any sizes on either side
    and interrupted any number of times, [send] reports success and [recv]
    returns the header and the payload that were sent, whatever the output
    parameters held before. *)
Theorem transport_delivers t target hdr payload out t' inc hdr0 payload0 :
  header_ok hdr -> magic hdr = LINQU_MAGIC -> payload_size hdr = zlength payload ->
  0 <= socket_ret out -> 0 <= connect out (target_socket t target hdr) ->
  serves WIRE_SIZE (header_writes out) -> serves (zlength payload) (payload_writes out) ->
  accepts t' inc -> serves WIRE_SIZE (header_reads inc) ->
  serves (zlength payload) (payload_reads inc) ->
  exists bytes, send t target hdr payload out = Ok (Some true, Some (target_socket t target hdr, bytes)) /\
    (stream inc = bytes -> recv t' inc hdr0 payload0 = Ok (Some true, hdr, payload)).
Proof.
  intros Hh Hm Hp Hs Hc Hhw Hpw Ha Hhr Hpr. exists (message hdr payload).
  split; [|intros ?; by apply recv_message]. rewrite send_connected by done. cbv zeta.
  rewrite send_all_serves by (by rewrite zlength_header).
  destruct (Z.ltb_spec 0 (zlength payload)); [by rewrite send_all_serves|].
  unfold message. destruct payload; [by rewrite app_nil_r|].
  rewrite zlength_cons in *. pose proof (zlength_ge_0 payload). lia.
Qed.

(** Two-byte pieces with an interruption before each. *)
Definition in_pieces (n : nat) : list answer :=
  concat (replicate n [mkAnswer (-1) true; mkAnswer 2 false]).

Lemma serves_pieces n : serves (2 * Z.of_nat n) (in_pieces n).
Proof.
  induction n as [|n IH]; [constructor|]. unfold in_pieces. cbn [replicate concat app].
  apply serves_interrupted; [lia|done|done|]. apply serves_moved; [simpl; lia|].
  replace (2 * Z.of_nat (S n) - ret (mkAnswer 2 false)) with (2 * Z.of_nat n) by (simpl; lia).
  exact IH.
Qed.

Definition sample_transport : UnixSocketTransport :=
  new_transport "/tmp/cluster" (mkCoord 0 1 2 3 0 0 0) 4.
Definition sample_listener : UnixSocketTransport :=
  (new_transport "/tmp/cluster" (mkCoord 0 1 2 5 0 0 0) 3) <| listen_fd_ := 7 |>.
Definition sample_header : LinquHeader :=
  make CALL_TASK 4 (mkCoord 0 1 2 3 0 0 0) (mkCoord 0 1 2 5 0 0 0) 4.
Definition sample_outgoing : outgoing := mkOutgoing 5 (fun _ => 0) (in_pieces 12) (in_pieces 2).
Definition sample_incoming (s : list Z) : incoming :=
  mkIncoming 1 false 9 s (in_pieces 12) (in_pieces 2).

Lemma sample_header_ok : header_ok sample_header.
Proof. apply make_ok; unfold coord_ok, CALL_TASK; unfold_ints; simpl; lia. Qed.

Lemma transport_delivers_witness :
  exists bytes,
    send sample_transport (mkCoord 0 1 2 5 0 0 0) sample_header [1; 2; 3; 4] sample_outgoing =
      Ok (Some true, Some ("/tmp/cluster/L6_0/L5_1/L4_2/L3_5/daemon_L3.sock", bytes)) /\
    recv sample_listener (sample_incoming bytes) sample_header [] =
      Ok (Some true, sample_header, [1; 2; 3; 4]).
Proof.
  destruct (transport_delivers sample_transport (mkCoord 0 1 2 5 0 0 0) sample_header [1; 2; 3; 4]
    sample_outgoing sample_listener (sample_incoming (message sample_header [1; 2; 3; 4]))
    sample_header [] sample_header_ok eq_refl eq_refl) as (bytes & Hs & Hr);
    [done|done|apply (serves_pieces 12)|apply (serves_pieces 2)|by repeat split|
     apply (serves_pieces 12)|apply (serves_pieces 2)|].
  exists bytes. split; [exact Hs|].
  assert (message sample_header [1; 2; 3; 4] = bytes) as <- by (vm_compute in Hs |- *; congruence).
  by apply Hr.
Defined.

(** A message arrives whole or not at all.  Whatever goes wrong on
    either side (a call fails, the sender stops half way, only a part of the
    bytes is read), when [recv] accepts the connection that [send] made and
    returns true, all of the message was sent and what [recv] returns is that
    header and that payload: a cut message is never taken for a shorter one. *)
Theorem transport_all_or_nothing t target hdr payload out ok path bytes t' inc hdr0 payload0 h p :
  header_ok hdr -> payload_size hdr = zlength payload ->
  honest WIRE_SIZE (header_writes out) -> honest (zlength payload) (payload_writes out) ->
  send t target hdr payload out = Ok (ok, Some (path, bytes)) ->
  accepts t' inc -> stream inc = bytes ->
  honest (Z.min WIRE_SIZE (zlength bytes)) (header_reads inc) ->
  honest (Z.min (payload_size h) (zlength bytes - WIRE_SIZE)) (payload_reads inc) ->
  recv t' inc hdr0 payload0 = Ok (Some true, h, p) ->
  ok = Some true /\ h = hdr /\ p = payload.
Proof.
  intros Hh Hp Hhw Hpw Hs Ha Hst Hhr Hpr Hr.
  destruct (send_prefix _ _ _ _ _ _ _ _ Hhw Hpw Hs) as (k & Hk & -> & Hok). clear Hs.
  set (m := message hdr payload) in *.
  assert (Hm : zlength m = WIRE_SIZE + zlength payload)
    by (unfold m, message; rewrite zlength_app; by rewrite zlength_header).
  assert (Hkl : zlength (take (Z.to_nat k) m) = k) by (unfold zlength in *; rewrite length_take; lia).
  destruct (recv_true_inv t' inc hdr0 payload0 h p Ha Hr) as (w & rest & Hin & Hw & Hd & _ & Hpl);
    [eapply honest_mono; [|exact Hhr]; lia|eapply honest_mono; [|exact Hhr]; rewrite Hst; lia|
     eapply honest_mono; [|exact Hpr]; lia|eapply honest_mono; [|exact Hpr]; rewrite Hst; lia|].
  rewrite Hst in Hin. clear Hr Hhr Hpr Hst Ha.
  pose proof (take_drop (Z.to_nat k) m) as Htd. rewrite Hin, <- !app_assoc in Htd.
  apply app_inj_1 in Htd as [-> Hpay];
    [|pose proof (zlength_header hdr); unfold zlength, WIRE_SIZE in *; lia].
  rewrite deserialize_encoding in Hd by done. injection Hd as <-.
  rewrite <- (app_nil_r payload) in Hpay.
  apply app_inj_1 in Hpay as [-> _]; [|unfold zlength in *; lia].
  split; [|done]. apply Hok. rewrite Hin, !zlength_app, zlength_header in Hkl.
  pose proof (zlength_ge_0 rest). lia.
Qed.

Definition sample_wire : list Z := message sample_header [1; 2; 3; 4].

(** A cut message is refused. *)
Example cut_message_refused :
  recv sample_listener (mkIncoming 1 false 9 (take 27 sample_wire) (in_pieces 12)
    [mkAnswer 3 false; mkAnswer 0 false]) sample_header [] =
  Ok (Some false, sample_header, [1; 2; 3; 0]).
Proof. reflexivity. Qed.

Lemma transport_all_or_nothing_witness :
  exists h p, recv sample_listener (sample_incoming sample_wire) sample_header [] = Ok (Some true, h, p) /\
    Some true = Some true /\ h = sample_header /\ p = [1; 2; 3; 4].
Proof.
  assert (Hs : send sample_transport (mkCoord 0 1 2 5 0 0 0) sample_header [1; 2; 3; 4] sample_outgoing =
    Ok (Some true, Some ("/tmp/cluster/L6_0/L5_1/L4_2/L3_5/daemon_L3.sock", sample_wire)))
    by reflexivity.
  exists sample_header, [1; 2; 3; 4]. split; [reflexivity|].
  apply (transport_all_or_nothing sample_transport (mkCoord 0 1 2 5 0 0 0) sample_header
    [1; 2; 3; 4] sample_outgoing (Some true) "/tmp/cluster/L6_0/L5_1/L4_2/L3_5/daemon_L3.sock"
    sample_wire sample_listener (sample_incoming sample_wire) sample_header []
    sample_header [1; 2; 3; 4] sample_header_ok eq_refl);
    [exact (serves_honest 24 _ (serves_pieces 12))|exact (serves_honest 4 _ (serves_pieces 2))|
     exact Hs|by repeat split|reflexivity|exact (serves_honest 24 _ (serves_pieces 12))|
     exact (serves_honest 4 _ (serves_pieces 2))|reflexivity].
Defined.

(** C30.  Messages reach the node they are addressed to and no other.  When a
    node has started to listen, a message sent from a process with the same
    base path goes into the socket the node is bound to exactly when the
    level the message is for is the node's level and the target agrees with
    the node in the indices that this level's path shows; the truncation of
    long paths in [send] cannot lead to another node's socket. *)
Theorem transport_routes_exactly base self level sr br lr node calls t target hdr payload out ok path bytes :
  coord_ok self -> coord_ok target -> in_u8 level ->
  start_listening sr br lr (new_transport base self level) = (true, node, calls) ->
  base_path_ t = base -> send t target hdr payload out = Ok (ok, Some (path, bytes)) ->
  Bind path ∈ calls <-> target_level hdr = level /\ visible level target = visible level self.
Proof.
  intros Hself Htar Hlev Hstart Hbase Hs.
  assert (Hpath : path = target_socket t target hdr).
  { unfold send in Hs. fold (target_socket t target hdr) in Hs.
    destruct (socket_ret out <? 0); [done|].
    destruct (connect out (target_socket t target hdr) <? 0); [done|].
    rewrite header_serialize_eq in Hs by done. cbn [mbind outcome_bind] in Hs.
    destruct (send_all (encoding hdr) (header_writes out)) as [[[]|] w]; [|by injection Hs..].
    destruct (0 <? zlength payload); [|by injection Hs].
    destruct (send_all payload (payload_writes out)). by injection Hs. }
  destruct (listening_bound sr br lr (new_transport base self level) node calls ltac:(simpl; lia) Hstart)
    as [Hsz Hbind].
  rewrite Hbind, Hpath. unfold target_socket. rewrite Hbase. simpl in *. split.
  - intros Heq. destruct (string_take_prefix (Z.to_nat (SUN_PATH_SIZE - 1))
      (make_socket_path base target (target_level hdr))) as [r Hr].
    fold (sun_path (make_socket_path base target (target_level hdr))) in Hr.
    rewrite Heq, !make_socket_path_eq, <- sapp_assoc in Hr. apply sapp_cancel in Hr.
    destruct (path_tail_prefix_free self level target (target_level hdr) r) as (_ & -> & Hv);
      [done|done|done|apply u8_range|done|]. by rewrite Hv.
  - intros [-> Hv]. rewrite (socket_path_visible base target self level Hv).
    apply string_take_all. unfold str_size, SUN_PATH_SIZE in *. lia.
Qed.

Definition sample_start : bool * UnixSocketTransport * list SysCall :=
  start_listening 7 0 0 (new_transport "/tmp/cluster" (mkCoord 0 1 2 5 9 0 0) 3).

Lemma transport_routes_exactly_witness :
  Bind "/tmp/cluster/L6_0/L5_1/L4_2/L3_5/daemon_L3.sock" ∈ sample_start.2.
Proof.
  assert (Hself : coord_ok (mkCoord 0 1 2 5 9 0 0)) by (unfold coord_ok; unfold_ints; simpl; lia).
  assert (Htar : coord_ok (mkCoord 0 1 2 5 0 0 0)) by (unfold coord_ok; unfold_ints; simpl; lia).
  assert (Hl : in_u8 3) by (unfold_ints; lia).
  assert (Hst : sample_start = (true, sample_start.1.2, sample_start.2)) by (vm_compute; reflexivity).
  assert (Hs : send sample_transport (mkCoord 0 1 2 5 0 0 0) sample_header [1; 2; 3; 4] sample_outgoing =
    Ok (Some true, Some ("/tmp/cluster/L6_0/L5_1/L4_2/L3_5/daemon_L3.sock", sample_wire)))
    by reflexivity.
  exact (proj2 (transport_routes_exactly "/tmp/cluster" (mkCoord 0 1 2 5 9 0 0) 3 7 0 0
    sample_start.1.2 sample_start.2
    sample_transport (mkCoord 0 1 2 5 0 0 0) sample_header [1; 2; 3; 4] sample_outgoing
    (Some true) "/tmp/cluster/L6_0/L5_1/L4_2/L3_5/daemon_L3.sock" sample_wire
    Hself Htar Hl Hst eq_refl Hs) (conj eq_refl eq_refl)).
Defined.
