(* ===== verification/StdMap.v ===== *)
(** * std::map: an ordered map

    A [std::map<K, V>] is the list of its nodes in the order of the keys, the
    order in which the code iterates.  [kless] is the [operator<] of the key;
    two keys are equivalent when neither is less than the other.  [KeyLess] is
    what the container needs of the key, [KeyLessLaws] what the container's
    contract needs of [operator<]. *)

From S2P Require Import Prelude.

Class KeyLess (K : Type) := kless : K -> K -> bool.

Class KeyLessLaws (K : Type) `{KeyLess K} := {
  kless_irrefl a : kless a a = false;
  kless_trans a b c : kless a b = true -> kless b c = true -> kless a c = true;
  kless_total a b : kless a b = false -> kless b a = false -> a = b;
}.

Section std_map.
Context {K V : Type} `{KeyLessLaws K}.
Implicit Types (m : list (K * V)) (k : K) (v : V).

(** [m.find(k)] *)
Fixpoint map_find k m : option V :=
  match m with
  | [] => None
  | (k', v') :: m =>
      if kless k k' then None else if kless k' k then map_find k m else Some v'
  end.

(** [m[k] = v] *)
Fixpoint map_assign k v m : list (K * V) :=
  match m with
  | [] => [(k, v)]
  | (k', v') :: m' =>
      if kless k k' then (k, v) :: m
      else if kless k' k then (k', v') :: map_assign k v m'
      else (k', v) :: m'
  end.

(** [m.erase(k)] *)
Fixpoint map_erase k m : list (K * V) :=
  match m with
  | [] => []
  | (k', v') :: m' =>
      if kless k k' then m
      else if kless k' k then (k', v') :: map_erase k m' else m'
  end.

(** [it->second] changed through the iterator that [find] returned. *)
Fixpoint map_update k (f : V -> V) m : list (K * V) :=
  match m with
  | [] => []
  | (k', v') :: m' =>
      if kless k k' then m
      else if kless k' k then (k', v') :: map_update k f m' else (k', f v') :: m'
  end.

Definition before (a b : K * V) : Prop := kless a.1 b.1 = true.
Definition sorted m : Prop := StronglySorted before m.

Lemma kless_asym a b : kless a b = true -> kless b a = false.
Proof.
  intros Hab. destruct (kless b a) eqn:Hba; [|done].
  pose proof (kless_trans _ _ _ Hab Hba) as Ha. by rewrite kless_irrefl in Ha.
Qed.

(** Case analysis on the position of [k] relative to the first key. *)
Lemma kless_spec a b :
  (kless a b = true /\ kless b a = false) \/ (kless b a = true /\ kless a b = false) \/
  (a = b /\ kless a b = false).
Proof.
  destruct (kless a b) eqn:Hab; [left; by rewrite (kless_asym a b)|].
  destruct (kless b a) eqn:Hba; [by right; left|]. right. right. by rewrite (kless_total a b).
Qed.

Lemma sorted_keys_after k m x :
  Forall (before x) m -> kless k x.1 = true -> map_find k m = None.
Proof.
  intros Hm Hk. destruct m as [|[k' v'] m]; [done|]. simpl.
  apply Forall_cons in Hm as [Hb _]. unfold before in Hb. simpl in Hb.
  by rewrite (kless_trans _ _ _ Hk Hb).
Qed.

Lemma map_find_elem m k v : sorted m -> (map_find k m = Some v <-> (k, v) ∈ m).
Proof.
  induction 1 as [|[k' v'] m Hs IH Hf]; simpl; [split; [done|by intros ?%not_elem_of_nil]|].
  rewrite elem_of_cons.
  destruct (kless_spec k k') as [[H1 H2]|[[H1 H2]|[-> H1]]].
  - rewrite H1. split; [done|]. intros [[= -> ->]|Hin]; [by rewrite kless_irrefl in H1|].
    rewrite Forall_forall in Hf. specialize (Hf _ Hin). unfold before in Hf. simpl in Hf.
    congruence.
  - rewrite H1, H2, IH. split; [by right|]. intros [[= -> ->]|Hin]; [by rewrite kless_irrefl in H1|done].
  - rewrite H1. split; [intros [= ->]; by left|]. intros [[= ->]|Hin]; [done|].
    rewrite Forall_forall in Hf. specialize (Hf _ Hin). unfold before in Hf. simpl in Hf. congruence.
Qed.

Lemma before_all (x : K * V) k v m :
  Forall (before x) m -> before x (k, v) -> Forall (before x) (map_assign k v m).
Proof.
  intros Hm Hk. induction Hm as [|[k' v'] m Hb Hm IH]; simpl; [by constructor|].
  destruct (kless k k'); [by repeat constructor|]. destruct (kless k' k); by constructor.
Qed.

Lemma sorted_assign k v m : sorted m -> sorted (map_assign k v m).
Proof.
  induction 1 as [|[k' v'] m Hs IH Hf]; simpl; [by repeat constructor|].
  destruct (kless_spec k k') as [[H1 H2]|[[H1 H2]|[-> H1]]]; rewrite ?H1, ?H2.
  - constructor; [by constructor|]. constructor; [done|].
    eapply Forall_impl; [exact Hf|]. intros y Hy. by eapply kless_trans.
  - constructor; [done|]. by apply before_all.
  - by constructor.
Qed.

Lemma before_erase x k m : Forall (before x) m -> Forall (before x) (map_erase k m).
Proof.
  induction 1 as [|[k' v'] m Hb Hm IH]; simpl; [done|].
  destruct (kless k k'), (kless k' k); by repeat constructor.
Qed.

Lemma sorted_erase k m : sorted m -> sorted (map_erase k m).
Proof.
  induction 1 as [|[k' v'] m Hs IH Hf]; simpl; [constructor|].
  destruct (kless k k'), (kless k' k); [by constructor..| |done].
  constructor; [done|by apply before_erase].
Qed.

Lemma before_update x k f m : Forall (before x) m -> Forall (before x) (map_update k f m).
Proof.
  induction 1 as [|[k' v'] m Hb Hm IH]; simpl; [done|].
  destruct (kless k k'), (kless k' k); by repeat constructor.
Qed.

Lemma sorted_update k f m : sorted m -> sorted (map_update k f m).
Proof.
  induction 1 as [|[k' v'] m Hs IH Hf]; simpl; [constructor|].
  destruct (kless k k'), (kless k' k); constructor; auto using before_update.
Qed.

(** ** The map as a finite map *)
Context `{Countable K}.
Definition view m : gmap K V := list_to_map m.

Lemma view_lookup m k : sorted m -> view m !! k = map_find k m.
Proof.
  induction 1 as [|[k' v'] m Hs IH Hf]; [apply lookup_empty|]. unfold view in *. simpl.
  destruct (kless_spec k k') as [[E1 E2]|[[E1 E2]|[-> E1]]]; rewrite E1, ?E2.
  - rewrite lookup_insert_ne by (intros ->; by rewrite kless_irrefl in E1).
    rewrite IH. by eapply sorted_keys_after.
  - rewrite lookup_insert_ne by (intros ->; by rewrite kless_irrefl in E1). done.
  - by rewrite lookup_insert_eq.
Qed.

Lemma view_absent m k x : Forall (before x) m -> sorted m -> kless k x.1 = true \/ k = x.1 ->
  view m !! k = None.
Proof.
  intros Hm Hs Hk. rewrite view_lookup by done.
  destruct m as [|[a w] m]; [done|]. simpl. apply Forall_cons in Hm as [Hb _].
  unfold before in Hb. simpl in Hb.
  destruct Hk as [Hk| ->]; [by rewrite (kless_trans _ _ _ Hk Hb)|by rewrite Hb].
Qed.

Lemma view_assign k v m : view (map_assign k v m) = <[k := v]> (view m).
Proof.
  induction m as [|[a w] m IH]; [done|]. unfold view in *. simpl.
  destruct (kless_spec k a) as [[E1 E2]|[[E1 E2]|[-> E1]]]; rewrite E1, ?E2; [done| |].
  - simpl. rewrite IH. apply insert_insert_ne. intros ->. by rewrite kless_irrefl in E1.
  - simpl. by rewrite insert_insert_eq.
Qed.

Lemma view_erase k m : sorted m -> view (map_erase k m) = delete k (view m).
Proof.
  induction 1 as [|[a w] m Hs IH Hf]; [symmetry; exact (delete_empty k)|]. simpl.
  destruct (kless_spec k a) as [[E1 E2]|[[E1 E2]|[-> E1]]]; rewrite E1, ?E2.
  - symmetry. apply delete_id. unfold view. simpl.
    rewrite lookup_insert_ne by (intros ->; by rewrite kless_irrefl in E1).
    eapply view_absent; [exact Hf|done|by left].
  - unfold view in *. simpl. rewrite IH. symmetry. apply delete_insert_ne.
    intros ->. by rewrite kless_irrefl in E1.
  - unfold view at 2. simpl. symmetry. apply delete_insert_id.
    eapply view_absent; [exact Hf|done|by right].
Qed.

Lemma view_update k f m : sorted m -> view (map_update k f m) = alter f k (view m).
Proof.
  intros Hs. apply map_eq. intros j. rewrite lookup_alter.
  rewrite !view_lookup by auto using sorted_update.
  induction Hs as [|[a w] m Hs IH Hf]; [by case_decide|]. simpl.
  destruct (kless_spec k a) as [[E1 E2]|[[E1 E2]|[-> E1]]]; rewrite E1, ?E2; simpl;
    destruct (kless_spec j a) as [[F1 F2]|[[F1 F2]|[-> F1]]]; rewrite F1, ?F2;
    case_decide; subst; try congruence; try done.
  all: rewrite ?IH, ?decide_True, ?decide_False by congruence; try done.
Qed.

Lemma view_size m : sorted m -> size (view m) = length m.
Proof.
  induction 1 as [|[a w] m Hs IH Hf]; [apply map_size_empty|]. unfold view in *. simpl.
  rewrite map_size_insert_None, IH; [done|].
  eapply view_absent; [exact Hf|done|by right].
Qed.

(** A map is determined by its finite map: the order is that of the keys. *)
Lemma view_elem m k v : sorted m -> (view m !! k = Some v <-> (k, v) ∈ m).
Proof. intros. rewrite view_lookup by done. by apply map_find_elem. Qed.
End std_map.
