(* ===== verification/PeerRegistry.v ===== *)
(** * PeerRegistry: the peers a daemon knows

    Models [src/src/discovery/peer_registry.h] and [peer_registry.cpp].  The
    registry is a [std::map] from coordinate and level to what is known of the
    peer; the results are vectors in the order of the map.  Every operation
    runs under [mu_], so an operation is one function on the map.

    The abstract registry is a finite map ([view]): the operations are insert,
    delete and alter on it, and the queries select its entries. *)

From S2P Require Import Prelude Coordinate StdMap.

Record PeerInfo := mkPeerInfo {
  p_coord : LinquCoordinate;
  p_level : Z;
  p_socket_path : string;
  p_alive : bool;
}.

#[export] Instance set_p_alive : Setter p_alive := fun f p =>
  mkPeerInfo (p_coord p) (p_level p) (p_socket_path p) (f (p_alive p)).

#[export] Instance peer_info_eq_dec : EqDecision PeerInfo.
Proof. solve_decision. Defined.

Record CoordLevelKey := mkKey { k_coord : LinquCoordinate; k_level : Z }.

#[export] Instance key_eq_dec : EqDecision CoordLevelKey.
Proof. solve_decision. Defined.

#[export] Instance coord_countable : Countable LinquCoordinate.
Proof.
  apply (inj_countable'
    (fun c => (l6_idx c, l5_idx c, l4_idx c, l3_idx c, l2_idx c, l1_idx c, l0_idx c))
    (fun '(a6, a5, a4, a3, a2, a1, a0) => mkCoord a6 a5 a4 a3 a2 a1 a0)).
  by intros [].
Defined.

#[export] Instance key_countable : Countable CoordLevelKey.
Proof.
  apply (inj_countable' (fun k => (k_coord k, k_level k)) (fun '(c, l) => mkKey c l)).
  by intros [].
Defined.

(** [CoordLevelKey::operator<] *)
Definition key_less (a b : CoordLevelKey) : bool :=
  if negb (k_level a =? k_level b) then k_level a <? k_level b
  else coord_ltb (k_coord a) (k_coord b).
#[export] Instance key_ordered : KeyLess CoordLevelKey := key_less.

Lemma key_less_spec a b :
  kless a b = true <->
  k_level a < k_level b \/ (k_level a = k_level b /\ coord_lt (k_coord a) (k_coord b)).
Proof. apply lex_ltb_true. Qed.

#[export] Instance key_less_laws : KeyLessLaws CoordLevelKey.
Proof.
  split.
  - intros a. apply not_true_iff_false. rewrite key_less_spec.
    intros [?|[_ []%coord_lt_irrefl]]. lia.
  - intros a b c. rewrite !key_less_spec. intros [?|[? ?]] [?|[? ?]]; [left; lia..|].
    right. split; [lia|]. by etrans.
  - intros [ca la] [cb lb]. rewrite <- !not_true_iff_false, !key_less_spec. simpl.
    intros H1 H2. assert (la = lb) as -> by lia. f_equal.
    destruct (coord_lt_total ca cb) as [?|[?|?]]; [|done|]; tauto.
Qed.

Definition PeerRegistry := list (CoordLevelKey * PeerInfo).

Definition add (peer : PeerInfo) (r : PeerRegistry) : PeerRegistry :=
  map_assign (mkKey (p_coord peer) (p_level peer)) peer r.

Definition remove (coord : LinquCoordinate) (level : Z) (r : PeerRegistry) : PeerRegistry :=
  map_erase (mkKey coord level) r.

Definition set_alive (coord : LinquCoordinate) (level : Z) (alive : bool) (r : PeerRegistry)
    : PeerRegistry :=
  map_update (mkKey coord level) (fun p => p <| p_alive := alive |>) r.

(** The results of the two queries are the entries for which the loop body
    reaches [push_back]. *)
Definition at_level (level : Z) (e : CoordLevelKey * PeerInfo) : bool :=
  (k_level e.1 =? level) && p_alive e.2.

Definition peers_at_level (level : Z) (r : PeerRegistry) : list PeerInfo :=
  snd <$> filter (fun e => Is_true (at_level level e)) r.

(** The loop [for (int lv = 6; lv > child_level; lv--)], [n] levels from [lv]. *)
Fixpoint same_parent_loop (n : nat) (lv : Z) (a b : LinquCoordinate) : bool :=
  match n with
  | O => true
  | S n =>
      if negb (index_at lv a =? index_at lv b) then false
      else same_parent_loop n (lv - 1) a b
  end.

Definition same_parent (self : LinquCoordinate) (child_level : Z) (e : CoordLevelKey * PeerInfo)
    : bool :=
  if negb (k_level e.1 =? child_level) || negb (p_alive e.2) then false
  else same_parent_loop (Z.to_nat (6 - child_level)) 6 (p_coord e.2) self.

Definition peers_same_parent (self : LinquCoordinate) (child_level : Z) (r : PeerRegistry)
    : list PeerInfo :=
  snd <$> filter (fun e => Is_true (same_parent self child_level e)) r.

Definition all_peers (r : PeerRegistry) : list PeerInfo := snd <$> r.
Definition count (r : PeerRegistry) : Z := zlength r.
Definition clear (r : PeerRegistry) : PeerRegistry := [].

(** ** The invariant: every peer is under its own key, in the order of the keys *)
Definition key_of (p : PeerInfo) : CoordLevelKey := mkKey (p_coord p) (p_level p).

Definition registry_ok (r : PeerRegistry) : Prop :=
  sorted r /\ Forall (fun kp => kp.1 = key_of kp.2) r.

Lemma Forall_assign (P : CoordLevelKey * PeerInfo -> Prop) k v r :
  (forall k', kless k k' = false -> kless k' k = false -> P (k', v)) -> P (k, v) ->
  Forall P r -> Forall P (map_assign k v r).
Proof.
  intros He Hk. induction 1 as [|[a w] r Ha Hr IH]; simpl; [by constructor|].
  destruct (kless k a) eqn:E1; [by repeat constructor|].
  destruct (kless a k) eqn:E2; constructor; auto.
Qed.

Lemma add_ok p r : registry_ok r -> registry_ok (add p r).
Proof.
  intros [Hs Hk]. split; [by apply sorted_assign|]. apply Forall_assign; [|done|done].
  intros k' E1 E2. simpl. symmetry. by apply kless_total.
Qed.

Lemma remove_ok c l r : registry_ok r -> registry_ok (remove c l r).
Proof.
  intros [Hs Hk]. split; [by apply sorted_erase|]. clear Hs. unfold remove.
  induction Hk as [|[a w] r Ha Hr IH]; simpl; [done|].
  destruct (kless (mkKey c l) a), (kless a (mkKey c l)); by repeat constructor.
Qed.

Lemma set_alive_ok c l b r : registry_ok r -> registry_ok (set_alive c l b r).
Proof.
  intros [Hs Hk]. split; [by apply sorted_update|]. clear Hs. unfold set_alive.
  induction Hk as [|[a w] r Ha Hr IH]; simpl; [done|].
  destruct (kless (mkKey c l) a), (kless a (mkKey c l)); by repeat constructor.
Qed.

(** A query returns the entries that satisfy its test, in the order of the map. *)
Lemma query_elem (test : CoordLevelKey * PeerInfo -> bool) r p :
  registry_ok r ->
  p ∈ snd <$> filter (fun kp => Is_true (test kp)) r <->
    view r !! key_of p = Some p /\ test (key_of p, p) = true.
Proof.
  intros [Hs Hk]. rewrite view_elem, list_elem_of_fmap by done. split.
  - intros ([k q] & -> & [Ht Hin]%list_elem_of_filter). simpl.
    rewrite Forall_forall in Hk. pose proof (Hk _ Hin) as Hq. simpl in Hq. subst k.
    split; [done|]. by apply Is_true_true.
  - intros [Hin Ht]. exists (key_of p, p). split; [done|].
    apply list_elem_of_filter. split; [by apply Is_true_true|done].
Qed.

Lemma StronglySorted_filter {A} (R : A -> A -> Prop) (P : A -> Prop) `{!forall x, Decision (P x)} l :
  StronglySorted R l -> StronglySorted R (filter P l).
Proof.
  induction 1 as [|x l Hs IH Hf]; [constructor|]. rewrite filter_cons. case_decide; [|done].
  constructor; [done|]. rewrite Forall_forall in *. intros y [_ Hy]%list_elem_of_filter. auto.
Qed.

(** The peers of one level come in the order of their coordinates. *)
Lemma query_sorted (test : CoordLevelKey * PeerInfo -> bool) level r :
  registry_ok r -> (forall k p, test (k, p) = true -> k_level k = level) ->
  StronglySorted coord_lt (p_coord <$> (snd <$> filter (fun kp => Is_true (test kp)) r)).
Proof.
  intros [Hs Hk] Ht. rewrite <- list_fmap_compose.
  assert (Hs' : StronglySorted before (filter (fun kp => Is_true (test kp)) r))
    by (by apply StronglySorted_filter).
  assert (Hl : Forall (fun kp => kp.1 = key_of kp.2 /\ k_level kp.1 = level)
    (filter (fun kp => Is_true (test kp)) r)).
  { rewrite Forall_forall in Hk |- *. intros [k p] [Hp Hin]%list_elem_of_filter.
    split; [by apply (Hk (k, p))|]. apply (Ht k p). by apply Is_true_true. }
  clear Hs. induction Hs' as [|[k p] l Hs IH Hf]; [constructor|]. apply Forall_cons in Hl as [[Hkp Hlp] Hl].
  simpl in *. constructor; [by apply IH|]. rewrite Forall_fmap, Forall_forall.
  rewrite Forall_forall in Hl, Hf. intros [k' p'] Hin. simpl.
  destruct (Hl _ Hin) as [Hk' Hl']. pose proof (proj1 (key_less_spec _ _) (Hf _ Hin)) as Hb.
  simpl in *. subst k k'. simpl in *. destruct Hb as [?|[_ ?]]; [lia|done].
Qed.

Lemma same_parent_loop_spec n lv a b :
  same_parent_loop n lv a b = true <->
  forall l, lv - Z.of_nat n < l <= lv -> index_at l a = index_at l b.
Proof.
  revert lv. induction n as [|n IH]; intros lv; simpl; [split; [intros _ l; lia|done]|].
  destruct (Z.eqb_spec (index_at lv a) (index_at lv b)) as [He|He]; simpl.
  - rewrite IH. split; intros H l Hl; [|apply H; lia].
    destruct (decide (l = lv)) as [->|]; [done|apply H; lia].
  - split; [done|]. intros H. exfalso. apply He, H. lia.
Qed.

Lemma at_level_spec level k p :
  at_level level (k, p) = true <-> k_level k = level /\ p_alive p = true.
Proof. unfold at_level. simpl. by rewrite andb_true_iff, Z.eqb_eq. Qed.

Lemma same_parent_spec self child k p : child <= 6 ->
  same_parent self child (k, p) = true <->
  k_level k = child /\ p_alive p = true /\
  forall l, child < l <= 6 -> index_at l (p_coord p) = index_at l self.
Proof.
  intros Hc. unfold same_parent. cbn [fst snd].
  destruct (Z.eqb_spec (k_level k) child), (p_alive p); simpl; try (split; [done|tauto]).
  rewrite same_parent_loop_spec, Z2Nat.id by lia. replace (6 - (6 - child)) with child by lia. tauto.
Qed.

(** The index of a level at its full width. *)
Definition full_index (l : Z) (c : LinquCoordinate) : Z :=
  match l with
  | 0 => l0_idx c | 1 => l1_idx c | 2 => l2_idx c | 3 => l3_idx c
  | 4 => l4_idx c | 5 => l5_idx c | 6 => l6_idx c | _ => 0
  end.

Lemma index_at_above_host l c : 3 < l <= 6 -> index_at l c = full_index l c.
Proof.
  intros. assert (l = 4 \/ l = 5 \/ l = 6) as [-> |[-> | ->]] by lia; done.
Qed.

(** ** Properties *)

(** C32.  The registry is a finite map from coordinate and level to peer.
    Every operation keeps the nodes of the [std::map] in the order of their
    keys and every peer under its own key; on the finite map, [add] is an
    insertion that replaces what was known of the peer, [remove] a deletion,
    [set_alive] a change of the peer's flag where the peer is known and
    nothing otherwise, [clear] empties it, and [count] is its size. *)
Theorem peer_registry_refines_map r :
  registry_ok r ->
  (forall p, registry_ok (add p r) /\ view (add p r) = <[key_of p := p]> (view r)) /\
  (forall c l, registry_ok (remove c l r) /\ view (remove c l r) = delete (mkKey c l) (view r)) /\
  (forall c l b, registry_ok (set_alive c l b r) /\
     view (set_alive c l b r) = alter (fun p => p <| p_alive := b |>) (mkKey c l) (view r)) /\
  (registry_ok (clear r) /\ view (clear r) = ∅) /\
  count r = Z.of_nat (size (view r)) /\
  (forall p, p ∈ all_peers r <-> view r !! key_of p = Some p).
Proof.
  intros Hr. pose proof Hr as [Hs Hk]. split_and!.
  - intros p. split; [by apply add_ok|apply view_assign].
  - intros c l. split; [by apply remove_ok|by apply view_erase].
  - intros c l b. split; [by apply set_alive_ok|by apply view_update].
  - split; constructor.
  - done.
  - unfold count, zlength. by rewrite view_size.
  - intros p. rewrite view_elem by done. unfold all_peers. rewrite list_elem_of_fmap. split.
    + intros ([k q] & -> & Hin). rewrite Forall_forall in Hk.
      pose proof (Hk _ Hin) as Hq. simpl in *. by subst k.
    + intros Hin. by exists (key_of p, p).
Qed.

Definition sample_peer (l3 level : Z) : PeerInfo :=
  mkPeerInfo (mkCoord 0 1 2 l3 0 0 0) level "/tmp/cluster/daemon.sock" true.

(** Two hosts and a pod, added out of order. *)
Definition sample_registry : PeerRegistry :=
  add (sample_peer 7 3) (add (sample_peer 0 4) (add (sample_peer 9 3) [])).

Lemma sample_registry_ok : registry_ok sample_registry.
Proof. repeat apply add_ok. split; constructor. Qed.

Lemma peer_registry_refines_map_witness :
  view (set_alive (mkCoord 0 1 2 9 0 0 0) 3 false sample_registry) !! mkKey (mkCoord 0 1 2 9 0 0 0) 3 =
    Some ((sample_peer 9 3) <| p_alive := false |>).
Proof.
  destruct (peer_registry_refines_map sample_registry sample_registry_ok)
    as (_ & _ & Ha & _).
  rewrite (proj2 (Ha (mkCoord 0 1 2 9 0 0 0) 3 false)). reflexivity.
Defined.

(** The queries select the right peers.  [peers_at_level] returns the
    living peers of the level and no others, in the order of their
    coordinates; [peers_same_parent] those of them that have the same index
    as [self] at every level above, where an index counts modulo 256.  From
    the host level upwards, where the indices above have eight bits, that is
    the same parent. *)
Theorem peer_queries_select r level self p :
  registry_ok r -> 0 <= level <= 6 ->
  (p ∈ peers_at_level level r <->
     view r !! key_of p = Some p /\ p_level p = level /\ p_alive p = true) /\
  StronglySorted coord_lt (p_coord <$> peers_at_level level r) /\
  (p ∈ peers_same_parent self level r <->
     p ∈ peers_at_level level r /\
     forall l, level < l <= 6 -> index_at l (p_coord p) = index_at l self) /\
  StronglySorted coord_lt (p_coord <$> peers_same_parent self level r) /\
  (3 <= level -> p ∈ peers_same_parent self level r <->
     p ∈ peers_at_level level r /\
     forall l, level < l <= 6 -> full_index l (p_coord p) = full_index l self).
Proof.
  intros Hr Hl.
  assert (Hp : p ∈ peers_at_level level r <->
    view r !! key_of p = Some p /\ p_level p = level /\ p_alive p = true).
  { unfold peers_at_level. by rewrite query_elem, at_level_spec. }
  assert (Hq : p ∈ peers_same_parent self level r <->
    p ∈ peers_at_level level r /\
    forall l, level < l <= 6 -> index_at l (p_coord p) = index_at l self).
  { unfold peers_same_parent. rewrite query_elem, same_parent_spec, Hp by (done || lia). simpl. tauto. }
  split_and!; [exact Hp| |exact Hq| |].
  - apply (query_sorted _ level); [done|]. intros k q. rewrite at_level_spec. tauto.
  - apply (query_sorted _ level); [done|]. intros k q. rewrite same_parent_spec by lia. tauto.
  - intros Hh. rewrite Hq. split; intros [Hin He]; (split; [done|]); intros l Hll; specialize (He l Hll);
      rewrite !index_at_above_host in * by lia; done.
Qed.

Lemma peer_queries_select_witness :
  sample_peer 9 3 ∈ peers_same_parent (mkCoord 0 1 2 3 0 0 0) 3 sample_registry.
Proof.
  assert (Hl : 0 <= 3 <= 6) by lia. assert (Hh : 3 <= 3) by lia.
  destruct (peer_queries_select sample_registry 3 (mkCoord 0 1 2 3 0 0 0) (sample_peer 9 3)
    sample_registry_ok Hl) as (Hp & _ & _ & _ & Hq).
  apply Hq; [exact Hh|]. split; [apply Hp; split_and!; reflexivity|].
  intros l Hll. assert (l = 4 \/ l = 5 \/ l = 6) as [-> |[-> | ->]] by lia; reflexivity.
Defined.

(** Below the host level [index_at] drops the high byte of [l3_idx]: chips of
    host 1 and of host 257 count as having the same parent. *)
Lemma peers_of_two_hosts_mixed :
  peers_same_parent (mkCoord 0 0 0 1 0 0 0) 2 (add (sample_peer 257 2) (add (sample_peer 1 2) [])) =
    [] /\
  peers_same_parent (mkCoord 0 1 2 1 0 0 0) 2 (add (sample_peer 257 2) (add (sample_peer 1 2) [])) =
    [sample_peer 1 2; sample_peer 257 2].
Proof. split; reflexivity. Qed.
