(* ===== verification/FilesystemDiscovery.v ===== *)
(** * FilesystemDiscovery: finding the sockets of the cluster

    Models [src/src/discovery/filesystem_discovery.h] and
    [filesystem_discovery.cpp].  The file system is known by its answers: a
    [node] is what [lstat] and [opendir]/[readdir] say about a path, the
    entries of a directory in the order of [readdir].

    The two regular expressions are matched directly: [daemon_L(\d+)\.sock]
    on the whole file name, and [L(\d+)_(\d+)] at the leftmost position where
    it matches, again and again behind the last match.  A group of digits
    takes all the digits there are; no shorter choice could match, since what
    follows a group is not a digit. *)

From S2P Require Import Prelude Paths Bytes Coordinate StdMap PeerRegistry UnixSocketTransport.

(** ** The file system *)
Inductive node :=
  | Directory (es : entries)
  | UnreadableDirectory
  | Socket
  | OtherFile
  | Vanished
with entries :=
  | NoMore
  | Entry (d_name : string) (n : node) (rest : entries).

(** ** Matching *)
Fixpoint span_digits (s : string) : string * string :=
  match s with
  | EmptyString => ("", "")
  | String c s' =>
      if is_digit c then let '(d, r) := span_digits s' in (String c d, r) else ("", s)
  end.

Fixpoint strip_prefix (pre s : string) : option string :=
  match pre, s with
  | EmptyString, _ => Some s
  | String c pre, String d s => if Ascii.eqb c d then strip_prefix pre s else None
  | String _ _, EmptyString => None
  end.

(** [regex_match(fname, m, sock_re)]: the digits of [m[1]]. *)
Definition sock_re_match (fname : string) : option string :=
  match strip_prefix "daemon_L" fname with
  | Some s =>
      let '(d, r) := span_digits s in
      if negb (String.eqb d "") && String.eqb r ".sock" then Some d else None
  | None => None
  end.

(** [coord_re] at the start of [s]: the two groups and what follows. *)
Definition coord_re_here (s : string) : option (string * string * string) :=
  match s with
  | String c s =>
      if negb (Ascii.eqb c "L") then None else
      let '(d, r) := span_digits s in
      if String.eqb d "" then None else
      match r with
      | String c r =>
          if negb (Ascii.eqb c "_") then None else
          let '(e, r) := span_digits r in
          if String.eqb e "" then None else Some (d, e, r)
      | EmptyString => None
      end
  | EmptyString => None
  end.

Fixpoint coord_re_search (fuel : nat) (s : string) : list (string * string) :=
  match fuel with
  | O => []
  | S fuel =>
      match coord_re_here s with
      | Some (d, e, r) => (d, e) :: coord_re_search fuel r
      | None => match s with EmptyString => [] | String _ s => coord_re_search fuel s end
      end
  end.

(** Every search consumes a character. *)
Definition coord_matches (s : string) : list (string * string) :=
  coord_re_search (S (String.length s)) s.

(** The [switch] of [parse_socket_path]. *)
Definition set_index (lv idx : Z) (c : LinquCoordinate) : LinquCoordinate :=
  let '(mkCoord a6 a5 a4 a3 a2 a1 a0) := c in
  match lv with
  | 6 => mkCoord (u8 idx) a5 a4 a3 a2 a1 a0
  | 5 => mkCoord a6 (u8 idx) a4 a3 a2 a1 a0
  | 4 => mkCoord a6 a5 (u8 idx) a3 a2 a1 a0
  | 3 => mkCoord a6 a5 a4 (u16 idx) a2 a1 a0
  | 2 => mkCoord a6 a5 a4 a3 (u16 idx) a1 a0
  | 1 => mkCoord a6 a5 a4 a3 a2 (u8 idx) a0
  | 0 => mkCoord a6 a5 a4 a3 a2 a1 (u16 idx)
  | _ => c
  end.

Fixpoint read_indices (ms : list (string * string)) (c : LinquCoordinate) : outcome LinquCoordinate :=
  match ms with
  | [] => Ok c
  | (d, e) :: ms =>
      let! lv := atoi d in
      let! idx := atoi e in
      read_indices ms (set_index lv idx c)
  end.

Definition parse_socket_path (path : string) : outcome (option (LinquCoordinate * Z)) :=
  match split_last_slash path with
  | None => Ok None
  | Some (dir_part, fname) =>
      match sock_re_match fname with
      | None => Ok None
      | Some d =>
          let! n := atoi d in
          let! coord := read_indices (coord_matches dir_part) zero_coord in
          Ok (Some (coord, u8 n))
      end
  end.

(** ** The scan *)
Definition register_socket (full : string) (st : PeerRegistry * Z) : outcome (PeerRegistry * Z) :=
  let! r := parse_socket_path full in
  match r with
  | Some (coord, level) =>
      let! count := i32_add st.2 1 in
      Ok (add (mkPeerInfo coord level full true) st.1, count)
  | None => Ok st
  end.

Definition starts_with_dot (name : string) : bool :=
  match name with String c _ => Ascii.eqb c "." | EmptyString => false end.

(** [name.find("daemon_L") == 0] *)
Definition daemon_name (name : string) : bool :=
  match strip_prefix "daemon_L" name with Some _ => true | None => false end.

Fixpoint scan_dir (dir : string) (n : node) (st : PeerRegistry * Z) : outcome (PeerRegistry * Z) :=
  match n with
  | Directory es => scan_entries dir es st
  | _ => Ok st
  end
with scan_entries (dir : string) (es : entries) (st : PeerRegistry * Z) : outcome (PeerRegistry * Z) :=
  match es with
  | NoMore => Ok st
  | Entry name n rest =>
      let! st :=
        if starts_with_dot name then Ok st else
        let full := dir +:+ "/" +:+ name in
        match n with
        | Vanished => Ok st
        | Directory _ | UnreadableDirectory => scan_dir full n st
        | Socket => register_socket full st
        | OtherFile => if daemon_name name then register_socket full st else Ok st
        end in
      scan_entries dir rest st
  end.

(** [discover]: the new registry and the number of sockets. *)
Definition discover (base_path : string) (root : node) (registry : PeerRegistry)
    : outcome (PeerRegistry * Z) :=
  scan_dir base_path root (registry, 0).

(** ** Matching, piece by piece *)
Lemma span_digits_eq d t : all_digits d = true -> stops t = true -> span_digits (d +:+ t) = (d, t).
Proof.
  intros Hd Ht. induction d as [|c d IH].
  - rewrite sapp_nil_l. destruct t as [|c t]; [done|]. simpl in *. by destruct (is_digit c).
  - simpl in Hd. apply andb_true_iff in Hd as [Hc Hd]. rewrite sapp_cons. simpl.
    by rewrite Hc, (IH Hd).
Qed.

Lemma span_digits_length s : (String.length (span_digits s).2 <= String.length s)%nat.
Proof.
  induction s as [|c s IH]; simpl; [done|]. destruct (is_digit c); [|done].
  destruct (span_digits s); simpl in *; lia.
Qed.

Lemma span_digits_slash s t :
  span_digits (s +:+ String "/" t) = ((span_digits s).1, (span_digits s).2 +:+ String "/" t).
Proof.
  induction s as [|c s IH]; [done|]. rewrite sapp_cons. simpl. destruct (is_digit c); [|done].
  rewrite IH. by destruct (span_digits s).
Qed.

Definition add_rest (t : string) (m : string * string * string) : string * string * string :=
  (m.1, m.2 +:+ t).

(** A match that starts before a slash ends before it. *)
Lemma coord_re_here_slash s t :
  s <> "" -> coord_re_here (s +:+ String "/" t) = add_rest (String "/" t) <$> coord_re_here s.
Proof.
  destruct s as [|c s]; [done|]. intros _. rewrite sapp_cons. unfold coord_re_here.
  destruct (negb (Ascii.eqb c "L")); [done|]. rewrite span_digits_slash.
  destruct (span_digits s) as [d r]. cbn [fst snd]. destruct (String.eqb d ""); [done|].
  destruct r as [|c' r]; [done|]. rewrite sapp_cons.
  destruct (negb (Ascii.eqb c' "_")); [done|].
  rewrite span_digits_slash. destruct (span_digits r) as [e r']. cbn [fst snd].
  by destruct (String.eqb e "").
Qed.

Lemma coord_re_here_shorter s d e r :
  coord_re_here s = Some (d, e, r) -> (String.length r < String.length s)%nat.
Proof.
  destruct s as [|c s]; [done|]. unfold coord_re_here.
  destruct (negb (Ascii.eqb c "L")); [done|]. pose proof (span_digits_length s) as Hl.
  destruct (span_digits s) as [d' r']. cbn [snd] in Hl. destruct (String.eqb d' ""); [done|].
  destruct r' as [|c' r']; [done|]. destruct (negb (Ascii.eqb c' "_")); [done|].
  pose proof (span_digits_length r') as Hl'. destruct (span_digits r') as [e' r'']. cbn [snd] in Hl'.
  destruct (String.eqb e' ""); [done|]. intros [= <- <- <-]. simpl in *. lia.
Qed.

(** More fuel than characters changes nothing. *)
Lemma coord_re_search_fuel n m s :
  (String.length s < n)%nat -> (String.length s < m)%nat ->
  coord_re_search n s = coord_re_search m s.
Proof.
  revert m s. induction n as [|n IH]; intros [|m] s Hn Hm; try lia. simpl.
  destruct (coord_re_here s) as [[[d e] r]|] eqn:E.
  - f_equal. apply coord_re_here_shorter in E. apply IH; lia.
  - destruct s as [|c s]; [done|]. simpl in *. apply IH; lia.
Qed.

Lemma coord_matches_step s :
  coord_matches s =
    match coord_re_here s with
    | Some (d, e, r) => (d, e) :: coord_matches r
    | None => match s with EmptyString => [] | String _ s => coord_matches s end
    end.
Proof.
  unfold coord_matches at 1. cbn [coord_re_search]. unfold coord_matches.
  destruct (coord_re_here s) as [[[d e] r]|] eqn:E.
  - f_equal. apply coord_re_here_shorter in E. apply coord_re_search_fuel; lia.
  - by destruct s.
Qed.

(** The directories of a path are searched one by one. *)
Lemma coord_matches_slash s t :
  coord_matches (s +:+ String "/" t) = coord_matches s ++ coord_matches t.
Proof.
  remember (String.length s) as n eqn:Hn. revert s Hn.
  induction (lt_wf n) as [n _ IH]. intros s ->.
  destruct s as [|c s]; [by rewrite sapp_nil_l, coord_matches_step|].
  rewrite coord_matches_step, coord_re_here_slash by done.
  rewrite (coord_matches_step (String c s)).
  destruct (coord_re_here (String c s)) as [[[d e] r]|] eqn:E; cbn [fmap option_fmap option_map add_rest fst snd].
  - apply coord_re_here_shorter in E. simpl. f_equal. by eapply IH.
  - rewrite sapp_cons. eapply IH; [|done]. simpl. lia.
Qed.

(** ** The path of a node *)

(** [dir/d1/d2/...] *)
Definition join (dir : string) (ds : list string) : string :=
  fold_left (fun p d => p +:+ "/" +:+ d) ds dir.

Definition node_dirs (c : LinquCoordinate) (level : Z) : list string :=
  ["L6_" +:+ std_to_string (l6_idx c)] ++
  (if level <=? 5 then ["L5_" +:+ std_to_string (l5_idx c)] else []) ++
  (if level <=? 4 then ["L4_" +:+ std_to_string (l4_idx c)] else []) ++
  (if level <=? 3 then ["L3_" +:+ std_to_string (l3_idx c)] else []).

Lemma join_cons dir d ds : join dir (d :: ds) = join (dir +:+ "/" +:+ d) ds.
Proof. done. Qed.

Lemma join_app dir ds es : join dir (ds ++ es) = join (join dir ds) es.
Proof. apply fold_left_app. Qed.

Lemma coord_matches_join ds : forall dir,
  coord_matches (join dir ds) = coord_matches dir ++ concat (coord_matches <$> ds).
Proof.
  induction ds as [|d ds IH]; intros dir; [symmetry; apply app_nil_r|].
  rewrite join_cons, IH. cbn [fmap list_fmap concat]. change ("/" +:+ d) with (String "/" d).
  by rewrite coord_matches_slash, app_assoc.
Qed.

Lemma coord_matches_dir (x : ascii) n :
  is_digit x = true ->
  coord_matches (String "L" (String x "_") +:+ std_to_string n) = [(String x "", std_to_string n)].
Proof.
  intros Hx. rewrite coord_matches_step, !sapp_cons, sapp_nil_l. unfold coord_re_here. simpl.
  rewrite Hx. simpl.
  pose proof (span_digits_eq (std_to_string n) "" (all_digits_std_to_string n) eq_refl) as Hn.
  rewrite sapp_nil_r in Hn. rewrite Hn.
  destruct (String.eqb_spec (std_to_string n) "") as [He|_]; [by destruct (std_to_string_nonempty n)|].
  done.
Qed.

Lemma atoi_digit_levels :
  atoi "6" = Ok 6 /\ atoi "5" = Ok 5 /\ atoi "4" = Ok 4 /\ atoi "3" = Ok 3.
Proof. done. Qed.

(** The directories of a node give back the indices they were made from. *)
Lemma read_node_dirs c level :
  coord_ok c ->
  read_indices (concat (coord_matches <$> node_dirs c level)) zero_coord = Ok (visible level c).
Proof.
  intros (H6 & H5 & H4 & H3 & _). destruct atoi_digit_levels as (A6 & A5 & A4 & A3).
  assert (Hr : forall x v n ms k, is_digit x = true -> atoi (String x "") = Ok v -> 0 <= n < 2 ^ 31 ->
    read_indices (coord_matches (String "L" (String x "_") +:+ std_to_string n) ++ ms) k =
    read_indices ms (set_index v n k)).
  { intros x v n ms k Hx Hv Hn. rewrite coord_matches_dir by done. simpl.
    rewrite Hv, atoi_std_to_string by done. done. }
  unfold node_dirs, visible. unfold_ints.
  destruct (level <=? 5), (level <=? 4), (level <=? 3); cbn [app fmap list_fmap concat];
    rewrite (Hr "6"%char 6) by (done || lia);
    try rewrite (Hr "5"%char 5) by (done || lia);
    try rewrite (Hr "4"%char 4) by (done || lia);
    try rewrite (Hr "3"%char 3) by (done || lia);
    simpl; unfold u8, u16; by rewrite ?Z.mod_small by lia.
Qed.

Lemma no_slash_app s t : no_slash (s +:+ t) = no_slash s && no_slash t.
Proof.
  induction s as [|c s IH]; [done|]. rewrite sapp_cons. simpl. by rewrite IH, andb_assoc.
Qed.

Lemma digits_no_slash s : all_digits s = true -> no_slash s = true.
Proof.
  induction s as [|c s IH]; simpl; [done|]. rewrite !andb_true_iff. intros [Hc Hs].
  split; [|by apply IH]. destruct (Ascii.eqb_spec c "/") as [->|]; [|done].
  by vm_compute in Hc.
Qed.

Lemma file_name_no_slash level : no_slash (file_name level) = true.
Proof.
  unfold file_name. rewrite !no_slash_app, (digits_no_slash _ (all_digits_std_to_string level)). done.
Qed.

Lemma strip_prefix_app pre s : strip_prefix pre (pre +:+ s) = Some s.
Proof.
  induction pre as [|c pre IH]; [done|]. rewrite sapp_cons. simpl. by rewrite Ascii.eqb_refl.
Qed.

Lemma sock_re_match_file level : sock_re_match (file_name level) = Some (std_to_string level).
Proof.
  unfold sock_re_match, file_name. rewrite strip_prefix_app.
  rewrite span_digits_eq by (done || apply all_digits_std_to_string).
  destruct (String.eqb_spec (std_to_string level) "") as [He|_]; [|done].
  by destruct (std_to_string_nonempty level).
Qed.

(** The socket of a node below a directory that shows no coordinates. *)
Lemma parse_node_path dir c level :
  coord_ok c -> in_u8 level -> coord_matches dir = [] ->
  parse_socket_path (join dir (node_dirs c level ++ [file_name level])) =
    Ok (Some (visible level c, level)).
Proof.
  intros Hc Hl Hd. rewrite join_app. unfold parse_socket_path.
  change (join (join dir (node_dirs c level)) [file_name level]) with
    (join dir (node_dirs c level) +:+ String "/" (file_name level)).
  rewrite split_last_slash_eq by apply file_name_no_slash.
  rewrite sock_re_match_file, atoi_std_to_string by (unfold_ints; lia). bind_simpl.
  rewrite coord_matches_join, Hd, app_nil_l, read_node_dirs by done. bind_simpl. by rewrite u8_id.
Qed.

(** ** The scan as a list of sockets *)

(** The paths the scan looks at, in its order. *)
Fixpoint sockets (dir : string) (n : node) : list string :=
  match n with Directory es => entry_sockets dir es | _ => [] end
with entry_sockets (dir : string) (es : entries) : list string :=
  match es with
  | NoMore => []
  | Entry name n rest =>
      (if starts_with_dot name then [] else
       match n with
       | Vanished => []
       | Directory _ | UnreadableDirectory => sockets (dir +:+ "/" +:+ name) n
       | Socket => [dir +:+ "/" +:+ name]
       | OtherFile => if daemon_name name then [dir +:+ "/" +:+ name] else []
       end) ++ entry_sockets dir rest
  end.

Fixpoint register_all (ps : list string) (st : PeerRegistry * Z) : outcome (PeerRegistry * Z) :=
  match ps with
  | [] => Ok st
  | p :: ps => let! st := register_socket p st in register_all ps st
  end.

Lemma register_all_app ps qs st :
  register_all (ps ++ qs) st = (let! st := register_all ps st in register_all qs st).
Proof.
  revert st. induction ps as [|p ps IH]; intros st; [done|]. simpl.
  destruct (register_socket p st); simpl; [apply IH|done].
Qed.

Scheme node_mut := Induction for node Sort Prop
  with entries_mut := Induction for entries Sort Prop.
Combined Scheme node_entries_ind from node_mut, entries_mut.

Lemma scan_is_register_all :
  (forall n dir st, scan_dir dir n st = register_all (sockets dir n) st) /\
  (forall es dir st, scan_entries dir es st = register_all (entry_sockets dir es) st).
Proof.
  apply node_entries_ind; try done.
  intros name n IHn rest IHr dir st. cbn [scan_entries entry_sockets].
  rewrite register_all_app.
  assert (Hk : forall m m' : outcome (PeerRegistry * Z), m = m' ->
    (let! st := m in scan_entries dir rest st) =
    (let! st := m' in register_all (entry_sockets dir rest) st))
    by (intros m m' ->; destruct m'; simpl; auto).
  assert (Hone : forall p, register_socket p st = register_all [p] st)
    by (intros p; simpl; by destruct (register_socket p st)).
  apply Hk. destruct (starts_with_dot name); [done|].
  destruct n; auto. destruct (daemon_name name); auto.
Qed.

(** The last of the paths that name the node of a key. *)
Definition names_key (k : CoordLevelKey) (p : string) : bool :=
  match parse_socket_path p with
  | Ok (Some (c, l)) => bool_decide (mkKey c l = k)
  | _ => false
  end.

Definition last_socket (k : CoordLevelKey) (ps : list string) : option string :=
  last (filter (fun p => Is_true (names_key k p)) ps).

Definition is_socket (p : string) : bool :=
  match parse_socket_path p with Ok (Some _) => true | _ => false end.

Definition found (k : CoordLevelKey) (p : string) : PeerInfo :=
  mkPeerInfo (k_coord k) (k_level k) p true.

Definition expected (k : CoordLevelKey) (ps : list string) (r : PeerRegistry) : option PeerInfo :=
  match last_socket k ps with Some p => Some (found k p) | None => view r !! k end.

Lemma filter_bool_cons {A} (f : A -> bool) (x : A) (l : list A) :
  filter (fun y => Is_true (f y)) (x :: l) =
    if f x then x :: filter (fun y => Is_true (f y)) l else filter (fun y => Is_true (f y)) l.
Proof. rewrite filter_cons. case_decide as Hd; by destruct (f x). Qed.

Lemma last_socket_cons k p ps :
  last_socket k (p :: ps) =
    match last_socket k ps with
    | Some q => Some q
    | None => if names_key k p then Some p else None
    end.
Proof.
  unfold last_socket. rewrite filter_bool_cons.
  destruct (names_key k p); [apply last_cons|by destruct (last _)].
Qed.

Lemma register_all_spec ps : forall r n r' n',
  registry_ok r -> register_all ps (r, n) = Ok (r', n') ->
  registry_ok r' /\ n' = n + zlength (filter (fun p => Is_true (is_socket p)) ps) /\
  forall k, view r' !! k = expected k ps r.
Proof.
  induction ps as [|p ps IH]; intros r n r' n' Hr H; simpl in H.
  - injection H as <- <-. split_and!; [done|unfold zlength; simpl; lia|done].
  - apply bind_Ok in H as ([r1 n1] & H1 & H). unfold register_socket in H1.
    apply bind_Ok in H1 as (o & Hp & H1). rewrite filter_bool_cons.
    assert (Hn : forall k, names_key k p =
      match o with Some (c, l) => bool_decide (mkKey c l = k) | None => false end)
      by (intros k; unfold names_key; rewrite Hp; by destruct o as [[]|]).
    assert (is_socket p = match o with Some _ => true | None => false end) as ->
      by (unfold is_socket; by rewrite Hp).
    destruct o as [[c l]|].
    + apply bind_Ok in H1 as (m & Hm & [= <- <-]). cbn [fst snd] in *.
      assert (m = n + 1) as ->
        by (unfold i32_add in Hm; destruct (i32_range (n + 1)); congruence).
      destruct (IH _ _ _ _ (add_ok (mkPeerInfo c l p true) r Hr) H) as (? & -> & Hv).
      split; [done|]. split; [rewrite zlength_cons; lia|].
      intros k. rewrite Hv. unfold expected. rewrite last_socket_cons, Hn.
      destruct (last_socket k ps); [done|]. unfold add. rewrite view_assign.
      case_bool_decide as Hk; [subst k; apply lookup_insert_eq|by apply lookup_insert_ne].
    + injection H1 as <- <-. destruct (IH _ _ _ _ Hr H) as (? & -> & Hv).
      split; [done|]. split; [done|].
      intros k. rewrite Hv. unfold expected. rewrite last_socket_cons, Hn.
      by destruct (last_socket k ps).
Qed.

Lemma register_all_total ps : forall r n,
  (forall p, p ∈ ps -> exists o, parse_socket_path p = Ok o) ->
  0 <= n -> n + zlength ps < 2 ^ 31 -> exists st, register_all ps (r, n) = Ok st.
Proof.
  induction ps as [|p ps IH]; intros r n Hp Hn Hl; [by eexists|]. cbn [register_all].
  destruct (Hp p) as [o Ho]; [set_solver|]. rewrite zlength_cons in Hl.
  pose proof (zlength_ge_0 ps). unfold register_socket. rewrite Ho. bind_simpl.
  destruct o as [[c l]|]; [|apply IH; [set_solver|lia..]].
  unfold i32_add. rewrite (proj2 (i32_range_spec (n + 1))) by (unfold_ints; lia). bind_simpl.
  apply IH; [set_solver|lia..].
Qed.

(** ** Files below a directory *)
Fixpoint find_entry (name : string) (es : entries) : option node :=
  match es with
  | NoMore => None
  | Entry d n rest => if String.eqb d name then Some n else find_entry name rest
  end.

Fixpoint lookup_path (ds : list string) (n : node) : option node :=
  match ds, n with
  | [], _ => Some n
  | d :: ds, Directory es => match find_entry d es with Some n => lookup_path ds n | None => None end
  | _, _ => None
  end.

Lemma sockets_lookup ds : forall dir n,
  Forall (fun d => starts_with_dot d = false) ds -> ds <> [] ->
  lookup_path ds n = Some Socket -> join dir ds ∈ sockets dir n.
Proof.
  induction ds as [|d ds IH]; intros dir n Hd Hne Hl; [done|]. apply Forall_cons in Hd as [Hd Hds].
  destruct n as [es| | | |]; try done. cbn [lookup_path sockets] in *. rewrite join_cons.
  induction es as [|d' n rest IHr]; [done|]. cbn [find_entry entry_sockets] in *.
  rewrite elem_of_app. destruct (String.eqb_spec d' d) as [->|]; [left|right; by apply IHr].
  rewrite Hd. destruct ds as [|d2 ds].
  - simpl in Hl. injection Hl as ->. set_solver.
  - assert (Hin : join (dir +:+ "/" +:+ d) (d2 :: ds) ∈ sockets (dir +:+ "/" +:+ d) n) by (by apply IH).
    destruct n; try done.
Qed.

Lemma last_socket_elem k p ps : p ∈ ps -> names_key k p = true ->
  exists q, last_socket k ps = Some q /\ q ∈ ps.
Proof.
  intros Hp Hk. unfold last_socket.
  assert (Hin : p ∈ filter (fun p => Is_true (names_key k p)) ps)
    by (apply list_elem_of_filter; by rewrite Hk).
  destruct (last (filter (fun p => Is_true (names_key k p)) ps)) as [q|] eqn:E.
  - exists q. split; [done|]. apply last_Some_elem_of in E. by apply list_elem_of_filter in E as [_ ?].
  - apply last_None in E. rewrite E in Hin. by apply not_elem_of_nil in Hin.
Qed.

(** The path the transport builds, as directories below the base. *)
Lemma path_tail_join dir c level :
  (dir +:+ "/") +:+ path_tail c level = join dir (node_dirs c level ++ [file_name level]).
Proof.
  unfold path_tail, node_dirs, dir_part, join.
  destruct (level <=? 5), (level <=? 4), (level <=? 3); cbn [app fold_left];
    by rewrite <- !sapp_assoc.
Qed.

Lemma ends_with_slash_split s : ends_with_slash s = true -> exists d, s = d +:+ "/".
Proof.
  induction s as [|c s IH]; [done|]. simpl. destruct s as [|c' s].
  - intros ->%Ascii.eqb_eq. by exists "".
  - intros [d ->]%IH. by exists (String c d).
Qed.

Lemma root_of_split base : coord_matches base = [] ->
  exists dir, root_of base = dir +:+ "/" /\ coord_matches dir = [].
Proof.
  intros Hq. unfold root_of.
  set (p := if String.eqb base "" then "/tmp/linqu" else base).
  assert (Hp : coord_matches p = []) by (unfold p; by destruct (String.eqb base "")).
  clearbody p. destruct (ends_with_slash p) eqn:E; simpl; [|by exists p].
  apply ends_with_slash_split in E as [d ->]. exists d. split; [done|].
  change "/" with (String "/" "") in Hp. rewrite coord_matches_slash in Hp.
  by apply app_eq_nil in Hp as [? _].
Qed.

Lemma node_names_visible c level :
  Forall (fun d => starts_with_dot d = false) (node_dirs c level ++ [file_name level]).
Proof.
  unfold node_dirs. destruct (level <=? 5), (level <=? 4), (level <=? 3); by repeat constructor.
Qed.

(** ** Properties *)

(** Discovery reads back what the transport writes: parsing the socket
    path of a node gives the node's level and its coordinate, as far as the
    path of that level shows it, for every base path in which no directory
    looks like a level. *)
Theorem socket_path_roundtrip base c level :
  coord_ok c -> in_u8 level -> coord_matches base = [] ->
  parse_socket_path (make_socket_path base c level) = Ok (Some (visible level c, level)).
Proof.
  intros Hc Hl (dir & Hd & Hq)%root_of_split.
  rewrite make_socket_path_eq, Hd, path_tail_join. by apply parse_node_path.
Qed.

Lemma socket_path_roundtrip_witness :
  parse_socket_path (make_socket_path "/var/run/Linqu_7/" (mkCoord 0 1 2 300 5 0 0) 3) =
    Ok (Some (mkCoord 0 1 2 300 0 0 0, 3)).
Proof.
  apply (socket_path_roundtrip "/var/run/Linqu_7/" (mkCoord 0 1 2 300 5 0 0) 3);
    [unfold coord_ok; unfold_ints; simpl; lia|unfold_ints; lia|reflexivity].
Defined.

(** C31.  What a scan does to the registry.  When no number in the names of
    the files overflows, the scan returns; the count is the number of socket
    names it could parse, every peer it found is in the registry under the
    node its path names, living and with the last of the paths that name it,
    all other entries are as they were; and every node whose socket lies at
    its place below the base is found. *)
Theorem discovery_complete base root r :
  registry_ok r -> zlength (sockets base root) < 2 ^ 31 ->
  (forall p, p ∈ sockets base root -> exists o, parse_socket_path p = Ok o) ->
  exists r' n, discover base root r = Ok (r', n) /\ registry_ok r' /\
    n = zlength (filter (fun p => Is_true (is_socket p)) (sockets base root)) /\
    (forall k, view r' !! k = expected k (sockets base root) r) /\
    (forall c level, coord_ok c -> in_u8 level -> coord_matches base = [] ->
       lookup_path (node_dirs c level ++ [file_name level]) root = Some Socket ->
       exists p, p ∈ sockets base root /\
         view r' !! mkKey (visible level c) level = Some (mkPeerInfo (visible level c) level p true)).
Proof.
  intros Hr Hlen Hp.
  destruct (register_all_total (sockets base root) r 0 Hp ltac:(lia) ltac:(lia)) as [[r' n] Hst].
  exists r', n. destruct (register_all_spec _ _ _ _ _ Hr Hst) as (Hr' & Hn & Hv).
  split; [unfold discover; by rewrite (proj1 scan_is_register_all)|].
  split_and!; [done|by rewrite Hn|done|].
  intros c level Hc Hl Hq Hlook.
  pose proof (sockets_lookup _ base root (node_names_visible c level)
    ltac:(by unfold node_dirs) Hlook) as Hin.
  destruct (last_socket_elem (mkKey (visible level c) level) _ _ Hin) as (q & Hlast & Hqin).
  { unfold names_key. rewrite parse_node_path by done. by apply bool_decide_eq_true. }
  exists q. split; [done|]. rewrite Hv. unfold expected. by rewrite Hlast.
Qed.

Definition sample_tree : node :=
  Directory (Entry "L6_0" (Directory
    (Entry ".hidden" Socket
    (Entry "L5_1" (Directory (Entry "L4_2" (Directory (Entry "L3_9" (Directory
       (Entry "daemon_L3.sock" Socket (Entry "ring_profile.json" OtherFile NoMore))) NoMore)) NoMore))
    (Entry "daemon_L6.sock" Socket NoMore)))) NoMore).

Lemma discovery_complete_witness :
  exists r' n, discover "/tmp/cluster" sample_tree [] = Ok (r', n) /\
    exists p, view r' !! mkKey (mkCoord 0 1 2 9 0 0 0) 3 =
      Some (mkPeerInfo (mkCoord 0 1 2 9 0 0 0) 3 p true).
Proof.
  destruct (discovery_complete "/tmp/cluster" sample_tree [] ltac:(split; constructor) ltac:(done))
    as (r' & n & Hd & _ & _ & _ & Hf).
  - intros p Hp. vm_compute in Hp. apply elem_of_cons in Hp as [->|Hp]; [by eexists; vm_compute|].
    apply elem_of_cons in Hp as [->|Hp]; [by eexists; vm_compute|by apply not_elem_of_nil in Hp].
  - exists r', n. split; [exact Hd|].
    destruct (Hf (mkCoord 0 1 2 9 0 0 0) 3) as (p & _ & Hp);
      [unfold coord_ok; unfold_ints; simpl; lia|unfold_ints; lia|reflexivity|reflexivity|].
    exists p. exact Hp.
Defined.

(** A number that does not fit in an [int] makes [std::atoi] undefined. *)
Lemma parse_overflow :
  parse_socket_path "/tmp/cluster/L6_0/daemon_L99999999999.sock" = Fault SignedOverflow.
Proof. reflexivity. Qed.
