(* ===== verification/MsgTypes.v ===== *)
(** * Message payloads

    Models [src/src/transport/msg_types.h]: one Module per payload struct with
    its [serialize] (the buffer is sized, then filled field by field at a
    running offset) and its [deserialize] (the guards on [len], then the reads
    at a running offset).  A [std::string] payload field is its bytes.  [data]
    is the buffer the pointer points into and [len] the length passed with it;
    a read outside [data] is a fault.

    The class [WirePayload] is what the transport's clients rely on: a
    well-formed value serializes to a buffer whose length fits the header's
    [payload_size] and that deserializes to the same value.  Every payload is
    an instance. *)

From S2P Require Import Prelude Bytes LinquHeader.

Class WirePayload (P : Type) := {
  wire_serialize : P -> outcome (list Z);
  wire_deserialize : list Z -> Z -> outcome P;
  wire_wf : P -> Prop;
  wire_roundtrip : forall p, wire_wf p ->
    exists bs, wire_serialize p = Ok bs /\ bytes_ok bs /\ in_u32 (zlength bs) /\
      wire_deserialize bs (zlength bs) = Ok p;
}.

(** What a receiver relies on when the buffer comes from elsewhere: whatever
    the bytes, [deserialize] stays inside the buffer and returns a well-formed
    value.  [CallTaskPayload] has no instance.  (The four bytes of margin: a
    heartbeat that lost the length of its second string gets it back.) *)
Class SafePayload (P : Type) `{WirePayload P} :=
  wire_deserialize_safe : forall data len,
    bytes_ok data -> 0 <= len <= zlength data -> in_u32 (len + 4) ->
    wp no_fault (wire_deserialize data len) wire_wf.

(** The ranges of the values read, once the buffer is known to hold bytes. *)
Ltac use_bytes Hb :=
  repeat match goal with H : bytes_ok _ -> _ |- _ => specialize (H Hb) end.

(** A guarded read of a deserializer stays inside the buffer. *)
Ltac read_in_bounds :=
  first
    [ apply wp_bind;
      first [ apply wp_peek; [lia..|]; intros ? ? ?
            | apply wp_peek_be2; [lia..|]; intros ? ?
            | apply wp_peek_be4; [lia..|]; intros ? ?
            | apply wp_peek_be8; [lia..|]; intros ? ?
            | apply wp_vec_get_byte; [lia|]; intros ? ? ]
    | match goal with |- context [Z.ltb ?a ?b] => destruct (Z.ltb_spec a b) end
    | match goal with |- context [Z.leb ?a ?b] => destruct (Z.leb_spec a b) end ].

(** ** Kernel calls *)
Module CallTaskPayload.

Record ParamEntry := mkEntry { type : Z; handle : Z; scalar_value : Z }.

Record CallTaskPayload := mk {
  kernel_so_name : list Z;
  task_id : Z;
  scope_depth : Z;
  num_params : Z;
  params : list ParamEntry;
}.

Definition default : CallTaskPayload := mk [] 0 0 0 [].

(** [for (i = 0; i < num_params && i < params.size(); i++)] *)
Fixpoint put_params (i num_params : Z) (ps : list ParamEntry) (buf : list Z)
    : outcome (list Z) :=
  match ps with
  | [] => Ok buf
  | e :: ps' =>
      if i <? num_params then
        let old_sz := zlength buf in
        let buf := resize buf (old_sz + (1 + 8 + 8)) in
        let! buf := vec_set buf old_sz (type e) in
        let! buf := poke buf (old_sz + 1) (be 8 (handle e)) in
        let! buf := poke buf (old_sz + 9) (be 8 (scalar_value e)) in
        put_params (i + 1) num_params ps' buf
      else Ok buf
  end.

(** The size of the fixed part is computed in [uint32_t]. *)
Definition serialize (p : CallTaskPayload) : outcome (list Z) :=
  let name_len := u32 (zlength (kernel_so_name p)) in
  let buf := resize [] (u32 (4 + name_len + 4 + 2 + 4)) in
  let off := 0 in
  let! buf := poke buf off (be 4 name_len) in
  let off := off + 4 in
  let! buf := poke buf off (take (Z.to_nat name_len) (kernel_so_name p)) in
  let off := off + name_len in
  let! buf := poke buf off (be 4 (task_id p)) in
  let off := off + 4 in
  let! buf := poke buf off (be 2 (scope_depth p)) in
  let off := off + 2 in
  let! buf := poke buf off (be 4 (num_params p)) in
  put_params 0 (num_params p) (params p) buf.

(** [for (i = 0; i < num_params && off + 17 <= len; i++)]; every iteration
    moves [off] by 17, so [len] bounds the iterations. *)
Fixpoint get_params (fuel : nat) (data : list Z) (len i num_params off : Z)
    : outcome (list ParamEntry) :=
  match fuel with
  | O => Fault OutOfFuel
  | S fuel =>
      if (i <? num_params) && (off + 17 <=? len) then
        let! ty := vec_get data off in
        let off := off + 1 in
        let! h := peek_be data off 8 in
        let off := off + 8 in
        let! v := peek_be data off 8 in
        let off := off + 8 in
        let! rest := get_params fuel data len (i + 1) num_params off in
        Ok (mkEntry ty h v :: rest)
      else Ok []
  end.

Definition deserialize (data : list Z) (len : Z) : outcome CallTaskPayload :=
  let off := 0 in
  if len <? 14 then Ok default else
  let! nl := peek_be data off 4 in
  let off := off + 4 in
  if len <? off + nl then Ok default else
  let! name := peek data off nl in
  let off := off + nl in
  let! tid := peek_be data off 4 in
  let off := off + 4 in
  let! sd := peek_be data off 2 in
  let off := off + 2 in
  let! np := peek_be data off 4 in
  let off := off + 4 in
  let! ps := get_params (S (Z.to_nat len)) data len 0 np off in
  Ok (mk name tid sd np ps).

Definition entry_ok (e : ParamEntry) : Prop :=
  in_u8 (type e) /\ in_u64 (handle e) /\ in_u64 (scalar_value e).

(** The fields are in range, [num_params] counts [params], and the message
    fits the header's 32-bit size. *)
Definition wf (p : CallTaskPayload) : Prop :=
  bytes_ok (kernel_so_name p) /\ in_u32 (task_id p) /\ in_u16 (scope_depth p) /\
  num_params p = zlength (params p) /\ Forall entry_ok (params p) /\
  18 + zlength (kernel_so_name p) + 17 * zlength (params p) < 2 ^ 32.

(** *** The encoding *)
Definition entry_bytes (e : ParamEntry) : list Z :=
  [type e] ++ be 8 (handle e) ++ be 8 (scalar_value e).
Definition entries_bytes (ps : list ParamEntry) : list Z := concat (entry_bytes <$> ps).
Definition fixed_bytes (p : CallTaskPayload) : list Z :=
  be 4 (zlength (kernel_so_name p)) ++ kernel_so_name p ++ be 4 (task_id p) ++
  be 2 (scope_depth p) ++ be 4 (num_params p).

Lemma zlength_entry e : zlength (entry_bytes e) = 17.
Proof. done. Qed.

Lemma entries_cons e ps : entries_bytes (e :: ps) = entry_bytes e ++ entries_bytes ps.
Proof. done. Qed.

Lemma entries_ok ps : Forall entry_ok ps -> bytes_ok (entries_bytes ps).
Proof.
  induction 1 as [|e ps (Ht & _ & _) _ IH]; [constructor|].
  rewrite entries_cons. unfold entry_bytes. rewrite !bytes_app.
  split_and!; auto with linqu. by repeat constructor; apply Ht.
Qed.

Lemma zlength_entries ps : zlength (entries_bytes ps) = 17 * zlength ps.
Proof.
  induction ps as [|e ps IH]; [done|].
  rewrite entries_cons, zlength_app, IH, zlength_entry, zlength_cons. lia.
Qed.

#[local] Hint Rewrite zlength_entry zlength_entries : bytes_len.

Lemma put_params_eq ps : forall i np buf,
  i + zlength ps <= np -> put_params i np ps buf = Ok (buf ++ entries_bytes ps).
Proof.
  induction ps as [|e ps IH]; intros i np buf Hi; [by rewrite app_nil_r|].
  rewrite zlength_cons in Hi. pose proof (zlength_ge_0 ps).
  cbn [put_params]. rewrite (proj2 (Z.ltb_lt _ _)) by lia. cbv zeta.
  rewrite resize_grow by lia. fill. rewrite zeros_nonpos, app_nil_r by blia.
  rewrite IH, entries_cons by lia. unfold entry_bytes. by rewrite <- !app_assoc.
Qed.

Lemma call_task_serialize_eq p : wf p -> serialize p = Ok (fixed_bytes p ++ entries_bytes (params p)).
Proof.
  intros (Hn & _ & _ & Hnp & _ & Hlen). unfold serialize. cbv zeta.
  pose proof (zlength_ge_0 (kernel_so_name p)). pose proof (zlength_ge_0 (params p)).
  rewrite (u32_id (zlength _)) by (unfold in_u32; lia).
  rewrite u32_id by (unfold in_u32; lia).
  rewrite take_ge by (unfold zlength; lia).
  rewrite resize_nil by lia. fill. rewrite zeros_nonpos, app_nil_r by blia.
  rewrite put_params_eq by lia. unfold fixed_bytes. by rewrite <- !app_assoc.
Qed.

Lemma get_params_eq ps : forall fuel data d len i np off,
  Forall entry_ok ps -> data = d ++ entries_bytes ps -> off = zlength d ->
  len = zlength data -> np = i + zlength ps -> (length ps < fuel)%nat ->
  get_params fuel data len i np off = Ok ps.
Proof.
  induction ps as [|e ps IH]; intros [|fuel] data d len i np off Hok Hd Hoff Hlen Hnp Hf;
    simpl in Hf; try lia; cbn [get_params].
  - by rewrite (proj2 (Z.ltb_ge _ _)) by (rewrite zlength_nil in Hnp; lia).
  - apply Forall_cons in Hok as [(Ht & Hh & Hs) Hok].
    rewrite entries_cons in Hd.
    pose proof (zlength_ge_0 ps). rewrite zlength_cons in Hnp.
    assert (Hl : len = zlength d + 17 + 17 * zlength ps).
    { rewrite Hlen, Hd, !zlength_app, zlength_entry, zlength_entries. lia. }
    rewrite (proj2 (Z.ltb_lt _ _)), (proj2 (Z.leb_le _ _)) by lia. bind_simpl. cbv zeta.
    rewrite (IH fuel data (d ++ entry_bytes e)); [|done|..]; try lia.
    + subst data. unfold entry_bytes, peek_be. rewrite <- !app_assoc. cbn [andb]. read_fields.
      rewrite !unbe_be8 by done. by destruct e.
    + by rewrite Hd, app_assoc.
    + rewrite zlength_app, zlength_entry. lia.
Qed.

Lemma call_task_bytes p : wf p ->
  exists bs, serialize p = Ok bs /\ bytes_ok bs /\ in_u32 (zlength bs) /\
    deserialize bs (zlength bs) = Ok p.
Proof.
  intros Hwf. exists (fixed_bytes p ++ entries_bytes (params p)).
  split; [by apply call_task_serialize_eq|]. destruct Hwf as (Hn & Ht & Hd & Hnp & Hps & Hlen).
  pose proof (zlength_ge_0 (kernel_so_name p)). pose proof (zlength_ge_0 (params p)).
  assert (HL : zlength (fixed_bytes p ++ entries_bytes (params p)) =
               14 + zlength (kernel_so_name p) + 17 * zlength (params p)).
  { unfold fixed_bytes. rewrite zlength_app, zlength_entries. blia. }
  split.
  { unfold fixed_bytes. rewrite !bytes_app. split_and!; auto using entries_ok with linqu. }
  split; [unfold in_u32; lia|]. unfold deserialize, peek_be. cbv zeta.
  rewrite (proj2 (Z.ltb_ge _ _)) by lia.
  rewrite HL. unfold fixed_bytes. rewrite <- !app_assoc. read_fields.
  rewrite unbe_be4 by (unfold in_u32; lia). rewrite (proj2 (Z.ltb_ge _ _)) by lia.
  read_fields. rewrite unbe_be4, unbe_be2 by done. rewrite unbe_be4 by (unfold in_u32; lia).
  rewrite (get_params_eq (params p) _ _ (fixed_bytes p)); try done.
  - bind_simpl. by destruct p.
  - unfold fixed_bytes. by rewrite <- !app_assoc.
  - unfold fixed_bytes. blia.
  - blia.
  - unfold zlength in *. lia.
Qed.

#[global] Instance wire : WirePayload CallTaskPayload := {|
  wire_serialize := serialize;
  wire_deserialize := deserialize;
  wire_wf := wf;
  wire_roundtrip := call_task_bytes;
|}.

Lemma wp_get_params fuel : forall data len i np off,
  bytes_ok data -> len <= zlength data -> 0 <= off <= len ->
  len - off < 17 * Z.of_nat fuel ->
  wp no_fault (get_params fuel data len i np off)
    (fun ps => Forall entry_ok ps /\ 17 * zlength ps <= len - off /\
       zlength ps <= Z.max 0 (np - i)).
Proof.
  induction fuel as [|fuel IH]; intros data len i np off Hb Hl Ho Hf; [lia|].
  cbn [get_params]. destruct (Z.ltb_spec i np), (Z.leb_spec (off + 17) len);
    cbn [andb].
  2-4: cbn [wp]; split_and!; [by apply Forall_nil_2|unfold zlength; simpl; lia..].
  cbv zeta. repeat read_in_bounds.
  eapply wp_step; [apply IH; [done|done|lia|lia]|].
  intros ps (Hps & Hn & Hm). simpl. rewrite zlength_cons. split_and!; [|lia..].
  constructor; [|done]. unfold entry_ok; simpl. by split_and!; auto.
Qed.

(** How [deserialize] ends on a buffer that passes the guard on the name. *)
Lemma deserialize_ends data nl :
  bytes_ok data -> 14 <= zlength data -> peek_be data 0 4 = Ok nl ->
  4 + nl <= zlength data ->
  if zlength data <? 4 + nl + 10
  then deserialize data (zlength data) = Fault OutOfBounds
  else exists p, deserialize data (zlength data) = Ok p /\
         zlength (kernel_so_name p) = nl /\ bytes_ok (kernel_so_name p) /\
         in_u32 (task_id p) /\ in_u16 (scope_depth p) /\ in_u32 (num_params p) /\
         Forall entry_ok (params p) /\ zlength (params p) <= num_params p.
Proof.
  intros Hb Hl Hnl Hg.
  assert (Hnlr : 0 <= nl).
  { assert (H : wp no_fault (peek_be data 0 4) (fun v => 0 <= v < 2 ^ (8 * 4)))
      by (apply wp_peek_be; [lia..|]; auto). rewrite Hnl in H. simpl in H. lia. }
  unfold deserialize. cbv zeta. rewrite (proj2 (Z.ltb_ge (zlength data) 14)) by lia.
  rewrite Hnl. bind_simpl. rewrite (proj2 (Z.ltb_ge (zlength data) (0 + 4 + nl))) by lia.
  destruct (Z.ltb_spec (zlength data) (4 + nl + 10)) as [Hlt|Hge].
  - apply wp_must_fault.
    apply wp_bind, wp_peek; [lia..|]. intros name _ _.
    destruct (decide (zlength data < 0 + 4 + nl + 4)) as [H4|H4].
    { apply wp_bind, wp_peek_be_outside; [lia..|done]. }
    apply wp_bind, wp_peek_be4; [lia..|]. intros tid _.
    destruct (decide (zlength data < 0 + 4 + nl + 4 + 2)) as [H6|H6].
    { apply wp_bind, wp_peek_be_outside; [lia..|done]. }
    apply wp_bind, wp_peek_be2; [lia..|]. intros sd _.
    apply wp_bind, wp_peek_be_outside; [lia..|done].
  - apply wp_total.
    apply wp_bind, wp_peek; [lia..|]. intros name Hname Hnb.
    apply wp_bind, wp_peek_be4; [lia..|]. intros tid Htid.
    apply wp_bind, wp_peek_be2; [lia..|]. intros sd Hsd.
    apply wp_bind, wp_peek_be4; [lia..|]. intros np Hnp.
    eapply wp_step; [apply wp_get_params; [done|lia..]|].
    intros ps (Hps & _ & Hm). specialize (Hnp Hb). unfold in_u32 in Hnp. simpl.
    split_and!; auto; lia.
Qed.

End CallTaskPayload.

(** ** Payloads of fixed size

    The buffer is [std::vector<uint8_t> buf(n)]; [deserialize] returns the
    default value when [len] is too small. *)
Module TaskCompletePayload.
Record TaskCompletePayload := mk { task_id : Z; status : Z }.

Definition serialize (p : TaskCompletePayload) : outcome (list Z) :=
  let buf := zeros 8 in
  let! buf := poke buf 0 (be 4 (task_id p)) in
  poke buf 4 (be 4 (u32 (status p))).

Definition deserialize (data : list Z) (len : Z) : outcome TaskCompletePayload :=
  if len <? 8 then Ok (mk 0 0) else
  let! tid := peek_be data 0 4 in
  let! st := peek_be data 4 4 in
  Ok (mk tid (i32 st)).

Definition wf (p : TaskCompletePayload) : Prop := in_u32 (task_id p) /\ in_i32 (status p).

Lemma task_complete_bytes p : wf p ->
  exists bs, serialize p = Ok bs /\ bytes_ok bs /\ in_u32 (zlength bs) /\
    deserialize bs (zlength bs) = Ok p.
Proof.
  intros (Ht & Hs). exists (be 4 (task_id p) ++ be 4 (u32 (status p))).
  split; [done|]. split; [rewrite bytes_app; auto with linqu|].
  split; [unfold in_u32; blia|]. unfold deserialize, peek_be.
  rewrite (proj2 (Z.ltb_ge _ _)) by blia. read_fields.
  rewrite !unbe_be4, i32_u32 by auto with linqu. by destruct p.
Qed.

#[global] Instance wire : WirePayload TaskCompletePayload := {|
  wire_serialize := serialize; wire_deserialize := deserialize;
  wire_wf := wf; wire_roundtrip := task_complete_bytes |}.

#[global] Instance safe : SafePayload TaskCompletePayload.
Proof.
  intros data len Hb Hl Hr. simpl. unfold deserialize. repeat read_in_bounds.
  all: unfold wf; simpl; split_and?; auto with linqu.
Qed.
End TaskCompletePayload.

Module ShutdownPayload.
Record ShutdownPayload := mk { graceful : Z }.

Definition serialize (p : ShutdownPayload) : outcome (list Z) := Ok [graceful p].

Definition deserialize (data : list Z) (len : Z) : outcome ShutdownPayload :=
  if 1 <=? len then let! g := vec_get data 0 in Ok (mk g) else Ok (mk 1).

Definition wf (p : ShutdownPayload) : Prop := in_u8 (graceful p).

Lemma shutdown_bytes p : wf p ->
  exists bs, serialize p = Ok bs /\ bytes_ok bs /\ in_u32 (zlength bs) /\
    deserialize bs (zlength bs) = Ok p.
Proof.
  intros Hp. exists [graceful p]. split; [done|]. split; [by constructor|].
  split; [done|by destruct p].
Qed.

#[global] Instance wire : WirePayload ShutdownPayload := {|
  wire_serialize := serialize; wire_deserialize := deserialize;
  wire_wf := wf; wire_roundtrip := shutdown_bytes |}.

#[global] Instance safe : SafePayload ShutdownPayload.
Proof.
  intros data len Hb Hl Hr. simpl. unfold deserialize. repeat read_in_bounds.
  all: unfold wf; simpl; auto with linqu; done.
Qed.
End ShutdownPayload.

Module ScopeExitPayload.
Record ScopeExitPayload := mk { scope_depth : Z }.

Definition serialize (p : ScopeExitPayload) : outcome (list Z) :=
  poke (zeros 2) 0 (be 2 (scope_depth p)).

Definition deserialize (data : list Z) (len : Z) : outcome ScopeExitPayload :=
  if 2 <=? len then let! sd := peek_be data 0 2 in Ok (mk sd) else Ok (mk 0).

Definition wf (p : ScopeExitPayload) : Prop := in_u16 (scope_depth p).

Lemma scope_exit_bytes p : wf p ->
  exists bs, serialize p = Ok bs /\ bytes_ok bs /\ in_u32 (zlength bs) /\
    deserialize bs (zlength bs) = Ok p.
Proof.
  intros Hp. exists (be 2 (scope_depth p)). split; [done|]. split; [auto with linqu|].
  split; [done|]. unfold deserialize, peek_be.
  rewrite (proj2 (Z.leb_le _ _)) by blia. read_fields. rewrite unbe_be2 by done. by destruct p.
Qed.

#[global] Instance wire : WirePayload ScopeExitPayload := {|
  wire_serialize := serialize; wire_deserialize := deserialize;
  wire_wf := wf; wire_roundtrip := scope_exit_bytes |}.

#[global] Instance safe : SafePayload ScopeExitPayload.
Proof.
  intros data len Hb Hl Hr. simpl. unfold deserialize. repeat read_in_bounds.
  all: unfold wf; simpl; split_and?; auto with linqu.
Qed.
End ScopeExitPayload.

Module RetryWithCodePayload.
Record RetryWithCodePayload := mk { blob_hash : Z }.

Definition serialize (p : RetryWithCodePayload) : outcome (list Z) :=
  poke (zeros 8) 0 (be 8 (blob_hash p)).

Definition deserialize (data : list Z) (len : Z) : outcome RetryWithCodePayload :=
  if 8 <=? len then let! bh := peek_be data 0 8 in Ok (mk bh) else Ok (mk 0).

Definition wf (p : RetryWithCodePayload) : Prop := in_u64 (blob_hash p).

Lemma retry_bytes p : wf p ->
  exists bs, serialize p = Ok bs /\ bytes_ok bs /\ in_u32 (zlength bs) /\
    deserialize bs (zlength bs) = Ok p.
Proof.
  intros Hp. exists (be 8 (blob_hash p)). split; [done|]. split; [auto with linqu|].
  split; [done|]. unfold deserialize, peek_be.
  rewrite (proj2 (Z.leb_le _ _)) by blia. read_fields. rewrite unbe_be8 by done. by destruct p.
Qed.

#[global] Instance wire : WirePayload RetryWithCodePayload := {|
  wire_serialize := serialize; wire_deserialize := deserialize;
  wire_wf := wf; wire_roundtrip := retry_bytes |}.

#[global] Instance safe : SafePayload RetryWithCodePayload.
Proof.
  intros data len Hb Hl Hr. simpl. unfold deserialize. repeat read_in_bounds.
  all: unfold wf; simpl; split_and?; auto with linqu.
Qed.
End RetryWithCodePayload.

Module TensorLookupPayload.
Record TensorLookupPayload := mk {
  handle : Z; requestor_l6 : Z; requestor_l5 : Z; requestor_l4 : Z; requestor_l3 : Z }.

Definition serialize (p : TensorLookupPayload) : outcome (list Z) :=
  let buf := zeros (8 + 5) in
  let off := 0 in
  let! buf := poke buf off (be 8 (handle p)) in
  let off := off + 8 in
  let! buf := vec_set buf off (requestor_l6 p) in
  let off := off + 1 in
  let! buf := vec_set buf off (requestor_l5 p) in
  let off := off + 1 in
  let! buf := vec_set buf off (requestor_l4 p) in
  let off := off + 1 in
  poke buf off (be 2 (requestor_l3 p)).

Definition deserialize (data : list Z) (len : Z) : outcome TensorLookupPayload :=
  if len <? 13 then Ok (mk 0 0 0 0 0) else
  let off := 0 in
  let! h := peek_be data off 8 in
  let off := off + 8 in
  let! r6 := vec_get data off in
  let off := off + 1 in
  let! r5 := vec_get data off in
  let off := off + 1 in
  let! r4 := vec_get data off in
  let off := off + 1 in
  let! r3 := peek_be data off 2 in
  Ok (mk h r6 r5 r4 r3).

Definition wf (p : TensorLookupPayload) : Prop :=
  in_u64 (handle p) /\ in_u8 (requestor_l6 p) /\ in_u8 (requestor_l5 p) /\
  in_u8 (requestor_l4 p) /\ in_u16 (requestor_l3 p).

Lemma tensor_lookup_bytes p : wf p ->
  exists bs, serialize p = Ok bs /\ bytes_ok bs /\ in_u32 (zlength bs) /\
    deserialize bs (zlength bs) = Ok p.
Proof.
  intros (Hh & H6 & H5 & H4 & H3).
  exists (be 8 (handle p) ++ [requestor_l6 p] ++ [requestor_l5 p] ++ [requestor_l4 p] ++
          be 2 (requestor_l3 p)).
  split; [done|].
  split; [rewrite !bytes_app; split_and!; auto with linqu; by apply Forall_singleton|].
  split; [unfold in_u32; blia|]. unfold deserialize, peek_be. cbv zeta.
  rewrite (proj2 (Z.ltb_ge _ _)) by blia. read_fields.
  rewrite unbe_be8, unbe_be2 by done. by destruct p.
Qed.

#[global] Instance wire : WirePayload TensorLookupPayload := {|
  wire_serialize := serialize; wire_deserialize := deserialize;
  wire_wf := wf; wire_roundtrip := tensor_lookup_bytes |}.

#[global] Instance safe : SafePayload TensorLookupPayload.
Proof.
  intros data len Hb Hl Hr. simpl. unfold deserialize. cbv zeta. repeat read_in_bounds.
  all: unfold wf; simpl; split_and?; auto with linqu.
Qed.
End TensorLookupPayload.

(** ** Payloads that carry a byte sequence

    The sequence is preceded by its 32-bit length; a length that runs past
    [len] leaves the sequence empty. *)

(** [if (!v.empty()) memcpy(buf.data() + off, v.data(), v.size());] *)
Definition poke_nonempty (buf : list Z) (off : Z) (v : list Z) : outcome (list Z) :=
  match v with [] => Ok buf | _ => poke buf off v end.

Lemma poke_nonempty_eq buf off v : 0 <= off <= zlength buf ->
  poke_nonempty buf off v = poke buf off v.
Proof.
  intros Ho. destruct v as [|b v]; [|done].
  unfold poke_nonempty, poke. change (zlength []) with 0. rewrite Z.add_0_r.
  rewrite !(proj2 (Z.leb_le _ _)) by lia. simpl. by rewrite take_drop.
Qed.

(** [if (off + sz <= len) v.assign(data + off, data + off + sz);] *)
Definition get_sized (data : list Z) (len off sz : Z) : outcome (list Z) :=
  if off + sz <=? len then peek data off sz else Ok [].

Lemma wp_get_sized data len off sz :
  bytes_ok data -> len <= zlength data -> 0 <= off <= len -> 0 <= sz ->
  wp no_fault (get_sized data len off sz) (fun v => bytes_ok v /\ off + zlength v <= len).
Proof.
  intros Hb Hl Ho Hs. unfold get_sized. destruct (Z.leb_spec (off + sz) len).
  - apply wp_peek; [lia..|]. intros bs Hn Hbs. split; [auto|lia].
  - split; [constructor|rewrite zlength_nil; lia].
Qed.

Module RegCodePayload.
Record RegCodePayload := mk { blob_hash : Z; code_binary : list Z }.

Definition serialize (p : RegCodePayload) : outcome (list Z) :=
  let buf := zeros (8 + 4 + zlength (code_binary p)) in
  let off := 0 in
  let! buf := poke buf off (be 8 (blob_hash p)) in
  let off := off + 8 in
  let! buf := poke buf off (be 4 (u32 (zlength (code_binary p)))) in
  let off := off + 4 in
  poke_nonempty buf off (code_binary p).

Definition deserialize (data : list Z) (len : Z) : outcome RegCodePayload :=
  if len <? 12 then Ok (mk 0 []) else
  let off := 0 in
  let! bh := peek_be data off 8 in
  let off := off + 8 in
  let! sz := peek_be data off 4 in
  let off := off + 4 in
  let! code := get_sized data len off sz in
  Ok (mk bh code).

Definition wf (p : RegCodePayload) : Prop :=
  in_u64 (blob_hash p) /\ bytes_ok (code_binary p) /\ 12 + zlength (code_binary p) < 2 ^ 32.

Lemma reg_code_bytes p : wf p ->
  exists bs, serialize p = Ok bs /\ bytes_ok bs /\ in_u32 (zlength bs) /\
    deserialize bs (zlength bs) = Ok p.
Proof.
  intros (Hh & Hb & Hl). pose proof (zlength_ge_0 (code_binary p)).
  set (bs := be 8 (blob_hash p) ++ be 4 (zlength (code_binary p)) ++ code_binary p).
  assert (HL : zlength bs = 12 + zlength (code_binary p)) by (unfold bs; blia).
  exists bs. split.
  { unfold serialize. cbv zeta. rewrite (u32_id (zlength _)) by (unfold in_u32; lia).
    rewrite (zeros_start (8 + 4 + _)). fill.
    rewrite poke_nonempty_eq by (rewrite zlength_app, zlength_zeros; blia).
    fill. rewrite zeros_nonpos, app_nil_r by blia. unfold bs. by rewrite <- !app_assoc. }
  split; [unfold bs; rewrite !bytes_app; auto with linqu|]. split; [unfold in_u32; lia|].
  unfold deserialize, peek_be. cbv zeta. rewrite HL. rewrite (proj2 (Z.ltb_ge _ _)) by lia.
  unfold bs. read_fields. rewrite unbe_be8 by done. rewrite unbe_be4 by (unfold in_u32; lia).
  unfold get_sized. rewrite (proj2 (Z.leb_le _ _)) by lia. read_fields. by destruct p.
Qed.

#[global] Instance wire : WirePayload RegCodePayload := {|
  wire_serialize := serialize; wire_deserialize := deserialize;
  wire_wf := wf; wire_roundtrip := reg_code_bytes |}.

#[global] Instance safe : SafePayload RegCodePayload.
Proof.
  intros data len Hb Hl Hr. simpl. unfold deserialize. cbv zeta. repeat read_in_bounds.
  - unfold wf; simpl. split_and?; auto with linqu; done.
  - use_bytes Hb. eapply wp_step; [apply wp_get_sized; unfold in_u32 in *; try done; lia|]. intros w [Hw Hwl].
    unfold wf, in_u32 in *; simpl. split_and?; auto; lia.
Qed.
End RegCodePayload.

Module RegDataPayload.
Record RegDataPayload := mk { data_handle : Z; scope_depth : Z; buffer_bytes : list Z }.

Definition serialize (p : RegDataPayload) : outcome (list Z) :=
  let buf := zeros (8 + 2 + 4 + zlength (buffer_bytes p)) in
  let off := 0 in
  let! buf := poke buf off (be 8 (data_handle p)) in
  let off := off + 8 in
  let! buf := poke buf off (be 2 (scope_depth p)) in
  let off := off + 2 in
  let! buf := poke buf off (be 4 (u32 (zlength (buffer_bytes p)))) in
  let off := off + 4 in
  poke_nonempty buf off (buffer_bytes p).

Definition deserialize (data : list Z) (len : Z) : outcome RegDataPayload :=
  if len <? 14 then Ok (mk 0 0 []) else
  let off := 0 in
  let! dh := peek_be data off 8 in
  let off := off + 8 in
  let! sd := peek_be data off 2 in
  let off := off + 2 in
  let! sz := peek_be data off 4 in
  let off := off + 4 in
  let! bytes := get_sized data len off sz in
  Ok (mk dh sd bytes).

Definition wf (p : RegDataPayload) : Prop :=
  in_u64 (data_handle p) /\ in_u16 (scope_depth p) /\ bytes_ok (buffer_bytes p) /\
  14 + zlength (buffer_bytes p) < 2 ^ 32.

Lemma reg_data_bytes p : wf p ->
  exists bs, serialize p = Ok bs /\ bytes_ok bs /\ in_u32 (zlength bs) /\
    deserialize bs (zlength bs) = Ok p.
Proof.
  intros (Hh & Hs & Hb & Hl). pose proof (zlength_ge_0 (buffer_bytes p)).
  set (bs := be 8 (data_handle p) ++ be 2 (scope_depth p) ++
             be 4 (zlength (buffer_bytes p)) ++ buffer_bytes p).
  assert (HL : zlength bs = 14 + zlength (buffer_bytes p)) by (unfold bs; blia).
  exists bs. split.
  { unfold serialize. cbv zeta. rewrite (u32_id (zlength _)) by (unfold in_u32; lia).
    rewrite (zeros_start (8 + 2 + 4 + _)). fill.
    rewrite poke_nonempty_eq by (rewrite zlength_app, zlength_zeros; blia).
    fill. rewrite zeros_nonpos, app_nil_r by blia. unfold bs. by rewrite <- !app_assoc. }
  split; [unfold bs; rewrite !bytes_app; auto with linqu|]. split; [unfold in_u32; lia|].
  unfold deserialize, peek_be. cbv zeta. rewrite HL. rewrite (proj2 (Z.ltb_ge _ _)) by lia.
  unfold bs. read_fields. rewrite unbe_be8, unbe_be2 by done.
  rewrite unbe_be4 by (unfold in_u32; lia).
  unfold get_sized. rewrite (proj2 (Z.leb_le _ _)) by lia. read_fields. by destruct p.
Qed.

#[global] Instance wire : WirePayload RegDataPayload := {|
  wire_serialize := serialize; wire_deserialize := deserialize;
  wire_wf := wf; wire_roundtrip := reg_data_bytes |}.

#[global] Instance safe : SafePayload RegDataPayload.
Proof.
  intros data len Hb Hl Hr. simpl. unfold deserialize. cbv zeta. repeat read_in_bounds.
  - unfold wf; simpl. split_and?; auto with linqu; done.
  - use_bytes Hb. eapply wp_step; [apply wp_get_sized; unfold in_u32 in *; try done; lia|]. intros w [Hw Hwl].
    unfold wf, in_u32 in *; simpl. split_and?; auto; lia.
Qed.
End RegDataPayload.

Module TensorDataPayload.
Record TensorDataPayload := mk { handle : Z; producer_task_id : Z; data : list Z }.

Definition serialize (p : TensorDataPayload) : outcome (list Z) :=
  let buf := zeros (8 + 4 + 4 + zlength (data p)) in
  let off := 0 in
  let! buf := poke buf off (be 8 (handle p)) in
  let off := off + 8 in
  let! buf := poke buf off (be 4 (u32 (producer_task_id p))) in
  let off := off + 4 in
  let! buf := poke buf off (be 4 (u32 (zlength (data p)))) in
  let off := off + 4 in
  poke_nonempty buf off (data p).

Definition deserialize (d : list Z) (len : Z) : outcome TensorDataPayload :=
  if len <? 16 then Ok (mk 0 (-1) []) else
  let off := 0 in
  let! h := peek_be d off 8 in
  let off := off + 8 in
  let! pt := peek_be d off 4 in
  let off := off + 4 in
  let! sz := peek_be d off 4 in
  let off := off + 4 in
  let! bytes := get_sized d len off sz in
  Ok (mk h (i32 pt) bytes).

Definition wf (p : TensorDataPayload) : Prop :=
  in_u64 (handle p) /\ in_i32 (producer_task_id p) /\ bytes_ok (data p) /\
  16 + zlength (data p) < 2 ^ 32.

Lemma tensor_data_bytes p : wf p ->
  exists bs, serialize p = Ok bs /\ bytes_ok bs /\ in_u32 (zlength bs) /\
    deserialize bs (zlength bs) = Ok p.
Proof.
  intros (Hh & Hs & Hb & Hl). pose proof (zlength_ge_0 (data p)).
  set (bs := be 8 (handle p) ++ be 4 (u32 (producer_task_id p)) ++
             be 4 (zlength (data p)) ++ data p).
  assert (HL : zlength bs = 16 + zlength (data p)) by (unfold bs; blia).
  exists bs. split.
  { unfold serialize. cbv zeta. rewrite (u32_id (zlength _)) by (unfold in_u32; lia).
    rewrite (zeros_start (8 + 4 + 4 + _)). fill.
    rewrite poke_nonempty_eq by (rewrite zlength_app, zlength_zeros; blia).
    fill. rewrite zeros_nonpos, app_nil_r by blia. unfold bs. by rewrite <- !app_assoc. }
  split; [unfold bs; rewrite !bytes_app; auto with linqu|]. split; [unfold in_u32; lia|].
  unfold deserialize, peek_be. cbv zeta. rewrite HL. rewrite (proj2 (Z.ltb_ge _ _)) by lia.
  unfold bs. read_fields. rewrite unbe_be8 by done. rewrite !unbe_be4, i32_u32
    by (auto with linqu; unfold in_u32; lia).
  unfold get_sized. rewrite (proj2 (Z.leb_le _ _)) by lia. read_fields. by destruct p.
Qed.

#[global] Instance wire : WirePayload TensorDataPayload := {|
  wire_serialize := serialize; wire_deserialize := deserialize;
  wire_wf := wf; wire_roundtrip := tensor_data_bytes |}.

#[global] Instance safe : SafePayload TensorDataPayload.
Proof.
  intros data len Hb Hl Hr. simpl. unfold deserialize. cbv zeta. repeat read_in_bounds.
  - unfold wf; simpl. split_and?; auto with linqu; done.
  - use_bytes Hb. eapply wp_step; [apply wp_get_sized; unfold in_u32 in *; try done; lia|]. intros w [Hw Hwl].
    unfold wf, in_u32 in *; simpl. split_and?; auto using i32_in_range; lia.
Qed.
End TensorDataPayload.

Module HeartbeatPayload.
Record HeartbeatPayload := mk {
  sender_l6 : Z; sender_l5 : Z; sender_l4 : Z; sender_l3 : Z;
  status : Z;   (* 0 = live, 1 = suspect, 2 = dead *)
  timestamp : Z;
  logical_system : list Z;
  physical_system : list Z;
}.

(** The first layout is abandoned: the buffer is cleared and filled again. *)
Definition serialize (p : HeartbeatPayload) : outcome (list Z) :=
  let ls_len := u32 (zlength (logical_system p)) in
  let ps_len := u32 (zlength (physical_system p)) in
  let buf := zeros (u32 (4 + 1 + 8 + 4 + ls_len + 4 + ps_len)) in
  let off := 0 in
  let! buf := vec_set buf off (sender_l6 p) in
  let off := off + 1 in
  let! buf := vec_set buf off (sender_l5 p) in
  let off := off + 1 in
  let! buf := vec_set buf off (sender_l4 p) in
  let off := off + 1 in
  let! buf := poke buf off (be 2 (sender_l3 p)) in
  let off := off + 2 in
  let! b := vec_get buf (off - 1) in
  let! buf := vec_set buf (off - 1) b in
  let buf := resize [] (u32 (3 + 2 + 1 + 8 + 4 + ls_len + 4 + ps_len)) in
  let off := 0 in
  let! buf := vec_set buf off (sender_l6 p) in
  let off := off + 1 in
  let! buf := vec_set buf off (sender_l5 p) in
  let off := off + 1 in
  let! buf := vec_set buf off (sender_l4 p) in
  let off := off + 1 in
  let! buf := poke buf off (be 2 (sender_l3 p)) in
  let off := off + 2 in
  let! buf := vec_set buf off (status p) in
  let off := off + 1 in
  let! buf := poke buf off (be 8 (timestamp p)) in
  let off := off + 8 in
  let! buf := poke buf off (be 4 ls_len) in
  let off := off + 4 in
  let! buf := poke buf off (take (Z.to_nat ls_len) (logical_system p)) in
  let off := off + ls_len in
  let! buf := poke buf off (be 4 ps_len) in
  let off := off + 4 in
  let! buf := poke buf off (take (Z.to_nat ps_len) (physical_system p)) in
  let off := off + ps_len in
  Ok (resize buf off).

(** One of the two trailing strings, with the offset after it. *)
Definition get_string (data : list Z) (len off : Z) : outcome (list Z * Z) :=
  if off + 4 <=? len then
    let! nl := peek_be data off 4 in
    let off := off + 4 in
    if off + nl <=? len then
      let! s := peek data off nl in
      Ok (s, off + nl)
    else Ok ([], off)
  else Ok ([], off).

Definition deserialize (data : list Z) (len : Z) : outcome HeartbeatPayload :=
  if len <? 14 then Ok (mk 0 0 0 0 0 0 [] []) else
  let off := 0 in
  let! l6 := vec_get data off in
  let off := off + 1 in
  let! l5 := vec_get data off in
  let off := off + 1 in
  let! l4 := vec_get data off in
  let off := off + 1 in
  let! l3 := peek_be data off 2 in
  let off := off + 2 in
  let! st := vec_get data off in
  let off := off + 1 in
  let! ts := peek_be data off 8 in
  let off := off + 8 in
  let! (ls, off) := get_string data len off in
  let! (ps, off) := get_string data len off in
  Ok (mk l6 l5 l4 l3 st ts ls ps).

Definition wf (p : HeartbeatPayload) : Prop :=
  in_u8 (sender_l6 p) /\ in_u8 (sender_l5 p) /\ in_u8 (sender_l4 p) /\
  in_u16 (sender_l3 p) /\ in_u8 (status p) /\ in_u64 (timestamp p) /\
  bytes_ok (logical_system p) /\ bytes_ok (physical_system p) /\
  22 + zlength (logical_system p) + zlength (physical_system p) < 2 ^ 32.

Definition encoding (p : HeartbeatPayload) : list Z :=
  [sender_l6 p] ++ [sender_l5 p] ++ [sender_l4 p] ++ be 2 (sender_l3 p) ++
  [status p] ++ be 8 (timestamp p) ++
  be 4 (zlength (logical_system p)) ++ logical_system p ++
  be 4 (zlength (physical_system p)) ++ physical_system p.

Lemma zlength_heartbeat p :
  zlength (encoding p) = 22 + zlength (logical_system p) + zlength (physical_system p).
Proof. unfold encoding. blia. Qed.

Lemma heartbeat_serialize_eq p : wf p -> serialize p = Ok (encoding p).
Proof.
  intros (_ & _ & _ & _ & _ & _ & _ & _ & Hl). unfold serialize. cbv zeta.
  pose proof (zlength_ge_0 (logical_system p)). pose proof (zlength_ge_0 (physical_system p)).
  rewrite !(u32_id (zlength _)) by (unfold in_u32; lia).
  rewrite !u32_id by (unfold in_u32; lia).
  rewrite !take_ge by (unfold zlength; lia).
  rewrite (zeros_start (4 + 1 + 8 + 4 + _ + 4 + _)). fill.
  rewrite vec_self_assign by (rewrite zlength_app, zlength_zeros; blia).
  rewrite resize_nil by lia. fill. rewrite zeros_nonpos, app_nil_r by blia.
  rewrite resize_same by blia. unfold encoding. by rewrite <- !app_assoc.
Qed.

Lemma get_string_eq d s r data len off :
  data = d ++ be 4 (zlength s) ++ s ++ r -> off = zlength d ->
  off + 4 + zlength s <= len -> in_u32 (zlength s) ->
  get_string data len off = Ok (s, off + 4 + zlength s).
Proof.
  intros -> -> Hl Hs. pose proof (zlength_ge_0 s). unfold get_string, peek_be.
  rewrite (proj2 (Z.leb_le _ _)) by lia. cbv zeta. read_fields. rewrite unbe_be4 by done.
  rewrite (proj2 (Z.leb_le _ _)) by lia. by read_fields.
Qed.

Lemma heartbeat_bytes p : wf p ->
  exists bs, serialize p = Ok bs /\ bytes_ok bs /\ in_u32 (zlength bs) /\
    deserialize bs (zlength bs) = Ok p.
Proof.
  intros Hwf. exists (encoding p). split; [by apply heartbeat_serialize_eq|].
  destruct Hwf as (H6 & H5 & H4 & H3 & Hs & Ht & Hls & Hps & Hl).
  pose proof (zlength_ge_0 (logical_system p)). pose proof (zlength_ge_0 (physical_system p)).
  split.
  { unfold encoding. rewrite !bytes_app. split_and!; auto with linqu; by apply Forall_singleton. }
  rewrite zlength_heartbeat. split; [unfold in_u32; lia|].
  unfold deserialize, peek_be. cbv zeta.
  rewrite (proj2 (Z.ltb_ge _ _)) by lia. unfold encoding. read_fields.
  rewrite unbe_be2, unbe_be8 by done.
  rewrite (get_string_eq (take 14 (encoding p)) (logical_system p)
             (be 4 (zlength (physical_system p)) ++ physical_system p));
    [bind_simpl|done|done|lia|unfold in_u32; lia].
  rewrite (get_string_eq (take 18 (encoding p) ++ logical_system p) (physical_system p) []);
    [by destruct p| |by rewrite zlength_app|lia|unfold in_u32; lia].
  unfold encoding. rewrite app_nil_r. cbn. by rewrite <- !app_assoc.
Qed.

Lemma wp_get_string data len off :
  bytes_ok data -> len <= zlength data -> 0 <= off <= len ->
  wp no_fault (get_string data len off)
    (fun '(s, off') => bytes_ok s /\ off <= off' <= len /\
       (zlength s = 0 \/ off + 4 + zlength s = off') /\
       (off' = off /\ len < off + 4 \/ off + 4 <= off')).
Proof.
  intros Hb Hl Ho. unfold get_string. cbv zeta. read_in_bounds.
  - read_in_bounds. use_bytes Hb. unfold in_u32 in *. read_in_bounds.
    + apply wp_bind, wp_peek; [lia..|]. intros s Hn Hs. simpl. split; [auto|lia].
    + simpl. split; [constructor|]. change (zlength []) with 0. lia.
  - simpl. split; [constructor|]. change (zlength []) with 0. lia.
Qed.

#[global] Instance wire : WirePayload HeartbeatPayload := {|
  wire_serialize := serialize; wire_deserialize := deserialize;
  wire_wf := wf; wire_roundtrip := heartbeat_bytes |}.

#[global] Instance safe : SafePayload HeartbeatPayload.
Proof.
  intros data len Hb Hl Hr. simpl. unfold deserialize. cbv zeta. repeat read_in_bounds.
  - unfold wf; simpl. split_and?; auto with linqu; done.
  - use_bytes Hb.
    eapply wp_step; [apply wp_get_string; [done|lia..]|]. intros [ls off1] (Hls & Ho1 & Hl1 & Hm1).
    eapply wp_step; [apply wp_get_string; [done|lia..]|]. intros [ps off2] (Hps & Ho2 & Hl2 & Hm2).
    unfold wf, in_u8, in_u16, in_u32, in_u64 in *; simpl.
    pose proof (zlength_ge_0 ls). pose proof (zlength_ge_0 ps). split_and!; auto; lia.
Qed.
End HeartbeatPayload.

(** ** Properties *)

(** [p] is written without fault as bytes whose number fits the header, and
    read back as [p]. *)
Definition crosses_the_wire {P} `{WirePayload P} (p : P) : Prop :=
  exists bs, wire_serialize p = Ok bs /\ bytes_ok bs /\ in_u32 (zlength bs) /\
    wire_deserialize bs (zlength bs) = Ok p.

(** Every buffer is read without fault, as a well-formed value. *)
Definition parses_safely (P : Type) `{WirePayload P} (data : list Z) (len : Z) : Prop :=
  exists p : P, wire_deserialize data len = Ok p /\ wire_wf p.

Lemma parses_safely_intro (P : Type) `{SafePayload P} data len :
  bytes_ok data -> 0 <= len <= zlength data -> in_u32 (len + 4) -> parses_safely P data len.
Proof. intros. by apply wp_total, wire_deserialize_safe. Qed.

(** C35.  A kernel call crosses the wire: [serialize] of a well-formed
    [CallTaskPayload] never writes outside the buffer it sizes, produces
    14 + |name| + 17 |params| bytes, and [deserialize] of them returns the same
    name, task id, scope depth and parameter list, in order. *)
Theorem call_task_roundtrip (p : CallTaskPayload.CallTaskPayload) :
  CallTaskPayload.wf p ->
  exists bs, CallTaskPayload.serialize p = Ok bs /\
    zlength bs = 14 + zlength (CallTaskPayload.kernel_so_name p) +
                 17 * zlength (CallTaskPayload.params p) /\
    CallTaskPayload.deserialize bs (zlength bs) = Ok p.
Proof.
  intros Hwf. destruct (CallTaskPayload.call_task_bytes p Hwf) as (bs & Hs & _ & _ & Hd).
  exists bs. split_and!; [done| |done].
  rewrite CallTaskPayload.call_task_serialize_eq in Hs by done.
  replace bs with (CallTaskPayload.fixed_bytes p ++
    CallTaskPayload.entries_bytes (CallTaskPayload.params p)) by congruence.
  rewrite zlength_app, CallTaskPayload.zlength_entries. unfold CallTaskPayload.fixed_bytes. blia.
Qed.

Definition sample_call : CallTaskPayload.CallTaskPayload :=
  CallTaskPayload.mk [107; 46; 115; 111] 7 2 2
    [CallTaskPayload.mkEntry 0 0x1122334455667788 0; CallTaskPayload.mkEntry 3 0 42].

Theorem call_task_roundtrip_witness :
  exists bs, CallTaskPayload.serialize sample_call = Ok bs /\
    zlength bs = 14 + zlength (CallTaskPayload.kernel_so_name sample_call) +
                 17 * zlength (CallTaskPayload.params sample_call) /\
    CallTaskPayload.deserialize bs (zlength bs) = Ok sample_call.
Proof.
  apply call_task_roundtrip. unfold CallTaskPayload.wf, bytes_ok, CallTaskPayload.entry_ok.
  split_and!; try done; repeat (constructor; [split_and?; vm_compute; split; congruence|]);
    constructor.
Defined.

(** C36.  How [CallTaskPayload::deserialize] treats a buffer whose name length
    passes its guard [off + nl <= len].  The guard does not cover the ten bytes
    of [task_id], [scope_depth] and [num_params] that follow the name: when the
    buffer ends before them the reads leave the buffer (undefined behaviour,
    reachable with any 14-byte message whose name length is 1 to 10); when it
    does not, the call is read without fault, with fields in range and at most
    [num_params] parameters. *)
Theorem call_task_deserialize_bounds (data : list Z) (nl : Z) :
  bytes_ok data -> 14 <= zlength data -> peek_be data 0 4 = Ok nl ->
  4 + nl <= zlength data ->
  (zlength data < 4 + nl + 10 ->
     CallTaskPayload.deserialize data (zlength data) = Fault OutOfBounds) /\
  (4 + nl + 10 <= zlength data ->
     exists p, CallTaskPayload.deserialize data (zlength data) = Ok p /\
       zlength (CallTaskPayload.kernel_so_name p) = nl /\
       in_u32 (CallTaskPayload.task_id p) /\ in_u16 (CallTaskPayload.scope_depth p) /\
       Forall CallTaskPayload.entry_ok (CallTaskPayload.params p) /\
       zlength (CallTaskPayload.params p) <= CallTaskPayload.num_params p).
Proof.
  intros Hb Hl Hnl Hg. pose proof (CallTaskPayload.deserialize_ends data nl Hb Hl Hnl Hg) as H.
  destruct (Z.ltb_spec (zlength data) (4 + nl + 10)); split; intros ?; try lia; [done|].
  destruct H as (p & Hp & Hn & _ & Ht & Hs & _ & Hps & Hc). exists p. by split_and!.
Qed.

(** Fourteen bytes: a name of ten bytes and nothing after it. *)
Definition truncated_call : list Z := be 4 10 ++ replicate 10 107.

Theorem call_task_deserialize_bounds_witness :
  (zlength truncated_call < 4 + 10 + 10 ->
     CallTaskPayload.deserialize truncated_call (zlength truncated_call) = Fault OutOfBounds) /\
  (4 + 10 + 10 <= zlength truncated_call ->
     exists p, CallTaskPayload.deserialize truncated_call (zlength truncated_call) = Ok p /\
       zlength (CallTaskPayload.kernel_so_name p) = 10 /\
       in_u32 (CallTaskPayload.task_id p) /\ in_u16 (CallTaskPayload.scope_depth p) /\
       Forall CallTaskPayload.entry_ok (CallTaskPayload.params p) /\
       zlength (CallTaskPayload.params p) <= CallTaskPayload.num_params p).
Proof.
  apply (call_task_deserialize_bounds truncated_call 10).
  - unfold bytes_ok, truncated_call. repeat (constructor; [vm_compute; split; congruence|]).
    constructor.
  - vm_compute. congruence.
  - reflexivity.
  - vm_compute. congruence.
Defined.

(** Every other payload crosses the wire: for each of the nine structs,
    a value whose fields are in range (and whose byte sequences leave the
    message below 2^32 bytes) is written without leaving the buffer and read
    back unchanged. *)
Theorem payloads_roundtrip
    (tc : TaskCompletePayload.TaskCompletePayload) (sd : ShutdownPayload.ShutdownPayload)
    (se : ScopeExitPayload.ScopeExitPayload) (rw : RetryWithCodePayload.RetryWithCodePayload)
    (tl : TensorLookupPayload.TensorLookupPayload) (rc : RegCodePayload.RegCodePayload)
    (rd : RegDataPayload.RegDataPayload) (td : TensorDataPayload.TensorDataPayload)
    (hb : HeartbeatPayload.HeartbeatPayload) :
  TaskCompletePayload.wf tc -> ShutdownPayload.wf sd -> ScopeExitPayload.wf se ->
  RetryWithCodePayload.wf rw -> TensorLookupPayload.wf tl -> RegCodePayload.wf rc ->
  RegDataPayload.wf rd -> TensorDataPayload.wf td -> HeartbeatPayload.wf hb ->
  crosses_the_wire tc /\ crosses_the_wire sd /\ crosses_the_wire se /\
  crosses_the_wire rw /\ crosses_the_wire tl /\ crosses_the_wire rc /\
  crosses_the_wire rd /\ crosses_the_wire td /\ crosses_the_wire hb.
Proof. intros. unfold crosses_the_wire. by split_and!; apply wire_roundtrip. Qed.

Theorem payloads_roundtrip_witness :
  crosses_the_wire (TaskCompletePayload.mk 5 (-3)) /\
  crosses_the_wire (ShutdownPayload.mk 0) /\
  crosses_the_wire (ScopeExitPayload.mk 300) /\
  crosses_the_wire (RetryWithCodePayload.mk 0x123456789ABCDEF) /\
  crosses_the_wire (TensorLookupPayload.mk 9 1 2 3 4000) /\
  crosses_the_wire (RegCodePayload.mk 77 [1; 2; 255]) /\
  crosses_the_wire (RegDataPayload.mk 78 2 []) /\
  crosses_the_wire (TensorDataPayload.mk 79 (-1) [8; 9]) /\
  crosses_the_wire (HeartbeatPayload.mk 1 2 3 4000 0 123456 [108; 115] []).
Proof.
  apply payloads_roundtrip; repeat split; try (vm_compute; congruence);
    repeat (constructor; [split; vm_compute; congruence|]); constructor.
Defined.

(** A receiver is safe against arbitrary bytes, kernel calls apart: for
    each of the nine structs, [deserialize] of any buffer returns, reads only
    inside the buffer, and yields fields in the range of their types. *)
Theorem payload_parsers_safe (data : list Z) (len : Z) :
  bytes_ok data -> 0 <= len <= zlength data -> in_u32 (len + 4) ->
  parses_safely TaskCompletePayload.TaskCompletePayload data len /\
  parses_safely ShutdownPayload.ShutdownPayload data len /\
  parses_safely ScopeExitPayload.ScopeExitPayload data len /\
  parses_safely RetryWithCodePayload.RetryWithCodePayload data len /\
  parses_safely TensorLookupPayload.TensorLookupPayload data len /\
  parses_safely RegCodePayload.RegCodePayload data len /\
  parses_safely RegDataPayload.RegDataPayload data len /\
  parses_safely TensorDataPayload.TensorDataPayload data len /\
  parses_safely HeartbeatPayload.HeartbeatPayload data len.
Proof. intros. split_and!; apply parses_safely_intro; auto; apply _. Qed.

Theorem payload_parsers_safe_witness :
  let data := [255; 255; 255; 255; 0; 1; 2; 3; 255; 255; 255; 255; 9; 9; 9; 9] in
  parses_safely TaskCompletePayload.TaskCompletePayload data 16 /\
  parses_safely ShutdownPayload.ShutdownPayload data 16 /\
  parses_safely ScopeExitPayload.ScopeExitPayload data 16 /\
  parses_safely RetryWithCodePayload.RetryWithCodePayload data 16 /\
  parses_safely TensorLookupPayload.TensorLookupPayload data 16 /\
  parses_safely RegCodePayload.RegCodePayload data 16 /\
  parses_safely RegDataPayload.RegDataPayload data 16 /\
  parses_safely TensorDataPayload.TensorDataPayload data 16 /\
  parses_safely HeartbeatPayload.HeartbeatPayload data 16.
Proof.
  cbv zeta. apply payload_parsers_safe.
  - unfold bytes_ok. repeat (constructor; [vm_compute; split; congruence|]). constructor.
  - vm_compute. split; congruence.
  - vm_compute. split; congruence.
Defined.
