(* ===== verification/LinquHeapRing.v ===== *)
(** * LinquHeapRing: the ring allocator for output buffers

    Models [src/src/ring/linqu_heap_ring.h] and [linqu_heap_ring.cpp].
    [top_] and [tail_] are virtual byte positions that only grow; the physical
    position of a virtual one is its residue modulo [capacity_].  A pointer
    into [store_] is its offset.  [size_t] arithmetic wraps at [2^64].

    The abstract contract is the transition system [heap_step] over the ring
    and the regions handed out and not yet retired: live regions lie inside
    the store and never share a byte. *)

From S2P Require Import Prelude.

Record LinquHeapRing := mkHeapRing {
  store_ : list Z;
  capacity_ : Z;
  top_ : Z;
  tail_ : Z;
}.

#[export] Instance set_store_ : Setter store_ := fun f r =>
  mkHeapRing (f (store_ r)) (capacity_ r) (top_ r) (tail_ r).
#[export] Instance set_top_ : Setter top_ := fun f r =>
  mkHeapRing (store_ r) (capacity_ r) (f (top_ r)) (tail_ r).
#[export] Instance set_tail_ : Setter tail_ := fun f r =>
  mkHeapRing (store_ r) (capacity_ r) (top_ r) (f (tail_ r)).

(** The default-constructed ring. *)
Definition empty_ring : LinquHeapRing := mkHeapRing [] 0 0 0.

(** [store_.resize(capacity_bytes, 0)] keeps the bytes already there. *)
Definition init (capacity_bytes : Z) (r : LinquHeapRing) : LinquHeapRing :=
  mkHeapRing (resize (Z.to_nat capacity_bytes) 0 (store_ r)) capacity_bytes 0 0.

Definition reset (r : LinquHeapRing) : LinquHeapRing :=
  r <| top_ := 0 |> <| tail_ := 0 |>.

Definition used (r : LinquHeapRing) : Z :=
  if top_ r >=? tail_ r then u64 (top_ r - tail_ r)
  else u64 (capacity_ r - tail_ r + top_ r).

Definition available (r : LinquHeapRing) : Z := u64 (capacity_ r - used r).

(** [Some off]: the call returned [true] and stored [store_.data() + off] in
    [*out]; [None]: it returned [false] and left the ring alone. *)
Definition try_alloc (size : Z) (r : LinquHeapRing) : LinquHeapRing * option Z :=
  if (size =? 0) || (capacity_ r <? size) then (r, None) else
  if available r <? size then (r, None) else
  let pos := top_ r mod capacity_ r in
  if u64 (pos + size) <=? capacity_ r then
    (r <| top_ := u64 (top_ r + size) |>, Some pos)
  else
    let waste := capacity_ r - pos in
    if available r <? u64 (size + waste) then (r, None) else
    let r1 := r <| top_ := u64 (top_ r + waste) |> in
    let pos := top_ r1 mod capacity_ r1 in
    (r1 <| top_ := u64 (top_ r1 + size) |>, Some pos).

Definition alloc (size : Z) (r : LinquHeapRing) : outcome (LinquHeapRing * Z) :=
  match try_alloc size r with
  | (r', Some p) => Ok (r', p)
  | (_, None) => Fault AssertFailed
  end.

Definition retire_to (new_tail : Z) (r : LinquHeapRing) : LinquHeapRing :=
  r <| tail_ := new_tail |>.

(** ** Well-formed rings *)

Record wf (r : LinquHeapRing) : Prop := {
  wf_store : zlength (store_ r) = capacity_ r;
  wf_tail : 0 <= tail_ r;
  wf_order : tail_ r <= top_ r;
  wf_window : top_ r <= tail_ r + capacity_ r;
}.

(** The bytes handed out over the life of the ring stay below [2^64]: one more
    allocation (with its padding) does not wrap [top_]. *)
Definition no_wrap (r : LinquHeapRing) : Prop :=
  top_ r + 2 * capacity_ r < 2 ^ 64.

(** The bytes of padding an allocation of [size] skips at the end of the store. *)
Definition padding (size : Z) (r : LinquHeapRing) : Z :=
  let pos := top_ r mod capacity_ r in
  if pos + size <=? capacity_ r then 0 else capacity_ r - pos.

Definition fits (size : Z) (r : LinquHeapRing) : bool :=
  (0 <? size) && (size <=? capacity_ r) &&
  (padding size r + size <=? capacity_ r - (top_ r - tail_ r)).

Lemma wf_cap_nonneg r : wf r -> 0 <= capacity_ r.
Proof. intros [<- _ _ _]. apply zlength_nonneg. Qed.

Lemma used_wf r : wf r -> no_wrap r -> used r = top_ r - tail_ r.
Proof.
  intros [? ? ? ?] Hnw. unfold no_wrap in Hnw. unfold used.
  rewrite (proj2 (Z.geb_le _ _)) by lia. apply u64_id. unfold_ints. lia.
Qed.

Lemma available_wf r :
  wf r -> no_wrap r -> available r = capacity_ r - (top_ r - tail_ r).
Proof.
  intros Hwf Hnw. unfold available. rewrite used_wf by done.
  destruct Hwf. unfold no_wrap in *. apply u64_id. unfold_ints. lia.
Qed.

Lemma pos_range r : 0 < capacity_ r -> 0 <= top_ r mod capacity_ r < capacity_ r.
Proof. intros. by apply Z.mod_pos_bound. Qed.

Lemma padding_range size r :
  0 < capacity_ r -> 0 <= padding size r <= capacity_ r.
Proof.
  intros Hc. pose proof (pos_range r Hc). unfold padding. destruct (_ <=? _); lia.
Qed.

Lemma padding_aligned size r :
  0 < capacity_ r -> padding size r <> 0 -> (top_ r + padding size r) mod capacity_ r = 0.
Proof.
  intros Hc. unfold padding. destruct (_ <=? _); [done|intros _].
  pose proof (Z.div_mod (top_ r) (capacity_ r)).
  replace (top_ r + (capacity_ r - top_ r mod capacity_ r))
    with ((top_ r / capacity_ r + 1) * capacity_ r) by lia.
  apply Z_mod_mult.
Qed.

(** [try_alloc] as one equation: it succeeds exactly when the request with its
    padding fits in the free part of the window. *)
Lemma try_alloc_eq size r :
  wf r -> no_wrap r -> 0 <= size < 2 ^ 64 ->
  try_alloc size r =
    if fits size r
    then (r <| top_ := top_ r + padding size r + size |>,
          Some ((top_ r + padding size r) mod capacity_ r))
    else (r, None).
Proof.
  intros Hwf Hnw Hsz. pose proof (available_wf r Hwf Hnw) as Hav.
  pose proof (wf_cap_nonneg r Hwf) as Hc0.
  pose proof Hwf as [_ Htl Hord Hwin]. unfold no_wrap in Hnw.
  unfold try_alloc, fits. rewrite Hav.
  destruct (Z.eqb_spec size 0) as [->|Hne]; [done|].
  destruct (Z.ltb_spec (capacity_ r) size) as [Hbig|Hle]; simpl.
  { rewrite (proj2 (Z.leb_gt _ _)) by lia. by rewrite andb_false_r. }
  assert (Hc : 0 < capacity_ r) by lia.
  pose proof (pos_range r Hc) as Hpos.
  rewrite (u64_id (_ mod _ + size)) by (unfold_ints; lia).
  rewrite (proj2 (Z.ltb_lt 0 size)), (proj2 (Z.leb_le size _)) by lia. simpl.
  unfold padding. destruct (Z.leb_spec (top_ r mod capacity_ r + size) (capacity_ r)) as [Hin|Hout].
  - rewrite !Z.add_0_r, !Z.add_0_l, (u64_id (_ + size)) by (unfold_ints; lia).
    destruct (Z.ltb_spec (capacity_ r - (top_ r - tail_ r)) size);
      [rewrite (proj2 (Z.leb_gt _ _)) by lia | rewrite (proj2 (Z.leb_le _ _)) by lia]; done.
  - rewrite (u64_id (size + _)) by (unfold_ints; lia).
    destruct (Z.leb_spec (capacity_ r - top_ r mod capacity_ r + size)
                (capacity_ r - (top_ r - tail_ r))) as [Hf|Hf].
    + rewrite !(proj2 (Z.ltb_ge _ _)) by lia. cbn.
      rewrite (u64_id (top_ r + _)) by (unfold_ints; lia).
      by rewrite (u64_id (_ + size)) by (unfold_ints; lia).
    + destruct (_ <? size); [done|]. by rewrite (proj2 (Z.ltb_lt _ _)) by lia.
Qed.

Lemma fits_spec size r :
  fits size r = true <->
  0 < size <= capacity_ r /\
  padding size r + size <= capacity_ r - (top_ r - tail_ r).
Proof. unfold fits. rewrite !andb_true_iff, Z.ltb_lt, !Z.leb_le. done. Qed.

Lemma alloc_pos_range size r :
  wf r -> fits size r = true ->
  let pos := (top_ r + padding size r) mod capacity_ r in
  0 <= pos /\ pos + size <= capacity_ r.
Proof.
  intros [? ? ? ?] [Hs Hf]%fits_spec pos.
  assert (Hc : 0 < capacity_ r) by lia.
  pose proof (padding_range size r Hc).
  assert (0 <= pos) by (apply Z.mod_pos_bound; lia). split; [done|].
  destruct (decide (padding size r = 0)) as [E|E].
  - subst pos. rewrite E, Z.add_0_r. unfold padding in E.
    pose proof (pos_range r Hc). destruct (Z.leb_spec (top_ r mod capacity_ r + size) (capacity_ r)); lia.
  - subst pos. rewrite padding_aligned by done. lia.
Qed.

Lemma wf_try_alloc size r r' o :
  wf r -> no_wrap r -> 0 <= size < 2 ^ 64 -> try_alloc size r = (r', o) -> wf r'.
Proof.
  intros Hwf Hnw Hsz. rewrite try_alloc_eq by done.
  destruct (fits size r) eqn:Hf; intros [= <- <-]; [|done].
  apply fits_spec in Hf as [Hs Hf]. pose proof Hwf as [? ? ? ?].
  assert (Hp := padding_range size r).
  constructor; cbn; lia.
Qed.

(** ** The contract: live regions never overlap *)

(** A region handed out by an allocation: its virtual start, its length and
    the offset of its first byte in [store_]. *)
Record region := mkRegion { vstart : Z; rsize : Z; rpos : Z }.

Definition live (t : Z) (g : region) : bool := t <=? vstart g.

(** What a client can do with a ring: a successful allocation, a refused one,
    and the retirement of everything below a point of the window.  The regions
    that start below the new tail are given up. *)
Inductive heap_step : LinquHeapRing * list region -> LinquHeapRing * list region -> Prop :=
  | step_alloc r r' gs size pos :
      0 <= size < 2 ^ 64 -> no_wrap r ->
      try_alloc size r = (r', Some pos) ->
      heap_step (r, gs) (r', mkRegion (top_ r' - size) size pos :: gs)
  | step_refuse r r' gs size :
      0 <= size < 2 ^ 64 -> no_wrap r ->
      try_alloc size r = (r', None) ->
      heap_step (r, gs) (r', gs)
  | step_retire r gs t :
      tail_ r <= t <= top_ r ->
      heap_step (r, gs) (retire_to t r, filter (fun g => live t g = true) gs).

Definition heap_reach (cap : Z) : LinquHeapRing * list region -> Prop :=
  rtc heap_step (init cap empty_ring, []).

Definition bytes_disjoint (a b : region) : Prop :=
  rpos a + rsize a <= rpos b \/ rpos b + rsize b <= rpos a.

(** The invariant of [heap_step]: every region lies in the window, its virtual
    start lands on its offset, it does not straddle the end of the store, and
    the regions are virtually disjoint, newest first. *)
Record heap_inv (s : LinquHeapRing * list region) : Prop := {
  inv_wf : wf s.1;
  inv_regions : Forall (fun g => tail_ s.1 <= vstart g /\ vstart g + rsize g <= top_ s.1 /\
      0 < rsize g /\ 0 <= rpos g /\ rpos g + rsize g <= capacity_ s.1 /\
      rpos g = vstart g mod capacity_ s.1) s.2;
  inv_sorted : StronglySorted (fun a b => vstart b + rsize b <= vstart a) s.2;
}.

Lemma wf_init_heap cap : 0 <= cap -> wf (init cap empty_ring).
Proof.
  intros. constructor; cbn; try lia. unfold zlength. rewrite length_resize. lia.
Qed.

Lemma wf_retire_to r t : wf r -> tail_ r <= t <= top_ r -> wf (retire_to t r).
Proof. intros [? ? ? ?] ?. constructor; cbn; lia. Qed.

Lemma heap_inv_step s s' : heap_inv s -> heap_step s s' -> heap_inv s'.
Proof.
  intros [Hwf Hrs Hso] Hst. destruct Hst as [r r' gs size pos Hsz Hnw Ha|r r' gs size Hsz Hnw Ha|r gs t Ht];
    simpl in *.
  - pose proof (wf_try_alloc _ _ _ _ Hwf Hnw Hsz Ha) as Hwf'.
    rewrite try_alloc_eq in Ha by done. destruct (fits size r) eqn:Hf; [|done].
    injection Ha as <- <-. pose proof (alloc_pos_range size r Hwf Hf) as Hp.
    apply fits_spec in Hf as [Hs Hf]. pose proof (padding_range size r). cbn in *.
    replace (top_ r + padding size r + size - size) with (top_ r + padding size r) by lia.
    pose proof Hwf as [? ? ? ?].
    constructor; cbn; [done| |].
    + constructor; cbn; [repeat split; lia|].
      eapply Forall_impl; [exact Hrs|]. cbn. intros g Hg. repeat split; lia.
    + constructor; [done|]. eapply Forall_impl; [exact Hrs|]. cbn. intros g Hg. lia.
  - rewrite try_alloc_eq in Ha by done. destruct (fits size r); [done|].
    injection Ha as <-. by constructor.
  - constructor; simpl.
    + by apply wf_retire_to.
    + apply Forall_forall. intros g [Hl Hg]%list_elem_of_filter. unfold live in Hl.
      rewrite Forall_forall in Hrs. specialize (Hrs g Hg). cbn. lia.
    + clear -Hso. induction Hso as [|g gs _ IH Hg]; [constructor|].
      rewrite filter_cons. case_decide; [|done]. constructor; [done|].
      apply Forall_forall. intros b [_ Hb]%list_elem_of_filter.
      by eapply Forall_forall in Hg.
Qed.

Lemma heap_inv_reach cap s : 0 <= cap -> heap_reach cap s -> heap_inv s.
Proof.
  intros Hc Hr. apply (rtc_invariant _ _ _ _ heap_inv_step Hr).
  constructor; cbn; [by apply wf_init_heap|constructor|constructor].
Qed.

(** Two virtually disjoint regions of one window are physically disjoint. *)
Lemma window_disjoint cap t a b :
  0 < cap -> t <= vstart b -> vstart b + rsize b <= vstart a ->
  vstart a + rsize a <= t + cap -> 0 < rsize a -> 0 < rsize b ->
  rpos a = vstart a mod cap -> rpos b = vstart b mod cap ->
  rpos a + rsize a <= cap -> rpos b + rsize b <= cap ->
  bytes_disjoint a b.
Proof.
  intros Hc H1 H2 H3 Ha Hb Ea Eb Hea Heb. unfold bytes_disjoint.
  pose proof (Z.div_mod (vstart a) cap). pose proof (Z.div_mod (vstart b) cap).
  assert (vstart a / cap = vstart b / cap \/ vstart a / cap = vstart b / cap + 1) as [E|E].
  { assert (vstart b / cap <= vstart a / cap) by (apply Z.div_le_mono; lia).
    assert (vstart a / cap <= (vstart b + cap) / cap) as Hx by (apply Z.div_le_mono; lia).
    replace (vstart b + cap) with (vstart b + 1 * cap) in Hx by lia.
    rewrite Z.div_add in Hx by lia. lia. }
  - right. nia.
  - left. nia.
Qed.

(** C15.  In every state a client can reach from [init], two different live
    regions of the heap ring share no byte of the store, and every live region
    lies inside the store: the allocator never hands out memory that is still
    in use and never hands out memory outside its buffer. *)
Theorem heap_live_regions_disjoint cap r gs i j a b :
  0 <= cap -> heap_reach cap (r, gs) ->
  gs !! i = Some a -> gs !! j = Some b -> i <> j ->
  bytes_disjoint a b /\
  0 <= rpos a /\ rpos a + rsize a <= zlength (store_ r).
Proof.
  intros Hc [Hwf Hrs Hso]%heap_inv_reach Hi Hj Hij; [simpl in *|done].
  pose proof Hwf as [Hst ? ? ?]. rewrite Hst.
  pose proof (proj1 (Forall_lookup _ _) Hrs _ _ Hi) as Ha.
  pose proof (proj1 (Forall_lookup _ _) Hrs _ _ Hj) as Hb. simpl in *.
  split; [|lia].
  assert (vstart b + rsize b <= vstart a \/ vstart a + rsize a <= vstart b) as [E|E].
  { destruct (decide (i < j)%nat);
      [left; apply (sorted_lookup _ _ _ _ _ _ Hso Hi Hj)
      |right; apply (sorted_lookup _ _ _ _ _ _ Hso Hj Hi)]; lia. }
  - eapply (window_disjoint (capacity_ r) (tail_ r)); lia.
  - enough (bytes_disjoint b a) by (unfold bytes_disjoint in *; lia).
    eapply (window_disjoint (capacity_ r) (tail_ r)); lia.
Qed.

Lemma heap_live_regions_disjoint_witness :
  exists r gs a b, heap_reach 100 (r, gs) /\ gs !! 0%nat = Some a /\ gs !! 1%nat = Some b /\
    bytes_disjoint a b.
Proof.
  set (r0 := init 100 empty_ring).
  set (r1 := (try_alloc 60 r0).1). set (r2 := (try_alloc 30 r1).1).
  exists r2, [mkRegion 60 30 60; mkRegion 0 60 0], (mkRegion 60 30 60), (mkRegion 0 60 0).
  assert (Hr : heap_reach 100 (r2, [mkRegion 60 30 60; mkRegion 0 60 0])).
  { eapply rtc_l; [apply (step_alloc r0 r1 [] 60 0); [lia|vm_compute; reflexivity|reflexivity]|].
    eapply rtc_l; [apply (step_alloc r1 r2 _ 30 60); [lia|vm_compute; reflexivity|reflexivity]|].
    apply rtc_refl. }
  split; [exact Hr|]. split; [reflexivity|]. split; [reflexivity|].
  apply (heap_live_regions_disjoint 100 r2 _ 0 1 _ _ ltac:(lia) Hr eq_refl eq_refl ltac:(lia)).
Defined.

(**  Functional behaviour of [try_alloc] on every branch: on a well-formed
    ring it succeeds exactly when the request is positive, no larger than the
    ring, and the request with the padding up to the end of the store fits in
    the free bytes; on success [top_] advances by padding plus size and the
    offset returned leaves room for [size] bytes before the end of the store;
    on failure the ring is unchanged. *)
Theorem heap_try_alloc_spec size r :
  wf r -> no_wrap r -> 0 <= size < 2 ^ 64 ->
  match try_alloc size r with
  | (r', Some p) =>
      0 < size <= capacity_ r /\
      padding size r + size <= capacity_ r - (top_ r - tail_ r) /\
      top_ r' = top_ r + padding size r + size /\ tail_ r' = tail_ r /\
      p = (top_ r + padding size r) mod capacity_ r /\
      0 <= p /\ p + size <= zlength (store_ r)
  | (r', None) =>
      r' = r /\
      ~ (0 < size <= capacity_ r /\
         padding size r + size <= capacity_ r - (top_ r - tail_ r))
  end.
Proof.
  intros Hwf Hnw Hsz. rewrite try_alloc_eq by done. destruct (fits size r) eqn:Hf.
  - pose proof (alloc_pos_range _ _ Hwf Hf). apply fits_spec in Hf. cbn.
    rewrite (wf_store _ Hwf). naive_solver.
  - split; [done|]. intros Hx%fits_spec. congruence.
Qed.

Lemma heap_try_alloc_spec_witness :
  match try_alloc 30 (mkHeapRing (replicate 100 0) 100 80 60) with
  | (r', Some p) => p = 0 /\ top_ r' = 130
  | _ => False
  end.
Proof.
  pose proof (heap_try_alloc_spec 30 (mkHeapRing (replicate 100 0) 100 80 60)) as H.
  assert (wf (mkHeapRing (replicate 100 0) 100 80 60)) as Hwf by (constructor; vm_compute; congruence).
  specialize (H Hwf ltac:(vm_compute; reflexivity) ltac:(lia)).
  destruct (try_alloc 30 _) as [r' [p|]] eqn:E.
  - destruct H as (_ & _ & Ht & _ & Hp & _). split; [rewrite Hp|rewrite Ht]; reflexivity.
  - destruct H as [_ H]. apply H. split; [cbn; lia|vm_compute; discriminate].
Defined.

(**  An empty ring ([top_ = tail_], everything retired) accepts a request
    of at most [capacity_] bytes only if it fits on one side of the current
    position: it refuses exactly the requests that are larger than both the
    bytes before and the bytes after [top_ % capacity_].  No retirement can
    change the answer, since nothing is live: the ring can be empty and still
    never satisfy a request that is smaller than its capacity. *)
Theorem heap_empty_ring_refuses size r :
  wf r -> no_wrap r -> tail_ r = top_ r -> 0 < size <= capacity_ r ->
  try_alloc size r = (r, None) <->
  capacity_ r - top_ r mod capacity_ r < size /\ top_ r mod capacity_ r < size.
Proof.
  intros Hwf Hnw He Hs. rewrite try_alloc_eq by (done || unfold no_wrap in *; destruct Hwf; lia).
  pose proof (pos_range r ltac:(lia)).
  unfold fits, padding.
  rewrite (proj2 (Z.ltb_lt 0 size)), (proj2 (Z.leb_le size (capacity_ r))) by lia. simpl.
  destruct (Z.leb_spec (top_ r mod capacity_ r + size) (capacity_ r)) as [Hin|Hout].
  - rewrite (proj2 (Z.leb_le _ _)) by lia. split; [congruence|lia].
  - destruct (Z.leb_spec (capacity_ r - top_ r mod capacity_ r + size)
       (capacity_ r - (top_ r - tail_ r))); split; try congruence; lia.
Qed.

Lemma heap_empty_ring_refuses_witness :
  let r := mkHeapRing (replicate 100 0) 100 60 60 in
  used r = 0 /\ try_alloc 70 r = (r, None).
Proof.
  intros r. split; [reflexivity|].
  apply (heap_empty_ring_refuses 70 r);
    [constructor; vm_compute; congruence|vm_compute; reflexivity|reflexivity|cbn; lia|].
  vm_compute. split; reflexivity.
Defined.
