(* ===== verification/LinquDepListPool.v ===== *)
(** * LinquDepListPool: the bump-allocated pool of dependency list cells

    Models [src/src/ring/linqu_dep_pool.h] and [linqu_dep_pool.cpp].  A list
    is a head offset into [pool_]; an offset [<= 0] is the empty list (offset 0
    is reserved as NULL, [-1] is the initial head of a descriptor).

    The abstract contract: a well-formed pool denotes, for every head below
    [top_], a finite list of task ids ([chain]); [prepend] is [cons], and it
    leaves every other list as it was.  [walk] is the loop
    [while (cur > 0) { entry = get(cur); ...; cur = entry->next; }] that the
    runtimes run over a list, with its proof rule [wp_walk]. *)

From S2P Require Import Prelude.

Record LinquDepListEntry := mkDepListEntry { task_id : Z; next : Z }.

Record LinquDepListPool := mkDepListPool {
  pool_ : list LinquDepListEntry;
  capacity_ : Z;
  top_ : Z;
}.

#[export] Instance set_pool_ : Setter pool_ := fun f p =>
  mkDepListPool (f (pool_ p)) (capacity_ p) (top_ p).
#[export] Instance set_top_ : Setter top_ := fun f p =>
  mkDepListPool (pool_ p) (capacity_ p) (f (top_ p)).

(** The default-constructed pool. *)
Definition empty_pool : LinquDepListPool := mkDepListPool [] 0 1.

(** [resize] value-initialises the new cells. *)
Definition init (cap : Z) (p : LinquDepListPool) : outcome LinquDepListPool :=
  do! assert_that (0 <? cap) in
  let! n := i32_add cap 1 in
  Ok (mkDepListPool (resize (Z.to_nat n) (mkDepListEntry 0 0) (pool_ p)) cap 1).

Definition reset (p : LinquDepListPool) : LinquDepListPool := p <| top_ := 1 |>.

Definition alloc_one (p : LinquDepListPool) : outcome (LinquDepListPool * Z) :=
  if top_ p >? capacity_ p then Ok (p, 0) else
  let idx := top_ p in
  let! t := i32_add (top_ p) 1 in
  let! cells := vec_set (pool_ p) idx (mkDepListEntry (-1) (-1)) in
  Ok (p <| top_ := t |> <| pool_ := cells |>, idx).

Definition prepend (current_head tid : Z) (p : LinquDepListPool)
    : outcome (LinquDepListPool * Z) :=
  let! (p1, idx) := alloc_one p in
  do! assert_that (0 <? idx) in
  let! cells := vec_set (pool_ p1) idx (mkDepListEntry tid current_head) in
  Ok (p1 <| pool_ := cells |>, idx).

(** [None] is the null pointer. *)
Definition get (offset : Z) (p : LinquDepListPool) : outcome (option LinquDepListEntry) :=
  if offset <=? 0 then Ok None else
  let! e := vec_get (pool_ p) offset in
  Ok (Some e).

Fixpoint count_loop (fuel : nat) (p : LinquDepListPool) (cur n : Z) : outcome Z :=
  match fuel with
  | O => Fault OutOfFuel
  | S fuel =>
      if 0 <? cur then
        let! n1 := i32_add n 1 in
        let! e := vec_get (pool_ p) cur in
        count_loop fuel p (next e) n1
      else Ok n
  end.

(** The loop visits strictly decreasing offsets below [top_]: that many turns
    are enough. *)
Definition walk_fuel (p : LinquDepListPool) : nat := S (Z.to_nat (top_ p)).

Definition count (head : Z) (p : LinquDepListPool) : outcome Z :=
  count_loop (walk_fuel p) p head 0.

Definition used (p : LinquDepListPool) : Z := top_ p - 1.
Definition available (p : LinquDepListPool) : Z := capacity_ p - used p.

(** The list loop of the runtimes over a state [S] that holds the pool. *)
Fixpoint walk {S} (getp : S -> LinquDepListPool) (body : Z -> S -> outcome S)
    (fuel : nat) (cur : Z) (s : S) : outcome S :=
  match fuel with
  | O => Fault OutOfFuel
  | S fuel =>
      if 0 <? cur then
        let! entry := get cur (getp s) in
        match entry with
        | None => Ok s
        | Some e =>
            let! s1 := body (task_id e) s in
            let! entry1 := get cur (getp s1) in
            let nxt := match entry1 with Some e1 => next e1 | None => -1 end in
            walk getp body fuel nxt s1
        end
      else Ok s
  end.

(** ** Well-formed pools and the lists they denote *)

Record wf (p : LinquDepListPool) : Prop := {
  wf_cap : 0 < capacity_ p < 2 ^ 31 - 1;
  wf_cells : zlength (pool_ p) = capacity_ p + 1;
  wf_top : 1 <= top_ p <= capacity_ p + 1;
  wf_next : forall i e, 0 < i < top_ p -> zlookup (pool_ p) i = Some e -> next e < i;
}.

Fixpoint chain_from (fuel : nat) (p : LinquDepListPool) (cur : Z) : list Z :=
  match fuel with
  | O => []
  | S fuel =>
      if 0 <? cur then
        match zlookup (pool_ p) cur with
        | Some e => task_id e :: chain_from fuel p (next e)
        | None => []
        end
      else []
  end.

Definition chain (p : LinquDepListPool) (head : Z) : list Z :=
  chain_from (Z.to_nat head) p head.

Definition valid_head (p : LinquDepListPool) (head : Z) : Prop := head < top_ p.

Section chains.
Context (p : LinquDepListPool) (Hwf : wf p).

Lemma cell_lookup i : 0 < i < top_ p -> exists e, zlookup (pool_ p) i = Some e.
Proof. destruct Hwf. intros. apply zlookup_is_Some. lia. Qed.

Lemma chain_from_fuel f1 f2 cur :
  valid_head p cur -> (Z.to_nat cur <= f1)%nat -> (Z.to_nat cur <= f2)%nat ->
  chain_from f1 p cur = chain_from f2 p cur.
Proof.
  unfold valid_head. revert f2 cur. induction f1 as [|f1 IH]; intros f2 cur Hv H1 H2.
  { destruct f2; [done|]. simpl. by rewrite (proj2 (Z.ltb_ge 0 cur)) by lia. }
  destruct f2 as [|f2]; simpl; destruct (Z.ltb_spec 0 cur); try lia; try done.
  destruct (zlookup (pool_ p) cur) as [e|] eqn:E; [|done].
  pose proof (wf_next _ Hwf cur e ltac:(lia) E). f_equal. apply IH; lia.
Qed.

Lemma chain_nil cur : cur <= 0 -> chain p cur = [].
Proof. intros. unfold chain. by replace (Z.to_nat cur) with O by lia. Qed.

Lemma chain_cons cur e :
  0 < cur < top_ p -> zlookup (pool_ p) cur = Some e ->
  chain p cur = task_id e :: chain p (next e).
Proof.
  intros Hc He. unfold chain. pose proof (wf_next _ Hwf cur e Hc He).
  destruct (Z.to_nat cur) eqn:E; [lia|]. simpl.
  rewrite (proj2 (Z.ltb_lt 0 cur)), He by lia. f_equal.
  apply chain_from_fuel; unfold valid_head; lia.
Qed.

Lemma next_valid cur e :
  0 < cur < top_ p -> zlookup (pool_ p) cur = Some e -> valid_head p (next e).
Proof. intros Hc He. pose proof (wf_next _ Hwf cur e Hc He). unfold valid_head. lia. Qed.

Lemma get_cell cur e :
  0 < cur -> zlookup (pool_ p) cur = Some e -> get cur p = Ok (Some e).
Proof.
  intros Hc He. unfold get, vec_get. rewrite (proj2 (Z.leb_gt _ _)) by lia. by rewrite He.
Qed.

Lemma chain_length cur : valid_head p cur -> (length (chain p cur) <= Z.to_nat cur)%nat.
Proof.
  unfold valid_head. remember (Z.to_nat cur) as n eqn:En. revert cur En.
  induction n as [n IH] using lt_wf_ind. intros cur -> Hv.
  destruct (decide (0 < cur)) as [Hc|Hc]; [|rewrite chain_nil by lia; simpl; lia].
  destruct (cell_lookup cur) as [e He]; [lia|].
  pose proof (wf_next _ Hwf cur e ltac:(lia) He).
  rewrite (chain_cons cur e) by (done || lia). simpl.
  specialize (IH (Z.to_nat (next e)) ltac:(lia) (next e) eq_refl ltac:(lia)). lia.
Qed.
End chains.

(** The proof rule of [walk]: an assertion indexed by the ids still to visit,
    kept by the body as long as the body leaves the pool alone. *)
Lemma wp_walk {S} (getp : S -> LinquDepListPool) (body : Z -> S -> outcome S)
    (E : fault -> Prop) (p : LinquDepListPool) (P : list Z -> S -> Prop) fuel cur s :
  wf p -> valid_head p cur -> (Z.to_nat cur < fuel)%nat ->
  getp s = p -> P (chain p cur) s ->
  (forall t l s, getp s = p -> P (t :: l) s ->
     wp E (body t s) (fun s' => getp s' = p /\ P l s')) ->
  wp E (walk getp body fuel cur s) (fun s' => getp s' = p /\ P [] s').
Proof.
  intros Hwf Hv Hf Hs HP Hb. revert cur s Hv Hf Hs HP.
  induction fuel as [|fuel IH]; intros cur s Hv Hf Hs HP; [lia|]. simpl.
  destruct (Z.ltb_spec 0 cur) as [Hc|Hc]; [|rewrite chain_nil in HP by lia; done].
  unfold valid_head in Hv. destruct (cell_lookup p Hwf cur) as [e He]; [lia|].
  rewrite Hs, (get_cell p cur e) by (done || lia). simpl.
  rewrite (chain_cons p Hwf cur e) in HP by (done || lia).
  eapply wp_step; [by apply (Hb _ _ _ Hs HP)|]. simpl. intros s1 [Hs1 HP1].
  rewrite Hs1, (get_cell p cur e) by (done || lia). simpl.
  pose proof (wf_next _ Hwf cur e ltac:(lia) He).
  apply IH; auto; [unfold valid_head; lia|lia].
Qed.

(** ** Operations *)

Lemma wf_init_pool cap p :
  0 < cap < 2 ^ 31 - 1 ->
  exists p', init cap p = Ok p' /\ wf p' /\ top_ p' = 1 /\ capacity_ p' = cap.
Proof.
  intros Hc. unfold init, i32_add.
  rewrite (proj2 (Z.ltb_lt 0 cap)), (proj2 (i32_range_spec _)) by (unfold_ints; lia). simpl.
  eexists. split; [done|]. split; [|done].
  constructor; cbn; try lia. unfold zlength. rewrite length_resize. lia.
Qed.

Lemma wf_reset p : wf p -> wf (reset p).
Proof. intros [? ? ? ?]. constructor; cbn; try done; lia. Qed.

(** [prepend] with room left, as one equation. *)
Lemma prepend_eq head tid p :
  wf p -> top_ p <= capacity_ p ->
  prepend head tid p =
    Ok (mkDepListPool (zinsert (top_ p) (mkDepListEntry tid head) (pool_ p))
          (capacity_ p) (top_ p + 1), top_ p).
Proof.
  intros Hwf Hroom. pose proof Hwf as [? ? ? _]. unfold prepend, alloc_one, i32_add.
  destruct (Z.gtb_spec (top_ p) (capacity_ p)); [lia|].
  rewrite (proj2 (i32_range_spec _)) by (unfold_ints; lia). simpl.
  rewrite (proj2 (vec_set_Ok _ _ _ _)) by (split; [lia|reflexivity]). cbn.
  rewrite (proj2 (Z.ltb_lt 0 _)) by lia. simpl.
  rewrite (proj2 (vec_set_Ok _ _ _ _)) by (rewrite zlength_zinsert; split; [lia|reflexivity]).
  unfold zinsert, setter, set_pool_, set_top_. cbn.
  by rewrite (proj2 (Z.leb_le 0 _)), list_insert_insert_eq by lia.
Qed.

Lemma prepend_full head tid p :
  capacity_ p < top_ p -> prepend head tid p = Fault AssertFailed.
Proof.
  intros. unfold prepend, alloc_one. destruct (Z.gtb_spec (top_ p) (capacity_ p)); [done|lia].
Qed.

(** A pool that agrees with [p] on the cells below [top_ p] denotes the same lists. *)
Lemma chain_agree p p' cur :
  wf p -> wf p' -> top_ p <= top_ p' -> valid_head p cur ->
  (forall i, 0 < i < top_ p -> zlookup (pool_ p') i = zlookup (pool_ p) i) ->
  chain p' cur = chain p cur.
Proof.
  intros Hwf Hwf' Ht Hv Hag. unfold valid_head in Hv.
  remember (Z.to_nat cur) as n eqn:En. revert cur En Hv.
  induction n as [n IH] using lt_wf_ind. intros cur -> Hv.
  destruct (decide (0 < cur)) as [Hc|Hc]; [|by rewrite !chain_nil by lia].
  destruct (cell_lookup p Hwf cur) as [e He]; [lia|].
  pose proof (wf_next _ Hwf cur e ltac:(lia) He).
  rewrite (chain_cons p Hwf cur e), (chain_cons p' Hwf' cur e);
    rewrite ?Hag by lia; try done; try lia.
  f_equal. eapply (IH (Z.to_nat (next e))); lia.
Qed.

Section prepend.
Context (p : LinquDepListPool) (Hwf : wf p) (Hroom : top_ p <= capacity_ p).
Context (head tid : Z) (Hv : valid_head p head).

Let p' := mkDepListPool (zinsert (top_ p) (mkDepListEntry tid head) (pool_ p))
            (capacity_ p) (top_ p + 1).

Lemma wf_prepended : wf p'.
Proof.
  unfold valid_head in Hv. destruct Hwf as [? ? ? Hn].
  constructor; cbn; try lia; [by rewrite zlength_zinsert|].
  intros i e Hi. rewrite zlookup_zinsert by lia. case_decide as E.
  - intros [= <-]. simpl. lia.
  - intros He. apply (Hn i e); [lia|done].
Qed.

Lemma chain_prepended_new : chain p' (top_ p) = tid :: chain p head.
Proof.
  pose proof wf_prepended as Hwf'. pose proof Hwf as [? ? ? _]. unfold valid_head in Hv.
  rewrite (chain_cons p' Hwf' (top_ p) (mkDepListEntry tid head)); cbn; try lia;
    [|apply zlookup_zinsert_eq; lia].
  f_equal. apply chain_agree; cbn; try done; try lia.
  intros i Hi. apply zlookup_zinsert_ne. lia.
Qed.

Lemma chain_prepended_old h : valid_head p h -> chain p' h = chain p h.
Proof.
  pose proof wf_prepended. intros. apply chain_agree; cbn; try done; try lia.
  intros i Hi. apply zlookup_zinsert_ne. lia.
Qed.
End prepend.

(** The rule clients use: [prepend] either aborts because the pool is full, or
    extends one list and leaves the others. *)
Lemma wp_prepend (E : fault -> Prop) head tid p (Q : LinquDepListPool * Z -> Prop) :
  wf p -> valid_head p head ->
  (top_ p > capacity_ p -> E AssertFailed) ->
  (forall p' idx, top_ p <= capacity_ p -> wf p' -> capacity_ p' = capacity_ p ->
     top_ p' = top_ p + 1 -> idx = top_ p -> valid_head p' idx ->
     chain p' idx = tid :: chain p head ->
     (forall h, valid_head p h -> valid_head p' h /\ chain p' h = chain p h) ->
     Q (p', idx)) ->
  wp E (prepend head tid p) Q.
Proof.
  intros Hwf Hv HE HQ. destruct (decide (top_ p <= capacity_ p)) as [Hr|Hr].
  - rewrite prepend_eq by done. simpl.
    apply HQ; cbn; auto using wf_prepended, chain_prepended_new.
    + unfold valid_head. cbn. lia.
    + intros h Hh. split; [unfold valid_head in *; cbn; lia|by apply chain_prepended_old].
  - rewrite prepend_full by lia. simpl. apply HE. lia.
Qed.

(** Refinement: a pool denotes lists of task ids, and [prepend] is [cons].
    On a well-formed pool it either extends exactly one list, keeps the
    denotation of every other list and stays well-formed, or the pool is used
    up and the [assert] fires; it never writes outside [pool_]. *)
Theorem dep_prepend_is_cons head tid p :
  wf p -> valid_head p head ->
  match prepend head tid p with
  | Ok (p', idx) =>
      used p < capacity_ p /\ wf p' /\ valid_head p' idx /\ 0 < idx /\
      used p' = used p + 1 /\ capacity_ p' = capacity_ p /\
      chain p' idx = tid :: chain p head /\
      (forall h, valid_head p h -> valid_head p' h /\ chain p' h = chain p h)
  | Fault f => f = AssertFailed /\ used p = capacity_ p
  end.
Proof.
  intros Hwf Hv. pose proof Hwf as [? ? ? _].
  change (wp (fun f => f = AssertFailed /\ used p = capacity_ p) (prepend head tid p)
    (fun '(p', idx) => used p < capacity_ p /\ wf p' /\ valid_head p' idx /\ 0 < idx /\
      used p' = used p + 1 /\ capacity_ p' = capacity_ p /\
      chain p' idx = tid :: chain p head /\
      (forall h, valid_head p h -> valid_head p' h /\ chain p' h = chain p h))).
  apply wp_prepend; auto; [intros; unfold used; split; [done|lia]|].
  intros p' idx Hr Hwf' Hc Ht -> Hv' Hnew Hold. unfold used. split_and!; auto; lia.
Qed.

Lemma dep_prepend_is_cons_witness :
  exists p p', init 2 empty_pool = Ok p /\ prepend (-1) 7 p = Ok (p', 1) /\
    chain p' 1 = [7].
Proof.
  destruct (init 2 empty_pool) as [p|] eqn:Hp; [|discriminate].
  destruct (wf_init_pool 2 empty_pool ltac:(lia)) as (q & Hq & Hwf & _). rewrite Hp in Hq. injection Hq as <-.
  pose proof (dep_prepend_is_cons (-1) 7 p Hwf) as H.
  specialize (H ltac:(unfold valid_head; injection Hp as <-; reflexivity)).
  destruct (prepend (-1) 7 p) as [[p' idx]|] eqn:E.
  - exists p, p'. destruct H as (_ & _ & _ & _ & _ & _ & Hc & _).
    assert (idx = 1) as -> by (injection Hp as <-; injection E as <- <-; reflexivity).
    split; [reflexivity|]. split; [exact E|]. rewrite Hc. reflexivity.
  - injection Hp as <-. discriminate E.
Defined.

Lemma count_loop_spec p fuel cur n :
  wf p -> valid_head p cur -> (Z.to_nat cur < fuel)%nat -> 0 <= n -> n + cur < 2 ^ 31 - 1 ->
  n < 2 ^ 31 - 1 ->
  count_loop fuel p cur n = Ok (n + zlength (chain p cur)).
Proof.
  intros Hwf. revert cur n. induction fuel as [|fuel IH]; intros cur n Hv Hf Hn Hb Hb2; [lia|].
  simpl. destruct (Z.ltb_spec 0 cur) as [Hc|Hc];
    [|rewrite chain_nil by lia; f_equal; unfold zlength; simpl; lia].
  unfold valid_head in Hv. destruct (cell_lookup p Hwf cur) as [e He]; [lia|].
  pose proof (wf_next _ Hwf cur e ltac:(lia) He).
  unfold i32_add. rewrite (proj2 (i32_range_spec _)) by (unfold_ints; lia). simpl.
  unfold vec_get. rewrite He. simpl. rewrite (chain_cons p Hwf cur e) by (done || lia).
  rewrite IH by (unfold valid_head; lia). f_equal. unfold zlength. simpl. lia.
Qed.

(**  [count] terminates on every list of a well-formed pool and returns the
    length of the list, with no overflow of the [int32_t] counter. *)
Theorem dep_count_is_length p head :
  wf p -> valid_head p head -> count head p = Ok (zlength (chain p head)).
Proof.
  intros Hwf Hv. pose proof Hwf as [? ? ? _]. unfold valid_head in Hv.
  unfold count, walk_fuel. apply count_loop_spec; unfold valid_head; done || lia.
Qed.

Lemma dep_count_is_length_witness :
  let p := mkDepListPool [mkDepListEntry 0 0; mkDepListEntry 7 (-1); mkDepListEntry 9 1] 2 3 in
  count 2 p = Ok 2.
Proof.
  intros p. assert (Hwf : wf p).
  { constructor; [vm_compute; split; congruence|reflexivity|vm_compute; split; congruence|].
    intros i e Hi. cbn in Hi.
    assert (i = 1 \/ i = 2) as [-> | ->] by lia; intros He; vm_compute in He;
      injection He as <-; reflexivity. }
  rewrite (dep_count_is_length p 2 Hwf); [reflexivity|unfold valid_head; cbn; lia].
Defined.

(** The way [submit_task] builds a list: one [prepend] per dependency. *)
Fixpoint build (head : Z) (tids : list Z) (p : LinquDepListPool) : outcome (LinquDepListPool * Z) :=
  match tids with
  | [] => Ok (p, head)
  | t :: ts => let! (p1, h1) := prepend head t p in build h1 ts p1
  end.

(**  The pool never gives a cell back: from a well-formed pool, a run of
    [prepend]s succeeds exactly as long as it is no longer than the cells left,
    whatever has become of the earlier lists; then it reads back as the ids in
    reverse order, and past that point every further dependency aborts. *)
Theorem dep_build_spec p head tids :
  wf p -> valid_head p head ->
  match build head tids p with
  | Ok (p', h) => zlength tids <= available p /\ available p' = available p - zlength tids /\
      chain p' h = reverse tids ++ chain p head
  | Fault f => f = AssertFailed /\ available p < zlength tids
  end.
Proof.
  revert p head. induction tids as [|t ts IH]; intros p head Hwf Hv; cbn [build].
  { unfold zlength, available, used. destruct Hwf. simpl. repeat split; try lia. }
  pose proof Hwf as [? ? ? _].
  destruct (decide (top_ p <= capacity_ p)) as [Hr|Hr].
  - rewrite prepend_eq by done. simpl.
    pose proof (wf_prepended p Hwf Hr head t Hv) as Hwf'.
    set (p1 := mkDepListPool _ _ _) in *.
    specialize (IH p1 (top_ p) Hwf' ltac:(unfold valid_head; cbn; lia)).
    assert (Ha : available p1 = available p - 1) by (unfold available, used; cbn; lia).
    unfold zlength in *. rewrite Ha in IH. simpl length. destruct (build _ _ p1) as [[p' h]|f].
    + destruct IH as (? & ? & ->). subst p1. rewrite chain_prepended_new by done.
      rewrite reverse_cons, <- app_assoc. simpl. repeat split; lia.
    + destruct IH. split; [done|lia].
  - rewrite prepend_full by lia. simpl. split; [done|].
    unfold available, used, zlength. simpl. lia.
Qed.

Lemma dep_build_spec_witness :
  exists p, init 2 empty_pool = Ok p /\ build (-1) [4; 5; 6] p = Fault AssertFailed.
Proof.
  destruct (wf_init_pool 2 empty_pool ltac:(lia)) as (p & Hp & Hwf & Ht & Hc).
  exists p. split; [exact Hp|].
  pose proof (dep_build_spec p (-1) [4; 5; 6] Hwf) as H.
  specialize (H ltac:(unfold valid_head; lia)).
  destruct (build (-1) [4; 5; 6] p) as [[p' h]|f].
  - exfalso. destruct H as [H _]. unfold available, used in H. rewrite Ht, Hc in H.
    vm_compute in H. congruence.
  - destruct H as [-> _]. reflexivity.
Defined.
