(* ===== verification/LinquTaskRing.v ===== *)
(** * LinquTaskRing: the fixed window of task descriptors

    Models [src/src/ring/linqu_task_ring.h] and [linqu_task_ring.cpp].  Task
    ids only grow; the descriptor of task [id] lives in slot
    [id & (window_size_ - 1)], so a slot is reused every [window_size_] ids.
    A pointer to a descriptor is the task id it was obtained with: [get] reads
    it and [upd] writes through it.  [fn] is the identity of the closure stored
    in the [std::function], [None] when it is empty.

    The contract: the descriptors of the live ids [last_task_alive_ .. current_index_)
    sit in different slots, and an allocation resets exactly the slot of the new id. *)

From S2P Require Import Prelude Coordinate.

Inductive Status := PENDING | READY | RUNNING | COMPLETED | CONSUMED.

#[export] Instance status_eq_dec : EqDecision Status.
Proof. solve_decision. Defined.

Definition status_eqb (a b : Status) : bool := bool_decide (a = b).

Record LinquTaskDescriptor := mkDesc {
  key : TaskKey;
  dep_list_head : Z;
  fanin_count : Z;
  fanout_list_head : Z;
  fanout_count : Z;
  atomic_fanin_refcount : Z;
  atomic_fanout_refcount : Z;
  fanout_lock : Z;
  task_freed : bool;
  kernel_so : string;
  output_offset : Z;
  output_size : Z;
  heap_end : Z;
  status : Status;
  fn : option Z;
  fanout_refcount : Z;
  fanin_refcount : Z;
  is_group : bool;
  group_size : Z;
  sub_complete_count : Z;
}.

#[export] Instance set_key : Setter key := fun f d =>
  mkDesc (f (key d)) (dep_list_head d) (fanin_count d) (fanout_list_head d) (fanout_count d)
    (atomic_fanin_refcount d) (atomic_fanout_refcount d) (fanout_lock d) (task_freed d)
    (kernel_so d) (output_offset d) (output_size d) (heap_end d) (status d) (fn d)
    (fanout_refcount d) (fanin_refcount d) (is_group d) (group_size d) (sub_complete_count d).
#[export] Instance set_dep_list_head : Setter dep_list_head := fun f d =>
  mkDesc (key d) (f (dep_list_head d)) (fanin_count d) (fanout_list_head d) (fanout_count d)
    (atomic_fanin_refcount d) (atomic_fanout_refcount d) (fanout_lock d) (task_freed d)
    (kernel_so d) (output_offset d) (output_size d) (heap_end d) (status d) (fn d)
    (fanout_refcount d) (fanin_refcount d) (is_group d) (group_size d) (sub_complete_count d).
#[export] Instance set_fanin_count : Setter fanin_count := fun f d =>
  mkDesc (key d) (dep_list_head d) (f (fanin_count d)) (fanout_list_head d) (fanout_count d)
    (atomic_fanin_refcount d) (atomic_fanout_refcount d) (fanout_lock d) (task_freed d)
    (kernel_so d) (output_offset d) (output_size d) (heap_end d) (status d) (fn d)
    (fanout_refcount d) (fanin_refcount d) (is_group d) (group_size d) (sub_complete_count d).
#[export] Instance set_fanout_list_head : Setter fanout_list_head := fun f d =>
  mkDesc (key d) (dep_list_head d) (fanin_count d) (f (fanout_list_head d)) (fanout_count d)
    (atomic_fanin_refcount d) (atomic_fanout_refcount d) (fanout_lock d) (task_freed d)
    (kernel_so d) (output_offset d) (output_size d) (heap_end d) (status d) (fn d)
    (fanout_refcount d) (fanin_refcount d) (is_group d) (group_size d) (sub_complete_count d).
#[export] Instance set_fanout_count : Setter fanout_count := fun f d =>
  mkDesc (key d) (dep_list_head d) (fanin_count d) (fanout_list_head d) (f (fanout_count d))
    (atomic_fanin_refcount d) (atomic_fanout_refcount d) (fanout_lock d) (task_freed d)
    (kernel_so d) (output_offset d) (output_size d) (heap_end d) (status d) (fn d)
    (fanout_refcount d) (fanin_refcount d) (is_group d) (group_size d) (sub_complete_count d).
#[export] Instance set_atomic_fanin_refcount : Setter atomic_fanin_refcount := fun f d =>
  mkDesc (key d) (dep_list_head d) (fanin_count d) (fanout_list_head d) (fanout_count d)
    (f (atomic_fanin_refcount d)) (atomic_fanout_refcount d) (fanout_lock d) (task_freed d)
    (kernel_so d) (output_offset d) (output_size d) (heap_end d) (status d) (fn d)
    (fanout_refcount d) (fanin_refcount d) (is_group d) (group_size d) (sub_complete_count d).
#[export] Instance set_atomic_fanout_refcount : Setter atomic_fanout_refcount := fun f d =>
  mkDesc (key d) (dep_list_head d) (fanin_count d) (fanout_list_head d) (fanout_count d)
    (atomic_fanin_refcount d) (f (atomic_fanout_refcount d)) (fanout_lock d) (task_freed d)
    (kernel_so d) (output_offset d) (output_size d) (heap_end d) (status d) (fn d)
    (fanout_refcount d) (fanin_refcount d) (is_group d) (group_size d) (sub_complete_count d).
#[export] Instance set_fanout_lock : Setter fanout_lock := fun f d =>
  mkDesc (key d) (dep_list_head d) (fanin_count d) (fanout_list_head d) (fanout_count d)
    (atomic_fanin_refcount d) (atomic_fanout_refcount d) (f (fanout_lock d)) (task_freed d)
    (kernel_so d) (output_offset d) (output_size d) (heap_end d) (status d) (fn d)
    (fanout_refcount d) (fanin_refcount d) (is_group d) (group_size d) (sub_complete_count d).
#[export] Instance set_task_freed : Setter task_freed := fun f d =>
  mkDesc (key d) (dep_list_head d) (fanin_count d) (fanout_list_head d) (fanout_count d)
    (atomic_fanin_refcount d) (atomic_fanout_refcount d) (fanout_lock d) (f (task_freed d))
    (kernel_so d) (output_offset d) (output_size d) (heap_end d) (status d) (fn d)
    (fanout_refcount d) (fanin_refcount d) (is_group d) (group_size d) (sub_complete_count d).
#[export] Instance set_kernel_so : Setter kernel_so := fun f d =>
  mkDesc (key d) (dep_list_head d) (fanin_count d) (fanout_list_head d) (fanout_count d)
    (atomic_fanin_refcount d) (atomic_fanout_refcount d) (fanout_lock d) (task_freed d)
    (f (kernel_so d)) (output_offset d) (output_size d) (heap_end d) (status d) (fn d)
    (fanout_refcount d) (fanin_refcount d) (is_group d) (group_size d) (sub_complete_count d).
#[export] Instance set_output_offset : Setter output_offset := fun f d =>
  mkDesc (key d) (dep_list_head d) (fanin_count d) (fanout_list_head d) (fanout_count d)
    (atomic_fanin_refcount d) (atomic_fanout_refcount d) (fanout_lock d) (task_freed d)
    (kernel_so d) (f (output_offset d)) (output_size d) (heap_end d) (status d) (fn d)
    (fanout_refcount d) (fanin_refcount d) (is_group d) (group_size d) (sub_complete_count d).
#[export] Instance set_output_size : Setter output_size := fun f d =>
  mkDesc (key d) (dep_list_head d) (fanin_count d) (fanout_list_head d) (fanout_count d)
    (atomic_fanin_refcount d) (atomic_fanout_refcount d) (fanout_lock d) (task_freed d)
    (kernel_so d) (output_offset d) (f (output_size d)) (heap_end d) (status d) (fn d)
    (fanout_refcount d) (fanin_refcount d) (is_group d) (group_size d) (sub_complete_count d).
#[export] Instance set_heap_end : Setter heap_end := fun f d =>
  mkDesc (key d) (dep_list_head d) (fanin_count d) (fanout_list_head d) (fanout_count d)
    (atomic_fanin_refcount d) (atomic_fanout_refcount d) (fanout_lock d) (task_freed d)
    (kernel_so d) (output_offset d) (output_size d) (f (heap_end d)) (status d) (fn d)
    (fanout_refcount d) (fanin_refcount d) (is_group d) (group_size d) (sub_complete_count d).
#[export] Instance set_status : Setter status := fun f d =>
  mkDesc (key d) (dep_list_head d) (fanin_count d) (fanout_list_head d) (fanout_count d)
    (atomic_fanin_refcount d) (atomic_fanout_refcount d) (fanout_lock d) (task_freed d)
    (kernel_so d) (output_offset d) (output_size d) (heap_end d) (f (status d)) (fn d)
    (fanout_refcount d) (fanin_refcount d) (is_group d) (group_size d) (sub_complete_count d).
#[export] Instance set_fn : Setter fn := fun f d =>
  mkDesc (key d) (dep_list_head d) (fanin_count d) (fanout_list_head d) (fanout_count d)
    (atomic_fanin_refcount d) (atomic_fanout_refcount d) (fanout_lock d) (task_freed d)
    (kernel_so d) (output_offset d) (output_size d) (heap_end d) (status d) (f (fn d))
    (fanout_refcount d) (fanin_refcount d) (is_group d) (group_size d) (sub_complete_count d).
#[export] Instance set_fanout_refcount : Setter fanout_refcount := fun f d =>
  mkDesc (key d) (dep_list_head d) (fanin_count d) (fanout_list_head d) (fanout_count d)
    (atomic_fanin_refcount d) (atomic_fanout_refcount d) (fanout_lock d) (task_freed d)
    (kernel_so d) (output_offset d) (output_size d) (heap_end d) (status d) (fn d)
    (f (fanout_refcount d)) (fanin_refcount d) (is_group d) (group_size d)
    (sub_complete_count d).
#[export] Instance set_fanin_refcount : Setter fanin_refcount := fun f d =>
  mkDesc (key d) (dep_list_head d) (fanin_count d) (fanout_list_head d) (fanout_count d)
    (atomic_fanin_refcount d) (atomic_fanout_refcount d) (fanout_lock d) (task_freed d)
    (kernel_so d) (output_offset d) (output_size d) (heap_end d) (status d) (fn d)
    (fanout_refcount d) (f (fanin_refcount d)) (is_group d) (group_size d)
    (sub_complete_count d).
#[export] Instance set_is_group : Setter is_group := fun f d =>
  mkDesc (key d) (dep_list_head d) (fanin_count d) (fanout_list_head d) (fanout_count d)
    (atomic_fanin_refcount d) (atomic_fanout_refcount d) (fanout_lock d) (task_freed d)
    (kernel_so d) (output_offset d) (output_size d) (heap_end d) (status d) (fn d)
    (fanout_refcount d) (fanin_refcount d) (f (is_group d)) (group_size d)
    (sub_complete_count d).
#[export] Instance set_group_size : Setter group_size := fun f d =>
  mkDesc (key d) (dep_list_head d) (fanin_count d) (fanout_list_head d) (fanout_count d)
    (atomic_fanin_refcount d) (atomic_fanout_refcount d) (fanout_lock d) (task_freed d)
    (kernel_so d) (output_offset d) (output_size d) (heap_end d) (status d) (fn d)
    (fanout_refcount d) (fanin_refcount d) (is_group d) (f (group_size d))
    (sub_complete_count d).
#[export] Instance set_sub_complete_count : Setter sub_complete_count := fun f d =>
  mkDesc (key d) (dep_list_head d) (fanin_count d) (fanout_list_head d) (fanout_count d)
    (atomic_fanin_refcount d) (atomic_fanout_refcount d) (fanout_lock d) (task_freed d)
    (kernel_so d) (output_offset d) (output_size d) (heap_end d) (status d) (fn d)
    (fanout_refcount d) (fanin_refcount d) (is_group d) (group_size d)
    (f (sub_complete_count d)).

(** The default member initialisers. *)
Definition new_descriptor : LinquTaskDescriptor :=
  mkDesc empty_key (-1) 0 (-1) 1 0 0 0 false "" 0 0 0 PENDING None 0 0 false 0 0.

Definition reset_descriptor (d : LinquTaskDescriptor) : LinquTaskDescriptor :=
  d <| key := empty_key |>
    <| dep_list_head := -1 |>
    <| fanin_count := 0 |>
    <| fanout_list_head := -1 |>
    <| fanout_count := 1 |>
    <| atomic_fanin_refcount := 0 |>
    <| atomic_fanout_refcount := 0 |>
    <| fanout_lock := 0 |>
    <| task_freed := false |>
    <| kernel_so := "" |>
    <| output_offset := 0 |>
    <| output_size := 0 |>
    <| heap_end := 0 |>
    <| status := PENDING |>
    <| fn := None |>
    <| fanout_refcount := 0 |>
    <| fanin_refcount := 0 |>
    <| is_group := false |>
    <| group_size := 0 |>
    <| sub_complete_count := 0 |>.

Record LinquTaskRing := mkTaskRing {
  descriptors_ : list LinquTaskDescriptor;
  window_size_ : Z;
  current_index_ : Z;
  last_task_alive_ : Z;
}.

#[export] Instance set_descriptors_ : Setter descriptors_ := fun f r =>
  mkTaskRing (f (descriptors_ r)) (window_size_ r) (current_index_ r) (last_task_alive_ r).
#[export] Instance set_window_size_ : Setter window_size_ := fun f r =>
  mkTaskRing (descriptors_ r) (f (window_size_ r)) (current_index_ r) (last_task_alive_ r).
#[export] Instance set_current_index_ : Setter current_index_ := fun f r =>
  mkTaskRing (descriptors_ r) (window_size_ r) (f (current_index_ r)) (last_task_alive_ r).
#[export] Instance set_last_task_alive_ : Setter last_task_alive_ := fun f r =>
  mkTaskRing (descriptors_ r) (window_size_ r) (current_index_ r) (f (last_task_alive_ r)).

(** The default-constructed ring. *)
Definition empty_ring : LinquTaskRing := mkTaskRing [] 0 0 0.

Definition init (ws : Z) (r : LinquTaskRing) : outcome LinquTaskRing :=
  do! assert_that ((0 <? ws) && (Z.land ws (ws - 1) =? 0)) in
  Ok (mkTaskRing (replicate (Z.to_nat ws) new_descriptor) ws 0 0).

Definition reset (r : LinquTaskRing) : LinquTaskRing :=
  r <| current_index_ := 0 |>
    <| last_task_alive_ := 0 |>
    <| descriptors_ := map reset_descriptor (descriptors_ r) |>.

Definition active_count (r : LinquTaskRing) : Z := current_index_ r - last_task_alive_ r.

Definition has_space (r : LinquTaskRing) : bool := active_count r <? window_size_ r.

Definition slot_of (tid : Z) (r : LinquTaskRing) : Z := Z.land tid (window_size_ r - 1).

Definition get (tid : Z) (r : LinquTaskRing) : outcome LinquTaskDescriptor :=
  vec_get (descriptors_ r) (slot_of tid r).

(** [get(tid)->... = ...] *)
Definition upd (tid : Z) (f : LinquTaskDescriptor -> LinquTaskDescriptor) (r : LinquTaskRing)
    : outcome LinquTaskRing :=
  let! d := get tid r in
  let! ds := vec_set (descriptors_ r) (slot_of tid r) (f d) in
  Ok (r <| descriptors_ := ds |>).

Definition try_alloc (r : LinquTaskRing) : outcome (LinquTaskRing * Z) :=
  if negb (has_space r) then Ok (r, -1) else
  let id := current_index_ r in
  let! c := i32_add (current_index_ r) 1 in
  let r1 := r <| current_index_ := c |> in
  let! r2 := upd id reset_descriptor r1 in
  Ok (r2, id).

Definition alloc (r : LinquTaskRing) : outcome (LinquTaskRing * Z) :=
  let! (r1, id) := try_alloc r in
  do! assert_that (0 <=? id) in
  Ok (r1, id).

Definition set_last_task_alive (v : Z) (r : LinquTaskRing) : LinquTaskRing :=
  r <| last_task_alive_ := v |>.

(** ** Well-formed rings *)

Record wf (r : LinquTaskRing) : Prop := {
  wf_pow2 : is_pow2 (window_size_ r) = true;
  wf_len : zlength (descriptors_ r) = window_size_ r;
  wf_alive : 0 <= last_task_alive_ r <= current_index_ r;
  wf_window : current_index_ r <= last_task_alive_ r + window_size_ r;
  wf_i32 : in_i32 (current_index_ r);
}.

Definition live (tid : Z) (r : LinquTaskRing) : Prop :=
  last_task_alive_ r <= tid < current_index_ r.

(** The descriptor a task id denotes. *)
Definition desc (tid : Z) (r : LinquTaskRing) : LinquTaskDescriptor :=
  default new_descriptor (zlookup (descriptors_ r) (slot_of tid r)).

(** The ring after [get(tid)->... = ...]. *)
Definition updated (tid : Z) (f : LinquTaskDescriptor -> LinquTaskDescriptor)
    (r : LinquTaskRing) : LinquTaskRing :=
  r <| descriptors_ := zinsert (slot_of tid r) (f (desc tid r)) (descriptors_ r) |>.

Section ring.
Context (r : LinquTaskRing) (Hwf : wf r).

Lemma slot_range tid : 0 <= slot_of tid r < zlength (descriptors_ r).
Proof. rewrite (wf_len _ Hwf). apply land_mask_range, Hwf. Qed.

Lemma slot_mod tid : slot_of tid r = tid mod window_size_ r.
Proof. apply land_mask, Hwf. Qed.

(** Live tasks never share a slot. *)
Lemma slot_inj a b : live a r -> live b r -> slot_of a r = slot_of b r -> a = b.
Proof.
  unfold live. intros Ha Hb. rewrite !slot_mod. pose proof (is_pow2_pos _ (wf_pow2 _ Hwf)).
  pose proof (wf_window _ Hwf). intros. apply (mod_window_inj (window_size_ r)); lia.
Qed.

Lemma lookup_desc tid : zlookup (descriptors_ r) (slot_of tid r) = Some (desc tid r).
Proof.
  unfold desc. destruct (zlookup_is_Some (descriptors_ r) (slot_of tid r)) as [d ->];
    [apply slot_range|done].
Qed.

Lemma get_desc tid : get tid r = Ok (desc tid r).
Proof. unfold get, vec_get. by rewrite lookup_desc. Qed.

Lemma upd_updated tid f : upd tid f r = Ok (updated tid f r).
Proof.
  unfold upd. rewrite get_desc. simpl. unfold vec_set. by rewrite lookup_desc.
Qed.

Lemma wf_updated tid f : wf (updated tid f r).
Proof.
  destruct Hwf. constructor; cbn; try done. by rewrite zlength_zinsert.
Qed.

Lemma desc_updated tid f t :
  desc t (updated tid f r) =
    if decide (slot_of tid r = slot_of t r) then f (desc tid r) else desc t r.
Proof.
  unfold desc at 1. change (slot_of t (updated tid f r)) with (slot_of t r). cbn.
  rewrite zlookup_zinsert by apply slot_range. case_decide; [done|]. by rewrite lookup_desc.
Qed.

Lemma desc_updated_eq tid f : desc tid (updated tid f r) = f (desc tid r).
Proof. rewrite desc_updated. by rewrite decide_True. Qed.

Lemma desc_updated_live tid f t :
  live tid r -> live t r -> t <> tid -> desc t (updated tid f r) = desc t r.
Proof.
  intros Ht Ht' Hne. rewrite desc_updated, decide_False; [done|].
  intros Hs. apply Hne. symmetry. by apply slot_inj.
Qed.

Lemma live_updated tid f t : live t (updated tid f r) <-> live t r.
Proof. done. Qed.
End ring.

#[export] Hint Resolve wf_updated : linqu.

Lemma wp_get (E : fault -> Prop) r tid (Q : LinquTaskDescriptor -> Prop) :
  wf r -> Q (desc tid r) -> wp E (get tid r) Q.
Proof. intros. by rewrite get_desc. Qed.

Lemma wp_upd (E : fault -> Prop) r tid f (Q : LinquTaskRing -> Prop) :
  wf r -> Q (updated tid f r) -> wp E (upd tid f r) Q.
Proof. intros. by rewrite upd_updated. Qed.

(** [reset_descriptor] forgets every field of the previous task. *)
Lemma reset_descriptor_new d : reset_descriptor d = new_descriptor.
Proof. by destruct d. Qed.

Lemma init_ok ws r :
  is_pow2 ws = true -> exists r', init ws r = Ok r' /\ (ws < 2 ^ 31 -> wf r') /\
    window_size_ r' = ws /\ current_index_ r' = 0 /\ last_task_alive_ r' = 0 /\
    (forall t, desc t r' = new_descriptor).
Proof.
  intros Hp. pose proof (is_pow2_pos _ Hp) as Hpos. unfold init.
  unfold is_pow2 in Hp. rewrite Hp. simpl. eexists. split; [done|]. cbn.
  assert (Hl : zlength (replicate (Z.to_nat ws) new_descriptor) = ws)
    by (apply zlength_replicate; lia).
  split_and!; try done.
  - intros Hs. constructor; cbn; try done; unfold_ints; lia.
  - intros t. unfold desc, slot_of. cbn. rewrite zlookup_replicate; [done|].
    by apply land_mask_range.
Qed.

Lemma init_fails ws r : is_pow2 ws = false -> init ws r = Fault AssertFailed.
Proof. intros Hp. unfold init. unfold is_pow2 in Hp. by rewrite Hp. Qed.

Lemma has_space_spec r :
  has_space r = true <-> current_index_ r - last_task_alive_ r < window_size_ r.
Proof. unfold has_space, active_count. apply Z.ltb_lt. Qed.

(** An allocation with room left, as one equation. *)
Definition allocated (r : LinquTaskRing) : LinquTaskRing :=
  updated (current_index_ r) reset_descriptor (r <| current_index_ := current_index_ r + 1 |>).

Lemma wf_bump r :
  wf r -> has_space r = true -> current_index_ r < 2 ^ 31 - 1 ->
  wf (r <| current_index_ := current_index_ r + 1 |>).
Proof.
  intros [? ? ? ? ?] Hs%has_space_spec Hi. constructor; cbn; try done; unfold_ints; lia.
Qed.

Lemma try_alloc_ok r :
  wf r -> has_space r = true -> current_index_ r < 2 ^ 31 - 1 ->
  try_alloc r = Ok (allocated r, current_index_ r).
Proof.
  intros Hwf Hs Hi. unfold try_alloc. rewrite Hs. simpl. unfold i32_add.
  rewrite (proj2 (i32_range_spec _)) by (unfold_ints; destruct Hwf; lia). simpl.
  rewrite upd_updated by (by apply wf_bump). done.
Qed.

Lemma wf_allocated r :
  wf r -> has_space r = true -> current_index_ r < 2 ^ 31 - 1 -> wf (allocated r).
Proof. intros. apply wf_updated. by apply wf_bump. Qed.

Lemma desc_allocated_new r :
  wf r -> has_space r = true -> current_index_ r < 2 ^ 31 - 1 ->
  desc (current_index_ r) (allocated r) = new_descriptor.
Proof.
  intros. unfold allocated. rewrite desc_updated_eq by (by apply wf_bump).
  apply reset_descriptor_new.
Qed.

Lemma desc_allocated_old r t :
  wf r -> has_space r = true -> current_index_ r < 2 ^ 31 - 1 -> live t r ->
  desc t (allocated r) = desc t r.
Proof.
  intros Hwf Hs Hi Ht. pose proof (wf_bump r Hwf Hs Hi) as Hb. unfold live in Ht.
  pose proof (wf_alive _ Hwf). unfold allocated.
  rewrite desc_updated_live; [done|done|unfold live; cbn; lia|unfold live; cbn; lia|lia].
Qed.

(** The rule clients use for [alloc]. *)
Lemma wp_alloc (E : fault -> Prop) r (Q : LinquTaskRing * Z -> Prop) :
  wf r -> (has_space r = false -> E AssertFailed) ->
  (current_index_ r = 2 ^ 31 - 1 -> E SignedOverflow) ->
  (has_space r = true -> current_index_ r < 2 ^ 31 - 1 -> Q (allocated r, current_index_ r)) ->
  wp E (alloc r) Q.
Proof.
  intros Hwf H1 H2 H3. unfold alloc. pose proof Hwf as [_ _ Ha _ Hi]. unfold in_i32 in Hi.
  destruct (has_space r) eqn:Hs.
  - destruct (decide (current_index_ r < 2 ^ 31 - 1)) as [Hc|Hc].
    + rewrite try_alloc_ok by done. simpl. rewrite (proj2 (Z.leb_le 0 _)) by lia. simpl. auto.
    + unfold try_alloc, i32_add. rewrite Hs. simpl.
      destruct (i32_range (current_index_ r + 1)) eqn:Hr.
      { apply i32_range_spec in Hr. unfold_ints. lia. }
      simpl. apply H2. lia.
  - unfold try_alloc. rewrite Hs. simpl. auto.
Qed.


Definition ring_example : LinquTaskRing :=
  mkTaskRing (replicate 4 new_descriptor) 4 7 4.

Lemma ring_example_wf : wf ring_example.
Proof. constructor; vm_compute; try done; split; congruence. Qed.


(**  [try_alloc] on every branch: with a full window it returns [-1] and
    changes nothing; otherwise it returns [current_index_], the new task's
    descriptor is the default one (nothing of the slot's previous task
    survives), every live task keeps its descriptor, and the ring stays
    well-formed.  The only fault is the overflow of the 32-bit task id. *)
Theorem task_try_alloc_spec r :
  wf r ->
  match try_alloc r with
  | Ok (r', id) =>
      (has_space r = false /\ id = -1 /\ r' = r) \/
      (has_space r = true /\ id = current_index_ r /\ wf r' /\
       live id r' /\ desc id r' = new_descriptor /\
       (forall t, live t r -> live t r' /\ desc t r' = desc t r) /\
       active_count r' = active_count r + 1)
  | Fault f => f = SignedOverflow /\ current_index_ r = 2 ^ 31 - 1
  end.
Proof.
  intros Hwf. pose proof Hwf as [_ _ Ha _ Hi]. unfold in_i32 in Hi.
  destruct (has_space r) eqn:Hs; [|unfold try_alloc; rewrite Hs; simpl; auto].
  destruct (decide (current_index_ r < 2 ^ 31 - 1)) as [Hc|Hc].
  - rewrite try_alloc_ok by done. right.
    split_and!; auto using wf_allocated, desc_allocated_new.
    + unfold live. cbn. lia.
    + intros t Ht. split; [unfold live in *; cbn; lia|by apply desc_allocated_old].
    + unfold active_count. cbn. lia.
  - unfold try_alloc, i32_add. rewrite Hs. simpl. destruct (i32_range _) eqn:Hr.
    + apply i32_range_spec in Hr. unfold_ints. lia.
    + simpl. split; [done|lia].
Qed.

Lemma task_try_alloc_spec_witness :
  exists r', try_alloc ring_example = Ok (r', 7) /\ desc 7 r' = new_descriptor.
Proof.
  pose proof (task_try_alloc_spec ring_example ring_example_wf) as H.
  destruct (try_alloc ring_example) as [[r' id]|f] eqn:E; [|destruct H as [_ H]; discriminate].
  exists r'. destruct H as [[H _]|(_ & -> & _ & _ & H & _)]; [discriminate|]. split; [reflexivity|exact H].
Defined.
