(* ===== verification/LinquScopeStack.v ===== *)
(** * LinquScopeStack: which tasks each open scope owns

    Models [src/src/runtime/linqu_scope.h] and [linqu_scope.cpp].  The ids of
    the tasks of all open scopes lie in one array; [scope_begins_] holds the
    position at which each scope starts.  [scope_end] walks the tasks of the
    innermost scope and drops the scope's reference on each; the callback
    [get_desc] of the code is the task ring's [get].

    The contract ([repr]): the arrays denote a stack of lists of task ids, the
    innermost first; [scope_begin] pushes an empty list, [add_task] appends to
    the top list and [scope_end] pops it, releasing every task on it. *)

From S2P Require Import Prelude Coordinate LinquTaskRing.

Record LinquScopeStack := mkScopeStack {
  scope_tasks_ : list Z;
  scope_tasks_size_ : Z;
  scope_begins_ : list Z;
  stack_top_ : Z;
  max_depth_ : Z;
}.

#[export] Instance set_scope_tasks_ : Setter scope_tasks_ := fun f s =>
  mkScopeStack (f (scope_tasks_ s)) (scope_tasks_size_ s) (scope_begins_ s) (stack_top_ s)
    (max_depth_ s).
#[export] Instance set_scope_tasks_size_ : Setter scope_tasks_size_ := fun f s =>
  mkScopeStack (scope_tasks_ s) (f (scope_tasks_size_ s)) (scope_begins_ s) (stack_top_ s)
    (max_depth_ s).
#[export] Instance set_scope_begins_ : Setter scope_begins_ := fun f s =>
  mkScopeStack (scope_tasks_ s) (scope_tasks_size_ s) (f (scope_begins_ s)) (stack_top_ s)
    (max_depth_ s).
#[export] Instance set_stack_top_ : Setter stack_top_ := fun f s =>
  mkScopeStack (scope_tasks_ s) (scope_tasks_size_ s) (scope_begins_ s) (f (stack_top_ s))
    (max_depth_ s).
#[export] Instance set_max_depth_ : Setter max_depth_ := fun f s =>
  mkScopeStack (scope_tasks_ s) (scope_tasks_size_ s) (scope_begins_ s) (stack_top_ s)
    (f (max_depth_ s)).

(** The default-constructed stack. *)
Definition empty_stack : LinquScopeStack := mkScopeStack [] 0 [] (-1) 0.

Definition init (max_depth max_tasks : Z) (s : LinquScopeStack) : LinquScopeStack :=
  mkScopeStack (resize (Z.to_nat max_tasks) 0 (scope_tasks_ s)) 0
    (resize (Z.to_nat max_depth) 0 (scope_begins_ s)) (-1) max_depth.

Definition reset (s : LinquScopeStack) : LinquScopeStack :=
  s <| scope_tasks_size_ := 0 |> <| stack_top_ := -1 |>.

Definition scope_begin (s : LinquScopeStack) : outcome LinquScopeStack :=
  let! top := i32_add (stack_top_ s) 1 in
  do! assert_that (top <? max_depth_ s) in
  let! begins := vec_set (scope_begins_ s) top (scope_tasks_size_ s) in
  Ok (s <| stack_top_ := top |> <| scope_begins_ := begins |>).

(** [desc->fanout_refcount++] *)
Definition bump_fanout_refcount (d : LinquTaskDescriptor) : LinquTaskDescriptor :=
  d <| fanout_refcount := u32 (fanout_refcount d + 1) |>.

(** The body of the loop of [scope_end]. *)
Definition release_one (tid : Z) (ring : LinquTaskRing) : outcome LinquTaskRing :=
  let! d := LinquTaskRing.get tid ring in
  if negb (task_freed d) then LinquTaskRing.upd tid bump_fanout_refcount ring else Ok ring.

(** [for (i = begin; i < scope_tasks_size_; i++)], [n] turns left. *)
Fixpoint release_loop (n : nat) (i : Z) (s : LinquScopeStack) (ring : LinquTaskRing)
    : outcome LinquTaskRing :=
  match n with
  | O => Ok ring
  | S n =>
      let! tid := vec_get (scope_tasks_ s) i in
      let! ring1 := release_one tid ring in
      release_loop n (i + 1) s ring1
  end.

Definition scope_end (s : LinquScopeStack) (ring : LinquTaskRing)
    : outcome (LinquScopeStack * LinquTaskRing) :=
  do! assert_that (0 <=? stack_top_ s) in
  let! begin := vec_get (scope_begins_ s) (stack_top_ s) in
  let! ring1 := release_loop (Z.to_nat (scope_tasks_size_ s - begin)) begin s ring in
  Ok (s <| scope_tasks_size_ := begin |> <| stack_top_ := stack_top_ s - 1 |>, ring1).

Definition add_task (tid : Z) (s : LinquScopeStack) : outcome LinquScopeStack :=
  do! assert_that (scope_tasks_size_ s <? zlength (scope_tasks_ s)) in
  let! tasks := vec_set (scope_tasks_ s) (scope_tasks_size_ s) tid in
  Ok (s <| scope_tasks_ := tasks |> <| scope_tasks_size_ := scope_tasks_size_ s + 1 |>).

Definition depth (s : LinquScopeStack) : Z := stack_top_ s.

Definition tasks_in_current_scope (s : LinquScopeStack) : outcome Z :=
  if stack_top_ s <? 0 then Ok 0 else
  let! begin := vec_get (scope_begins_ s) (stack_top_ s) in
  Ok (scope_tasks_size_ s - begin).

(** ** The stack of lists the arrays denote *)

Definition slice (l : list Z) (b e : Z) : list Z :=
  take (Z.to_nat (e - b)) (drop (Z.to_nat b) l).

Fixpoint frames (tasks begins : list Z) (top size : Z) (L : list (list Z)) : Prop :=
  match L with
  | [] => top = -1 /\ size = 0
  | l :: L' => 0 <= top /\ exists b, zlookup begins top = Some b /\ 0 <= b <= size /\
      l = slice tasks b size /\ frames tasks begins (top - 1) b L'
  end.

Record repr (s : LinquScopeStack) (L : list (list Z)) : Prop := {
  repr_begins : zlength (scope_begins_ s) = max_depth_ s;
  repr_depth : max_depth_ s < 2 ^ 31;
  repr_tasks : zlength (scope_tasks_ s) < 2 ^ 31;
  repr_size : 0 <= scope_tasks_size_ s <= zlength (scope_tasks_ s);
  repr_frames : frames (scope_tasks_ s) (scope_begins_ s) (stack_top_ s) (scope_tasks_size_ s) L;
}.

Lemma frames_size tasks begins top size L : frames tasks begins top size L -> 0 <= size.
Proof. destruct L; simpl; [lia|intros (_ & b & _ & ? & _); lia]. Qed.

Lemma frames_top tasks begins top size L :
  frames tasks begins top size L -> top = zlength L - 1.
Proof.
  revert top size. induction L as [|l L IH]; intros top size; simpl; [unfold zlength; simpl; lia|].
  intros (_ & b & _ & _ & _ & H). apply IH in H. unfold zlength in *. simpl. lia.
Qed.

Lemma frames_bound tasks begins top size L :
  frames tasks begins top size L -> -1 <= top < zlength begins.
Proof.
  pose proof (zlength_nonneg begins). destruct L; simpl; [lia|].
  intros (? & b & ?%zlookup_Some_range & _). lia.
Qed.

Lemma slice_zinsert_ge l i x b e : 0 <= b -> e <= i -> slice (zinsert i x l) b e = slice l b e.
Proof.
  intros Hb0 Hi. unfold slice, zinsert. destruct (Z.leb_spec 0 i); [|done].
  destruct (decide (b <= e)) as [Hb|Hb]; [|by replace (Z.to_nat (e - b)) with O by lia].
  rewrite !take_drop_commute. replace (Z.to_nat b + Z.to_nat (e - b))%nat with (Z.to_nat e) by lia.
  rewrite take_insert_ge; [done|lia].
Qed.

Lemma frames_agree tasks tasks' begins begins' top size L :
  frames tasks begins top size L ->
  (forall b e, 0 <= b -> e <= size -> slice tasks' b e = slice tasks b e) ->
  (forall i, i <= top -> zlookup begins' i = zlookup begins i) ->
  frames tasks' begins' top size L.
Proof.
  revert top size. induction L as [|l L IH]; intros top size Hf Ht Hb; simpl in *; [done|].
  destruct Hf as (H0 & b & Hl & Hbs & -> & Hf). split; [done|]. exists b.
  split_and!; [by rewrite Hb by lia|lia|lia|by rewrite Ht by lia|].
  apply IH; [done|intros; apply Ht; lia|intros; apply Hb; lia].
Qed.

Lemma slice_empty l b : slice l b b = [].
Proof. unfold slice. by replace (Z.to_nat (b - b)) with O by lia. Qed.

Lemma slice_snoc l b e x :
  0 <= b <= e -> e < zlength l -> slice (zinsert e x l) b (e + 1) = slice l b e ++ [x].
Proof.
  intros Hb He. unfold slice, zinsert, zlength in *. rewrite (proj2 (Z.leb_le 0 e)) by lia.
  replace (Z.to_nat (e + 1 - b)) with (S (Z.to_nat (e - b))) by lia.
  rewrite (take_S_r _ _ x).
  - f_equal. rewrite !take_drop_commute.
    replace (Z.to_nat b + Z.to_nat (e - b))%nat with (Z.to_nat e) by lia.
    by rewrite take_insert_ge by lia.
  - rewrite lookup_drop. replace (Z.to_nat b + Z.to_nat (e - b))%nat with (Z.to_nat e) by lia.
    apply list_lookup_insert_eq. lia.
Qed.

Lemma slice_cons l b e t :
  0 <= b < e -> zlookup l b = Some t -> slice l b e = t :: slice l (b + 1) e.
Proof.
  intros Hb Ht. unfold slice, zlookup in *. rewrite (proj2 (Z.leb_le 0 b)) in Ht by lia.
  rewrite (drop_S _ _ _ Ht). replace (Z.to_nat (e - b)) with (S (Z.to_nat (e - (b + 1)))) by lia.
  simpl. by replace (Z.to_nat (b + 1)) with (S (Z.to_nat b)) by lia.
Qed.

(** ** The operations on the denoted stack *)

Lemma repr_init md mt :
  0 <= md < 2 ^ 31 -> 0 <= mt < 2 ^ 31 -> repr (init md mt empty_stack) [].
Proof.
  intros. constructor; cbn; try lia; unfold zlength; rewrite length_resize; lia.
Qed.

Lemma repr_reset s L : repr s L -> repr (reset s) [].
Proof. intros [? ? ? ? ?]. constructor; cbn; try done. lia. Qed.

Lemma wp_scope_begin (E : fault -> Prop) s L (Q : LinquScopeStack -> Prop) :
  repr s L -> (max_depth_ s <= zlength L -> E AssertFailed) ->
  (forall s', zlength L < max_depth_ s -> max_depth_ s' = max_depth_ s ->
     zlength (scope_tasks_ s') = zlength (scope_tasks_ s) ->
     repr s' ([] :: L) -> Q s') ->
  wp E (scope_begin s) Q.
Proof.
  intros [Hb Hd Htk Hsz Hf] HE HQ. pose proof (frames_top _ _ _ _ _ Hf) as Ht.
  pose proof (zlength_nonneg L). unfold scope_begin, i32_add.
  pose proof (frames_bound _ _ _ _ _ Hf).
  rewrite (proj2 (i32_range_spec _)) by (unfold_ints; lia). simpl.
  destruct (Z.ltb_spec (stack_top_ s + 1) (max_depth_ s)); [|simpl; apply HE; lia].
  simpl. rewrite (proj2 (vec_set_Ok _ _ _ _)) by (split; [lia|reflexivity]). simpl.
  apply HQ; cbn; try done; try lia. constructor; cbn; try done.
  - by rewrite zlength_zinsert.
  - split; [lia|]. exists (scope_tasks_size_ s).
    split_and!; [apply zlookup_zinsert_eq; lia|lia|lia|by rewrite slice_empty|].
    replace (stack_top_ s + 1 - 1) with (stack_top_ s) by lia.
    eapply frames_agree; [exact Hf|done|]. intros. apply zlookup_zinsert_ne. lia.
Qed.

Lemma wp_add_task (E : fault -> Prop) s l L tid (Q : LinquScopeStack -> Prop) :
  repr s (l :: L) -> (scope_tasks_size_ s = zlength (scope_tasks_ s) -> E AssertFailed) ->
  (forall s', max_depth_ s' = max_depth_ s ->
     zlength (scope_tasks_ s') = zlength (scope_tasks_ s) ->
     scope_tasks_size_ s' = scope_tasks_size_ s + 1 ->
     repr s' ((l ++ [tid]) :: L) -> Q s') ->
  wp E (add_task tid s) Q.
Proof.
  intros [Hb Hd Htk Hsz Hf] HE HQ. unfold add_task.
  destruct (Z.ltb_spec (scope_tasks_size_ s) (zlength (scope_tasks_ s)));
    [|simpl; apply HE; lia].
  simpl. rewrite (proj2 (vec_set_Ok _ _ _ _)) by (split; [lia|reflexivity]). simpl.
  apply HQ; cbn; try done; [by rewrite zlength_zinsert|].
  destruct Hf as (H0 & b & Hl & Hbs & -> & Hf).
  constructor; cbn; try done; try (rewrite zlength_zinsert; lia).
  split; [done|]. exists b. split_and!; [done|lia|lia|by rewrite slice_snoc by lia|].
  eapply frames_agree; [exact Hf| |done]. intros. apply slice_zinsert_ge; lia.
Qed.

(** The effect of one turn of the loop of [scope_end], as a total function. *)
Definition released (tid : Z) (ring : LinquTaskRing) : LinquTaskRing :=
  if task_freed (LinquTaskRing.desc tid ring) then ring
  else LinquTaskRing.updated tid bump_fanout_refcount ring.

Definition release_all (tids : list Z) (ring : LinquTaskRing) : LinquTaskRing :=
  fold_left (fun r t => released t r) tids ring.

Lemma wf_released tid ring : LinquTaskRing.wf ring -> LinquTaskRing.wf (released tid ring).
Proof. intros. unfold released. destruct (task_freed _); auto with linqu. Qed.

Lemma release_one_ok tid ring :
  LinquTaskRing.wf ring -> release_one tid ring = Ok (released tid ring).
Proof.
  intros Hwf. unfold release_one, released. rewrite LinquTaskRing.get_desc by done. simpl.
  destruct (task_freed _); simpl; [done|]. by apply LinquTaskRing.upd_updated.
Qed.

Lemma release_loop_ok n b e s ring :
  LinquTaskRing.wf ring -> 0 <= b -> n = Z.to_nat (e - b) -> e <= zlength (scope_tasks_ s) ->
  release_loop n b s ring = Ok (release_all (slice (scope_tasks_ s) b e) ring).
Proof.
  revert b ring. induction n as [|n IH]; intros b ring Hwf Hb Hn He; simpl.
  { unfold slice. by rewrite <- Hn. }
  destruct (zlookup_is_Some (scope_tasks_ s) b) as [t Ht]; [lia|].
  unfold vec_get. rewrite Ht. simpl. rewrite release_one_ok by done. simpl.
  rewrite IH by (auto using wf_released; lia).
  by rewrite (slice_cons _ b e t) by (done || lia).
Qed.

Lemma wf_release_all tids ring :
  LinquTaskRing.wf ring -> LinquTaskRing.wf (release_all tids ring).
Proof. revert ring. induction tids; simpl; auto using wf_released. Qed.

Lemma scope_end_ok s l L ring :
  repr s (l :: L) -> LinquTaskRing.wf ring ->
  exists s', scope_end s ring = Ok (s', release_all l ring) /\ repr s' L /\
    max_depth_ s' = max_depth_ s /\ zlength (scope_tasks_ s') = zlength (scope_tasks_ s).
Proof.
  intros [Hb Hd Htk Hsz Hf] Hwf. destruct Hf as (H0 & b & Hl & Hbs & -> & Hf).
  unfold scope_end. rewrite (proj2 (Z.leb_le 0 _)) by lia. simpl.
  unfold vec_get. rewrite Hl. simpl.
  rewrite (release_loop_ok _ b (scope_tasks_size_ s)) by (done || lia). simpl.
  eexists. split; [done|]. split; [|done]. constructor; cbn; try done. lia.
Qed.

Lemma scope_end_empty s ring : repr s [] -> scope_end s ring = Fault AssertFailed.
Proof.
  intros [_ _ _ _ [Ht _]]. unfold scope_end. rewrite Ht. done.
Qed.

Lemma frames_total tasks begins top size L :
  frames tasks begins top size L -> size <= zlength tasks -> size = zlength (concat L).
Proof.
  revert top size. induction L as [|l L IH]; intros top size; simpl; [unfold zlength; simpl; lia|].
  intros (H0 & b & Hl & Hb & -> & Hf) Hs. pose proof (IH _ _ Hf ltac:(lia)) as Hi.
  unfold zlength, slice in *. rewrite length_app, length_take, length_drop. lia.
Qed.

(** ** Refinement: programs over the scope stack *)

(** The scope calls a runtime makes: a task is added only while a scope is
    open ([if (scope_stack_.depth() >= 0) scope_stack_.add_task(tid)]). *)
Inductive scope_op := OpBegin | OpAdd (tid : Z) | OpEnd.

Definition scope_exec (op : scope_op) (st : LinquScopeStack * LinquTaskRing)
    : outcome (LinquScopeStack * LinquTaskRing) :=
  match op with
  | OpBegin => let! s := scope_begin st.1 in Ok (s, st.2)
  | OpAdd t => if 0 <=? depth st.1 then let! s := add_task t st.1 in Ok (s, st.2) else Ok st
  | OpEnd => scope_end st.1 st.2
  end.

Fixpoint scope_run (ops : list scope_op) (st : LinquScopeStack * LinquTaskRing)
    : outcome (LinquScopeStack * LinquTaskRing) :=
  match ops with
  | [] => Ok st
  | op :: ops => let! st1 := scope_exec op st in scope_run ops st1
  end.

(** The specification: a stack of lists and the ids released so far; [None] is
    a failed assertion. *)
Definition spec_exec (md mt : Z) (op : scope_op) (st : list (list Z) * list Z)
    : option (list (list Z) * list Z) :=
  match op, st with
  | OpBegin, (L, rel) => if zlength L <? md then Some ([] :: L, rel) else None
  | OpAdd t, ([], rel) => Some ([], rel)
  | OpAdd t, (l :: L, rel) =>
      if zlength (concat (l :: L)) <? mt then Some ((l ++ [t]) :: L, rel) else None
  | OpEnd, ([], rel) => None
  | OpEnd, (l :: L, rel) => Some (L, rel ++ l)
  end.

Fixpoint spec_run (md mt : Z) (ops : list scope_op) (st : list (list Z) * list Z)
    : option (list (list Z) * list Z) :=
  match ops with
  | [] => Some st
  | op :: ops => st1 ← spec_exec md mt op st; spec_run md mt ops st1
  end.

Lemma release_all_app l1 l2 ring :
  release_all (l1 ++ l2) ring = release_all l2 (release_all l1 ring).
Proof. apply fold_left_app. Qed.

Section simulation.
Context (md mt : Z) (ring : LinquTaskRing) (Hring : LinquTaskRing.wf ring).

(** The concrete state that implements a specification state. *)
Definition implements (st : LinquScopeStack * LinquTaskRing) (sp : list (list Z) * list Z) : Prop :=
  repr st.1 sp.1 /\ max_depth_ st.1 = md /\ zlength (scope_tasks_ st.1) = mt /\
  st.2 = release_all sp.2 ring.

Lemma scope_exec_simulates op st sp :
  implements st sp ->
  match spec_exec md mt op sp with
  | Some sp' => exists st', scope_exec op st = Ok st' /\ implements st' sp'
  | None => scope_exec op st = Fault AssertFailed
  end.
Proof.
  destruct st as [s r], sp as [L rel]. intros (Hr & Hmd & Hmt & Hrel). simpl in *.
  pose proof (repr_size _ _ Hr) as Hsz. pose proof (repr_frames _ _ Hr) as Hf.
  pose proof (frames_total _ _ _ _ _ Hf ltac:(lia)) as Htot.
  pose proof (frames_top _ _ _ _ _ Hf) as Htop.
  destruct op as [|t|]; simpl.
  - destruct (Z.ltb_spec (zlength L) md).
    + destruct (proj1 (wp_total (scope_begin s) (fun s' => implements (s', r) ([] :: L, rel))))
        as (s' & -> & Hs'); [|eauto].
      apply (wp_scope_begin _ s L); [done|lia|]. intros. split_and!; simpl; congruence.
    + rewrite (wp_must_fault (scope_begin s) AssertFailed); [done|].
      apply (wp_scope_begin _ s L); [done|done|lia].
  - unfold depth. destruct L as [|l L]; [rewrite Htop; simpl; by exists (s, r)|].
    rewrite (proj2 (Z.leb_le 0 _)) by (unfold zlength in *; simpl in *; lia).
    destruct (Z.ltb_spec (zlength (l ++ concat L)) mt).
    + destruct (proj1 (wp_total (add_task t s) (fun s' => implements (s', r) ((l ++ [t]) :: L, rel))))
        as (s' & -> & Hs'); [|eauto].
      apply (wp_add_task _ s l L); [done|simpl in *; lia|]. intros. split_and!; simpl; congruence.
    + rewrite (wp_must_fault (add_task t s) AssertFailed); [done|].
      unfold add_task. rewrite (proj2 (Z.ltb_ge _ _)) by (simpl in *; lia). done.
  - destruct L as [|l L]; [by apply scope_end_empty|].
    destruct (scope_end_ok s l L r Hr) as (s' & -> & Hr' & ? & ?);
      [rewrite Hrel; by apply wf_release_all|].
    eexists. split; [done|]. split_and!; simpl; try congruence.
    by rewrite release_all_app, Hrel.
Qed.

Lemma scope_run_simulates ops st sp :
  implements st sp ->
  match spec_run md mt ops sp with
  | Some sp' => exists st', scope_run ops st = Ok st' /\ implements st' sp'
  | None => scope_run ops st = Fault AssertFailed
  end.
Proof.
  revert st sp. induction ops as [|op ops IH]; intros st sp Hi; simpl; [eauto|].
  pose proof (scope_exec_simulates op st sp Hi) as Hx.
  destruct (spec_exec md mt op sp) as [sp1|]; simpl; [|by rewrite Hx].
  destruct Hx as (st1 & -> & Hi1). simpl. by apply IH.
Qed.
End simulation.

(** Refinement of the scope stack: any program of scope begins, task
    registrations and scope ends, run from a fresh stack over a well-formed
    task ring, behaves as a stack of lists.  It ends in the arrays that denote
    the specification's stack and in the ring where exactly the tasks of the
    closed scopes were released, in order; it fails an assertion exactly when
    the specification has no next state (too deep, array full, no open scope);
    it never indexes outside its arrays. *)
Theorem scope_stack_refines md mt ring ops :
  0 <= md < 2 ^ 31 -> 0 <= mt < 2 ^ 31 -> LinquTaskRing.wf ring ->
  match spec_run md mt ops ([], []) with
  | Some (L, rel) => exists s, scope_run ops (init md mt empty_stack, ring) =
      Ok (s, release_all rel ring) /\ repr s L
  | None => scope_run ops (init md mt empty_stack, ring) = Fault AssertFailed
  end.
Proof.
  intros Hmd Hmt Hr.
  pose proof (scope_run_simulates md mt ring Hr ops (init md mt empty_stack, ring) ([], [])) as H.
  destruct (spec_run md mt ops ([], [])) as [[L rel]|].
  - destruct H as ([s r] & Hrun & Hi & _ & _ & Hr2); [|simpl in *; subst; by eauto].
    split_and!; [by apply repr_init|done|cbn; unfold zlength; rewrite length_resize; lia|done].
  - apply H. split_and!; [by apply repr_init|done|cbn; unfold zlength; rewrite length_resize; lia|done].
Qed.

Lemma scope_stack_refines_witness :
  exists s, scope_run [OpBegin; OpAdd 4; OpBegin; OpAdd 5; OpEnd] (init 8 32 empty_stack, ring_example)
    = Ok (s, release_all [5] ring_example) /\ repr s [[4]].
Proof.
  exact (scope_stack_refines 8 32 ring_example [OpBegin; OpAdd 4; OpBegin; OpAdd 5; OpEnd]
    ltac:(lia) ltac:(lia) ring_example_wf).
Defined.

Lemma set_refcount_id (d : LinquTaskDescriptor) n :
  n = 0 -> d <| fanout_refcount := fanout_refcount d + n |> = d.
Proof. intros ->. destruct d. unfold setter, set_fanout_refcount. cbn. f_equal. lia. Qed.

Lemma set_refcount_bump (d : LinquTaskDescriptor) n :
  0 <= fanout_refcount d < 2 ^ 32 - 1 ->
  (bump_fanout_refcount d) <| fanout_refcount := fanout_refcount (bump_fanout_refcount d) + n |>
  = d <| fanout_refcount := fanout_refcount d + Z.succ n |>.
Proof.
  intros Hr. destruct d. unfold bump_fanout_refcount, setter, set_fanout_refcount. cbn in *.
  f_equal.
  rewrite u32_id by (unfold_ints; lia). lia.
Qed.

(** The descriptor of a live task after a scope is released. *)
Lemma release_all_desc l ring t :
  LinquTaskRing.wf ring -> Forall (fun u => LinquTaskRing.live u ring) l ->
  LinquTaskRing.live t ring ->
  fanout_refcount (LinquTaskRing.desc t ring) + zlength l < 2 ^ 32 ->
  0 <= fanout_refcount (LinquTaskRing.desc t ring) ->
  LinquTaskRing.desc t (release_all l ring) =
    (LinquTaskRing.desc t ring) <| fanout_refcount :=
      fanout_refcount (LinquTaskRing.desc t ring) +
      if task_freed (LinquTaskRing.desc t ring) then 0
      else Z.of_nat (length (filter (fun u => u = t) l)) |>.
Proof.
  revert ring. induction l as [|u l IH]; intros ring Hwf Hl Ht Hb H0; simpl.
  { symmetry. apply set_refcount_id. by destruct (task_freed _). }
  inversion Hl as [|? ? Hu Hl']; subst. unfold zlength in Hb. simpl in Hb.
  assert (Hlive : forall x, LinquTaskRing.live x (released u ring) <-> LinquTaskRing.live x ring)
    by (intros; unfold released; destruct (task_freed _); done).
  assert (Hd : LinquTaskRing.desc t (released u ring) =
    if decide (u = t) then (if task_freed (LinquTaskRing.desc t ring) then LinquTaskRing.desc t ring
      else bump_fanout_refcount (LinquTaskRing.desc t ring)) else LinquTaskRing.desc t ring).
  { unfold released. case_decide as E.
    - subst u. destruct (task_freed _); [done|]. by apply LinquTaskRing.desc_updated_eq.
    - destruct (task_freed _); [done|]. apply LinquTaskRing.desc_updated_live; auto. }
  rewrite filter_cons. rewrite IH; rewrite ?Hd; auto using wf_released.
  - case_decide; [|done]. destruct (task_freed (LinquTaskRing.desc t ring)) eqn:Ef;
      [by rewrite Ef|].
    change (task_freed (bump_fanout_refcount (LinquTaskRing.desc t ring)))
      with (task_freed (LinquTaskRing.desc t ring)).
    rewrite Ef, set_refcount_bump by lia. simpl length.
    by rewrite Nat2Z.inj_succ.
  - eapply Forall_impl; [exact Hl'|]. intros. by apply Hlive.
  - by apply Hlive.
  - unfold zlength. case_decide; [|lia]. destruct (task_freed _); [lia|]. cbn.
    rewrite u32_id by (unfold_ints; lia). lia.
  - case_decide; [|done]. destruct (task_freed _); [done|]. cbn. rewrite u32_id by (unfold_ints; lia). lia.
Qed.

(**  What [scope_end] does to the reference counts: every live task of the
    closed scope that was not freed gets one more [fanout_refcount] per
    registration, every other live task is untouched. *)
Theorem scope_end_releases s l L ring t :
  repr s (l :: L) -> LinquTaskRing.wf ring ->
  Forall (fun u => LinquTaskRing.live u ring) l -> LinquTaskRing.live t ring ->
  fanout_refcount (LinquTaskRing.desc t ring) + zlength l < 2 ^ 32 ->
  0 <= fanout_refcount (LinquTaskRing.desc t ring) ->
  exists s' ring', scope_end s ring = Ok (s', ring') /\ repr s' L /\
    LinquTaskRing.desc t ring' =
      (LinquTaskRing.desc t ring) <| fanout_refcount :=
        fanout_refcount (LinquTaskRing.desc t ring) +
        if task_freed (LinquTaskRing.desc t ring) then 0
        else Z.of_nat (length (filter (fun u => u = t) l)) |>.
Proof.
  intros Hs Hwf Hl Ht Hb H0. destruct (scope_end_ok s l L ring Hs Hwf) as (s' & He & Hs' & _).
  exists s', (release_all l ring). split_and!; auto. by apply release_all_desc.
Qed.

Lemma scope_end_releases_witness :
  exists s ring', scope_run [OpBegin; OpAdd 5; OpAdd 6; OpEnd] (init 8 32 empty_stack, ring_example)
    = Ok (s, ring') /\ fanout_refcount (LinquTaskRing.desc 5 ring') = 1.
Proof.
  destruct (scope_run [OpBegin; OpAdd 5; OpAdd 6] (init 8 32 empty_stack, ring_example))
    as [[s0 r0]|] eqn:E; [|discriminate].
  assert (Hr0 : r0 = ring_example) by (injection E as _ <-; reflexivity). subst r0.
  assert (Hs0 : repr s0 [[5; 6]]).
  { injection E as <-. constructor; cbn -[zlength]; [reflexivity|lia|reflexivity|vm_compute; split; congruence|].
    split; [lia|]. exists 0. split_and!; try reflexivity; lia. }
  destruct (scope_end_releases s0 [5; 6] [] ring_example 5 Hs0 ring_example_wf) as (s' & r' & He & _ & Hd).
  - repeat constructor; unfold LinquTaskRing.live; cbn; lia.
  - unfold LinquTaskRing.live; cbn; lia.
  - vm_compute. reflexivity.
  - vm_compute. congruence.
  - exists s', r'. split.
    + change [OpBegin; OpAdd 5; OpAdd 6; OpEnd] with ([OpBegin; OpAdd 5; OpAdd 6] ++ [OpEnd]).
      injection E as <-. exact He.
    + rewrite Hd. reflexivity.
Defined.

