(* ===== verification/LinquTensorMap.v ===== *)
(** * LinquTensorMap: from tensor handles to the task that produces them

    Models [src/src/runtime/linqu_tensormap.h] and [linqu_tensormap.cpp]: a
    hash table whose entries are cells of a circular pool.  A bucket is a
    chain of pool indices ending in a negative number; every chain loop takes
    one unit of fuel per cell.  [lookup_fuel] is one more than the pool size,
    enough for a chain that does not repeat a cell; a chain that does repeat
    one runs out of any fuel, which is how a loop that never ends shows.

    The contract: [lookup h] is the newest live producer of [h]
    ([live_binding]); it is kept by [insert] as long as the cell that is reused
    is not still linked ([reclaimable]). *)

From S2P Require Import Prelude.

Record LinquTensorMapEntry := mkEntry {
  tensor_handle : Z;
  producer_task_id : Z;
  next_in_bucket : Z;
  next_in_task : Z;
  valid : bool;
  is_output_alloc : bool;
}.

#[export] Instance set_tensor_handle : Setter tensor_handle := fun f e =>
  mkEntry (f (tensor_handle e)) (producer_task_id e) (next_in_bucket e) (next_in_task e)
    (valid e) (is_output_alloc e).
#[export] Instance set_producer_task_id : Setter producer_task_id := fun f e =>
  mkEntry (tensor_handle e) (f (producer_task_id e)) (next_in_bucket e) (next_in_task e)
    (valid e) (is_output_alloc e).
#[export] Instance set_next_in_bucket : Setter next_in_bucket := fun f e =>
  mkEntry (tensor_handle e) (producer_task_id e) (f (next_in_bucket e)) (next_in_task e)
    (valid e) (is_output_alloc e).
#[export] Instance set_next_in_task : Setter next_in_task := fun f e =>
  mkEntry (tensor_handle e) (producer_task_id e) (next_in_bucket e) (f (next_in_task e))
    (valid e) (is_output_alloc e).
#[export] Instance set_valid : Setter valid := fun f e =>
  mkEntry (tensor_handle e) (producer_task_id e) (next_in_bucket e) (next_in_task e)
    (f (valid e)) (is_output_alloc e).
#[export] Instance set_is_output_alloc : Setter is_output_alloc := fun f e =>
  mkEntry (tensor_handle e) (producer_task_id e) (next_in_bucket e) (next_in_task e) (valid e)
    (f (is_output_alloc e)).

Record LinquTensorMap := mkTensorMap {
  buckets_ : list Z;
  pool_ : list LinquTensorMapEntry;
  task_heads_ : list Z;
  num_buckets_ : Z;
  pool_size_ : Z;
  next_entry_ : Z;
  last_task_alive_ : Z;
}.

#[export] Instance set_buckets_ : Setter buckets_ := fun f m =>
  mkTensorMap (f (buckets_ m)) (pool_ m) (task_heads_ m) (num_buckets_ m) (pool_size_ m)
    (next_entry_ m) (last_task_alive_ m).
#[export] Instance set_pool_ : Setter pool_ := fun f m =>
  mkTensorMap (buckets_ m) (f (pool_ m)) (task_heads_ m) (num_buckets_ m) (pool_size_ m)
    (next_entry_ m) (last_task_alive_ m).
#[export] Instance set_task_heads_ : Setter task_heads_ := fun f m =>
  mkTensorMap (buckets_ m) (pool_ m) (f (task_heads_ m)) (num_buckets_ m) (pool_size_ m)
    (next_entry_ m) (last_task_alive_ m).
#[export] Instance set_num_buckets_ : Setter num_buckets_ := fun f m =>
  mkTensorMap (buckets_ m) (pool_ m) (task_heads_ m) (f (num_buckets_ m)) (pool_size_ m)
    (next_entry_ m) (last_task_alive_ m).
#[export] Instance set_pool_size_ : Setter pool_size_ := fun f m =>
  mkTensorMap (buckets_ m) (pool_ m) (task_heads_ m) (num_buckets_ m) (f (pool_size_ m))
    (next_entry_ m) (last_task_alive_ m).
#[export] Instance set_next_entry_ : Setter next_entry_ := fun f m =>
  mkTensorMap (buckets_ m) (pool_ m) (task_heads_ m) (num_buckets_ m) (pool_size_ m)
    (f (next_entry_ m)) (last_task_alive_ m).
#[export] Instance set_last_task_alive_ : Setter last_task_alive_ := fun f m =>
  mkTensorMap (buckets_ m) (pool_ m) (task_heads_ m) (num_buckets_ m) (pool_size_ m)
    (next_entry_ m) (f (last_task_alive_ m)).

Record LinquTensorMapLookupResult := mkLookupResult { result_producer : Z; found : bool }.

(** The default-constructed map, and a value-initialised cell. *)
Definition empty_map : LinquTensorMap := mkTensorMap [] [] [] 0 0 0 0.
Definition zero_entry : LinquTensorMapEntry := mkEntry 0 0 0 0 false false.

Definition init (num_buckets pool_size : Z) (m : LinquTensorMap) : outcome LinquTensorMap :=
  do! assert_that ((0 <? num_buckets) && (Z.land num_buckets (num_buckets - 1) =? 0)) in
  Ok (mkTensorMap (replicate (Z.to_nat num_buckets) (-1))
        (resize (Z.to_nat pool_size) zero_entry (pool_ m))
        (replicate (Z.to_nat pool_size) (-1)) num_buckets pool_size 0 0).

(** [reset] leaves the cells of the pool as they are. *)
Definition reset (m : LinquTensorMap) : LinquTensorMap :=
  m <| buckets_ := map (fun _ => -1) (buckets_ m) |>
    <| task_heads_ := map (fun _ => -1) (task_heads_ m) |>
    <| next_entry_ := 0 |> <| last_task_alive_ := 0 |>.

Definition hash (handle : Z) (m : LinquTensorMap) : Z :=
  let h := handle in
  let h := Z.lxor h (Z.shiftr h 33) in
  let h := u64 (h * 0xff51afd7ed558ccd) in
  let h := Z.lxor h (Z.shiftr h 33) in
  i32 (Z.land h (u64 (num_buckets_ m - 1))).

Definition lookup_fuel (m : LinquTensorMap) : nat := S (length (pool_ m)).

Definition stale (handle new_task_id last_alive : Z) (e : LinquTensorMapEntry) : bool :=
  valid e && (tensor_handle e =? handle) && (last_alive <=? producer_task_id e) &&
  (producer_task_id e <? new_task_id) && is_output_alloc e.

Fixpoint remove_stale_loop (fuel : nat) (handle new_task_id cur : Z) (m : LinquTensorMap)
    : outcome LinquTensorMap :=
  match fuel with
  | O => Fault OutOfFuel
  | S fuel =>
      if 0 <=? cur then
        let! e := vec_get (pool_ m) cur in
        let! m1 :=
          (if stale handle new_task_id (last_task_alive_ m) e then
             let! pool := vec_set (pool_ m) cur (e <| valid := false |>) in
             Ok (m <| pool_ := pool |>)
           else Ok m) in
        remove_stale_loop fuel handle new_task_id (next_in_bucket e) m1
      else Ok m
  end.

Definition remove_stale_for_handle (handle new_task_id : Z) (m : LinquTensorMap)
    : outcome LinquTensorMap :=
  let! cur := vec_get (buckets_ m) (hash handle m) in
  remove_stale_loop (lookup_fuel m) handle new_task_id cur m.

(** The pointer [prev_ptr] of [insert]: to a bucket head or to the link of a cell. *)
Inductive link := InBucket (b : Z) | InEntry (i : Z).

Definition read_link (l : link) (m : LinquTensorMap) : outcome Z :=
  match l with
  | InBucket b => vec_get (buckets_ m) b
  | InEntry i => let! e := vec_get (pool_ m) i in Ok (next_in_bucket e)
  end.

Definition write_link (l : link) (v : Z) (m : LinquTensorMap) : outcome LinquTensorMap :=
  match l with
  | InBucket b => let! bs := vec_set (buckets_ m) b v in Ok (m <| buckets_ := bs |>)
  | InEntry i =>
      let! e := vec_get (pool_ m) i in
      let! pool := vec_set (pool_ m) i (e <| next_in_bucket := v |>) in
      Ok (m <| pool_ := pool |>)
  end.

Fixpoint unlink_loop (fuel : nat) (idx : Z) (prev_ptr : link) (m : LinquTensorMap)
    : outcome LinquTensorMap :=
  match fuel with
  | O => Fault OutOfFuel
  | S fuel =>
      let! p := read_link prev_ptr m in
      if 0 <=? p then
        if p =? idx then
          let! e := vec_get (pool_ m) idx in
          write_link prev_ptr (next_in_bucket e) m
        else unlink_loop fuel idx (InEntry p) m
      else Ok m
  end.

(** [a % b] of C++. *)
Definition i32_rem (a b : Z) : outcome Z :=
  if b =? 0 then Fault DivideByZero else Ok (Z.rem a b).

Lemma i32_rem_ok a b : b <> 0 -> i32_rem a b = Ok (Z.rem a b).
Proof. intros Hb. unfold i32_rem. by rewrite (proj2 (Z.eqb_neq b 0) Hb). Qed.

Definition reclaim (idx : Z) (m : LinquTensorMap) : outcome LinquTensorMap :=
  let! old := vec_get (pool_ m) idx in
  if valid old then
    let! m1 := unlink_loop (lookup_fuel m) idx (InBucket (hash (tensor_handle old) m)) m in
    let! e := vec_get (pool_ m1) idx in
    let! pool := vec_set (pool_ m1) idx (e <| valid := false |>) in
    Ok (m1 <| pool_ := pool |>)
  else Ok m.

Definition insert (handle producer_task_id : Z) (is_output : bool) (m : LinquTensorMap)
    : outcome LinquTensorMap :=
  let! m1 := remove_stale_for_handle handle producer_task_id m in
  let! idx := i32_rem (next_entry_ m1) (pool_size_ m1) in
  let! m2 := reclaim idx m1 in
  let! n := i32_add (next_entry_ m2) 1 in
  let m3 := m2 <| next_entry_ := n |> in
  let bucket := hash handle m3 in
  let! head := vec_get (buckets_ m3) bucket in
  let! task_slot := i32_rem producer_task_id (pool_size_ m3) in
  let! task_head := vec_get (task_heads_ m3) task_slot in
  let! pool := vec_set (pool_ m3) idx
     (mkEntry handle producer_task_id head task_head true is_output) in
  let! heads := vec_set (task_heads_ m3) task_slot idx in
  let! bs := vec_set (buckets_ m3) bucket idx in
  Ok (m3 <| pool_ := pool |> <| task_heads_ := heads |> <| buckets_ := bs |>).

Definition matches (handle last_alive best : Z) (e : LinquTensorMapEntry) : bool :=
  valid e && (tensor_handle e =? handle) && (last_alive <=? producer_task_id e) &&
  (best <? producer_task_id e).

Fixpoint lookup_loop (fuel : nat) (handle cur best_task_id : Z) (m : LinquTensorMap) : outcome Z :=
  match fuel with
  | O => Fault OutOfFuel
  | S fuel =>
      if 0 <=? cur then
        let! e := vec_get (pool_ m) cur in
        let best := if matches handle (last_task_alive_ m) best_task_id e
                    then producer_task_id e else best_task_id in
        lookup_loop fuel handle (next_in_bucket e) best m
      else Ok best_task_id
  end.

Definition lookup (handle : Z) (m : LinquTensorMap) : outcome LinquTensorMapLookupResult :=
  let! cur := vec_get (buckets_ m) (hash handle m) in
  let! best := lookup_loop (lookup_fuel m) handle cur (-1) m in
  Ok (if 0 <=? best then mkLookupResult best true else mkLookupResult (-1) false).

Definition invalidate_below (last_alive : Z) (m : LinquTensorMap) : LinquTensorMap :=
  m <| last_task_alive_ := last_alive |>.

Fixpoint cleanup_loop (fuel : nat) (task_id cur : Z) (m : LinquTensorMap) : outcome LinquTensorMap :=
  match fuel with
  | O => Fault OutOfFuel
  | S fuel =>
      if 0 <=? cur then
        let! e := vec_get (pool_ m) cur in
        let! m1 :=
          (if producer_task_id e =? task_id then
             let! pool := vec_set (pool_ m) cur (e <| valid := false |>) in
             Ok (m <| pool_ := pool |>)
           else Ok m) in
        cleanup_loop fuel task_id (next_in_task e) m1
      else Ok m
  end.

Definition cleanup_task (task_id : Z) (m : LinquTensorMap) : outcome LinquTensorMap :=
  let! slot := i32_rem task_id (pool_size_ m) in
  let! cur := vec_get (task_heads_ m) slot in
  cleanup_loop (lookup_fuel m) task_id cur m.

Definition task_chain_head (task_id : Z) (m : LinquTensorMap) : outcome Z :=
  let! slot := i32_rem task_id (pool_size_ m) in
  vec_get (task_heads_ m) slot.

Definition valid_count (m : LinquTensorMap) : Z :=
  Z.of_nat (length (filter (fun e => valid e && (last_task_alive_ m <=? producer_task_id e) = true)
    (pool_ m))).

(** ** Chains *)

(** [l] is the list of cells reached from [head]. *)
Fixpoint linked (pool : list LinquTensorMapEntry) (head : Z) (l : list Z) : Prop :=
  match l with
  | [] => head < 0
  | i :: l' => head = i /\ exists e, zlookup pool i = Some e /\ linked pool (next_in_bucket e) l'
  end.

Lemma linked_range pool head l i : linked pool head l -> i ∈ l -> 0 <= i < zlength pool.
Proof.
  revert head. induction l as [|j l IH]; intros head Hl Hi; [by apply not_elem_of_nil in Hi|].
  destruct Hl as (-> & e & He & Hl). apply elem_of_cons in Hi as [->|Hi]; eauto using zlookup_Some_range.
Qed.

Lemma linked_det pool head l l' : linked pool head l -> linked pool head l' -> l = l'.
Proof.
  revert head l'. induction l as [|i l IH]; intros head [|i' l'] H H'; simpl in *; try done.
  - destruct H' as (-> & e & ?%zlookup_Some_range & _). lia.
  - destruct H as (-> & e & ?%zlookup_Some_range & _). lia.
  - destruct H as (-> & e & He & H), H' as (<- & e' & He' & H'). simplify_eq. f_equal. eauto.
Qed.

Lemma linked_agree pool pool' head l :
  linked pool head l ->
  (forall i e, i ∈ l -> zlookup pool i = Some e ->
     exists e', zlookup pool' i = Some e' /\ next_in_bucket e' = next_in_bucket e) ->
  linked pool' head l.
Proof.
  revert head. induction l as [|i l IH]; intros head H Ha; simpl in *; [done|].
  destruct H as (-> & e & He & H). split; [done|].
  destruct (Ha i e) as (e' & He' & Hn); [by left|done|]. exists e'. split; [done|].
  rewrite Hn. apply IH; [done|]. intros j f Hj. apply Ha. by right.
Qed.

Lemma linked_agree_off pool k e' head l :
  linked pool head l -> k ∉ l -> linked (zinsert k e' pool) head l.
Proof.
  intros H Hk. eapply linked_agree; [exact H|]. intros i e Hi He. exists e. split; [|done].
  rewrite zlookup_zinsert_ne; [done|]. intros ->. done.
Qed.

(** Taking a cell out by redirecting the link of its predecessor. *)
Lemma linked_remove pool head l1 k idx l2 ek ei :
  linked pool head (l1 ++ k :: idx :: l2) -> NoDup (l1 ++ k :: idx :: l2) ->
  zlookup pool k = Some ek -> zlookup pool idx = Some ei ->
  linked (zinsert k (ek <| next_in_bucket := next_in_bucket ei |>) pool) head (l1 ++ k :: l2).
Proof.
  intros H Hnd Hk Hi. pose proof (zlookup_Some_range _ _ _ Hk) as Hkr.
  revert head H. induction l1 as [|j l1 IH]; intros head H; simpl in *.
  - destruct H as (-> & e & He & Hn & e' & He' & H). simplify_eq. split; [done|].
    eexists. split; [by apply zlookup_zinsert_eq|]. cbn.
    apply linked_agree_off; [done|]. apply NoDup_cons in Hnd as [Hnd _]. set_solver.
  - destruct H as (-> & e & He & H). apply NoDup_cons in Hnd as [Hj Hnd]. split; [done|].
    exists e. split; [rewrite zlookup_zinsert_ne; [done|set_solver]|]. by apply IH.
Qed.

Lemma linked_split_range pool head l1 i l2 :
  linked pool head (l1 ++ i :: l2) ->
  exists e, zlookup pool i = Some e /\ linked pool (next_in_bucket e) l2.
Proof.
  revert head. induction l1 as [|j l1 IH]; intros head H; simpl in *; [naive_solver|].
  destruct H as (_ & e & _ & H). by eapply IH.
Qed.

(** ** Well-formed maps *)

Definition bucket_chain (m : LinquTensorMap) (b : Z) (l : list Z) : Prop :=
  exists h, zlookup (buckets_ m) b = Some h /\ linked (pool_ m) h l.

Record wf (m : LinquTensorMap) : Prop := {
  wf_pow2 : is_pow2 (num_buckets_ m) = true;
  wf_nb : num_buckets_ m < 2 ^ 31;
  wf_buckets : zlength (buckets_ m) = num_buckets_ m;
  wf_pool : zlength (pool_ m) = pool_size_ m;
  wf_size : 0 < pool_size_ m < 2 ^ 31;
  wf_heads : zlength (task_heads_ m) = pool_size_ m;
  wf_next : 0 <= next_entry_ m;
  wf_chain : forall b, 0 <= b < num_buckets_ m -> exists l, bucket_chain m b l /\ NoDup l /\
    (forall i e, i ∈ l -> zlookup (pool_ m) i = Some e -> hash (tensor_handle e) m = b);
  wf_valid : forall i e l, zlookup (pool_ m) i = Some e -> valid e = true ->
    bucket_chain m (hash (tensor_handle e) m) l -> i ∈ l;
}.

Lemma hash_range h m :
  is_pow2 (num_buckets_ m) = true -> num_buckets_ m < 2 ^ 31 -> 0 <= hash h m < num_buckets_ m.
Proof.
  intros Hp Hn. pose proof (is_pow2_pos _ Hp). unfold hash.
  rewrite (u64_id (_ - 1)) by (unfold_ints; lia).
  pose proof (land_mask_range (num_buckets_ m) (Z.lxor (u64 (Z.lxor h (Z.shiftr h 33) * 18397679294719823053))
    (Z.shiftr (u64 (Z.lxor h (Z.shiftr h 33) * 18397679294719823053)) 33)) Hp).
  rewrite i32_id; unfold_ints; lia.
Qed.

Lemma hash_num_buckets h m m' : num_buckets_ m = num_buckets_ m' -> hash h m = hash h m'.
Proof. unfold hash. by intros ->. Qed.

Lemma bucket_chain_det m b l l' : bucket_chain m b l -> bucket_chain m b l' -> l = l'.
Proof. intros (h & Hh & Hl) (h' & Hh' & Hl'). simplify_eq. by eapply linked_det. Qed.

Lemma wf_chain_length m b l :
  bucket_chain m b l -> NoDup l -> (length l < lookup_fuel m)%nat.
Proof.
  intros (h & _ & Hl) Hnd. unfold lookup_fuel.
  pose proof (NoDup_positions l (pool_ m) Hnd (fun i => linked_range _ _ _ i Hl)). lia.
Qed.

(** ** [remove_stale_for_handle] *)

Definition expire (handle tid last_alive : Z) (e : LinquTensorMapEntry) : LinquTensorMapEntry :=
  if stale handle tid last_alive e then e <| valid := false |> else e.

Lemma expire_next h t la e : next_in_bucket (expire h t la e) = next_in_bucket e.
Proof. unfold expire. by destruct (stale h t la e). Qed.
Lemma expire_handle h t la e : tensor_handle (expire h t la e) = tensor_handle e.
Proof. unfold expire. by destruct (stale h t la e). Qed.
Lemma expire_producer h t la e : producer_task_id (expire h t la e) = producer_task_id e.
Proof. unfold expire. by destruct (stale h t la e). Qed.
Lemma expire_valid h t la e :
  valid (expire h t la e) = true <-> valid e = true /\ stale h t la e = false.
Proof. unfold expire. destruct (stale h t la e); simpl; naive_solver. Qed.
Lemma expire_idem h t la e : expire h t la (expire h t la e) = expire h t la e.
Proof. unfold expire. destruct (stale h t la e) eqn:E; [done|by rewrite E]. Qed.

Lemma remove_stale_loop_ok fuel h t cur m l :
  linked (pool_ m) cur l -> (length l < fuel)%nat ->
  exists pool', remove_stale_loop fuel h t cur m = Ok (m <| pool_ := pool' |>) /\
    forall i, zlookup pool' i =
      if decide (i ∈ l) then expire h t (last_task_alive_ m) <$> zlookup (pool_ m) i
      else zlookup (pool_ m) i.
Proof.
  revert fuel cur m. induction l as [|j l IH]; intros [|fuel] cur m Hl Hf; simpl in *; try lia.
  { rewrite (proj2 (Z.leb_gt 0 cur)) by lia. exists (pool_ m). split; [by destruct m|].
    intros i. by try (case_decide as Hi; [apply not_elem_of_nil in Hi|]). }
  destruct Hl as (-> & e & He & Hl). pose proof (zlookup_Some_range _ _ _ He) as Hj.
  rewrite (proj2 (Z.leb_le 0 j)) by lia. unfold vec_get. rewrite He. simpl.
  set (m1 := m <| pool_ := zinsert j (expire h t (last_task_alive_ m) e) (pool_ m) |>).
  assert (Hm1 : (if stale h t (last_task_alive_ m) e then
      let! pool := vec_set (pool_ m) j (e <| valid := false |>) in Ok (m <| pool_ := pool |>)
      else Ok m) = Ok m1).
  { subst m1. unfold expire. destruct (stale h t (last_task_alive_ m) e).
    - by rewrite (proj2 (vec_set_Ok _ _ _ _)) by (split; [done|reflexivity]).
    - f_equal. destruct m; unfold setter, set_pool_; simpl in *. f_equal.
      symmetry. apply list_eq_zlookup. intros i. rewrite zlookup_zinsert by done.
      case_decide; by subst. }
  rewrite Hm1. simpl. destruct (IH fuel (next_in_bucket e) m1) as (pool' & -> & Hp); [|lia|].
  { eapply linked_agree; [exact Hl|]. intros i f Hi Hf'. cbn.
    rewrite zlookup_zinsert by done. case_decide; subst; simplify_eq; eauto using expire_next. }
  exists pool'. split; [done|]. intros i. rewrite Hp. subst m1. cbn.
  rewrite zlookup_zinsert by done.
  destruct (decide (j = i)) as [->|Hne].
  - rewrite (decide_True (P := i ∈ i :: l)) by set_solver. rewrite He. simpl.
    case_decide; [by rewrite expire_idem|done].
  - destruct (decide (i ∈ l)); [rewrite decide_True by set_solver; done|].
    rewrite decide_False by set_solver. done.
Qed.

(** The cells of [handle] it marks all lie in its bucket, so the effect is a
    map over the whole pool. *)
Lemma remove_stale_ok h t m :
  wf m ->
  remove_stale_for_handle h t m =
    Ok (m <| pool_ := expire h t (last_task_alive_ m) <$> pool_ m |>).
Proof.
  intros Hwf. unfold remove_stale_for_handle.
  destruct (wf_chain _ Hwf (hash h m)) as (l & (hd & Hhd & Hl) & Hnd & Hh);
    [apply hash_range; apply Hwf|].
  unfold vec_get. rewrite Hhd. bind_simpl.
  destruct (remove_stale_loop_ok (lookup_fuel m) h t hd m l Hl) as (pool' & -> & Hp).
  { apply (wf_chain_length m (hash h m)); [by exists hd|done]. }
  enough (pool' = expire h t (last_task_alive_ m) <$> pool_ m) as -> by done.
  apply list_eq_zlookup. intros i. rewrite zlookup_fmap, Hp.
  destruct (decide (i ∈ l)) as [Hi|Hi]; [done|].
  destruct (zlookup (pool_ m) i) as [e|] eqn:He; [|done]. simpl. f_equal.
  unfold expire. destruct (stale h t (last_task_alive_ m) e) eqn:Es; [|done].
  exfalso. apply Hi. unfold stale in Es. rewrite !andb_true_iff, Z.eqb_eq in Es.
  destruct Es as ((((Hv & Hhe) & _) & _) & _). subst h.
  eapply (wf_valid _ Hwf); [exact He|done|by exists hd].
Qed.

(** Changing only flags keeps the map well-formed. *)
Lemma wf_relabel f m :
  (forall e, next_in_bucket (f e) = next_in_bucket e) ->
  (forall e, tensor_handle (f e) = tensor_handle e) ->
  (forall e, valid (f e) = true -> valid e = true) ->
  wf m -> wf (m <| pool_ := f <$> pool_ m |>).
Proof.
  intros Hn Hh Hv Hwf. pose proof Hwf as [? ? ? ? ? ? ? Hc Hva].
  assert (Hbc : forall b l, bucket_chain (m <| pool_ := f <$> pool_ m |>) b l <-> bucket_chain m b l).
  { intros b l. unfold bucket_chain. cbn. split; intros (hd & Hhd & Hl); exists hd; split; try done;
      (eapply linked_agree; [exact Hl|]); intros i e Hi.
    - rewrite zlookup_fmap. destruct (zlookup (pool_ m) i) as [e0|]; simpl; [|done].
      intros [= <-]. eauto.
    - intros He. rewrite zlookup_fmap, He. simpl. eauto. }
  constructor; cbn; try done.
  - by rewrite zlength_fmap.
  - intros b Hb. destruct (Hc b Hb) as (l & Hl & Hnd & Hha). exists l.
    split; [by apply Hbc|]. split; [done|]. intros i e Hi. rewrite zlookup_fmap.
    destruct (zlookup (pool_ m) i) as [e0|] eqn:He; simpl; [|done]. intros [= <-]. rewrite Hh. eauto.
  - intros i e l. rewrite zlookup_fmap. destruct (zlookup (pool_ m) i) as [e0|] eqn:He; simpl; [|done].
    intros [= <-] Hve. rewrite Hh. intros Hl%Hbc. eauto.
Qed.

(** ** Taking the reused cell out of its chain *)

Definition last_link (prev : link) (l : list Z) : link :=
  match last l with Some k => InEntry k | None => prev end.

Lemma last_link_cons prev k l : last_link prev (k :: l) = last_link (InEntry k) l.
Proof. unfold last_link. rewrite last_cons. by destruct (last l). Qed.

Lemma unlink_loop_ok fuel idx prev m h l1 l2 ei :
  read_link prev m = Ok h -> linked (pool_ m) h (l1 ++ idx :: l2) -> idx ∉ l1 ->
  (length l1 < fuel)%nat -> zlookup (pool_ m) idx = Some ei ->
  unlink_loop fuel idx prev m = write_link (last_link prev l1) (next_in_bucket ei) m.
Proof.
  revert fuel prev h. induction l1 as [|k l1 IH]; intros [|fuel] prev h Hr Hl Hi Hf He; simpl in Hf;
    try lia; cbn [unlink_loop]; rewrite Hr; bind_simpl.
  - destruct Hl as (-> & _). rewrite (proj2 (Z.leb_le 0 idx)) by (apply zlookup_Some_range in He; lia).
    rewrite Z.eqb_refl. unfold vec_get. by rewrite He.
  - destruct Hl as (-> & ek & Hk & Hl). rewrite (proj2 (Z.leb_le 0 k)) by (apply zlookup_Some_range in Hk; lia).
    rewrite (proj2 (Z.eqb_neq k idx)) by set_solver. rewrite last_link_cons.
    apply (IH _ _ (next_in_bucket ek)); try done; [|set_solver|lia].
    cbn. unfold vec_get. by rewrite Hk.
Qed.

(** What [reclaim] and the push of [insert] leave alone. *)
Definition same_shape (m m' : LinquTensorMap) : Prop :=
  num_buckets_ m' = num_buckets_ m /\ pool_size_ m' = pool_size_ m /\
  task_heads_ m' = task_heads_ m /\ next_entry_ m' = next_entry_ m /\
  last_task_alive_ m' = last_task_alive_ m /\
  zlength (pool_ m') = zlength (pool_ m) /\ zlength (buckets_ m') = zlength (buckets_ m).

Definition same_binding (e e' : LinquTensorMapEntry) : Prop :=
  tensor_handle e' = tensor_handle e /\ producer_task_id e' = producer_task_id e /\
  valid e' = valid e.

Definition unlinked (idx : Z) (m : LinquTensorMap) : Prop :=
  forall b l, bucket_chain m b l -> idx ∉ l.

(** Rebuild [wf] after cells other than [idx] kept their bindings, [idx] was
    invalidated, and the chains lost at most [idx]. *)
Lemma wf_unlink m m' idx :
  wf m -> same_shape m m' ->
  (forall i e', i <> idx -> zlookup (pool_ m') i = Some e' ->
     exists e, zlookup (pool_ m) i = Some e /\ same_binding e e') ->
  (forall e', zlookup (pool_ m') idx = Some e' -> valid e' = false) ->
  (forall b l, 0 <= b < num_buckets_ m -> bucket_chain m b l -> NoDup l ->
     exists l', bucket_chain m' b l' /\ NoDup l' /\ idx ∉ l' /\
       (forall i, i <> idx -> (i ∈ l <-> i ∈ l'))) ->
  wf m' /\ unlinked idx m'.
Proof.
  intros Hwf (Hnb & Hps & Hth & Hne & Hla & Hlp & Hlb) Hsame Hidx Hch.
  pose proof Hwf as [? ? ? ? ? ? ? Hc Hva].
  assert (Hb : forall b l, bucket_chain m' b l -> 0 <= b < num_buckets_ m).
  { intros b l (h & ?%zlookup_Some_range & _). lia. }
  split; [constructor; rewrite ?Hnb, ?Hps, ?Hth, ?Hne, ?Hlp, ?Hlb; try done|].
  - intros b Hbr. destruct (Hc b Hbr) as (l & Hl & Hnd & Hh).
    destruct (Hch b l Hbr Hl Hnd) as (l' & Hl' & Hnd' & Hi & Heq). exists l'.
    split; [done|]. split; [done|]. intros i e' Hil He'.
    assert (i <> idx) by (intros ->; done).
    destruct (Hsame i e') as (e & He & Hb1 & _ & _); [done|done|].
    rewrite Hb1, (hash_num_buckets _ m' m) by done. apply (Hh i e); [by apply Heq|done].
  - intros i e' l' He' Hv Hl'. assert (i <> idx) by (intros ->; by rewrite (Hidx e') in Hv).
    destruct (Hsame i e') as (e & He & Hb1 & _ & Hb3); [done|done|].
    rewrite Hb1, (hash_num_buckets _ m' m) in Hl' by done.
    destruct (Hc (hash (tensor_handle e) m)) as (l & Hl & Hnd & _); [apply hash_range; done|].
    destruct (Hch _ l (Hb _ _ Hl') Hl Hnd) as (l'' & Hl'' & _ & _ & Heq).
    rewrite (bucket_chain_det _ _ _ _ Hl' Hl''). apply Heq; [done|].
    eapply Hva; [exact He|congruence|done].
  - intros b l' Hl'. destruct (Hc b (Hb _ _ Hl')) as (l & Hl & Hnd & _).
    destruct (Hch b l (Hb _ _ Hl') Hl Hnd) as (l'' & Hl'' & _ & Hi & _).
    by rewrite (bucket_chain_det _ _ _ _ Hl' Hl'').
Qed.

(** Redirecting the predecessor's link: the effect of [unlink_loop]. *)
Lemma write_last_link m b h l1 idx l2 ei :
  zlookup (buckets_ m) b = Some h -> linked (pool_ m) h (l1 ++ idx :: l2) ->
  NoDup (l1 ++ idx :: l2) -> zlookup (pool_ m) idx = Some ei ->
  exists m1, write_link (last_link (InBucket b) l1) (next_in_bucket ei) m = Ok m1 /\
    same_shape m m1 /\ zlookup (pool_ m1) idx = Some ei /\ bucket_chain m1 b (l1 ++ l2) /\
    (forall b', b' <> b -> zlookup (buckets_ m1) b' = zlookup (buckets_ m) b') /\
    (forall i e1, zlookup (pool_ m1) i = Some e1 ->
       exists e, zlookup (pool_ m) i = Some e /\ same_binding e e1) /\
    (forall h' l', linked (pool_ m) h' l' -> (forall i, i ∈ l' -> i ∉ l1) -> linked (pool_ m1) h' l').
Proof.
  intros Hb Hl Hnd He. unfold last_link. pose proof (zlookup_Some_range _ _ _ Hb) as Hbr.
  destruct (last l1) as [k|] eqn:Hlast.
  - apply last_Some in Hlast as [l1' ->]. rewrite <- app_assoc in Hl, Hnd. simpl in Hl, Hnd.
    destruct (linked_split_range _ _ _ _ _ Hl) as (ek & Hk & _). cbn.
    pose proof (zlookup_Some_range _ _ _ Hk) as Hkr.
    assert (k <> idx). { intros ->. apply NoDup_app in Hnd as (_ & _ & Hnd). inversion Hnd. set_solver. }
    unfold vec_get. rewrite Hk. simpl.
    rewrite (proj2 (vec_set_Ok _ _ _ _)) by (split; [done|reflexivity]). simpl.
    eexists. split; [done|].
    split; [unfold same_shape; cbn; by rewrite zlength_zinsert|]. cbn. split_and!; try done.
    + by rewrite zlookup_zinsert_ne.
    + exists h. split; [done|]. rewrite <- app_assoc. by apply linked_remove with (idx := idx).
    + intros i e1. rewrite zlookup_zinsert by done. case_decide; subst.
      * intros [= <-]. exists ek. done.
      * intros. exists e1. done.
    + intros h' l' Hl' Hdis. apply linked_agree_off; [done|]. intros Hin.
      apply (Hdis k Hin). set_solver.
  - apply last_None in Hlast as ->. simpl in *. destruct Hl as (-> & e & He' & Hl). simplify_eq.
    rewrite (proj2 (vec_set_Ok _ _ _ _)) by (split; [done|reflexivity]). simpl.
    eexists. split; [done|].
    split; [unfold same_shape; cbn; by rewrite zlength_zinsert|]. cbn. split_and!; try done.
    + eexists. split; [by apply zlookup_zinsert_eq|done].
    + intros b' Hb'. by rewrite zlookup_zinsert_ne.
    + intros i e1 ?. by exists e1.
Qed.

(** The cell about to be reused is still linked only if it is valid. *)
Definition reclaimable (idx : Z) (m : LinquTensorMap) : Prop :=
  (exists e, zlookup (pool_ m) idx = Some e /\ valid e = true) \/ unlinked idx m.

Lemma reclaim_ok idx m :
  wf m -> 0 <= idx < pool_size_ m -> reclaimable idx m ->
  exists m', reclaim idx m = Ok m' /\ wf m' /\ unlinked idx m' /\ same_shape m m' /\
    (forall i e', i <> idx -> zlookup (pool_ m') i = Some e' ->
       exists e, zlookup (pool_ m) i = Some e /\ same_binding e e').
Proof.
  intros Hwf Hi Hrec. destruct (zlookup_is_Some (pool_ m) idx) as [old Hold];
    [by rewrite (wf_pool _ Hwf)|].
  unfold reclaim. rewrite (proj2 (vec_get_Ok (pool_ m) idx old)) by done. bind_simpl.
  destruct (valid old) eqn:Hv.
  2:{ destruct Hrec as [(e & He & Hve)|Hu]; [congruence|]. exists m. split_and!; auto; [done|].
      intros i e' _ He'. by exists e'. }
  set (b := hash (tensor_handle old) m).
  destruct (wf_chain _ Hwf b) as (l & Hbc & Hnd & Hh); [apply hash_range; apply Hwf|].
  pose proof (wf_valid _ Hwf idx old l Hold Hv Hbc) as Hin.
  pose proof (wf_chain_length _ _ _ Hbc Hnd) as Hlen. destruct Hbc as (h & Hhd & Hl).
  apply list_elem_of_split in Hin as (l1 & l2 & ->).
  assert (Hi1 : idx ∉ l1 ++ l2).
  { apply NoDup_app in Hnd as (Hd1 & Hd2 & Hd3). apply NoDup_cons in Hd3 as [? _].
    specialize (Hd2 idx). set_solver. }
  rewrite (unlink_loop_ok _ idx (InBucket b) m h l1 l2 old);
    [|cbn; unfold vec_get; by rewrite Hhd|done|set_solver|rewrite length_app in Hlen; lia|done].
  destruct (write_last_link m b h l1 idx l2 old) as (m1 & -> & Hsh & Hold1 & Hb1 & Hbs & Hsame & Hlk);
    try done.
  bind_simpl. pose proof Hsh as (Hnb & Hps & Hth & Hne & Hla & Hlp & Hlb).
  pose proof (zlookup_Some_range _ _ _ Hold1) as Hir.
  rewrite (proj2 (vec_get_Ok _ _ old)) by done. bind_simpl.
  rewrite (proj2 (vec_set_Ok _ _ _ _)) by (split; [done|reflexivity]). bind_simpl.
  set (m' := m1 <| pool_ := _ |>). exists m'. split; [done|].
  assert (Hsh' : same_shape m m') by (unfold same_shape; cbn; by rewrite zlength_zinsert).
  assert (Hsame' : forall i e', i <> idx -> zlookup (pool_ m') i = Some e' ->
     exists e, zlookup (pool_ m) i = Some e /\ same_binding e e').
  { intros i e' Hne'. cbn. rewrite zlookup_zinsert_ne by done. apply Hsame. }
  enough (wf m' /\ unlinked idx m') as [? ?] by (split_and!; done).
  apply (wf_unlink m); auto.
  { intros e'. cbn. rewrite zlookup_zinsert_eq by done. by intros [= <-]. }
  intros b' l' Hbr' Hl' Hnd'. destruct (decide (b' = b)) as [->|Hbb].
  - exists (l1 ++ l2). split; [|split_and!; [by apply NoDup_app in Hnd as (? & ? & ?%NoDup_cons);
      apply NoDup_app; set_solver|done|]].
    + destruct Hb1 as (h1 & ? & Hl1). exists h1. split; [done|]. by apply linked_agree_off.
    + intros i Hii. rewrite (bucket_chain_det _ _ _ _ Hl' (ex_intro _ h (conj Hhd Hl))). set_solver.
  - destruct (wf_chain _ Hwf b' Hbr') as (l'' & Hbc'' & _ & Hh').
    rewrite (bucket_chain_det _ _ _ _ Hbc'' Hl') in Hh'. clear Hbc'' l''.
    assert (Hdis : forall i, i ∈ l' -> i ∉ l1 ++ idx :: l2).
    { intros i Hil' Hil. destruct Hl' as (h' & _ & Hl'). pose proof (linked_range _ _ _ _ Hl' Hil') as Hr.
      apply zlookup_is_Some in Hr as [e He]. apply Hbb. by rewrite <- (Hh' i e), <- (Hh i e). }
    exists l'. split; [|split_and!; [done|intros Hx; apply (Hdis idx Hx); set_solver|done]].
    destruct Hl' as (h' & Hh1 & Hl'). exists h'. split; [cbn; by rewrite Hbs|].
    apply linked_agree_off; [apply Hlk; [done|intros i Hx; specialize (Hdis i Hx); set_solver]|].
    intros Hx. apply (Hdis idx Hx). set_solver.
Qed.

(** ** [insert] *)

Lemma bucket_chain_relabel f m b l :
  (forall e, next_in_bucket (f e) = next_in_bucket e) ->
  bucket_chain (m <| pool_ := f <$> pool_ m |>) b l -> bucket_chain m b l.
Proof.
  intros Hn (hd & Hhd & Hl). exists hd. split; [done|]. cbn in Hl.
  eapply linked_agree; [exact Hl|]. intros i e Hi. rewrite zlookup_fmap.
  destruct (zlookup (pool_ m) i) as [e0|]; simpl; [|done]. intros [= <-]. eauto.
Qed.

(** The map after the new cell is written and linked in front of its bucket. *)
Definition pushed (idx handle tid head thead tslot n : Z) (out : bool) (m : LinquTensorMap) : LinquTensorMap :=
  m <| next_entry_ := n |>
    <| pool_ := zinsert idx (mkEntry handle tid head thead true out) (pool_ m) |>
    <| task_heads_ := zinsert tslot idx (task_heads_ m) |>
    <| buckets_ := zinsert (hash handle m) idx (buckets_ m) |>.

Section pushed.
Context (idx handle tid head thead tslot n : Z) (out : bool) (m : LinquTensorMap).
Context (Hwf : wf m) (Hu : unlinked idx m) (Hi : 0 <= idx < pool_size_ m).
Context (Hhd : zlookup (buckets_ m) (hash handle m) = Some head).

Let m' := pushed idx handle tid head thead tslot n out m.

Lemma pushed_chain b l :
  bucket_chain m b l -> bucket_chain m' b (if decide (b = hash handle m) then idx :: l else l).
Proof.
  intros Hl. pose proof (wf_pool _ Hwf) as Hpl. pose proof (wf_buckets _ Hwf) as Hbl.
  pose proof (Hu _ _ Hl) as Hni. case_decide as E.
  - assert (Hb : 0 <= hash handle m < num_buckets_ m) by (apply hash_range; apply Hwf).
    exists idx. rewrite E in *. split; [cbn; apply zlookup_zinsert_eq; lia|]. split; [done|].
    eexists. split; [cbn; apply zlookup_zinsert_eq; lia|]. cbn.
    destruct Hl as (h & Hh & Hl). simplify_eq. by apply linked_agree_off.
  - destruct Hl as (h & Hh & Hl). exists h. split; [cbn; by rewrite zlookup_zinsert_ne|].
    cbn. by apply linked_agree_off.
Qed.

Lemma pushed_unlinked j : unlinked j m -> j <> idx -> unlinked j m'.
Proof.
  intros Hj Hne b l' Hl'. assert (Hb : 0 <= b < num_buckets_ m).
  { destruct Hl' as (h & Hh%zlookup_Some_range & _). cbn in Hh. rewrite zlength_zinsert in Hh.
    by rewrite <- (wf_buckets _ Hwf). }
  destruct (wf_chain _ Hwf b Hb) as (l & Hl & _). rewrite (bucket_chain_det _ _ _ _ Hl' (pushed_chain b l Hl)).
  pose proof (Hj b l Hl). case_decide; [|done]. rewrite elem_of_cons. by intros [?|?].
Qed.

Lemma wf_pushed : 0 <= n -> wf m'.
Proof.
  intros Hn. pose proof Hwf as [? ? ? Hpl ? ? ? Hc Hva].
  constructor; cbn; rewrite ?zlength_zinsert; try done.
  - intros b Hbr. destruct (Hc b Hbr) as (l & Hl & Hnd & Hh).
    eexists. split; [by apply pushed_chain|]. split.
    { case_decide; [|done]. apply NoDup_cons. split; [by apply (Hu _ _ Hl)|done]. }
    intros i e Hil. rewrite zlookup_zinsert by lia. destruct (decide (idx = i)) as [->|E].
    + intros [= <-]. destruct (decide (b = hash handle m)) as [->|Hne]; [done|]. by destruct (Hu _ _ Hl).
    + intros He. apply (Hh i e); [|done]. case_decide; [|done]. set_solver.
  - intros i e l. rewrite zlookup_zinsert by lia. destruct (decide (idx = i)) as [<-|E].
    + intros [= <-] _ Hl. cbn in Hl. destruct (Hc (hash handle m)) as (l0 & Hl0 & _ & _); [by apply hash_range|].
      rewrite (bucket_chain_det _ _ _ _ Hl (pushed_chain _ _ Hl0)). rewrite decide_True by done. by left.
    + intros He Hv Hl. change (hash (tensor_handle e) m') with (hash (tensor_handle e) m) in Hl.
      destruct (Hc (hash (tensor_handle e) m)) as (l0 & Hl0 & _ & _); [by apply hash_range|].
      pose proof (Hva i e l0 He Hv Hl0) as Hil.
      rewrite (bucket_chain_det _ _ _ _ Hl (pushed_chain _ _ Hl0)). case_decide; [by right|done].
Qed.
End pushed.

(** The next cell can be reused: it holds a valid binding that this insertion
    does not itself expire, or it is in no chain. *)
Definition next_cell (m : LinquTensorMap) : Z := Z.rem (next_entry_ m) (pool_size_ m).

Definition reusable (handle tid : Z) (m : LinquTensorMap) : Prop :=
  (exists e, zlookup (pool_ m) (next_cell m) = Some e /\ valid e = true /\
     stale handle tid (last_task_alive_ m) e = false) \/ unlinked (next_cell m) m.

Lemma next_cell_range m : wf m -> 0 <= next_cell m < pool_size_ m.
Proof.
  intros Hwf. pose proof (wf_size _ Hwf). pose proof (wf_next _ Hwf). unfold next_cell.
  rewrite Z.rem_mod_nonneg by lia. apply Z.mod_pos_bound. lia.
Qed.

Lemma same_shape_relabel f m m2 :
  same_shape (m <| pool_ := f <$> pool_ m |>) m2 -> same_shape m m2.
Proof. unfold same_shape. cbn. rewrite zlength_fmap. tauto. Qed.

(** Once the cell is reclaimed the rest of [insert] cannot fail. *)
Lemma insert_push handle tid out m m2 head :
  wf m -> 0 <= tid -> next_entry_ m < 2 ^ 31 - 1 ->
  reclaim (next_cell m) (m <| pool_ := expire handle tid (last_task_alive_ m) <$> pool_ m |>) = Ok m2 ->
  same_shape m m2 -> zlookup (buckets_ m2) (hash handle m) = Some head ->
  exists thead, insert handle tid out m =
    Ok (pushed (next_cell m) handle tid head thead (Z.rem tid (pool_size_ m)) (next_entry_ m + 1) out m2).
Proof.
  intros Hwf Ht Hn Hrec (Hnb & Hps & Hth & Hne & _ & Hlp & Hlb) Hhead.
  pose proof (wf_size _ Hwf) as Hsz. pose proof (wf_next _ Hwf). pose proof (next_cell_range m Hwf) as Hi.
  pose proof (wf_pool _ Hwf) as Hpl. pose proof (zlookup_Some_range _ _ _ Hhead) as Hbr.
  unfold insert. rewrite remove_stale_ok by done. bind_simpl.
  rewrite i32_rem_ok by (cbn; lia). bind_simpl. cbn [next_entry_ pool_size_ setter set_pool_].
  fold (next_cell m). rewrite Hrec. bind_simpl. rewrite Hne. unfold i32_add.
  rewrite (proj2 (i32_range_spec _)) by (unfold_ints; lia). bind_simpl.
  rewrite (hash_num_buckets handle _ m) by (cbn; done). cbn [buckets_ pool_ task_heads_ pool_size_ setter set_next_entry_].
  rewrite (proj2 (vec_get_Ok _ _ head)) by done. bind_simpl. rewrite Hps, Hth, i32_rem_ok by lia. bind_simpl.
  assert (Hts : 0 <= Z.rem tid (pool_size_ m) < zlength (task_heads_ m)).
  { rewrite (wf_heads _ Hwf), Z.rem_mod_nonneg by lia. apply Z.mod_pos_bound. lia. }
  destruct (zlookup_is_Some _ _ Hts) as [thead Hthead]. exists thead.
  rewrite (proj2 (vec_get_Ok _ _ thead)) by done. bind_simpl.
  rewrite (proj2 (vec_set_Ok (pool_ m2) _ _ _)) by (split; [lia|reflexivity]). bind_simpl.
  rewrite (proj2 (vec_set_Ok (task_heads_ m) _ _ _)) by (split; [lia|reflexivity]). bind_simpl.
  rewrite (proj2 (vec_set_Ok (buckets_ m2) _ _ _)) by (split; [lia|reflexivity]). bind_simpl.
  unfold pushed. rewrite Hth, (hash_num_buckets handle m2 m) by done. done.
Qed.

(** [insert] on a well-formed map: the new binding sits in [next_cell], every
    other cell keeps its binding up to the expiry of stale ones. *)
Lemma insert_ok handle tid out m :
  wf m -> 0 <= tid -> next_entry_ m < 2 ^ 31 - 1 -> reusable handle tid m ->
  exists m', insert handle tid out m = Ok m' /\ wf m' /\
    next_entry_ m' = next_entry_ m + 1 /\ last_task_alive_ m' = last_task_alive_ m /\
    num_buckets_ m' = num_buckets_ m /\ pool_size_ m' = pool_size_ m /\
    (exists e', zlookup (pool_ m') (next_cell m) = Some e' /\ tensor_handle e' = handle /\
       producer_task_id e' = tid /\ valid e' = true) /\
    (forall i e, i <> next_cell m -> zlookup (pool_ m) i = Some e ->
       exists e', zlookup (pool_ m') i = Some e' /\
         same_binding (expire handle tid (last_task_alive_ m) e) e').
Proof.
  intros Hwf Ht Hn Hr. pose proof (next_cell_range m Hwf) as Hi. pose proof (wf_next _ Hwf).
  set (f := expire handle tid (last_task_alive_ m)).
  assert (Hwf1 : wf (m <| pool_ := f <$> pool_ m |>)).
  { apply wf_relabel; [apply expire_next|apply expire_handle| |done].
    intros e He. by apply (proj1 (expire_valid _ _ _ _)) in He as [? _]. }
  destruct (reclaim_ok (next_cell m) _ Hwf1 Hi) as (m2 & Hrec & Hwf2 & Hu2 & Hsh%same_shape_relabel & Hsame).
  { destruct Hr as [(e & He & Hv & Hs)|Hu].
    - left. exists (f e). split; [cbn; by rewrite zlookup_fmap, He|]. by apply expire_valid.
    - right. intros b l Hl. apply (Hu b). eapply bucket_chain_relabel; [|exact Hl].
      apply expire_next. }
  pose proof Hsh as (Hnb & Hps & _ & _ & Hla & Hlp & Hlb). pose proof (wf_pool _ Hwf) as Hpl.
  destruct (zlookup_is_Some (buckets_ m2) (hash handle m)) as [head Hhead].
  { rewrite Hlb, (wf_buckets _ Hwf). apply hash_range; apply Hwf. }
  destruct (insert_push handle tid out m m2 head) as [thead ->]; try done.
  eexists. split; [reflexivity|]. split.
  { apply wf_pushed; try done; try lia. by rewrite (hash_num_buckets handle m2 m). }
  cbn. split_and!; try done.
  - eexists. split; [apply zlookup_zinsert_eq; lia|]. done.
  - intros i e Hne' He. rewrite zlookup_zinsert_ne by done.
    pose proof (zlookup_Some_range _ _ _ He) as Hir.
    destruct (zlookup_is_Some (pool_ m2) i) as [e2 He2]; [by rewrite Hlp|].
    exists e2. split; [done|]. destruct (Hsame i e2) as (e1 & He1 & Hsb); [done|done|].
    cbn in He1. rewrite zlookup_fmap, He in He1. by injection He1 as <-.
Qed.

(** ** [lookup] *)

(** [t] is a producer of [h] that has not retired and has not been superseded. *)
Definition live_binding (m : LinquTensorMap) (h t : Z) : Prop :=
  0 <= t /\ exists i e, zlookup (pool_ m) i = Some e /\ valid e = true /\ tensor_handle e = h /\
    producer_task_id e = t /\ last_task_alive_ m <= t.

(** [r] answers the question "who produces [h]?" *)
Definition newest (m : LinquTensorMap) (h : Z) (r : LinquTensorMapLookupResult) : Prop :=
  if found r
  then live_binding m h (result_producer r) /\
       forall t, live_binding m h t -> t <= result_producer r
  else result_producer r = -1 /\ forall t, ~ live_binding m h t.

Lemma newest_unique m h r m' r' :
  (forall t, live_binding m h t <-> live_binding m' h t) ->
  newest m h r -> newest m' h r' -> r = r'.
Proof.
  intros Heq. unfold newest. destruct r as [p []], r' as [p' []]; simpl.
  - intros [H1 H2] [H1' H2']. f_equal. apply Heq in H1' as ?. apply Heq in H1 as ?.
    apply Z.le_antisymm; auto.
  - intros [H1 _] [_ H2]. by apply Heq, H2 in H1.
  - intros [_ H2] [H1 _]. by apply Heq, H2 in H1.
  - by intros [-> _] [-> _].
Qed.

Lemma lookup_loop_ok fuel h cur best m l :
  linked (pool_ m) cur l -> (length l < fuel)%nat ->
  exists best', lookup_loop fuel h cur best m = Ok best' /\ best <= best' /\
    (best' = best \/ exists i e, i ∈ l /\ zlookup (pool_ m) i = Some e /\ valid e = true /\
       tensor_handle e = h /\ last_task_alive_ m <= producer_task_id e /\ producer_task_id e = best') /\
    (forall i e, i ∈ l -> zlookup (pool_ m) i = Some e -> valid e = true -> tensor_handle e = h ->
       last_task_alive_ m <= producer_task_id e -> producer_task_id e <= best').
Proof.
  revert fuel cur best. induction l as [|j l IH]; intros [|fuel] cur best Hl Hf; simpl in Hf; try lia.
  { simpl in Hl. cbn [lookup_loop]. rewrite (proj2 (Z.leb_gt 0 cur)) by lia. exists best.
    split_and!; [done|lia|by left|]. intros i e Hi. by apply not_elem_of_nil in Hi. }
  destruct Hl as (-> & e & He & Hl). cbn [lookup_loop].
  rewrite (proj2 (Z.leb_le 0 j)) by (apply zlookup_Some_range in He; lia).
  unfold vec_get. rewrite He. bind_simpl. set (best1 := if matches _ _ _ _ then _ else _).
  destruct (IH fuel (next_in_bucket e) best1 Hl) as (best' & -> & Hle & Hfrom & Hub); [lia|].
  assert (Hb1 : best <= best1 /\ (best1 = best \/ (valid e = true /\ tensor_handle e = h /\
      last_task_alive_ m <= producer_task_id e /\ producer_task_id e = best1)) /\
      (valid e = true -> tensor_handle e = h -> last_task_alive_ m <= producer_task_id e ->
       producer_task_id e <= best1)).
  { subst best1. destruct (matches _ _ _ _) eqn:E; unfold matches in E.
    - rewrite !andb_true_iff, Z.eqb_eq, Z.leb_le, Z.ltb_lt in E. split_and!; [lia|right; tauto|lia].
    - split_and!; [lia|by left|]. intros Hv Hh Hla. rewrite Hv, Hh, Z.eqb_refl in E. simpl in E.
      rewrite (proj2 (Z.leb_le _ _)) in E by lia. simpl in E. by apply Z.ltb_ge in E. }
  destruct Hb1 as (Hb1 & Hb2 & Hb3). exists best'. split_and!; [done|lia| |].
  - destruct Hfrom as [->|(i & e' & Hi & ?)]; [|right; exists i, e'; set_solver].
    destruct Hb2 as [->|(? & ? & ? & ?)]; [by left|]. right. exists j, e. set_solver.
  - intros i e' [->|Hi]%elem_of_cons He' Hv Hh Hla; [|eauto].
    rewrite He in He'. injection He' as <-. specialize (Hb3 Hv Hh Hla). lia.
Qed.

Lemma lookup_ok h m : wf m -> exists r, lookup h m = Ok r /\ newest m h r.
Proof.
  intros Hwf. unfold lookup.
  destruct (wf_chain _ Hwf (hash h m)) as (l & Hbc & Hnd & _); [apply hash_range; apply Hwf|].
  pose proof (wf_chain_length _ _ _ Hbc Hnd) as Hlen. pose proof Hbc as (hd & Hhd & Hl).
  unfold vec_get. rewrite Hhd. bind_simpl.
  destruct (lookup_loop_ok (lookup_fuel m) h hd (-1) m l Hl Hlen) as (best & -> & Hle & Hfrom & Hub).
  bind_simpl. assert (Hall : forall t, live_binding m h t -> t <= best).
  { intros t (Ht & i & e & He & Hv & Hh & <- & Hla). apply (Hub i e); try done. subst h.
    eapply wf_valid; eauto. }
  eexists. split; [done|]. unfold newest. destruct (Z.leb_spec 0 best) as [Hb|Hb]; simpl.
  - split; [|done]. destruct Hfrom as [->|(i & e & _ & He & Hv & Hh & Hla & <-)]; [lia|].
    split; [done|]. exists i, e. done.
  - split; [done|]. intros t Ht. pose proof (Hall t Ht). destruct Ht as [? _]. lia.
Qed.

(** ** Initial maps and the effect of an insertion on the bindings *)

Lemma wf_init_map num_buckets pool_size m :
  init num_buckets pool_size empty_map = Ok m ->
  num_buckets < 2 ^ 31 -> 0 < pool_size < 2 ^ 31 -> wf m.
Proof.
  intros Hi Hnb Hps. unfold init in Hi. inv_ok.
  assert (Hcells : forall i e, zlookup (replicate (Z.to_nat pool_size) zero_entry) i = Some e -> e = zero_entry).
  { intros i e. unfold zlookup. destruct (0 <=? i); [|done].
    by intros [-> _]%lookup_replicate. }
  assert (0 < num_buckets) by (by apply is_pow2_pos).
  constructor; cbn; rewrite ?resize_nil, ?zlength_replicate by lia; try done; try lia.
  - intros b Hb. exists []. split_and!; [|constructor|intros i e Hi; by apply not_elem_of_nil in Hi].
    exists (-1). split; [by apply zlookup_replicate|]. simpl. lia.
  - intros i e l He%Hcells. by subst e.
Qed.

Lemma init_no_chain num_buckets pool_size m i :
  init num_buckets pool_size empty_map = Ok m -> unlinked i m.
Proof.
  intros Hi b l Hl. unfold init in Hi. inv_ok. destruct Hl as (h & Hh & Hl). cbn in Hh.
  assert (h = -1) as ->.
  { unfold zlookup in Hh. destruct (0 <=? b); [|done]. by apply lookup_replicate in Hh as [-> _]. }
  destruct l; [apply not_elem_of_nil|]. by destruct Hl as (<- & e & He & _).
Qed.

Lemma init_no_binding num_buckets pool_size m h t :
  init num_buckets pool_size empty_map = Ok m -> ~ live_binding m h t.
Proof.
  intros Hi (_ & i & e & He & Hv & _). unfold init in Hi. inv_ok. cbn in He.
  rewrite resize_nil in He. unfold zlookup in He. destruct (0 <=? i); [|done].
  apply lookup_replicate in He as [-> _]. done.
Qed.

(** Cells other than the reused one, seen from the new map. *)
Lemma insert_cells h tid out m m' :
  wf m -> 0 <= tid -> next_entry_ m < 2 ^ 31 - 1 -> reusable h tid m -> insert h tid out m = Ok m' ->
  wf m' /\ last_task_alive_ m' = last_task_alive_ m /\
  (exists e', zlookup (pool_ m') (next_cell m) = Some e' /\ tensor_handle e' = h /\
     producer_task_id e' = tid /\ valid e' = true) /\
  (forall i e, i <> next_cell m -> zlookup (pool_ m) i = Some e ->
     exists e', zlookup (pool_ m') i = Some e' /\
       same_binding (expire h tid (last_task_alive_ m) e) e') /\
  (forall i e', i <> next_cell m -> zlookup (pool_ m') i = Some e' ->
     exists e, zlookup (pool_ m) i = Some e /\
       same_binding (expire h tid (last_task_alive_ m) e) e').
Proof.
  intros Hwf Ht Hn Hr Hi.
  destruct (insert_ok h tid out m Hwf Ht Hn Hr) as (m1 & Hi1 & Hwf1 & _ & Hla & _ & Hps & Hnew & Hold).
  rewrite Hi in Hi1. injection Hi1 as <-. split_and!; try done.
  intros i e' Hne He'. pose proof (zlookup_Some_range _ _ _ He') as Hir.
  destruct (zlookup_is_Some (pool_ m) i) as [e He].
  { rewrite (wf_pool _ Hwf), <- Hps, <- (wf_pool _ Hwf1). done. }
  destruct (Hold i e Hne He) as (e1 & He1 & Hsb). simplify_eq. eauto.
Qed.

Lemma stale_other h tid la e : tensor_handle e <> h -> stale h tid la e = false.
Proof.
  intros Hne. unfold stale. rewrite (proj2 (Z.eqb_neq _ _) Hne), andb_false_r. done.
Qed.

Lemma live_binding_other h tid out m m' h' :
  wf m -> 0 <= tid -> next_entry_ m < 2 ^ 31 - 1 -> reusable h tid m -> insert h tid out m = Ok m' ->
  h' <> h ->
  (forall e, zlookup (pool_ m) (next_cell m) = Some e -> valid e = true -> tensor_handle e <> h') ->
  forall t, live_binding m h' t <-> live_binding m' h' t.
Proof.
  intros Hwf Ht Hn Hr Hi Hne Hev t.
  destruct (insert_cells _ _ _ _ _ Hwf Ht Hn Hr Hi) as (_ & Hla & (en & Hen & Hhn & _) & Hold & Hnew).
  unfold live_binding. rewrite Hla. split; intros (Ht0 & i & e & He & Hv & Hh & Hp & Hl); (split; [done|]).
  - assert (i <> next_cell m) by (intros ->; by apply (Hev e)).
    destruct (Hold i e) as (e' & He' & Hsh & Hsp & Hsv); [done..|].
    exists i, e'. rewrite Hsh, Hsp, Hsv, expire_handle, expire_producer. unfold expire.
    rewrite stale_other by congruence. done.
  - assert (i <> next_cell m) by (intros ->; congruence).
    destruct (Hnew i e) as (e0 & He0 & Hsh & Hsp & Hsv); [done..|].
    rewrite Hv in Hsv. symmetry in Hsv. apply (proj1 (expire_valid _ _ _ _)) in Hsv as [Hv0 _].
    rewrite expire_handle in Hsh. rewrite expire_producer in Hsp. exists i, e0. by rewrite <- Hsh, <- Hsp.
Qed.

Lemma live_binding_same h tid out m m' :
  wf m -> 0 <= tid -> last_task_alive_ m <= tid -> next_entry_ m < 2 ^ 31 - 1 ->
  reusable h tid m -> insert h tid out m = Ok m' ->
  live_binding m' h tid /\ forall t, live_binding m' h t -> t = tid \/ live_binding m h t.
Proof.
  intros Hwf Ht Htl Hn Hr Hi.
  destruct (insert_cells _ _ _ _ _ Hwf Ht Hn Hr Hi) as (_ & Hla & (en & Hen & Hhn & Hpn & Hvn) & _ & Hnew).
  split.
  - split; [done|]. exists (next_cell m), en. by rewrite Hla.
  - intros t (Ht0 & i & e & He & Hv & Hh & Hp & Hl). rewrite Hla in Hl.
    destruct (decide (i = next_cell m)) as [->|Hne]; [left; congruence|right].
    destruct (Hnew i e) as (e0 & He0 & Hsh & Hsp & Hsv); [done..|].
    rewrite Hv in Hsv. symmetry in Hsv. apply (proj1 (expire_valid _ _ _ _)) in Hsv as [Hv0 _].
    rewrite expire_handle in Hsh. rewrite expire_producer in Hsp.
    split; [done|]. exists i, e0. by rewrite <- Hsh, <- Hsp.
Qed.

Lemma wf_invalidate_below la m : wf m -> wf (invalidate_below la m).
Proof. intros [? ? ? ? ? ? ? Hc Hv]. by constructor. Qed.

(** ** A pool that has not come round yet *)

Record unwrapped (m : LinquTensorMap) : Prop := {
  un_next : next_entry_ m <= pool_size_ m;
  un_fresh : forall i, next_entry_ m <= i -> unlinked i m;
  un_invalid : forall i e, next_entry_ m <= i -> zlookup (pool_ m) i = Some e -> valid e = false;
}.

Lemma unwrapped_invalidate_below la m : unwrapped m -> unwrapped (invalidate_below la m).
Proof. by intros [? ? ?]. Qed.

Lemma unwrapped_init num_buckets pool_size m :
  init num_buckets pool_size empty_map = Ok m -> 0 <= pool_size -> unwrapped m.
Proof.
  intros Hi Hp. assert (Hun : forall i, unlinked i m) by (intros; by eapply init_no_chain).
  unfold init in Hi. inv_ok. constructor; cbn; [done|auto|].
  intros i e _. rewrite resize_nil. unfold zlookup. destruct (0 <=? i); [|done].
  by intros [-> _]%lookup_replicate.
Qed.

Lemma live_binding_after h tid out m m' h' t :
  wf m -> 0 <= tid -> next_entry_ m < 2 ^ 31 - 1 -> reusable h tid m -> insert h tid out m = Ok m' ->
  live_binding m' h' t -> t = tid \/ live_binding m h' t.
Proof.
  intros Hwf Ht Hn Hr Hi (Ht0 & i & e & He & Hv & Hh & Hp & Hl).
  destruct (insert_cells _ _ _ _ _ Hwf Ht Hn Hr Hi) as (_ & Hla & (en & Hen & _ & Hpn & _) & _ & Hnew).
  rewrite Hla in Hl. destruct (decide (i = next_cell m)) as [->|Hne]; [left; congruence|right].
  destruct (Hnew i e) as (e0 & He0 & Hsh & Hsp & Hsv); [done..|].
  rewrite Hv in Hsv. symmetry in Hsv. apply (proj1 (expire_valid _ _ _ _)) in Hsv as [Hv0 _].
  rewrite expire_handle in Hsh. rewrite expire_producer in Hsp.
  split; [done|]. exists i, e0. by rewrite <- Hsh, <- Hsp.
Qed.

(** Until the pool comes round, every insertion succeeds. *)
Lemma insert_unwrapped h tid out m :
  wf m -> unwrapped m -> 0 <= tid -> next_entry_ m < pool_size_ m ->
  exists m', insert h tid out m = Ok m' /\ wf m' /\ unwrapped m' /\
    next_entry_ m' = next_entry_ m + 1 /\ pool_size_ m' = pool_size_ m /\
    last_task_alive_ m' = last_task_alive_ m /\
    forall h' t, live_binding m' h' t -> t = tid \/ live_binding m h' t.
Proof.
  intros Hwf [Hn Hf Hv] Ht Hroom. pose proof (wf_size _ Hwf). pose proof (wf_next _ Hwf).
  assert (Hnc : next_cell m = next_entry_ m) by (unfold next_cell; apply Z.rem_small; lia).
  assert (Hr : reusable h tid m) by (right; rewrite Hnc; by apply Hf).
  destruct (insert_ok h tid out m Hwf Ht) as (m' & Hi & Hwf' & Hne & Hla & _ & Hps & _); [lia|done|].
  exists m'. split_and!; try done; [|intros h' t; eapply live_binding_after; try done; lia].
  set (f := expire h tid (last_task_alive_ m)).
  destruct (zlookup_is_Some (pool_ m) (next_cell m)) as [e He]; [rewrite (wf_pool _ Hwf); lia|].
  assert (Hve : valid e = false) by (apply (Hv (next_cell m)); [lia|done]).
  assert (Hfe : f e = e) by (subst f; unfold expire, stale; by rewrite Hve).
  destruct (zlookup_is_Some (buckets_ m) (hash h m)) as [head Hhead].
  { rewrite (wf_buckets _ Hwf). apply hash_range; apply Hwf. }
  assert (Hwf1 : wf (m <| pool_ := f <$> pool_ m |>)).
  { apply wf_relabel; [apply expire_next|apply expire_handle| |done].
    intros x Hx. by apply (proj1 (expire_valid _ _ _ _)) in Hx as [? _]. }
  assert (Hun1 : forall j, unlinked j m -> unlinked j (m <| pool_ := f <$> pool_ m |>)).
  { intros j Hj b l Hl. apply (Hj b). eapply bucket_chain_relabel; [|exact Hl]. apply expire_next. }
  destruct (insert_push h tid out m (m <| pool_ := f <$> pool_ m |>) head) as [thead Hi2]; try done; try lia.
  { unfold reclaim. rewrite (proj2 (vec_get_Ok _ _ e)) by (cbn; rewrite zlookup_fmap, He; simpl; by f_equal).
    bind_simpl. by rewrite Hve. }
  { apply (same_shape_relabel f). done. }
  rewrite Hi in Hi2. injection Hi2 as ->. constructor.
  - rewrite Hne, Hps. lia.
  - intros i Hi'. rewrite Hne in Hi'. apply pushed_unlinked;
      [done|apply Hun1, Hf; lia|cbn; lia|done|apply Hun1, Hf; lia|lia].
  - intros i e' Hi'. rewrite Hne in Hi'. cbn. rewrite zlookup_zinsert_ne, zlookup_fmap by lia.
    destruct (zlookup (pool_ m) i) as [e0|] eqn:He0; simpl; [|done]. intros [= <-].
    pose proof (Hv i e0 ltac:(lia) He0) as Hv0. unfold f, expire, stale. by rewrite Hv0.
Qed.

(** ** A chain that comes back to itself *)

Lemma lookup_loop_closed (P : Z -> Prop) m h fuel cur best :
  (forall i, P i -> exists e, zlookup (pool_ m) i = Some e /\ P (next_in_bucket e)) ->
  P cur -> lookup_loop fuel h cur best m = Fault OutOfFuel.
Proof.
  intros Hcl. revert cur best. induction fuel as [|fuel IH]; intros cur best Hc; [done|].
  destruct (Hcl cur Hc) as (e & He & Hn). cbn [lookup_loop].
  rewrite (proj2 (Z.leb_le 0 cur)) by (apply zlookup_Some_range in He; lia).
  unfold vec_get. rewrite He. bind_simpl. by apply IH.
Qed.

(** Up to a cell of the chain, links stay before or at that cell. *)
Lemma linked_prefix_closed pool head l1 idx l2 :
  linked pool head (l1 ++ idx :: l2) ->
  head ∈ l1 ++ [idx] /\
  forall i, i ∈ l1 -> exists e, zlookup pool i = Some e /\ next_in_bucket e ∈ l1 ++ [idx].
Proof.
  revert head. induction l1 as [|j l1 IH]; intros head; simpl.
  - intros (-> & _). split; [set_solver|]. intros i Hi. by apply not_elem_of_nil in Hi.
  - intros (-> & e & He & Hl). destruct (IH _ Hl) as [Hn Hcl]. split; [set_solver|].
    intros i [->|Hi]%elem_of_cons; [exists e; set_solver|].
    destruct (Hcl i Hi) as (e' & ? & ?). exists e'. set_solver.
Qed.

(** The next cell is still in the bucket of [handle], but holds no valid binding. *)
Definition dead_in_chain (handle : Z) (m : LinquTensorMap) : Prop :=
  exists l e, bucket_chain m (hash handle m) l /\ next_cell m ∈ l /\
    zlookup (pool_ m) (next_cell m) = Some e /\ valid e = false.

Lemma insert_dead_cell h tid out m :
  wf m -> 0 <= tid -> next_entry_ m < 2 ^ 31 - 1 -> dead_in_chain h m ->
  exists m', insert h tid out m = Ok m' /\
    zlookup (buckets_ m') (hash h m') = Some (next_cell m) /\
    forall fuel best, lookup_loop fuel h (next_cell m) best m' = Fault OutOfFuel.
Proof.
  intros Hwf Ht Hn (l & e & (hd & Hhd & Hl) & Hin & He & Hv).
  pose proof (zlookup_Some_range _ _ _ He) as Hi. pose proof (zlookup_Some_range _ _ _ Hhd) as Hb.
  set (f := expire h tid (last_task_alive_ m)).
  assert (Hfe : f e = e) by (subst f; unfold expire, stale; by rewrite Hv).
  destruct (insert_push h tid out m (m <| pool_ := f <$> pool_ m |>) hd) as [thead ->]; try done.
  { unfold reclaim. rewrite (proj2 (vec_get_Ok _ _ e)) by (cbn; rewrite zlookup_fmap, He; simpl; by f_equal).
    bind_simpl. by rewrite Hv. }
  { apply (same_shape_relabel f). done. }
  eexists. split; [reflexivity|]. rewrite (hash_num_buckets h _ m) by done. split.
  { cbn -[hash]. rewrite (hash_num_buckets h _ m) by done. by apply zlookup_zinsert_eq. }
  intros fuel best. apply list_elem_of_split in Hin as (l1 & l2 & ->).
  apply linked_prefix_closed in Hl as [Hhead Hcl].
  apply (lookup_loop_closed (fun i => i ∈ l1 ++ [next_cell m])); [|set_solver].
  intros i Hil. cbn. rewrite zlookup_zinsert by (by rewrite zlength_fmap).
  case_decide as Hd; [by eexists|]. destruct (Hcl i) as (e' & He' & Hn'); [set_solver|].
  exists (f e'). rewrite zlookup_fmap, He'. split; [done|]. subst f. by rewrite expire_next.
Qed.

(** A map that shows it: two writes of one tensor in a pool of two cells. *)
Definition two_writes : LinquTensorMap :=
  mkTensorMap [1] [mkEntry 7 0 (-1) (-1) false true; mkEntry 7 1 0 (-1) true true] [0; 1] 1 2 2 0.

Lemma two_writes_reached :
  (let! m := init 1 2 empty_map in let! m := insert 7 0 true m in insert 7 1 true m) = Ok two_writes.
Proof. vm_compute. reflexivity. Qed.

Lemma wf_two_writes : wf two_writes.
Proof.
  constructor; [reflexivity|simpl; lia|reflexivity|reflexivity|simpl; lia|reflexivity|simpl; lia| |].
  - intros b Hb. cbn in Hb. assert (b = 0) as -> by lia. exists [1; 0]. split_and!.
    + exists 1. vm_compute. split; [done|]. split; [done|]. eexists. split; [done|]. cbn. split; [done|].
      eexists. split; [done|]. done.
    + apply NoDup_cons. split; [set_solver|apply NoDup_singleton].
    + intros i e Hi He. assert (i = 0 \/ i = 1) as [-> | ->] by set_solver; vm_compute in He; by injection He as <-.
  - intros i e l He Hv (h & Hh & Hl). pose proof (zlookup_Some_range _ _ _ He) as Hi. change (0 <= i < 2) in Hi.
    assert (i = 0 \/ i = 1) as [-> | ->] by lia; vm_compute in He; injection He as <-; [done|].
    vm_compute in Hh. injection Hh as <-. destruct l; simpl in Hl; [lia|]. destruct Hl as (<- & _). set_solver.
Qed.

Lemma zlookup_const_map {A} (l : list A) i (x : Z) : zlookup (map (fun _ => -1) l) i = Some x -> x = -1.
Proof.
  change (map (fun _ => -1) l) with ((fun _ => -1) <$> l). rewrite zlookup_fmap.
  destruct (zlookup l i); simpl; congruence.
Qed.

(** [reset] forgets every binding: no tensor has a producer afterwards. *)
Lemma reset_lookup h m : wf m -> lookup h (reset m) = Ok (mkLookupResult (-1) false).
Proof.
  intros Hwf. unfold lookup. rewrite (hash_num_buckets h (reset m) m) by done.
  destruct (zlookup_is_Some (buckets_ (reset m)) (hash h m)) as [x Hx].
  { cbn. unfold zlength. rewrite length_map. fold (zlength (buckets_ m)). rewrite (wf_buckets _ Hwf).
    apply hash_range; apply Hwf. }
  unfold vec_get. rewrite Hx. apply zlookup_const_map in Hx as ->. done.
Qed.

(** But the cells keep their flags: the count of valid entries does not drop. *)
Lemma reset_keeps_valid_count m : last_task_alive_ m = 0 -> valid_count (reset m) = valid_count m.
Proof. unfold valid_count. cbn. by intros ->. Qed.

(** ** What the tensor map promises *)



(** Insert then look up: with a reusable cell, recording task [tid] as the
    producer of [h] succeeds and keeps the map well-formed; if no later task
    produces [h], the next lookup of [h] answers [tid]; and the answer for a
    tensor whose binding does not sit in the reused cell is unchanged. *)
Theorem tensormap_insert_lookup h tid out m :
  wf m -> 0 <= tid -> last_task_alive_ m <= tid -> next_entry_ m < 2 ^ 31 - 1 -> reusable h tid m ->
  (forall t, live_binding m h t -> t <= tid) ->
  exists m', insert h tid out m = Ok m' /\ wf m' /\ lookup h m' = Ok (mkLookupResult tid true) /\
    forall h', h' <> h ->
      (forall e, zlookup (pool_ m) (next_cell m) = Some e -> valid e = true -> tensor_handle e <> h') ->
      lookup h' m' = lookup h' m.
Proof.
  intros Hwf Ht Hla Hn Hr Hmax.
  destruct (insert_ok h tid out m Hwf Ht Hn Hr) as (m' & Hi & Hwf' & _). exists m'. split_and!; try done.
  - destruct (lookup_ok h m' Hwf') as (r & -> & Hnew). f_equal.
    destruct (live_binding_same h tid out m m') as [Hl Hothers]; [done..|].
    eapply newest_unique; [reflexivity|exact Hnew|]. split; [done|]. simpl.
    intros t [->|H%Hmax]%Hothers; [done|done].
  - intros h' Hne Hev. destruct (lookup_ok h' m' Hwf') as (r & -> & Hr').
    destruct (lookup_ok h' m Hwf) as (r0 & -> & Hr0). f_equal. symmetry.
    eapply newest_unique; [|exact Hr0|exact Hr']. by apply (live_binding_other h tid out m m').
Qed.

Lemma tensormap_insert_lookup_witness :
  exists m m', init 4 8 empty_map = Ok m /\ insert 7 0 true m = Ok m' /\
    lookup 7 m' = Ok (mkLookupResult 0 true).
Proof.
  destruct (init 4 8 empty_map) as [m|] eqn:Hm; [|discriminate Hm].
  destruct (tensormap_insert_lookup 7 0 true m) as (m' & Hi & _ & Hl & _).
  - by apply (wf_init_map 4 8 m Hm).
  - lia.
  - injection Hm as <-. simpl. lia.
  - injection Hm as <-. simpl. lia.
  - right. by eapply init_no_chain.
  - intros t Ht. by apply (init_no_binding 4 8 m) in Ht.
  - eauto.
Defined.

(** When the pool comes round to a cell that was superseded but is still
    linked in the bucket of the tensor being written, [insert] links the cell
    to itself through the bucket: every later [lookup] in that bucket walks the
    cycle for ever. Superseding a binding clears its [valid] flag, and the
    unlinking is guarded by that flag. *)
Theorem tensormap_reuse_makes_cycle h tid out m :
  wf m -> 0 <= tid -> next_entry_ m < 2 ^ 31 - 1 -> dead_in_chain h m ->
  exists m', insert h tid out m = Ok m' /\
    zlookup (buckets_ m') (hash h m') = Some (next_cell m) /\
    forall fuel best, lookup_loop fuel h (next_cell m) best m' = Fault OutOfFuel.
Proof. apply insert_dead_cell. Qed.

Lemma tensormap_reuse_makes_cycle_witness :
  exists m', insert 7 2 true two_writes = Ok m' /\ lookup 7 m' = Fault OutOfFuel.
Proof.
  destruct (tensormap_reuse_makes_cycle 7 2 true two_writes) as (m' & Hi & Hb & Hl).
  - apply wf_two_writes.
  - lia.
  - simpl. lia.
  - exists [1; 0]. eexists. split_and!; [|vm_compute; right; left|reflexivity|reflexivity].
    exists 1. vm_compute. split; [done|]. split; [done|]. eexists. split; [done|]. cbn. split; [done|].
    eexists. split; [done|]. done.
  - exists m'. split; [done|]. unfold lookup. rewrite (proj2 (vec_get_Ok _ _ _) Hb). bind_simpl. by rewrite Hl.
Defined.

