(* ===== verification/OrchestrationApi.v ===== *)
(** * The orchestration API and the dispatcher interface

    Models the data of [src/src/runtime/linqu_orchestration_api.h]
    (parameters, sub-task specifications) and of
    [src/src/runtime/linqu_dispatcher.h] (completion results), and the record
    of [src/src/runtime/mock_dispatcher.h].  A pointer that comes with a count
    is the list of the elements it points to; a [const char*] that may be null
    is an [option string].  [LinquCoordinate_C] has the fields and widths of
    [LinquCoordinate]; the field-by-field copies of the code are [coord_of_C]. *)

From S2P Require Import Prelude Coordinate.

Inductive LinquParamType := LINQU_PARAM_INPUT | LINQU_PARAM_OUTPUT | LINQU_PARAM_INOUT | LINQU_PARAM_SCALAR.

#[export] Instance param_type_eq_dec : EqDecision LinquParamType.
Proof. solve_decision. Defined.

(** The values the enumerators have on the wire. *)
Definition param_type_value (t : LinquParamType) : Z :=
  match t with
  | LINQU_PARAM_INPUT => 0 | LINQU_PARAM_OUTPUT => 1
  | LINQU_PARAM_INOUT => 2 | LINQU_PARAM_SCALAR => 3
  end.

Record LinquParam := mkParam {
  type : LinquParamType;
  handle : Z;
  scalar_value : Z;
}.

Definition linqu_make_input (h : Z) : LinquParam := mkParam LINQU_PARAM_INPUT h 0.
Definition linqu_make_output (h : Z) : LinquParam := mkParam LINQU_PARAM_OUTPUT h 0.
Definition linqu_make_inout (h : Z) : LinquParam := mkParam LINQU_PARAM_INOUT h 0.
Definition linqu_make_scalar (v : Z) : LinquParam := mkParam LINQU_PARAM_SCALAR 0 v.

(** The two tests the dependency loops make on a parameter. *)
Definition reads (p : LinquParam) : bool :=
  match type p with LINQU_PARAM_INPUT | LINQU_PARAM_INOUT => true | _ => false end.
Definition writes (p : LinquParam) : bool :=
  match type p with LINQU_PARAM_OUTPUT | LINQU_PARAM_INOUT => true | _ => false end.

Record LinquCoordinate_C := mkCoord_C {
  c_l6_idx : Z; c_l5_idx : Z; c_l4_idx : Z; c_l3_idx : Z; c_l2_idx : Z; c_l1_idx : Z; c_l0_idx : Z;
}.

Definition coord_of_C (c : LinquCoordinate_C) : LinquCoordinate :=
  mkCoord (c_l6_idx c) (c_l5_idx c) (c_l4_idx c) (c_l3_idx c) (c_l2_idx c) (c_l1_idx c) (c_l0_idx c).
Definition coord_to_C (c : LinquCoordinate) : LinquCoordinate_C :=
  mkCoord_C (l6_idx c) (l5_idx c) (l4_idx c) (l3_idx c) (l2_idx c) (l1_idx c) (l0_idx c).

(** [kernel_so] null means the group's kernel. *)
Record LinquSubTaskSpec := mkSubTaskSpec {
  target : LinquCoordinate_C;
  sub_kernel_so : option string;
  private_params : list LinquParam;
}.

Inductive TaskStatus := TASK_PENDING | TASK_RUNNING | TASK_COMPLETED | TASK_FAILED.

#[export] Instance task_status_eq_dec : EqDecision TaskStatus.
Proof. solve_decision. Defined.

Record DispatchResult := mkDispatchResult {
  result_task_id : Z;
  result_status : TaskStatus;
  error_code : Z;
}.

(** What a dispatcher was handed. *)
Record DispatchRecord := mkDispatchRecord {
  record_task_id : Z;
  record_target : LinquCoordinate;
  record_kernel_so : string;
  record_params : list LinquParam;
}.
