(* ===== verification/Dispatchers.v ===== *)
(** * The dispatchers: handing tasks to the level below

    Models [src/src/runtime/local_dispatcher.h], [local_dispatcher.cpp],
    [mock_dispatcher.h], [remote_dispatcher.h], [remote_dispatcher.cpp] and the base class of
    [linqu_dispatcher.h].  The completion callback is a function of the
    owner; the calls made to it are returned, in their order, as the list of
    their arguments.

    [RemoteDispatcher.dispatch] is also given in the pieces that other threads
    can run between: [begin_dispatch] and [fail_dispatch] are the two sections
    under [mu_], [complete] and [record_completion] what the receiving thread
    does with an answer, the second under [mu_]; [recv_thread_fn] is its loop. *)

From S2P Require Import Prelude Paths Bytes Coordinate LinquHeader MsgTypes OrchestrationApi.
From S2P Require Import UnixSocketTransport.

(** [notify_completion]: the calls of [completion_fn_]. *)
Definition notify_completion (completion_fn : bool) (r : DispatchResult) : list DispatchResult :=
  if completion_fn then [r] else [].

Module LocalDispatcher.
Record LocalDispatcher := mk {
  completion_fn_ : bool;
  dispatched_count_ : Z;
  outstanding_ : Z;
  stub_latency_us_ : Z;
}.

Definition new : LocalDispatcher := mk false 0 0 0.

#[global] Instance set_completion_fn_ : Setter completion_fn_ := fun f d =>
  mk (f (completion_fn_ d)) (dispatched_count_ d) (outstanding_ d) (stub_latency_us_ d).
#[global] Instance set_dispatched_count_ : Setter dispatched_count_ := fun f d =>
  mk (completion_fn_ d) (f (dispatched_count_ d)) (outstanding_ d) (stub_latency_us_ d).
#[global] Instance set_outstanding_ : Setter outstanding_ := fun f d =>
  mk (completion_fn_ d) (dispatched_count_ d) (f (outstanding_ d)) (stub_latency_us_ d).
#[global] Instance set_stub_latency_us_ : Setter stub_latency_us_ := fun f d =>
  mk (completion_fn_ d) (dispatched_count_ d) (outstanding_ d) (f (stub_latency_us_ d)).

Definition set_stub_latency_us (us : Z) (d : LocalDispatcher) : LocalDispatcher :=
  d <| stub_latency_us_ := us |>.

(** Atomic integers wrap.  The library that is opened and closed again does
    not matter to the caller. *)
Definition dispatch (task_id : Z) (d : LocalDispatcher)
    : bool * LocalDispatcher * list DispatchResult :=
  let d := d <| dispatched_count_ := i32 (dispatched_count_ d + 1) |> in
  let d := d <| outstanding_ := i32 (outstanding_ d + 1) |> in
  let d := d <| outstanding_ := i32 (outstanding_ d - 1) |> in
  (true, d, notify_completion (completion_fn_ d) (mkDispatchResult task_id TASK_COMPLETED 0)).

(** The loop of [wait_all] ends. *)
Definition wait_all_returns (d : LocalDispatcher) : bool := outstanding_ d <=? 0.
End LocalDispatcher.

Module MockDispatcher.
Record MockDispatchRecord := mkRecord {
  task_id : Z; target : LinquCoordinate; kernel_so : string; num_params : Z;
}.
Record MockDispatcher := mk { completion_fn_ : bool; records_ : list MockDispatchRecord }.

Definition new : MockDispatcher := mk false [].

Definition dispatch (tid : Z) (target : LinquCoordinate) (kernel_so : string) (params : list LinquParam)
    (d : MockDispatcher) : bool * MockDispatcher * list DispatchResult :=
  let d := mk (completion_fn_ d) (records_ d ++ [mkRecord tid target kernel_so (zlength params)]) in
  (true, d, notify_completion (completion_fn_ d) (mkDispatchResult tid TASK_COMPLETED 0)).

(** [wait_all] does nothing. *)
Definition wait_all_returns (d : MockDispatcher) : bool := true.
Definition records (d : MockDispatcher) : list MockDispatchRecord := records_ d.
Definition reset (d : MockDispatcher) : MockDispatcher := mk (completion_fn_ d) [].

(** Dispatching one task after the other: the records and the callbacks are
    those of the tasks, in order. *)
Fixpoint dispatch_all (ts : list (Z * LinquCoordinate * string * list LinquParam)) (d : MockDispatcher)
    : MockDispatcher * list DispatchResult :=
  match ts with
  | [] => (d, [])
  | (tid, target, so, params) :: ts =>
      let '(_, d, calls) := dispatch tid target so params d in
      let '(d, more) := dispatch_all ts d in (d, calls ++ more)
  end.

Lemma mock_records_in_order ts : forall d,
  completion_fn_ d = true ->
  records (dispatch_all ts d).1 =
    records d ++ ((fun '(tid, target, so, params) => mkRecord tid target so (zlength params)) <$> ts) /\
  (dispatch_all ts d).2 = (fun '(tid, _, _, _) => mkDispatchResult tid TASK_COMPLETED 0) <$> ts.
Proof.
  induction ts as [|[[[tid target] so] params] ts IH]; intros d Hd; [by rewrite app_nil_r|].
  cbn [dispatch_all dispatch]. destruct (dispatch_all ts _) as [d' more] eqn:E.
  destruct (IH (mk (completion_fn_ d) (records_ d ++ [mkRecord tid target so (zlength params)])) Hd) as [H1 H2].
  rewrite E in H1, H2. cbn [fst snd] in *. split.
  - rewrite H1. unfold records. cbn [records_]. by rewrite <- app_assoc.
  - cbn [completion_fn_]. rewrite Hd, H2. done.
Qed.
End MockDispatcher.

Module RemoteDispatcher.
Record RemoteDispatcher := mk {
  completion_fn_ : bool;
  transport_ : UnixSocketTransport;
  self_coord_ : LinquCoordinate;
  self_level_ : Z;
  running_ : bool;
  pending_ : gmap Z TaskStatus;
  outstanding_ : Z;
}.

#[global] Instance set_completion_fn_ : Setter completion_fn_ := fun f d =>
  mk (f (completion_fn_ d)) (transport_ d) (self_coord_ d) (self_level_ d) (running_ d)
    (pending_ d) (outstanding_ d).
#[global] Instance set_running_ : Setter running_ := fun f d =>
  mk (completion_fn_ d) (transport_ d) (self_coord_ d) (self_level_ d) (f (running_ d))
    (pending_ d) (outstanding_ d).
#[global] Instance set_pending_ : Setter pending_ := fun f d =>
  mk (completion_fn_ d) (transport_ d) (self_coord_ d) (self_level_ d) (running_ d)
    (f (pending_ d)) (outstanding_ d).
#[global] Instance set_outstanding_ : Setter outstanding_ := fun f d =>
  mk (completion_fn_ d) (transport_ d) (self_coord_ d) (self_level_ d) (running_ d)
    (pending_ d) (f (outstanding_ d)).

Definition new (transport : UnixSocketTransport) (self_coord : LinquCoordinate) (self_level : Z)
    : RemoteDispatcher :=
  mk false transport self_coord self_level false ∅ 0.

(** ** Dispatching *)
Definition param_entry (p : LinquParam) : CallTaskPayload.ParamEntry :=
  CallTaskPayload.mkEntry (param_type_value (type p)) (handle p) (scalar_value p).

Definition call_payload (task_id : Z) (kernel_so : string) (params : list LinquParam)
    : CallTaskPayload.CallTaskPayload :=
  CallTaskPayload.mk (bytes_of_string kernel_so) (u32 task_id) 0 (u32 (zlength params))
    (param_entry <$> params).

Definition call_header (d : RemoteDispatcher) (target : LinquCoordinate) (buf : list Z) : LinquHeader :=
  make CALL_TASK (self_level_ d) (self_coord_ d) target (u32 (zlength buf)).

Definition begin_dispatch (task_id : Z) (d : RemoteDispatcher) : outcome RemoteDispatcher :=
  let! n := i32_add (outstanding_ d) 1 in
  Ok (d <| pending_ := <[task_id := TASK_PENDING]> (pending_ d) |> <| outstanding_ := n |>).

Definition fail_dispatch (task_id : Z) (d : RemoteDispatcher)
    : outcome (RemoteDispatcher * list DispatchResult) :=
  let! n := i32_sub (outstanding_ d) 1 in
  let d := d <| pending_ := <[task_id := TASK_FAILED]> (pending_ d) |> <| outstanding_ := n |> in
  Ok (d, notify_completion (completion_fn_ d) (mkDispatchResult task_id TASK_FAILED (-1))).

Definition dispatch (task_id : Z) (target : LinquCoordinate) (kernel_so : string)
    (params : list LinquParam) (out : outgoing) (d : RemoteDispatcher)
    : outcome (option bool * RemoteDispatcher * list DispatchResult * option connection) :=
  let! buf := CallTaskPayload.serialize (call_payload task_id kernel_so params) in
  let hdr := call_header d target buf in
  let! d := begin_dispatch task_id d in
  let! (ok, conn) := send (transport_ d) target hdr buf out in
  match ok with
  | Some false =>
      let! (d, calls) := fail_dispatch task_id d in Ok (ok, d, calls, conn)
  | _ => Ok (ok, d, [], conn)
  end.

(** The condition that [wait_all] waits for. *)
Definition wait_all_returns (d : RemoteDispatcher) : bool := outstanding_ d <=? 0.

(** ** The receiving thread *)
Definition start_recv_loop (d : RemoteDispatcher) : RemoteDispatcher :=
  if running_ d then d else d <| running_ := true |>.
Definition stop_recv_loop (d : RemoteDispatcher) : RemoteDispatcher := d <| running_ := false |>.

Definition complete (payload : list Z) : outcome DispatchResult :=
  let! comp := TaskCompletePayload.deserialize payload (zlength payload) in
  let tid := i32 (TaskCompletePayload.task_id comp) in
  let st := if TaskCompletePayload.status comp =? 0 then TASK_COMPLETED else TASK_FAILED in
  Ok (mkDispatchResult tid st (TaskCompletePayload.status comp)).

Definition record_completion (r : DispatchResult) (d : RemoteDispatcher) : outcome RemoteDispatcher :=
  let! n := i32_sub (outstanding_ d) 1 in
  Ok (d <| pending_ := <[result_task_id r := result_status r]> (pending_ d) |>
        <| outstanding_ := n |>).

(** One iteration of [recv_thread_fn]. *)
Definition recv_iteration (inc : incoming) (d : RemoteDispatcher)
    : outcome (RemoteDispatcher * list DispatchResult) :=
  let! (ok, hdr, payload) := recv (transport_ d) inc (mkHeader 0 0 0 0 0 0 0 0 0 0 0 0 0 0 0 0 0 0) [] in
  match ok with
  | Some true =>
      if msg_type hdr =? TASK_COMPLETE then
        let! r := complete payload in
        let calls := notify_completion (completion_fn_ d) r in
        let! d := record_completion r d in
        Ok (d, calls)
      else Ok (d, [])
  | _ => Ok (d, [])
  end.

(** [recv_thread_fn]: for each turn of the loop, whether [stop_recv_loop] was
    called before the test of [running_], and what [recv] meets.  The first
    component says whether the thread has ended. *)
Fixpoint recv_thread_fn (turns : list (bool * incoming)) (d : RemoteDispatcher)
    : outcome (bool * RemoteDispatcher * list DispatchResult) :=
  match turns with
  | [] => Ok (false, d, [])
  | (stopped, inc) :: turns =>
      let d := if stopped : bool then stop_recv_loop d else d in
      if negb (running_ d) then Ok (true, d, []) else
      let! (d, calls) := recv_iteration inc d in
      let! (ended, d, more) := recv_thread_fn turns d in
      Ok (ended, d, calls ++ more)
  end.
End RemoteDispatcher.

(** ** What a call looks like on the wire *)

Lemma bytes_of_string_ok s : bytes_ok (bytes_of_string s).
Proof.
  induction s as [|c s IH]; [constructor|]. constructor; [|exact IH].
  pose proof (Ascii.nat_ascii_bounded c). unfold in_u8. lia.
Qed.

Lemma zlength_bytes_of_string s : zlength (bytes_of_string s) = str_size s.
Proof.
  unfold str_size. induction s as [|c s IH]; [done|]. simpl. rewrite zlength_cons, IH. lia.
Qed.

Definition param_ok (p : LinquParam) : Prop := in_u64 (handle p) /\ in_u64 (scalar_value p).

(** The call fits the 32-bit size of a message. *)
Definition call_fits (kernel_so : string) (params : list LinquParam) : Prop :=
  18 + str_size kernel_so + 17 * zlength params < 2 ^ 32.

Lemma call_payload_wf task_id kernel_so params :
  call_fits kernel_so params -> Forall param_ok params ->
  CallTaskPayload.wf (RemoteDispatcher.call_payload task_id kernel_so params).
Proof.
  intros Hf Hp. unfold call_fits in Hf. pose proof (zlength_ge_0 params) as Hl.
  pose proof (zlength_ge_0 (bytes_of_string kernel_so)) as Hn. rewrite zlength_bytes_of_string in Hn.
  unfold CallTaskPayload.wf, RemoteDispatcher.call_payload. simpl.
  rewrite zlength_fmap, zlength_bytes_of_string.
  split_and!; [apply bytes_of_string_ok|apply u32_range|unfold_ints; lia|
    apply u32_id; unfold_ints; lia| |lia].
  rewrite Forall_fmap. eapply Forall_impl; [exact Hp|]. intros [t h v] [Hh Hv].
  unfold CallTaskPayload.entry_ok. simpl in *. split_and!; [|done|done].
  destruct t; unfold_ints; simpl; lia.
Qed.
