(* ===== verification/RingMetrics.v ===== *)
(** * Ring metrics, snapshots and the profile report

    Models [src/src/profiling/ring_metrics.h] and [ring_metrics.cpp].  The
    fields carry the prefixes [m_], [s_] and [r_] of their records.  [now_us]
    reads the clock and is a parameter of the operations that use it. *)

From S2P Require Import Prelude Coordinate.

Record RingMetrics := mkRingMetrics {
  m_level : Z;
  m_depth : Z;
  m_task_ring_capacity : Z;
  m_task_ring_peak_used : Z;
  m_task_alloc_count : Z;
  m_task_retire_count : Z;
  m_task_block_count : Z;
  m_buffer_ring_capacity : Z;
  m_buffer_ring_peak_used : Z;
  m_buffer_alloc_count : Z;
  m_buffer_alloc_bytes : Z;
  m_buffer_retire_bytes : Z;
  m_scope_begin_count : Z;
  m_scope_end_count : Z;
  m_free_tensor_count : Z;
}.

Record RingSnapshot := mkRingSnapshot {
  s_level : Z;
  s_depth : Z;
  s_label : string;
  s_timestamp_us : Z;
  s_task_capacity : Z;
  s_task_used : Z;
  s_task_head : Z;
  s_task_tail : Z;
  s_buffer_capacity : Z;
  s_buffer_used : Z;
  s_buffer_head : Z;
  s_buffer_tail : Z;
  s_alloc_count : Z;
  s_retire_count : Z;
  s_free_count : Z;
}.

Record ProfileReport := mkProfileReport {
  r_node_id : string;
  r_level : Z;
  r_metrics : list RingMetrics;
  r_snapshots : list RingSnapshot;
}.

Definition level_label (lv : Z) : string :=
  match lv with
  | 0 => "CORE" | 1 => "CHIP_DIE" | 2 => "CHIP" | 3 => "HOST"
  | 4 => "POD" | 5 => "CLOS1" | 6 => "CLOS2" | _ => "UNKNOWN"
  end.

(** The characters [\n] and the double quote. *)
Definition nl : string := String (Ascii.ascii_of_nat 10) EmptyString.
Definition dq : string := String (Ascii.ascii_of_nat 34) EmptyString.

(** ["name": value] lines, with the text after the value. *)
Definition json_num (name : string) (v : Z) (sep : string) : string :=
  "      " +:+ dq +:+ name +:+ dq +:+ ": " +:+ std_to_string v +:+ sep +:+ nl.
Definition json_str (indent name v sep : string) : string :=
  indent +:+ dq +:+ name +:+ dq +:+ ": " +:+ dq +:+ v +:+ dq +:+ sep +:+ nl.

Definition metrics_json (m : RingMetrics) : string :=
  "    {" +:+ nl +:+
  json_str "      " "level" (level_label (m_level m)) "," +:+
  json_num "depth" (m_depth m) "," +:+
  json_num "task_ring_capacity" (m_task_ring_capacity m) "," +:+
  json_num "task_ring_peak_used" (m_task_ring_peak_used m) "," +:+
  json_num "task_alloc_count" (m_task_alloc_count m) "," +:+
  json_num "task_retire_count" (m_task_retire_count m) "," +:+
  json_num "task_block_count" (m_task_block_count m) "," +:+
  json_num "buffer_ring_capacity" (m_buffer_ring_capacity m) "," +:+
  json_num "buffer_ring_peak_used" (m_buffer_ring_peak_used m) "," +:+
  json_num "buffer_alloc_count" (m_buffer_alloc_count m) "," +:+
  json_num "buffer_alloc_bytes" (m_buffer_alloc_bytes m) "," +:+
  json_num "buffer_retire_bytes" (m_buffer_retire_bytes m) "," +:+
  json_num "scope_begin_count" (m_scope_begin_count m) "," +:+
  json_num "scope_end_count" (m_scope_end_count m) "," +:+
  json_num "free_tensor_count" (m_free_tensor_count m) "" +:+
  "    }".

Definition snapshot_json (s : RingSnapshot) : string :=
  "    {" +:+ nl +:+
  json_str "      " "label" (s_label s) "," +:+
  json_str "      " "level" (level_label (s_level s)) "," +:+
  json_num "depth" (s_depth s) "," +:+
  json_num "timestamp_us" (s_timestamp_us s) "," +:+
  json_num "task_capacity" (s_task_capacity s) "," +:+
  json_num "task_used" (s_task_used s) "," +:+
  json_num "buffer_capacity" (s_buffer_capacity s) "," +:+
  json_num "buffer_used" (s_buffer_used s) "," +:+
  json_num "alloc_count" (s_alloc_count s) "," +:+
  json_num "retire_count" (s_retire_count s) "," +:+
  json_num "free_count" (s_free_count s) "" +:+
  "    }".

(** Every element on its own lines, a comma after all but the last. *)
Fixpoint json_array {A} (show : A -> string) (l : list A) : string :=
  match l with
  | [] => ""
  | [x] => show x +:+ nl
  | x :: l' => show x +:+ "," +:+ nl +:+ json_array show l'
  end.

Definition to_json (r : ProfileReport) : string :=
  "{" +:+ nl +:+
  json_str "  " "node_id" (r_node_id r) "," +:+
  json_str "  " "level" (level_label (r_level r)) "," +:+
  "  " +:+ dq +:+ "metrics" +:+ dq +:+ ": [" +:+ nl +:+
  json_array metrics_json (r_metrics r) +:+
  "  ]," +:+ nl +:+
  "  " +:+ dq +:+ "snapshots" +:+ dq +:+ ": [" +:+ nl +:+
  json_array snapshot_json (r_snapshots r) +:+
  "  ]" +:+ nl +:+
  "}" +:+ nl.
