(* ===== verification/Json.v ===== *)
(** * JSON texts, and the profile report as one

    What it means that a text is JSON (RFC 8259): the relation [json_text]
    between values and texts, with every form of the standard.  The writers of
    the program ([profiling/ring_metrics.cpp], [profiling/trace_writer.cpp],
    [daemon/node_daemon.cpp], [daemon/orchestrator_main.cpp]) put their texts
    together from pieces; this relation is what they are held to.  The texts
    of the profile report and of the file a daemon writes are treated here. *)

From S2P Require Import Prelude Coordinate Paths RingMetrics.

Inductive json :=
  | JNum (z : Z)
  | JReal (text : string)
  | JLit (name : string)
  | JStr (s : string)
  | JArr (l : list json)
  | JObj (members : list (string * json)).

(** ** Characters *)
Definition code (c : ascii) : Z := Z.of_nat (nat_of_ascii c).
Definition ws_char (c : ascii) : bool :=
  (code c =? 32) || (code c =? 9) || (code c =? 10) || (code c =? 13).
(** A character that stands for itself in a string. *)
Definition plain_char (c : ascii) : bool := (32 <=? code c) && negb (code c =? 34) && negb (code c =? 92).
Fixpoint all_chars (p : ascii -> bool) (s : string) : bool :=
  match s with EmptyString => true | String c s => p c && all_chars p s end.
Definition backslash : ascii := ascii_of_nat 92.
Definition hex_char (c : ascii) : bool :=
  let n := code c in
  (48 <=? n) && (n <=? 57) || (65 <=? n) && (n <=? 70) || (97 <=? n) && (n <=? 102).

(** The letter of an escape and the character it stands for. *)
Definition escape_letter (e : ascii) : option ascii :=
  if code e =? 34 then Some e else if code e =? 92 then Some e else if code e =? 47 then Some e else
  if code e =? 98 then Some (ascii_of_nat 8) else if code e =? 102 then Some (ascii_of_nat 12) else
  if code e =? 110 then Some (ascii_of_nat 10) else if code e =? 114 then Some (ascii_of_nat 13) else
  if code e =? 116 then Some (ascii_of_nat 9) else None.

(** ** The grammar

    [json_chars s t]: between quotes, the text [t] stands for the string [s].
    What a [\u] escape stands for is left open: no writer makes one. *)
Inductive json_chars : string -> string -> Prop :=
  | chars_nil : json_chars "" ""
  | chars_plain c s t : plain_char c = true -> json_chars s t -> json_chars (String c s) (String c t)
  | chars_escape e c s t :
      escape_letter e = Some c -> json_chars s t -> json_chars (String c s) (String backslash (String e t))
  | chars_unicode a b c d u s t :
      hex_char a && hex_char b && hex_char c && hex_char d = true -> json_chars s t ->
      json_chars (u +:+ s) (String backslash (String "u" (String a (String b (String c (String d t)))))).

(** A number that is not an integer: its fraction and exponent. *)
Definition digits (s : string) : bool := negb (String.eqb s "") && all_digits s.
Definition leading_zero (s : string) : bool :=
  match s with String "0" (String _ _) => true | _ => false end.
Inductive real_text : string -> Prop :=
  | real_intro sign int frac exp :
      (sign = "" \/ sign = "-") -> digits int = true -> leading_zero int = false ->
      (frac = "" \/ exists d, frac = "." +:+ d /\ digits d = true) ->
      (exp = "" \/ exists e sg d, exp = e +:+ sg +:+ d /\ (e = "e" \/ e = "E") /\
         (sg = "" \/ sg = "+" \/ sg = "-") /\ digits d = true) ->
      real_text (sign +:+ int +:+ frac +:+ exp).

Definition show_int (z : Z) : string :=
  if z <? 0 then "-" +:+ std_to_string (- z) else std_to_string z.

Definition quoted (t : string) : string := dq +:+ t +:+ dq.

Inductive json_text : json -> string -> Prop :=
  | text_num z : json_text (JNum z) (show_int z)
  | text_real t : real_text t -> json_text (JReal t) t
  | text_lit t : (t = "true" \/ t = "false" \/ t = "null") -> json_text (JLit t) t
  | text_str s t : json_chars s t -> json_text (JStr s) (quoted t)
  | text_arr_nil w : all_chars ws_char w = true -> json_text (JArr []) ("[" +:+ w +:+ "]")
  | text_arr l t : json_items l t -> json_text (JArr l) ("[" +:+ t +:+ "]")
  | text_obj_nil w : all_chars ws_char w = true -> json_text (JObj []) ("{" +:+ w +:+ "}")
  | text_obj l t : json_members l t -> json_text (JObj l) ("{" +:+ t +:+ "}")
  | text_ws v w1 t w2 :
      all_chars ws_char w1 = true -> json_text v t -> all_chars ws_char w2 = true -> json_text v (w1 +:+ t +:+ w2)
with json_items : list json -> string -> Prop :=
  | items_one v t : json_text v t -> json_items [v] t
  | items_cons v t l u : json_text v t -> json_items l u -> json_items (v :: l) (t +:+ "," +:+ u)
with json_members : list (string * json) -> string -> Prop :=
  | members_one k t v u : json_text (JStr k) t -> json_text v u -> json_members [(k, v)] (t +:+ ":" +:+ u)
  | members_cons k t v u l m :
      json_text (JStr k) t -> json_text v u -> json_members l m ->
      json_members ((k, v) :: l) (t +:+ ":" +:+ u +:+ "," +:+ m).

Scheme json_text_min := Minimality for json_text Sort Prop
  with json_items_min := Minimality for json_items Sort Prop
  with json_members_min := Minimality for json_members Sort Prop.
Combined Scheme json_mutind from json_text_min, json_items_min, json_members_min.

(** ** What no JSON text contains *)
Definition text_char (c : ascii) : bool := (32 <=? code c) || ws_char c.

Lemma all_chars_app p a b : all_chars p (a +:+ b) = all_chars p a && all_chars p b.
Proof.
  induction a as [|c a IH]; [done|]. change (String c a +:+ b) with (String c (a +:+ b)). cbn [all_chars].
  by rewrite IH, andb_assoc.
Qed.

Lemma all_chars_mono (p q : ascii -> bool) s :
  (forall c, p c = true -> q c = true) -> all_chars p s = true -> all_chars q s = true.
Proof.
  intros Hpq. induction s as [|c s IH]; [done|]. cbn. rewrite !andb_true_iff. intros [Hc Hs]. auto.
Qed.

Lemma code_range c : 0 <= code c < 256.
Proof. unfold code. pose proof (nat_ascii_bounded c). lia. Qed.

Lemma ws_text c : ws_char c = true -> text_char c = true.
Proof. unfold text_char. intros ->. apply orb_true_r. Qed.

Lemma digits_text s : all_digits s = true -> all_chars text_char s = true.
Proof.
  induction s as [|c s IH]; [done|]. cbn [all_digits all_chars]. rewrite !andb_true_iff. intros [Hc Hs]. split; [|auto].
  unfold is_digit in Hc. unfold text_char, code. apply orb_true_iff. left. lia.
Qed.

Lemma show_int_text z : all_chars text_char (show_int z) = true.
Proof.
  unfold show_int. destruct (z <? 0); [change (all_chars text_char (std_to_string (- z)) = true)|];
    apply digits_text, all_digits_std_to_string.
Qed.

Lemma chars_text s t : json_chars s t -> all_chars text_char t = true.
Proof.
  induction 1 as [|c s t Hc _ IH|e c s t He _ IH|a b c d u s t Hh _ IH]; cbn [all_chars]; [done|..].
  - rewrite IH, andb_true_r. unfold plain_char in Hc. unfold text_char. apply orb_true_iff. left. lia.
  - rewrite IH, andb_true_r. change (text_char e = true). unfold escape_letter in He. unfold text_char.
    apply orb_true_iff. left. repeat (case_match; [lia|]). done.
  - rewrite IH. apply andb_true_iff in Hh as [Hh Hd]. apply andb_true_iff in Hh as [Hh Hc].
    apply andb_true_iff in Hh as [Ha Hb].
    change (text_char a && (text_char b && (text_char c && (text_char d && true))) = true).
    unfold hex_char, text_char in *. rewrite !andb_true_iff, !orb_true_iff. lia.
Qed.

Lemma real_chars t : real_text t -> all_chars text_char t = true.
Proof.
  assert (Hd : forall d, digits d = true -> all_chars text_char d = true)
    by (intros d [_ H]%andb_true_iff; by apply digits_text).
  intros [sign int frac exp Hs Hi _ Hf He]. rewrite !all_chars_app, !andb_true_iff. split_and!.
  - by destruct Hs as [-> | ->].
  - by apply Hd.
  - destruct Hf as [->|(d & -> & H)]; [done|]. rewrite all_chars_app. cbn. by apply Hd.
  - destruct He as [->|(e & sg & d & -> & H1 & H2 & H3)]; [done|]. rewrite !all_chars_app, !andb_true_iff.
    split_and!; [by destruct H1 as [-> | ->]|by destruct H2 as [->|[-> | ->]]|by apply Hd].
Qed.

(** Every character of a JSON text is a printable one (of ASCII or above) or
    one of space, tab, line feed and carriage return. *)
Lemma json_text_chars v t : json_text v t -> all_chars text_char t = true.
Proof.
  assert (H : (forall v t, json_text v t -> all_chars text_char t = true) /\
              (forall l t, json_items l t -> all_chars text_char t = true) /\
              (forall l t, json_members l t -> all_chars text_char t = true)); [|apply H].
  apply json_mutind; intros; unfold quoted; rewrite ?all_chars_app, ?andb_true_iff; split_and?;
    eauto using show_int_text, chars_text, real_chars, all_chars_mono, ws_text.
  by destruct H as [->|[-> | ->]].
Qed.

(** ** Putting texts together *)
Definition plain (s : string) : bool := all_chars plain_char s.

Lemma plain_chars s : plain s = true -> json_chars s s.
Proof.
  unfold plain. induction s as [|c s IH]; [constructor|]. cbn. rewrite andb_true_iff. intros [Hc Hs].
  constructor; auto.
Qed.

Lemma text_plain s : plain s = true -> json_text (JStr s) (quoted s).
Proof. intros H. by apply text_str, plain_chars. Qed.

Lemma text_nat z : 0 <= z -> json_text (JNum z) (std_to_string z).
Proof. intros Hz. pose proof (text_num z) as H. unfold show_int in H. by rewrite (proj2 (Z.ltb_ge z 0)) in H. Qed.

Lemma text_before w v t : all_chars ws_char w = true -> json_text v t -> json_text v (w +:+ t).
Proof. intros Hw Ht. rewrite <- (sapp_nil_r t). by apply text_ws. Qed.
Lemma text_after w v t : all_chars ws_char w = true -> json_text v t -> json_text v (t +:+ w).
Proof. intros Hw Ht. exact (text_ws v "" t w eq_refl Ht Hw). Qed.

(** White space before the first member, and after the last item or member. *)
Lemma members_before w l t : all_chars ws_char w = true -> json_members l t -> json_members l (w +:+ t).
Proof.
  intros Hw H. destruct H; rewrite sapp_assoc; constructor; auto using text_before.
Qed.
Lemma members_after w l t : all_chars ws_char w = true -> json_members l t -> json_members l (t +:+ w).
Proof.
  intros Hw. induction 1 as [k t v u Hk Hv|k t v u l m Hk Hv _ IH].
  - rewrite <- !sapp_assoc. constructor; auto using text_after.
  - rewrite <- !sapp_assoc. constructor; auto.
Qed.
Lemma items_before w l t : all_chars ws_char w = true -> json_items l t -> json_items l (w +:+ t).
Proof. intros Hw [v u H|v u l' x H H']; [|rewrite sapp_assoc]; constructor; auto using text_before. Qed.
Lemma items_after w l t : all_chars ws_char w = true -> json_items l t -> json_items l (t +:+ w).
Proof.
  intros Hw. induction 1 as [v u H|v u l' x H H' IH].
  - constructor. by apply text_after.
  - rewrite <- !sapp_assoc. by constructor.
Qed.

(** A line ["name": value,] followed by the other members, and the last one. *)
Lemma member_line ind k v tv sep l rest :
  all_chars ws_char ind = true -> plain k = true -> json_text v tv -> json_members l rest ->
  all_chars ws_char sep = true ->
  json_members ((k, v) :: l) (ind +:+ quoted k +:+ ": " +:+ tv +:+ "," +:+ sep +:+ rest).
Proof.
  intros Hi Hk Hv Hl Hs.
  replace (ind +:+ quoted k +:+ ": " +:+ tv +:+ "," +:+ sep +:+ rest)
    with ((ind +:+ quoted k) +:+ ":" +:+ (" " +:+ tv) +:+ "," +:+ (sep +:+ rest)) by (by rewrite <- !sapp_assoc).
  constructor; [by apply text_before, text_plain|by apply text_before|by apply members_before].
Qed.
Lemma member_last ind k v tv sep :
  all_chars ws_char ind = true -> plain k = true -> json_text v tv -> all_chars ws_char sep = true ->
  json_members [(k, v)] (ind +:+ quoted k +:+ ": " +:+ tv +:+ sep).
Proof.
  intros Hi Hk Hv Hs.
  replace (ind +:+ quoted k +:+ ": " +:+ tv +:+ sep)
    with ((ind +:+ quoted k) +:+ ":" +:+ (" " +:+ (tv +:+ sep))) by (by rewrite <- !sapp_assoc).
  constructor; [by apply text_before, text_plain|by apply text_before, text_after].
Qed.

(** ** The profile report *)
Definition nums (l : list (string * Z)) : list (string * json) := prod_map id JNum <$> l.

Definition metrics_nums (m : RingMetrics) : list (string * Z) :=
  [("depth", m_depth m); ("task_ring_capacity", m_task_ring_capacity m);
   ("task_ring_peak_used", m_task_ring_peak_used m); ("task_alloc_count", m_task_alloc_count m);
   ("task_retire_count", m_task_retire_count m); ("task_block_count", m_task_block_count m);
   ("buffer_ring_capacity", m_buffer_ring_capacity m); ("buffer_ring_peak_used", m_buffer_ring_peak_used m);
   ("buffer_alloc_count", m_buffer_alloc_count m); ("buffer_alloc_bytes", m_buffer_alloc_bytes m);
   ("buffer_retire_bytes", m_buffer_retire_bytes m); ("scope_begin_count", m_scope_begin_count m);
   ("scope_end_count", m_scope_end_count m); ("free_tensor_count", m_free_tensor_count m)].
Definition snapshot_nums (s : RingSnapshot) : list (string * Z) :=
  [("depth", s_depth s); ("timestamp_us", s_timestamp_us s); ("task_capacity", s_task_capacity s);
   ("task_used", s_task_used s); ("buffer_capacity", s_buffer_capacity s); ("buffer_used", s_buffer_used s);
   ("alloc_count", s_alloc_count s); ("retire_count", s_retire_count s); ("free_count", s_free_count s)].

Definition metrics_value (m : RingMetrics) : json :=
  JObj (("level", JStr (level_label (m_level m))) :: nums (metrics_nums m)).
Definition snapshot_value (s : RingSnapshot) : json :=
  JObj (("label", JStr (s_label s)) :: ("level", JStr (level_label (s_level s))) :: nums (snapshot_nums s)).
Definition report_value (r : ProfileReport) : json :=
  JObj [("node_id", JStr (r_node_id r)); ("level", JStr (level_label (r_level r)));
        ("metrics", JArr (metrics_value <$> r_metrics r)); ("snapshots", JArr (snapshot_value <$> r_snapshots r))].

(** The numbers are unsigned, and the strings need no escape. *)
Definition unsigned_nums (l : list (string * Z)) : bool := forallb (fun '(k, v) => plain k && (0 <=? v)) l.
Definition report_ok (r : ProfileReport) : bool :=
  plain (r_node_id r) && forallb (fun m => unsigned_nums (metrics_nums m)) (r_metrics r) &&
  forallb (fun s => plain (s_label s) && unsigned_nums (snapshot_nums s)) (r_snapshots r).

(** [json_num] lines, a comma after all but the last. *)
Fixpoint num_lines (l : list (string * Z)) : string :=
  match l with
  | [] => ""
  | [(k, v)] => json_num k v ""
  | (k, v) :: l => json_num k v "," +:+ num_lines l
  end.

Lemma nl_ws : all_chars ws_char nl = true.
Proof. reflexivity. Qed.

Lemma num_lines_members l w :
  l <> [] -> unsigned_nums l = true -> all_chars ws_char w = true -> json_members (nums l) (num_lines l +:+ w).
Proof.
  intros Hne Hl Hw. induction l as [|[k v] l IH]; [done|]. cbn [unsigned_nums forallb] in Hl.
  apply andb_true_iff in Hl as [[Hk Hv]%andb_true_iff Hl]. apply Z.leb_le in Hv.
  destruct l as [|p l].
  - replace (num_lines [(k, v)] +:+ w) with ("      " +:+ quoted k +:+ ": " +:+ std_to_string v +:+ (nl +:+ w))
      by (cbn [num_lines]; unfold json_num, quoted; rewrite <- !sapp_assoc; reflexivity).
    apply member_last; [done|done|by apply text_nat|]. by rewrite all_chars_app, nl_ws.
  - replace (num_lines ((k, v) :: p :: l) +:+ w)
      with ("      " +:+ quoted k +:+ ": " +:+ std_to_string v +:+ "," +:+ nl +:+ (num_lines (p :: l) +:+ w))
      by (cbn [num_lines]; unfold json_num, quoted; rewrite <- !sapp_assoc; reflexivity).
    apply member_line; [done|done|by apply text_nat| |done]. by apply IH.
Qed.

Lemma label_plain lv : plain (level_label lv) = true.
Proof. unfold level_label. by repeat case_match. Qed.

(** A [json_str] line followed by other members. *)
Lemma str_line ind k s l rest :
  all_chars ws_char ind = true -> plain k = true -> plain s = true -> json_members l rest ->
  json_members ((k, JStr s) :: l) (json_str ind k s "," +:+ rest).
Proof.
  intros Hi Hk Hs Hl.
  replace (json_str ind k s "," +:+ rest)
    with (ind +:+ quoted k +:+ ": " +:+ quoted s +:+ "," +:+ nl +:+ rest)
    by (unfold json_str, quoted; rewrite <- !sapp_assoc; reflexivity).
  by apply member_line; [..|apply text_plain| |].
Qed.

Lemma obj_text w l t : all_chars ws_char w = true -> json_members l t -> json_text (JObj l) (w +:+ "{" +:+ t +:+ "}").
Proof. intros Hw Ht. apply text_before; [done|by constructor]. Qed.

Lemma metrics_text m : unsigned_nums (metrics_nums m) = true -> json_text (metrics_value m) (metrics_json m).
Proof.
  intros Hm.
  replace (metrics_json m) with ("    " +:+ "{" +:+
      (nl +:+ json_str "      " "level" (level_label (m_level m)) "," +:+ (num_lines (metrics_nums m) +:+ "    ")) +:+ "}")
    by (unfold metrics_json, metrics_nums; cbn [num_lines]; rewrite <- !sapp_assoc; reflexivity).
  apply obj_text; [done|]. apply members_before; [done|].
  apply str_line; [done|done|apply label_plain|by apply num_lines_members].
Qed.

Lemma snapshot_text s :
  plain (s_label s) = true -> unsigned_nums (snapshot_nums s) = true -> json_text (snapshot_value s) (snapshot_json s).
Proof.
  intros Hl Hs.
  replace (snapshot_json s) with ("    " +:+ "{" +:+
      (nl +:+ json_str "      " "label" (s_label s) "," +:+ json_str "      " "level" (level_label (s_level s)) "," +:+
       (num_lines (snapshot_nums s) +:+ "    ")) +:+ "}")
    by (unfold snapshot_json, snapshot_nums; cbn [num_lines]; rewrite <- !sapp_assoc; reflexivity).
  apply obj_text; [done|]. apply members_before; [done|].
  apply str_line; [done|done|done|]. apply str_line; [done|done|apply label_plain|by apply num_lines_members].
Qed.

Lemma array_items {A} (show : A -> string) (val : A -> json) (l : list A) :
  l <> [] -> (forall x, x ∈ l -> json_text (val x) (show x)) -> json_items (val <$> l) (json_array show l).
Proof.
  intros Hne Hl. induction l as [|x [|y l] IH]; [done|..].
  - apply items_after; [done|]. constructor. apply Hl. by left.
  - replace (json_array show (x :: y :: l)) with (show x +:+ "," +:+ (nl +:+ json_array show (y :: l))) by done.
    constructor; [apply Hl; by left|]. apply items_before; [done|]. apply IH; [done|]. intros z Hz. apply Hl. by right.
Qed.

Lemma array_text {A} (show : A -> string) (val : A -> json) (l : list A) w :
  all_chars ws_char w = true -> (forall x, x ∈ l -> json_text (val x) (show x)) ->
  json_text (JArr (val <$> l)) ("[" +:+ (nl +:+ json_array show l +:+ w) +:+ "]").
Proof.
  intros Hw Hl. destruct l as [|x l].
  { apply text_arr_nil. change (all_chars ws_char (nl +:+ w) = true). by rewrite all_chars_app, Hw. }
  apply text_arr, items_before; [done|]. apply items_after; [done|]. by apply array_items.
Qed.

Lemma forallb_elem {A} (f : A -> bool) l x : forallb f l = true -> x ∈ l -> f x = true.
Proof. rewrite forallb_forall. intros Hf Hx. apply Hf. by apply list_elem_of_In. Qed.

Lemma report_text r : report_ok r = true -> json_text (report_value r) (to_json r).
Proof.
  unfold report_ok. rewrite !andb_true_iff. intros [[Hn Hm] Hs].
  replace (to_json r) with (("" +:+ "{" +:+ (nl +:+ json_str "  " "node_id" (r_node_id r) "," +:+
      json_str "  " "level" (level_label (r_level r)) "," +:+
      ("  " +:+ quoted "metrics" +:+ ": " +:+ ("[" +:+ (nl +:+ json_array metrics_json (r_metrics r) +:+ "  ") +:+ "]") +:+
       "," +:+ nl +:+
       ("  " +:+ quoted "snapshots" +:+ ": " +:+
        ("[" +:+ (nl +:+ json_array snapshot_json (r_snapshots r) +:+ "  ") +:+ "]") +:+ nl))) +:+ "}") +:+ nl)
    by (unfold to_json, quoted; rewrite <- !sapp_assoc; reflexivity).
  apply text_after; [done|]. apply obj_text; [done|]. apply members_before; [done|].
  apply str_line; [done|done|done|]. apply str_line; [done|done|apply label_plain|].
  apply member_line; [done|done|..|done].
  - apply array_text; [done|]. intros m Hin. apply metrics_text. exact (forallb_elem _ _ _ Hm Hin).
  - apply member_last; [done|done| |done]. apply array_text; [done|]. intros s Hin.
    pose proof (forallb_elem _ _ _ Hs Hin) as [Hl Hv]%andb_true_iff. by apply snapshot_text.
Qed.

(** *** What a report passes on *)
Lemma array_chars {A} (show : A -> string) p (l : list A) x :
  all_chars p (json_array show l) = true -> x ∈ l -> all_chars p (show x) = true.
Proof.
  induction l as [|y [|z l] IH]; intros H Hx.
  - by apply not_elem_of_nil in Hx.
  - apply list_elem_of_singleton in Hx as ->. cbn [json_array] in H. rewrite all_chars_app in H. by apply andb_true_iff in H as [H _].
  - change (json_array show (y :: z :: l)) with (show y +:+ "," +:+ nl +:+ json_array show (z :: l)) in H.
    rewrite !all_chars_app, !andb_true_iff in H. destruct H as (Hy & _ & _ & Hl).
    apply elem_of_cons in Hx as [->|Hx]; [done|by apply IH].
Qed.

Lemma report_chars p r :
  all_chars p (to_json r) = true ->
  all_chars p (r_node_id r) = true /\ forall s, s ∈ r_snapshots r -> all_chars p (s_label s) = true.
Proof.
  unfold to_json, json_str. rewrite !all_chars_app, !andb_true_iff. intros H. split; [tauto|].
  intros s Hs. assert (Ha : all_chars p (json_array snapshot_json (r_snapshots r)) = true) by tauto.
  pose proof (array_chars _ _ _ _ Ha Hs) as Hc. unfold snapshot_json, json_str in Hc.
  rewrite !all_chars_app, !andb_true_iff in Hc. tauto.
Qed.
