(* ===== verification/Scan.v ===== *)
(** * Numbers read from text

    The integer conversions of [sscanf] and [fscanf] ([%u], [%d]): white space,
    a sign, digits.  A value outside the range of the type is undefined
    behaviour.  [core/coordinate_mapper.h] and the reader kernel of
    [src/examples/dfs_sum_test] use them. *)

From S2P Require Import Prelude Coordinate Paths Json.

(** The digits at the beginning: their value and the rest. *)
Fixpoint take_digits (acc : Z) (s : string) : Z * string :=
  match s with
  | String c s' => if is_digit c then take_digits (10 * acc + digit_val c) s' else (acc, s)
  | EmptyString => (acc, s)
  end.

Definition starts_digit (s : string) : bool := match s with String c _ => is_digit c | EmptyString => false end.

Definition take_sign (s : string) : Z * string :=
  match s with
  | String "-"%char t => (-1, t)
  | String "+"%char t => (1, t)
  | t => (1, t)
  end.

(** One conversion to a type that holds the values from [lo] up to [hi]: the
    value and the rest, [None] when there is no number. *)
Definition scan_int (lo hi : Z) (s : string) : outcome (option (Z * string)) :=
  let '(sign, t) := take_sign (skip_space s) in
  if negb (starts_digit t) then Ok None else
  let '(v, rest) := take_digits 0 t in
  if (lo <=? sign * v) && (sign * v <? hi) then Ok (Some (sign * v, rest)) else Fault SignedOverflow.

Definition scan_u : string -> outcome (option (Z * string)) := scan_int 0 (2 ^ 32).
Definition scan_d : string -> outcome (option (Z * string)) := scan_int (- 2 ^ 31) (2 ^ 31).

(** ** Reading what was printed *)
Lemma take_digits_eq ds t acc :
  all_digits ds = true -> stops t = true -> take_digits acc (ds +:+ t) = (parse_digits acc ds, t).
Proof.
  revert acc. induction ds as [|c ds IH]; intros acc Hd Ht.
  - destruct t as [|c t]; [done|]. cbn in Ht. change ("" +:+ String c t) with (String c t). cbn [take_digits parse_digits].
    by destruct (is_digit c).
  - cbn [all_digits] in Hd. apply andb_true_iff in Hd as [Hc Hd].
    change (String c ds +:+ t) with (String c (ds +:+ t)). cbn [take_digits parse_digits]. rewrite Hc. by apply IH.
Qed.

Lemma printed_digits v t :
  0 <= v -> stops t = true ->
  starts_digit (std_to_string v +:+ t) = true /\ take_digits 0 (std_to_string v +:+ t) = (v, t).
Proof.
  intros Hv Ht. pose proof (all_digits_std_to_string v) as Hd. rewrite take_digits_eq by done.
  rewrite parse_std_to_string by lia. split; [|done].
  destruct (std_to_string v) as [|c s] eqn:E; [by destruct (std_to_string_nonempty v)|].
  cbn [all_digits] in Hd. by apply andb_true_iff in Hd as [Hc _].
Qed.

Lemma no_sign s : starts_digit s = true -> take_sign (skip_space s) = (1, s).
Proof.
  destruct s as [|c s]; [done|]. cbn [starts_digit skip_space]. intros Hc.
  destruct (digit_not_special c Hc) as (-> & _ & _). clear -Hc. by destruct c as [[] [] [] [] [] [] [] []].
Qed.

Lemma scan_printed lo hi v t :
  lo <= v < hi -> stops t = true -> scan_int lo hi (show_int v +:+ t) = Ok (Some (v, t)).
Proof.
  intros Hv Ht. unfold scan_int, show_int. destruct (Z.ltb_spec v 0) as [Hn|Hn].
  - destruct (printed_digits (- v) t ltac:(lia) Ht) as [Hs Hd].
    change (take_sign (skip_space (("-" +:+ std_to_string (- v)) +:+ t))) with (-1, std_to_string (- v) +:+ t).
    cbv iota beta zeta. rewrite Hs, Hd. cbn [negb]. replace (-1 * - v) with v by lia.
    by rewrite (proj2 (Z.leb_le lo v)), (proj2 (Z.ltb_lt v hi)) by lia.
  - destruct (printed_digits v t Hn Ht) as [Hs Hd]. rewrite no_sign, Hs, Hd by done. cbn [negb]. rewrite Z.mul_1_l.
    by rewrite (proj2 (Z.leb_le lo v)), (proj2 (Z.ltb_lt v hi)) by lia.
Qed.
