(* ===== verification/CoordinateMapper.v ===== *)
(** * Coordinate mappers

    Models [src/src/core/coordinate_mapper.h]: three ways to get the coordinate
    of an address.  [sscanf] with the format [%u.%u.%u.%u] is the function
    [scan_octets]: how many of the four conversions succeed, and their values.
    A value that does not fit in [unsigned] is undefined behaviour. *)

From S2P Require Import Prelude Paths Coordinate Json Scan.

(** ** [sscanf] *)

(** [%u] as often as [n], with a dot between two of them. *)
Fixpoint scan_octets (n : nat) (s : string) : outcome (list Z) :=
  match n with
  | O => Ok []
  | S n =>
      let! r := scan_u s in
      match r with
      | None => Ok []
      | Some (v, rest) =>
          match rest with
          | String "."%char rest => let! vs := scan_octets n rest in Ok (v :: vs)
          | _ => Ok [v]
          end
      end
  end.

(** ** The mappers *)
Class CoordinateMapper (M : Type) := { map_address : M -> string -> outcome LinquCoordinate }.

Inductive OctetMapper := octet_mapper.
Definition octet_map (ip : string) : outcome LinquCoordinate :=
  let! vs := scan_octets 4 ip in
  match vs with
  | [a; b; cc; d] => Ok (mkCoord 0 (u8 b) (u8 cc) (u16 d) 0 0 0)
  | _ => Ok (mkCoord 0 0 0 0 0 0 0)
  end.
#[export] Instance octet_mapper_map : CoordinateMapper OctetMapper := {| map_address := fun _ => octet_map |}.

Record EnvMapper := mkEnvMapper { environment : string -> option string }.
Definition env_map (m : EnvMapper) (address : string) : outcome LinquCoordinate := from_env (environment m).
#[export] Instance env_mapper_map : CoordinateMapper EnvMapper := {| map_address := env_map |}.

Record FixedMapper := mkFixedMapper { coord_ : LinquCoordinate }.
Definition fixed_map (m : FixedMapper) (address : string) : outcome LinquCoordinate := Ok (coord_ m).
#[export] Instance fixed_mapper_map : CoordinateMapper FixedMapper := {| map_address := fixed_map |}.

(** ** Printing and reading an address *)
Definition dotted (a b c d : Z) : string :=
  std_to_string a +:+ "." +:+ std_to_string b +:+ "." +:+ std_to_string c +:+ "." +:+ std_to_string d.

Lemma scan_u_printed v t :
  0 <= v < 2 ^ 32 -> stops t = true -> scan_u (std_to_string v +:+ t) = Ok (Some (v, t)).
Proof.
  intros Hv Ht. pose proof (scan_printed 0 (2 ^ 32) v t Hv Ht) as H. unfold show_int in H.
  by rewrite (proj2 (Z.ltb_ge v 0)) in H by lia.
Qed.

Lemma scan_octets_step n v s :
  0 <= v < 2 ^ 32 ->
  scan_octets (S n) (std_to_string v +:+ "." +:+ s) = (let! vs := scan_octets n s in Ok (v :: vs)).
Proof. intros Hv. cbn [scan_octets]. by rewrite scan_u_printed. Qed.

(** The octet mapper reads a dotted address: the numbers after the first
    dot become the indices of the levels 5, 4 and 3, reduced to their widths,
    whatever the first number is and whatever follows the fourth; so an address
    whose last three numbers are octets is read back exactly. *)
Theorem octet_mapper_reads a b c d rest :
  in_u32 a -> in_u32 b -> in_u32 c -> in_u32 d -> stops rest = true ->
  octet_map (dotted a b c d +:+ rest) = Ok (mkCoord 0 (u8 b) (u8 c) (u16 d) 0 0 0) /\
  (in_u8 b -> in_u8 c -> in_u8 d -> octet_map (dotted a b c d +:+ rest) = Ok (mkCoord 0 b c d 0 0 0)).
Proof.
  intros Ha Hb Hc Hd Hr.
  assert (E : octet_map (dotted a b c d +:+ rest) = Ok (mkCoord 0 (u8 b) (u8 c) (u16 d) 0 0 0)).
  { unfold octet_map, dotted. rewrite <- !sapp_assoc. rewrite !scan_octets_step by done. cbn [scan_octets].
    rewrite scan_u_printed by done. destruct rest as [|x rest]; [done|].
    by destruct x as [[] [] [] [] [] [] [] []]. }
  split; [exact E|]. intros H1 H2 H3. rewrite E, !u8_id, u16_id by (unfold_ints; lia). done.
Qed.

Lemma octet_mapper_reads_witness :
  octet_map "10.1.2.37:7000" = Ok (mkCoord 0 1 2 37 0 0 0) /\ octet_map "localhost" = Ok (mkCoord 0 0 0 0 0 0 0).
Proof.
  split; [|reflexivity]. change "10.1.2.37:7000" with (dotted 10 1 2 37 +:+ ":7000").
  apply (octet_mapper_reads 10 1 2 37 ":7000"); unfold_ints; done || lia.
Defined.
