(* ===== verification/LinquOrchestratorState.v ===== *)
(** * LinquOrchestratorState: submitting, scheduling and retiring tasks

    Models [src/src/runtime/linqu_orchestrator_state.h] and
    [linqu_orchestrator_state.cpp].  The state record has the members of the
    class.  A handler is one function on the state; a pointer to a descriptor
    is the task id it was got with, read and written through the ring.

    The dispatcher behind the virtual interface is known by how it completes a
    task: [SyncDispatcher] calls the completion callback inside [dispatch]
    ([MockDispatcher] and [LocalDispatcher]), [AsyncDispatcher] does it later,
    from a thread of its own ([RemoteDispatcher]).  [dispatched] is the
    sequence of calls of [dispatch] (and of [dispatch_fn_]).  [scheduler_mu_]
    is the mutex: a second [lock] by the thread that holds it is
    [SelfDeadlock].

    [propagate_completion] and the group dispatch call each other; the nesting
    is bounded by fuel, one unit per nested completion.  The spin loops wait
    for completions of other threads: [arrivals] lists, for each sleep, the
    ids whose completion is delivered during it. *)

From S2P Require Import Prelude Coordinate LinquHeapRing LinquDepListPool LinquTaskRing.
From S2P Require Import LinquScopeStack LinquTensorMap OrchestrationApi RingMetrics.

Definition MAX_SCOPE_DEPTH : Z := 8.

Record LinquOrchConfig_Internal := mkOrchConfig {
  task_ring_window : Z;
  heap_ring_capacity : Z;
  dep_pool_capacity : Z;
  tensormap_buckets : Z;
  tensormap_pool : Z;
}.

(** The default member initialisers. *)
Definition default_config : LinquOrchConfig_Internal := mkOrchConfig 64 (1024 * 1024) 512 64 256.

Inductive Dispatcher := SyncDispatcher | AsyncDispatcher.

Record PendingGroupSpec := mkPendingGroupSpec {
  spec_kernel_so : string;
  spec_group_params : list LinquParam;
  spec_sub_tasks : list LinquSubTaskSpec;
  private_params_storage : list (list LinquParam);
}.

Record LinquOrchestratorState := mkState {
  level_ : Level;
  coord_ : LinquCoordinate;
  task_ring_ : LinquTaskRing;
  heap_ring_ : LinquHeapRing;
  dep_pool_ : LinquDepListPool;
  tensor_map_ : LinquTensorMap;
  scope_stack_ : LinquScopeStack;
  dispatch_fn_ : bool;
  dispatcher_ : option Dispatcher;
  dispatched : list DispatchRecord;
  scheduler_mu_ : bool;
  tasks_submitted_ : Z;
  next_tensor_handle_ : Z;
  done_ : bool;
  scope_begin_count_ : Z;
  scope_end_count_ : Z;
  free_tensor_count_ : Z;
  task_retire_count_ : Z;
  task_block_count_ : Z;
  heap_block_count_ : Z;
  peak_task_used_ : Z;
  peak_heap_used_ : Z;
  snapshots_ : list RingSnapshot;
  sub_dispatch_to_group_ : gmap Z Z;
  next_sub_dispatch_id_ : Z;
  pending_group_specs_ : gmap Z PendingGroupSpec;
}.

#[export] Instance set_level_ : Setter level_ := fun f s =>
  mkState (f (level_ s)) (coord_ s) (task_ring_ s) (heap_ring_ s) (dep_pool_ s) (tensor_map_ s)
    (scope_stack_ s) (dispatch_fn_ s) (dispatcher_ s) (dispatched s) (scheduler_mu_ s)
    (tasks_submitted_ s) (next_tensor_handle_ s) (done_ s) (scope_begin_count_ s)
    (scope_end_count_ s) (free_tensor_count_ s) (task_retire_count_ s) (task_block_count_ s)
    (heap_block_count_ s) (peak_task_used_ s) (peak_heap_used_ s) (snapshots_ s)
    (sub_dispatch_to_group_ s) (next_sub_dispatch_id_ s) (pending_group_specs_ s).
#[export] Instance set_coord_ : Setter coord_ := fun f s =>
  mkState (level_ s) (f (coord_ s)) (task_ring_ s) (heap_ring_ s) (dep_pool_ s) (tensor_map_ s)
    (scope_stack_ s) (dispatch_fn_ s) (dispatcher_ s) (dispatched s) (scheduler_mu_ s)
    (tasks_submitted_ s) (next_tensor_handle_ s) (done_ s) (scope_begin_count_ s)
    (scope_end_count_ s) (free_tensor_count_ s) (task_retire_count_ s) (task_block_count_ s)
    (heap_block_count_ s) (peak_task_used_ s) (peak_heap_used_ s) (snapshots_ s)
    (sub_dispatch_to_group_ s) (next_sub_dispatch_id_ s) (pending_group_specs_ s).
#[export] Instance set_task_ring_ : Setter task_ring_ := fun f s =>
  mkState (level_ s) (coord_ s) (f (task_ring_ s)) (heap_ring_ s) (dep_pool_ s) (tensor_map_ s)
    (scope_stack_ s) (dispatch_fn_ s) (dispatcher_ s) (dispatched s) (scheduler_mu_ s)
    (tasks_submitted_ s) (next_tensor_handle_ s) (done_ s) (scope_begin_count_ s)
    (scope_end_count_ s) (free_tensor_count_ s) (task_retire_count_ s) (task_block_count_ s)
    (heap_block_count_ s) (peak_task_used_ s) (peak_heap_used_ s) (snapshots_ s)
    (sub_dispatch_to_group_ s) (next_sub_dispatch_id_ s) (pending_group_specs_ s).
#[export] Instance set_heap_ring_ : Setter heap_ring_ := fun f s =>
  mkState (level_ s) (coord_ s) (task_ring_ s) (f (heap_ring_ s)) (dep_pool_ s) (tensor_map_ s)
    (scope_stack_ s) (dispatch_fn_ s) (dispatcher_ s) (dispatched s) (scheduler_mu_ s)
    (tasks_submitted_ s) (next_tensor_handle_ s) (done_ s) (scope_begin_count_ s)
    (scope_end_count_ s) (free_tensor_count_ s) (task_retire_count_ s) (task_block_count_ s)
    (heap_block_count_ s) (peak_task_used_ s) (peak_heap_used_ s) (snapshots_ s)
    (sub_dispatch_to_group_ s) (next_sub_dispatch_id_ s) (pending_group_specs_ s).
#[export] Instance set_dep_pool_ : Setter dep_pool_ := fun f s =>
  mkState (level_ s) (coord_ s) (task_ring_ s) (heap_ring_ s) (f (dep_pool_ s)) (tensor_map_ s)
    (scope_stack_ s) (dispatch_fn_ s) (dispatcher_ s) (dispatched s) (scheduler_mu_ s)
    (tasks_submitted_ s) (next_tensor_handle_ s) (done_ s) (scope_begin_count_ s)
    (scope_end_count_ s) (free_tensor_count_ s) (task_retire_count_ s) (task_block_count_ s)
    (heap_block_count_ s) (peak_task_used_ s) (peak_heap_used_ s) (snapshots_ s)
    (sub_dispatch_to_group_ s) (next_sub_dispatch_id_ s) (pending_group_specs_ s).
#[export] Instance set_tensor_map_ : Setter tensor_map_ := fun f s =>
  mkState (level_ s) (coord_ s) (task_ring_ s) (heap_ring_ s) (dep_pool_ s) (f (tensor_map_ s))
    (scope_stack_ s) (dispatch_fn_ s) (dispatcher_ s) (dispatched s) (scheduler_mu_ s)
    (tasks_submitted_ s) (next_tensor_handle_ s) (done_ s) (scope_begin_count_ s)
    (scope_end_count_ s) (free_tensor_count_ s) (task_retire_count_ s) (task_block_count_ s)
    (heap_block_count_ s) (peak_task_used_ s) (peak_heap_used_ s) (snapshots_ s)
    (sub_dispatch_to_group_ s) (next_sub_dispatch_id_ s) (pending_group_specs_ s).
#[export] Instance set_scope_stack_ : Setter scope_stack_ := fun f s =>
  mkState (level_ s) (coord_ s) (task_ring_ s) (heap_ring_ s) (dep_pool_ s) (tensor_map_ s)
    (f (scope_stack_ s)) (dispatch_fn_ s) (dispatcher_ s) (dispatched s) (scheduler_mu_ s)
    (tasks_submitted_ s) (next_tensor_handle_ s) (done_ s) (scope_begin_count_ s)
    (scope_end_count_ s) (free_tensor_count_ s) (task_retire_count_ s) (task_block_count_ s)
    (heap_block_count_ s) (peak_task_used_ s) (peak_heap_used_ s) (snapshots_ s)
    (sub_dispatch_to_group_ s) (next_sub_dispatch_id_ s) (pending_group_specs_ s).
#[export] Instance set_dispatch_fn_ : Setter dispatch_fn_ := fun f s =>
  mkState (level_ s) (coord_ s) (task_ring_ s) (heap_ring_ s) (dep_pool_ s) (tensor_map_ s)
    (scope_stack_ s) (f (dispatch_fn_ s)) (dispatcher_ s) (dispatched s) (scheduler_mu_ s)
    (tasks_submitted_ s) (next_tensor_handle_ s) (done_ s) (scope_begin_count_ s)
    (scope_end_count_ s) (free_tensor_count_ s) (task_retire_count_ s) (task_block_count_ s)
    (heap_block_count_ s) (peak_task_used_ s) (peak_heap_used_ s) (snapshots_ s)
    (sub_dispatch_to_group_ s) (next_sub_dispatch_id_ s) (pending_group_specs_ s).
#[export] Instance set_dispatcher_ : Setter dispatcher_ := fun f s =>
  mkState (level_ s) (coord_ s) (task_ring_ s) (heap_ring_ s) (dep_pool_ s) (tensor_map_ s)
    (scope_stack_ s) (dispatch_fn_ s) (f (dispatcher_ s)) (dispatched s) (scheduler_mu_ s)
    (tasks_submitted_ s) (next_tensor_handle_ s) (done_ s) (scope_begin_count_ s)
    (scope_end_count_ s) (free_tensor_count_ s) (task_retire_count_ s) (task_block_count_ s)
    (heap_block_count_ s) (peak_task_used_ s) (peak_heap_used_ s) (snapshots_ s)
    (sub_dispatch_to_group_ s) (next_sub_dispatch_id_ s) (pending_group_specs_ s).
#[export] Instance set_dispatched : Setter dispatched := fun f s =>
  mkState (level_ s) (coord_ s) (task_ring_ s) (heap_ring_ s) (dep_pool_ s) (tensor_map_ s)
    (scope_stack_ s) (dispatch_fn_ s) (dispatcher_ s) (f (dispatched s)) (scheduler_mu_ s)
    (tasks_submitted_ s) (next_tensor_handle_ s) (done_ s) (scope_begin_count_ s)
    (scope_end_count_ s) (free_tensor_count_ s) (task_retire_count_ s) (task_block_count_ s)
    (heap_block_count_ s) (peak_task_used_ s) (peak_heap_used_ s) (snapshots_ s)
    (sub_dispatch_to_group_ s) (next_sub_dispatch_id_ s) (pending_group_specs_ s).
#[export] Instance set_scheduler_mu_ : Setter scheduler_mu_ := fun f s =>
  mkState (level_ s) (coord_ s) (task_ring_ s) (heap_ring_ s) (dep_pool_ s) (tensor_map_ s)
    (scope_stack_ s) (dispatch_fn_ s) (dispatcher_ s) (dispatched s) (f (scheduler_mu_ s))
    (tasks_submitted_ s) (next_tensor_handle_ s) (done_ s) (scope_begin_count_ s)
    (scope_end_count_ s) (free_tensor_count_ s) (task_retire_count_ s) (task_block_count_ s)
    (heap_block_count_ s) (peak_task_used_ s) (peak_heap_used_ s) (snapshots_ s)
    (sub_dispatch_to_group_ s) (next_sub_dispatch_id_ s) (pending_group_specs_ s).
#[export] Instance set_tasks_submitted_ : Setter tasks_submitted_ := fun f s =>
  mkState (level_ s) (coord_ s) (task_ring_ s) (heap_ring_ s) (dep_pool_ s) (tensor_map_ s)
    (scope_stack_ s) (dispatch_fn_ s) (dispatcher_ s) (dispatched s) (scheduler_mu_ s)
    (f (tasks_submitted_ s)) (next_tensor_handle_ s) (done_ s) (scope_begin_count_ s)
    (scope_end_count_ s) (free_tensor_count_ s) (task_retire_count_ s) (task_block_count_ s)
    (heap_block_count_ s) (peak_task_used_ s) (peak_heap_used_ s) (snapshots_ s)
    (sub_dispatch_to_group_ s) (next_sub_dispatch_id_ s) (pending_group_specs_ s).
#[export] Instance set_next_tensor_handle_ : Setter next_tensor_handle_ := fun f s =>
  mkState (level_ s) (coord_ s) (task_ring_ s) (heap_ring_ s) (dep_pool_ s) (tensor_map_ s)
    (scope_stack_ s) (dispatch_fn_ s) (dispatcher_ s) (dispatched s) (scheduler_mu_ s)
    (tasks_submitted_ s) (f (next_tensor_handle_ s)) (done_ s) (scope_begin_count_ s)
    (scope_end_count_ s) (free_tensor_count_ s) (task_retire_count_ s) (task_block_count_ s)
    (heap_block_count_ s) (peak_task_used_ s) (peak_heap_used_ s) (snapshots_ s)
    (sub_dispatch_to_group_ s) (next_sub_dispatch_id_ s) (pending_group_specs_ s).
#[export] Instance set_done_ : Setter done_ := fun f s =>
  mkState (level_ s) (coord_ s) (task_ring_ s) (heap_ring_ s) (dep_pool_ s) (tensor_map_ s)
    (scope_stack_ s) (dispatch_fn_ s) (dispatcher_ s) (dispatched s) (scheduler_mu_ s)
    (tasks_submitted_ s) (next_tensor_handle_ s) (f (done_ s)) (scope_begin_count_ s)
    (scope_end_count_ s) (free_tensor_count_ s) (task_retire_count_ s) (task_block_count_ s)
    (heap_block_count_ s) (peak_task_used_ s) (peak_heap_used_ s) (snapshots_ s)
    (sub_dispatch_to_group_ s) (next_sub_dispatch_id_ s) (pending_group_specs_ s).
#[export] Instance set_scope_begin_count_ : Setter scope_begin_count_ := fun f s =>
  mkState (level_ s) (coord_ s) (task_ring_ s) (heap_ring_ s) (dep_pool_ s) (tensor_map_ s)
    (scope_stack_ s) (dispatch_fn_ s) (dispatcher_ s) (dispatched s) (scheduler_mu_ s)
    (tasks_submitted_ s) (next_tensor_handle_ s) (done_ s) (f (scope_begin_count_ s))
    (scope_end_count_ s) (free_tensor_count_ s) (task_retire_count_ s) (task_block_count_ s)
    (heap_block_count_ s) (peak_task_used_ s) (peak_heap_used_ s) (snapshots_ s)
    (sub_dispatch_to_group_ s) (next_sub_dispatch_id_ s) (pending_group_specs_ s).
#[export] Instance set_scope_end_count_ : Setter scope_end_count_ := fun f s =>
  mkState (level_ s) (coord_ s) (task_ring_ s) (heap_ring_ s) (dep_pool_ s) (tensor_map_ s)
    (scope_stack_ s) (dispatch_fn_ s) (dispatcher_ s) (dispatched s) (scheduler_mu_ s)
    (tasks_submitted_ s) (next_tensor_handle_ s) (done_ s) (scope_begin_count_ s)
    (f (scope_end_count_ s)) (free_tensor_count_ s) (task_retire_count_ s) (task_block_count_ s)
    (heap_block_count_ s) (peak_task_used_ s) (peak_heap_used_ s) (snapshots_ s)
    (sub_dispatch_to_group_ s) (next_sub_dispatch_id_ s) (pending_group_specs_ s).
#[export] Instance set_free_tensor_count_ : Setter free_tensor_count_ := fun f s =>
  mkState (level_ s) (coord_ s) (task_ring_ s) (heap_ring_ s) (dep_pool_ s) (tensor_map_ s)
    (scope_stack_ s) (dispatch_fn_ s) (dispatcher_ s) (dispatched s) (scheduler_mu_ s)
    (tasks_submitted_ s) (next_tensor_handle_ s) (done_ s) (scope_begin_count_ s)
    (scope_end_count_ s) (f (free_tensor_count_ s)) (task_retire_count_ s) (task_block_count_ s)
    (heap_block_count_ s) (peak_task_used_ s) (peak_heap_used_ s) (snapshots_ s)
    (sub_dispatch_to_group_ s) (next_sub_dispatch_id_ s) (pending_group_specs_ s).
#[export] Instance set_task_retire_count_ : Setter task_retire_count_ := fun f s =>
  mkState (level_ s) (coord_ s) (task_ring_ s) (heap_ring_ s) (dep_pool_ s) (tensor_map_ s)
    (scope_stack_ s) (dispatch_fn_ s) (dispatcher_ s) (dispatched s) (scheduler_mu_ s)
    (tasks_submitted_ s) (next_tensor_handle_ s) (done_ s) (scope_begin_count_ s)
    (scope_end_count_ s) (free_tensor_count_ s) (f (task_retire_count_ s)) (task_block_count_ s)
    (heap_block_count_ s) (peak_task_used_ s) (peak_heap_used_ s) (snapshots_ s)
    (sub_dispatch_to_group_ s) (next_sub_dispatch_id_ s) (pending_group_specs_ s).
#[export] Instance set_task_block_count_ : Setter task_block_count_ := fun f s =>
  mkState (level_ s) (coord_ s) (task_ring_ s) (heap_ring_ s) (dep_pool_ s) (tensor_map_ s)
    (scope_stack_ s) (dispatch_fn_ s) (dispatcher_ s) (dispatched s) (scheduler_mu_ s)
    (tasks_submitted_ s) (next_tensor_handle_ s) (done_ s) (scope_begin_count_ s)
    (scope_end_count_ s) (free_tensor_count_ s) (task_retire_count_ s) (f (task_block_count_ s))
    (heap_block_count_ s) (peak_task_used_ s) (peak_heap_used_ s) (snapshots_ s)
    (sub_dispatch_to_group_ s) (next_sub_dispatch_id_ s) (pending_group_specs_ s).
#[export] Instance set_heap_block_count_ : Setter heap_block_count_ := fun f s =>
  mkState (level_ s) (coord_ s) (task_ring_ s) (heap_ring_ s) (dep_pool_ s) (tensor_map_ s)
    (scope_stack_ s) (dispatch_fn_ s) (dispatcher_ s) (dispatched s) (scheduler_mu_ s)
    (tasks_submitted_ s) (next_tensor_handle_ s) (done_ s) (scope_begin_count_ s)
    (scope_end_count_ s) (free_tensor_count_ s) (task_retire_count_ s) (task_block_count_ s)
    (f (heap_block_count_ s)) (peak_task_used_ s) (peak_heap_used_ s) (snapshots_ s)
    (sub_dispatch_to_group_ s) (next_sub_dispatch_id_ s) (pending_group_specs_ s).
#[export] Instance set_peak_task_used_ : Setter peak_task_used_ := fun f s =>
  mkState (level_ s) (coord_ s) (task_ring_ s) (heap_ring_ s) (dep_pool_ s) (tensor_map_ s)
    (scope_stack_ s) (dispatch_fn_ s) (dispatcher_ s) (dispatched s) (scheduler_mu_ s)
    (tasks_submitted_ s) (next_tensor_handle_ s) (done_ s) (scope_begin_count_ s)
    (scope_end_count_ s) (free_tensor_count_ s) (task_retire_count_ s) (task_block_count_ s)
    (heap_block_count_ s) (f (peak_task_used_ s)) (peak_heap_used_ s) (snapshots_ s)
    (sub_dispatch_to_group_ s) (next_sub_dispatch_id_ s) (pending_group_specs_ s).
#[export] Instance set_peak_heap_used_ : Setter peak_heap_used_ := fun f s =>
  mkState (level_ s) (coord_ s) (task_ring_ s) (heap_ring_ s) (dep_pool_ s) (tensor_map_ s)
    (scope_stack_ s) (dispatch_fn_ s) (dispatcher_ s) (dispatched s) (scheduler_mu_ s)
    (tasks_submitted_ s) (next_tensor_handle_ s) (done_ s) (scope_begin_count_ s)
    (scope_end_count_ s) (free_tensor_count_ s) (task_retire_count_ s) (task_block_count_ s)
    (heap_block_count_ s) (peak_task_used_ s) (f (peak_heap_used_ s)) (snapshots_ s)
    (sub_dispatch_to_group_ s) (next_sub_dispatch_id_ s) (pending_group_specs_ s).
#[export] Instance set_snapshots_ : Setter snapshots_ := fun f s =>
  mkState (level_ s) (coord_ s) (task_ring_ s) (heap_ring_ s) (dep_pool_ s) (tensor_map_ s)
    (scope_stack_ s) (dispatch_fn_ s) (dispatcher_ s) (dispatched s) (scheduler_mu_ s)
    (tasks_submitted_ s) (next_tensor_handle_ s) (done_ s) (scope_begin_count_ s)
    (scope_end_count_ s) (free_tensor_count_ s) (task_retire_count_ s) (task_block_count_ s)
    (heap_block_count_ s) (peak_task_used_ s) (peak_heap_used_ s) (f (snapshots_ s))
    (sub_dispatch_to_group_ s) (next_sub_dispatch_id_ s) (pending_group_specs_ s).
#[export] Instance set_sub_dispatch_to_group_ : Setter sub_dispatch_to_group_ := fun f s =>
  mkState (level_ s) (coord_ s) (task_ring_ s) (heap_ring_ s) (dep_pool_ s) (tensor_map_ s)
    (scope_stack_ s) (dispatch_fn_ s) (dispatcher_ s) (dispatched s) (scheduler_mu_ s)
    (tasks_submitted_ s) (next_tensor_handle_ s) (done_ s) (scope_begin_count_ s)
    (scope_end_count_ s) (free_tensor_count_ s) (task_retire_count_ s) (task_block_count_ s)
    (heap_block_count_ s) (peak_task_used_ s) (peak_heap_used_ s) (snapshots_ s)
    (f (sub_dispatch_to_group_ s)) (next_sub_dispatch_id_ s) (pending_group_specs_ s).
#[export] Instance set_next_sub_dispatch_id_ : Setter next_sub_dispatch_id_ := fun f s =>
  mkState (level_ s) (coord_ s) (task_ring_ s) (heap_ring_ s) (dep_pool_ s) (tensor_map_ s)
    (scope_stack_ s) (dispatch_fn_ s) (dispatcher_ s) (dispatched s) (scheduler_mu_ s)
    (tasks_submitted_ s) (next_tensor_handle_ s) (done_ s) (scope_begin_count_ s)
    (scope_end_count_ s) (free_tensor_count_ s) (task_retire_count_ s) (task_block_count_ s)
    (heap_block_count_ s) (peak_task_used_ s) (peak_heap_used_ s) (snapshots_ s)
    (sub_dispatch_to_group_ s) (f (next_sub_dispatch_id_ s)) (pending_group_specs_ s).
#[export] Instance set_pending_group_specs_ : Setter pending_group_specs_ := fun f s =>
  mkState (level_ s) (coord_ s) (task_ring_ s) (heap_ring_ s) (dep_pool_ s) (tensor_map_ s)
    (scope_stack_ s) (dispatch_fn_ s) (dispatcher_ s) (dispatched s) (scheduler_mu_ s)
    (tasks_submitted_ s) (next_tensor_handle_ s) (done_ s) (scope_begin_count_ s)
    (scope_end_count_ s) (free_tensor_count_ s) (task_retire_count_ s) (task_block_count_ s)
    (heap_block_count_ s) (peak_task_used_ s) (peak_heap_used_ s) (snapshots_ s)
    (sub_dispatch_to_group_ s) (next_sub_dispatch_id_ s) (f (pending_group_specs_ s)).

(** The default-constructed object. *)
Definition new_state : LinquOrchestratorState :=
  mkState HOST zero_coord LinquTaskRing.empty_ring LinquHeapRing.empty_ring LinquDepListPool.empty_pool
    LinquTensorMap.empty_map LinquScopeStack.empty_stack false None [] false
    0 1 false 0 0 0 0 0 0 0 0 [] ∅ (-1) ∅.

Definition init (level : Level) (coord : LinquCoordinate) (cfg : LinquOrchConfig_Internal)
    (s : LinquOrchestratorState) : outcome LinquOrchestratorState :=
  let! ring := LinquTaskRing.init (task_ring_window cfg) (task_ring_ s) in
  let! pool := LinquDepListPool.init (dep_pool_capacity cfg) (dep_pool_ s) in
  let! tmap := LinquTensorMap.init (tensormap_buckets cfg) (tensormap_pool cfg) (tensor_map_ s) in
  Ok (s <| level_ := level |> <| coord_ := coord |>
        <| task_ring_ := ring |>
        <| heap_ring_ := LinquHeapRing.init (heap_ring_capacity cfg) (heap_ring_ s) |>
        <| dep_pool_ := pool |> <| tensor_map_ := tmap |>
        <| scope_stack_ := LinquScopeStack.init MAX_SCOPE_DEPTH
                             (task_ring_window cfg * MAX_SCOPE_DEPTH) (scope_stack_ s) |>
        <| tasks_submitted_ := 0 |> <| next_tensor_handle_ := 1 |> <| done_ := false |>).

Definition reset (s : LinquOrchestratorState) : LinquOrchestratorState :=
  s <| task_ring_ := LinquTaskRing.reset (task_ring_ s) |>
    <| heap_ring_ := LinquHeapRing.reset (heap_ring_ s) |>
    <| dep_pool_ := LinquDepListPool.reset (dep_pool_ s) |>
    <| tensor_map_ := LinquTensorMap.reset (tensor_map_ s) |>
    <| scope_stack_ := LinquScopeStack.reset (scope_stack_ s) |>
    <| tasks_submitted_ := 0 |> <| next_tensor_handle_ := 1 |> <| done_ := false |>
    <| scope_begin_count_ := 0 |> <| scope_end_count_ := 0 |> <| free_tensor_count_ := 0 |>
    <| task_retire_count_ := 0 |> <| task_block_count_ := 0 |> <| heap_block_count_ := 0 |>
    <| peak_task_used_ := 0 |> <| peak_heap_used_ := 0 |> <| snapshots_ := [] |>
    <| sub_dispatch_to_group_ := ∅ |> <| next_sub_dispatch_id_ := -1 |>
    <| pending_group_specs_ := ∅ |>.

Definition set_dispatcher (d : option Dispatcher) (s : LinquOrchestratorState) : LinquOrchestratorState :=
  s <| dispatcher_ := d |>.
Definition set_dispatch_fn (b : bool) (s : LinquOrchestratorState) : LinquOrchestratorState :=
  s <| dispatch_fn_ := b |>.

(** [std::lock_guard<std::mutex> lk(scheduler_mu_)] and its end. *)
Definition lock (s : LinquOrchestratorState) : outcome LinquOrchestratorState :=
  if scheduler_mu_ s then Fault SelfDeadlock else Ok (s <| scheduler_mu_ := true |>).
Definition unlock (s : LinquOrchestratorState) : LinquOrchestratorState :=
  s <| scheduler_mu_ := false |>.

(** Reading and writing through [task_ring_.get(tid)]. *)
Definition get_desc (tid : Z) (s : LinquOrchestratorState) : outcome LinquTaskDescriptor :=
  LinquTaskRing.get tid (task_ring_ s).
Definition upd_desc (tid : Z) (f : LinquTaskDescriptor -> LinquTaskDescriptor)
    (s : LinquOrchestratorState) : outcome LinquOrchestratorState :=
  let! r := LinquTaskRing.upd tid f (task_ring_ s) in
  Ok (s <| task_ring_ := r |>).

Definition set_desc_status (st : Status) (d : LinquTaskDescriptor) : LinquTaskDescriptor :=
  d <| status := st |>.
Definition bump_fanin_refcount (d : LinquTaskDescriptor) : LinquTaskDescriptor :=
  d <| fanin_refcount := u32 (fanin_refcount d + 1) |>.
Definition bump_sub_complete (d : LinquTaskDescriptor) : LinquTaskDescriptor :=
  d <| sub_complete_count := u32 (sub_complete_count d + 1) |>.

Definition check_task_consumed (task_id : Z) (s : LinquOrchestratorState)
    : outcome LinquOrchestratorState :=
  let! d := get_desc task_id s in
  if status_eqb (status d) COMPLETED && (fanout_count d <=? fanout_refcount d)
  then upd_desc task_id (set_desc_status CONSUMED) s
  else Ok s.

Definition on_scope_release (task_id : Z) (s : LinquOrchestratorState) : outcome LinquOrchestratorState :=
  let! s1 := lock s in
  let! s2 := check_task_consumed task_id s1 in
  Ok (unlock s2).

(** The loop over a dependency list of the state's pool. *)
Definition walk_list (body : Z -> LinquOrchestratorState -> outcome LinquOrchestratorState)
    (head : Z) (s : LinquOrchestratorState) : outcome LinquOrchestratorState :=
  walk dep_pool_ body (walk_fuel (dep_pool_ s)) head s.

(** ** Completion: the mutually recursive handlers

    Each is written over the recursive call [propagate] and closed by
    [propagate_completion] below. *)
Section handlers.
Context (propagate : Z -> LinquOrchestratorState -> outcome LinquOrchestratorState).

Definition on_task_complete_with (task_id : Z) (s : LinquOrchestratorState)
    : outcome LinquOrchestratorState :=
  let! s := lock s in
  match sub_dispatch_to_group_ s !! task_id with
  | Some group_tid =>
      let s := s <| sub_dispatch_to_group_ := delete task_id (sub_dispatch_to_group_ s) |> in
      let! d := get_desc group_tid s in
      let prev := sub_complete_count d in
      let! s := upd_desc group_tid bump_sub_complete s in
      if group_size d <=? u32 (prev + 1) then
        let! s := upd_desc group_tid (set_desc_status COMPLETED) s in
        let! s := propagate group_tid s in
        Ok (unlock s)
      else Ok (unlock s)
  | None =>
      let! d := get_desc task_id s in
      if status_eqb (status d) RUNNING then
        let! s := upd_desc task_id (set_desc_status COMPLETED) s in
        let! s := propagate task_id s in
        Ok (unlock s)
      else Ok (unlock s)
  end.

(** The lambda of [wire_dispatcher_callback]. *)
Definition completion_callback_with (r : DispatchResult) (s : LinquOrchestratorState)
    : outcome LinquOrchestratorState :=
  match result_status r with
  | TASK_COMPLETED => on_task_complete_with (result_task_id r) s
  | _ => Ok s
  end.

(** [dispatcher_->dispatch(...)] *)
Definition dispatcher_dispatch_with (d : Dispatcher) (tid : Z) (tgt : LinquCoordinate)
    (kernel_so : string) (params : list LinquParam) (s : LinquOrchestratorState)
    : outcome LinquOrchestratorState :=
  let s := s <| dispatched := dispatched s ++ [mkDispatchRecord tid tgt kernel_so params] |> in
  match d with
  | SyncDispatcher => completion_callback_with (mkDispatchResult tid TASK_COMPLETED 0) s
  | AsyncDispatcher => Ok s
  end.

Fixpoint dispatch_group_sub_tasks_with (group_tid : Z) (kernel_so : option string)
    (group_params : list LinquParam) (num_sub_tasks : Z) (sub_tasks : list LinquSubTaskSpec)
    (s : LinquOrchestratorState) : outcome LinquOrchestratorState :=
  match sub_tasks with
  | [] => Ok s
  | sub :: rest =>
      let sub_id := next_sub_dispatch_id_ s in
      let! next := i32_sub (next_sub_dispatch_id_ s) 1 in
      let s := s <| next_sub_dispatch_id_ := next |>
                 <| sub_dispatch_to_group_ := <[sub_id := group_tid]> (sub_dispatch_to_group_ s) |> in
      let k := match sub_kernel_so sub with Some k => Some k | None => kernel_so end in
      let merged := group_params ++ private_params sub in
      let tgt := coord_of_C (target sub) in
      let! s :=
        match dispatcher_ s with
        | Some d => dispatcher_dispatch_with d sub_id tgt (default "" k) merged s
        | None =>
            let! d := get_desc group_tid s in
            let prev := sub_complete_count d in
            let! s := upd_desc group_tid bump_sub_complete s in
            if u32 num_sub_tasks <=? u32 (prev + 1) then
              let! s := upd_desc group_tid (set_desc_status COMPLETED) s in
              propagate group_tid s
            else Ok s
        end in
      dispatch_group_sub_tasks_with group_tid kernel_so group_params num_sub_tasks rest s
  end.

(** The stored copies replace the pointers of the specification that have one. *)
Definition fixup (sub : LinquSubTaskSpec) (storage : list LinquParam) : LinquSubTaskSpec :=
  match storage with
  | [] => sub
  | _ => mkSubTaskSpec (target sub) (sub_kernel_so sub) storage
  end.

Definition check_consumer_with (consumer : Z) (s : LinquOrchestratorState)
    : outcome LinquOrchestratorState :=
  let! d := get_desc consumer s in
  if (fanin_count d <=? fanin_refcount d) && status_eqb (status d) PENDING then
    if is_group d then
      let! s := upd_desc consumer (set_desc_status RUNNING) s in
      match pending_group_specs_ s !! consumer with
      | Some spec =>
          let subs := zip_with fixup (spec_sub_tasks spec) (private_params_storage spec) in
          let! s := dispatch_group_sub_tasks_with consumer (Some (spec_kernel_so spec))
                      (spec_group_params spec) (zlength subs) subs s in
          Ok (s <| pending_group_specs_ := delete consumer (pending_group_specs_ s) |>)
      | None => Ok s
      end
    else upd_desc consumer (set_desc_status READY) s
  else Ok s.

Definition check_consumers_ready_with (producer_task_id : Z) (s : LinquOrchestratorState)
    : outcome LinquOrchestratorState :=
  let! d := get_desc producer_task_id s in
  walk_list check_consumer_with (fanout_list_head d) s.

(** The bodies of the two loops of [propagate_completion]. *)
Definition release_producer (producer : Z) (s : LinquOrchestratorState)
    : outcome LinquOrchestratorState :=
  let! s := upd_desc producer bump_fanout_refcount s in
  check_task_consumed producer s.
Definition notify_consumer (consumer : Z) (s : LinquOrchestratorState)
    : outcome LinquOrchestratorState :=
  upd_desc consumer bump_fanin_refcount s.

Definition propagate_completion_with (task_id : Z) (s : LinquOrchestratorState)
    : outcome LinquOrchestratorState :=
  let! d := get_desc task_id s in
  let! s := walk_list release_producer (dep_list_head d) s in
  let! d := get_desc task_id s in
  let! s := walk_list notify_consumer (fanout_list_head d) s in
  let! s := check_consumers_ready_with task_id s in
  check_task_consumed task_id s.
End handlers.

Fixpoint propagate_completion (fuel : nat) (task_id : Z) (s : LinquOrchestratorState)
    : outcome LinquOrchestratorState :=
  match fuel with
  | O => Fault OutOfFuel
  | S fuel => propagate_completion_with (propagate_completion fuel) task_id s
  end.

(** A completion nests once per group that it makes ready, and a group leaves
    [PENDING] once: the live tasks bound the depth. *)
Definition propagate_fuel (s : LinquOrchestratorState) : nat :=
  S (S (length (descriptors_ (task_ring_ s)))).

Definition propagate (task_id : Z) (s : LinquOrchestratorState) : outcome LinquOrchestratorState :=
  propagate_completion (propagate_fuel s) task_id s.
Definition on_task_complete (task_id : Z) (s : LinquOrchestratorState) : outcome LinquOrchestratorState :=
  on_task_complete_with propagate task_id s.
Definition dispatcher_dispatch (d : Dispatcher) (tid : Z) (tgt : LinquCoordinate)
    (kernel_so : string) (params : list LinquParam) (s : LinquOrchestratorState)
    : outcome LinquOrchestratorState :=
  dispatcher_dispatch_with propagate d tid tgt kernel_so params s.
Definition dispatch_group_sub_tasks (group_tid : Z) (kernel_so : option string)
    (group_params : list LinquParam) (sub_tasks : list LinquSubTaskSpec)
    (s : LinquOrchestratorState) : outcome LinquOrchestratorState :=
  dispatch_group_sub_tasks_with propagate group_tid kernel_so group_params (zlength sub_tasks) sub_tasks s.

(** ** Retirement *)

Fixpoint advance_loop (n : nat) (cursor retired : Z) (s : LinquOrchestratorState) : outcome (Z * Z) :=
  match n with
  | O => Ok (cursor, retired)
  | S n =>
      let! d := get_desc cursor s in
      if negb (status_eqb (status d) CONSUMED) then Ok (cursor, retired)
      else advance_loop n (cursor + 1) (u64 (retired + 1)) s
  end.

Definition try_advance_ring_pointers (s : LinquOrchestratorState) : outcome LinquOrchestratorState :=
  let! s := lock s in
  let cursor := LinquTaskRing.last_task_alive_ (task_ring_ s) in
  let current := current_index_ (task_ring_ s) in
  let! (cursor, retired) := advance_loop (Z.to_nat (current - cursor)) cursor (task_retire_count_ s) s in
  let s := s <| task_retire_count_ := retired |> in
  if LinquTaskRing.last_task_alive_ (task_ring_ s) <? cursor then
    let s := s <| task_ring_ := set_last_task_alive cursor (task_ring_ s) |>
               <| tensor_map_ := invalidate_below cursor (tensor_map_ s) |> in
    if 0 <? cursor then
      let! last_retired := get_desc (cursor - 1) s in
      if tail_ (heap_ring_ s) <? heap_end last_retired
      then Ok (unlock (s <| heap_ring_ := retire_to (heap_end last_retired) (heap_ring_ s) |>))
      else Ok (unlock s)
    else Ok (unlock s)
  else Ok (unlock s).

(** ** Submission *)

(** Completions delivered by other threads while this one sleeps. *)
Fixpoint deliver (tids : list Z) (s : LinquOrchestratorState) : outcome LinquOrchestratorState :=
  match tids with
  | [] => Ok s
  | t :: tids => let! s := on_task_complete t s in deliver tids s
  end.

(** [++spins > 100000] aborts. *)
Definition MAX_SPINS : nat := Z.to_nat 100000.

(** [while (!task_ring_.has_space())], [n] more sleeps allowed. *)
Fixpoint wait_task_space (n : nat) (arrivals : list (list Z)) (s : LinquOrchestratorState)
    : outcome LinquOrchestratorState :=
  if has_space (task_ring_ s) then Ok s else
  let! s := try_advance_ring_pointers s in
  if has_space (task_ring_ s) then Ok s else
  let! s := deliver (hd [] arrivals) s in
  match n with
  | O => Fault AssertFailed
  | S n => wait_task_space n (tl arrivals) s
  end.

Definition reserve_task_slot (arrivals : list (list Z)) (s : LinquOrchestratorState)
    : outcome LinquOrchestratorState :=
  if negb (has_space (task_ring_ s)) then
    wait_task_space MAX_SPINS arrivals (s <| task_block_count_ := u64 (task_block_count_ s + 1) |>)
  else Ok s.

(** [task_ring_.alloc()] and the fields written at once. *)
Definition open_task (kernel_so : string) (s : LinquOrchestratorState)
    : outcome (LinquOrchestratorState * Z) :=
  let! (ring, tid) := LinquTaskRing.alloc (task_ring_ s) in
  let s := s <| task_ring_ := ring |> in
  let depth := if 0 <=? depth (scope_stack_ s) then depth (scope_stack_ s) else 0 in
  let! s := upd_desc tid (fun d => d <| LinquTaskRing.kernel_so := kernel_so |>
              <| key := (key d) <| Coordinate.task_id := u32 tid |> <| scope_depth := u16 depth |> |>) s in
  Ok (s, tid).

(** An edge from [producer] to [tid]. *)
Definition add_edge (tid producer : Z) (s : LinquOrchestratorState) : outcome LinquOrchestratorState :=
  let! d := get_desc tid s in
  let! (pool, head) := prepend (dep_list_head d) producer (dep_pool_ s) in
  let! s := upd_desc tid (fun d => d <| dep_list_head := head |>) (s <| dep_pool_ := pool |>) in
  let! s := upd_desc producer (fun d => d <| fanout_count := u32 (fanout_count d + 1) |>) s in
  let! p := get_desc producer s in
  let! (pool, head) := prepend (fanout_list_head p) tid (dep_pool_ s) in
  upd_desc producer (fun d => d <| fanout_list_head := head |>) (s <| dep_pool_ := pool |>).

(** The dependency loop over the parameters. *)
Fixpoint link_params (tid : Z) (params : list LinquParam) (fanin : Z) (s : LinquOrchestratorState)
    : outcome (LinquOrchestratorState * Z) :=
  match params with
  | [] => Ok (s, fanin)
  | p :: params =>
      let! (s, fanin) :=
        (if reads p then
           let! r := lookup (handle p) (tensor_map_ s) in
           if found r then
             let! s := add_edge tid (result_producer r) s in
             Ok (s, u32 (fanin + 1))
           else Ok (s, fanin)
         else Ok (s, fanin)) in
      let! s :=
        (if writes p then
           let! m := insert (handle p) tid true (tensor_map_ s) in
           Ok (s <| tensor_map_ := m |>)
         else Ok s) in
      link_params tid params fanin s
  end.

(** Scope registration, [heap_end] and the counters. *)
Definition register_task (tid fanin : Z) (s : LinquOrchestratorState) : outcome LinquOrchestratorState :=
  let! s := upd_desc tid (fun d => d <| fanin_count := fanin |>) s in
  let! s :=
    (if 0 <=? depth (scope_stack_ s) then
       let! st := add_task tid (scope_stack_ s) in
       Ok (s <| scope_stack_ := st |>)
     else Ok s) in
  let! s := upd_desc tid (fun d => d <| heap_end := LinquHeapRing.top_ (heap_ring_ s) |>) s in
  let s := s <| tasks_submitted_ := tasks_submitted_ s + 1 |> in
  let tu := u64 (active_count (task_ring_ s)) in
  let s := if peak_task_used_ s <? tu then s <| peak_task_used_ := tu |> else s in
  let hu := LinquHeapRing.used (heap_ring_ s) in
  Ok (if peak_heap_used_ s <? hu then s <| peak_heap_used_ := hu |> else s).

Definition submit_task (target : LinquCoordinate_C) (kernel_so : option string)
    (params : list LinquParam) (arrivals : list (list Z)) (s : LinquOrchestratorState)
    : outcome LinquOrchestratorState :=
  let! s := reserve_task_slot arrivals s in
  let! (s, tid) := open_task (default "" kernel_so) s in
  let! (s, fanin) := link_params tid params 0 s in
  let! s := register_task tid fanin s in
  let tgt := coord_of_C target in
  let! s := upd_desc tid (set_desc_status RUNNING) s in
  match dispatcher_ s with
  | Some d => dispatcher_dispatch d tid tgt (default "" kernel_so) params s
  | None =>
      let s :=
        if dispatch_fn_ s
        then s <| dispatched := dispatched s ++ [mkDispatchRecord tid tgt (default "" kernel_so) params] |>
        else s in
      let! s := upd_desc tid (set_desc_status COMPLETED) s in
      propagate tid s
  end.

Definition submit_task_group (kernel_so : option string) (group_params : list LinquParam)
    (sub_tasks : list LinquSubTaskSpec) (arrivals : list (list Z)) (s : LinquOrchestratorState)
    : outcome LinquOrchestratorState :=
  let! s := reserve_task_slot arrivals s in
  let! (s, tid) := open_task (default "group" kernel_so) s in
  let! s := upd_desc tid (fun d => d <| is_group := true |> <| group_size := u32 (zlength sub_tasks) |>
                                    <| sub_complete_count := 0 |>) s in
  let! (s, fanin) := link_params tid group_params 0 s in
  let! s := register_task tid fanin s in
  if zlength sub_tasks =? 0 then
    let! s := upd_desc tid (set_desc_status COMPLETED) s in
    propagate tid s
  else if fanin =? 0 then
    let! s := upd_desc tid (set_desc_status RUNNING) s in
    dispatch_group_sub_tasks tid kernel_so group_params sub_tasks s
  else
    let! s := upd_desc tid (set_desc_status PENDING) s in
    let spec := mkPendingGroupSpec (default "" kernel_so) group_params sub_tasks
                  (map private_params sub_tasks) in
    Ok (s <| pending_group_specs_ := <[tid := spec]> (pending_group_specs_ s) |>).

(** ** Scopes, tensors and reports *)

Definition scope_begin (s : LinquOrchestratorState) : outcome LinquOrchestratorState :=
  let! st := LinquScopeStack.scope_begin (scope_stack_ s) in
  Ok (s <| scope_stack_ := st |> <| scope_begin_count_ := u64 (scope_begin_count_ s + 1) |>).

(** [for (i = cursor; i < current; i++) check_task_consumed(i)] *)
Fixpoint check_consumed_loop (n : nat) (i : Z) (s : LinquOrchestratorState)
    : outcome LinquOrchestratorState :=
  match n with
  | O => Ok s
  | S n => let! s := check_task_consumed i s in check_consumed_loop n (i + 1) s
  end.

Definition scope_end (s : LinquOrchestratorState) : outcome LinquOrchestratorState :=
  let! (st, ring) := LinquScopeStack.scope_end (scope_stack_ s) (task_ring_ s) in
  let s := s <| scope_stack_ := st |> <| task_ring_ := ring |>
             <| scope_end_count_ := u64 (scope_end_count_ s + 1) |> in
  let! s := lock s in
  let cursor := LinquTaskRing.last_task_alive_ (task_ring_ s) in
  let current := current_index_ (task_ring_ s) in
  let! s := check_consumed_loop (Z.to_nat (current - cursor)) cursor s in
  try_advance_ring_pointers (unlock s).

(** The spin loop of [alloc_tensor], [n] more sleeps allowed. *)
Fixpoint wait_heap_space (n : nat) (size_bytes : Z) (arrivals : list (list Z))
    (s : LinquOrchestratorState) : outcome LinquOrchestratorState :=
  match LinquHeapRing.try_alloc size_bytes (heap_ring_ s) with
  | (h, Some _) => Ok (s <| heap_ring_ := h |>)
  | (h, None) =>
      let! s := try_advance_ring_pointers (s <| heap_ring_ := h |>) in
      match LinquHeapRing.try_alloc size_bytes (heap_ring_ s) with
      | (h, Some _) => Ok (s <| heap_ring_ := h |>)
      | (h, None) =>
          let! s := deliver (hd [] arrivals) (s <| heap_ring_ := h |>) in
          match n with
          | O => Fault AssertFailed
          | S n => wait_heap_space n size_bytes (tl arrivals) s
          end
      end
  end.

Definition alloc_tensor (size_bytes : Z) (arrivals : list (list Z)) (s : LinquOrchestratorState)
    : outcome (LinquOrchestratorState * Z) :=
  let handle := next_tensor_handle_ s in
  let s := s <| next_tensor_handle_ := u64 (next_tensor_handle_ s + 1) |> in
  if 0 <? size_bytes then
    let! s :=
      match LinquHeapRing.try_alloc size_bytes (heap_ring_ s) with
      | (h, Some _) => Ok (s <| heap_ring_ := h |>)
      | (h, None) =>
          wait_heap_space MAX_SPINS size_bytes arrivals
            (s <| heap_ring_ := h |> <| heap_block_count_ := u64 (heap_block_count_ s + 1) |>)
      end in
    let hu := LinquHeapRing.used (heap_ring_ s) in
    Ok (if peak_heap_used_ s <? hu then s <| peak_heap_used_ := hu |> else s, handle)
  else Ok (s, handle).

Definition free_tensor (handle : Z) (s : LinquOrchestratorState) : LinquOrchestratorState :=
  s <| free_tensor_count_ := u64 (free_tensor_count_ s + 1) |>.

Definition orchestration_done (s : LinquOrchestratorState) : LinquOrchestratorState :=
  s <| done_ := true |>.

(** Waiting ends when the dispatcher has nothing outstanding; [arrivals] are
    the completions it delivers until then. *)
Definition wait_all (arrivals : list Z) (s : LinquOrchestratorState) : outcome LinquOrchestratorState :=
  match dispatcher_ s with
  | Some AsyncDispatcher => deliver arrivals s
  | _ => Ok s
  end.

Definition self_coord (s : LinquOrchestratorState) : LinquCoordinate_C := coord_to_C (coord_ s).

Definition current_metrics (s : LinquOrchestratorState) : RingMetrics :=
  mkRingMetrics (u8 (level_value (level_ s))) 0
    (u64 (window_size_ (task_ring_ s))) (peak_task_used_ s) (u64 (tasks_submitted_ s))
    (task_retire_count_ s) (task_block_count_ s)
    (LinquHeapRing.capacity_ (heap_ring_ s)) (peak_heap_used_ s) 0 0 0
    (scope_begin_count_ s) (scope_end_count_ s) (free_tensor_count_ s).

Definition generate_profile (node_id : string) (s : LinquOrchestratorState) : ProfileReport :=
  mkProfileReport node_id (u8 (level_value (level_ s))) [current_metrics s] (snapshots_ s).

Definition take_snapshot (label : string) (now_us : Z) (s : LinquOrchestratorState)
    : LinquOrchestratorState :=
  let depth := if 0 <=? depth (scope_stack_ s) then depth (scope_stack_ s) else 0 in
  let snap := mkRingSnapshot (u8 (level_value (level_ s))) (u16 depth) label now_us
    (u64 (window_size_ (task_ring_ s))) (u64 (active_count (task_ring_ s)))
    (u64 (LinquTaskRing.last_task_alive_ (task_ring_ s))) (u64 (current_index_ (task_ring_ s)))
    (LinquHeapRing.capacity_ (heap_ring_ s)) (LinquHeapRing.used (heap_ring_ s))
    (tail_ (heap_ring_ s)) (LinquHeapRing.top_ (heap_ring_ s))
    (u64 (tasks_submitted_ s)) (task_retire_count_ s) (free_tensor_count_ s) in
  s <| snapshots_ := snapshots_ s ++ [snap] |>.
