(* ===== verification/Caches.v ===== *)
(** * Node storage, code cache and data cache

    Models [src/src/daemon/storage.h], [storage.cpp], [code_cache.h],
    [code_cache.cpp] and [data_cache.h].  The dynamic loader, the file system
    and the code inside a loaded library are the environment of the program:
    the class [Host] lists what the code asks of them.  A library handle and a
    function pointer are numbers; the name of a kernel comes from a message
    and is its bytes.  [DlCall] records the calls of the loader that take or
    give back a handle. *)

From S2P Require Import Prelude Paths Bytes Coordinate StdMap PeerRegistry LinquOrchestratorState.

(** ** The environment *)
Class Host := {
  (** [std::ofstream f(path)] succeeds. *)
  can_write : list Z -> bool;
  (** [stat(path)] succeeds and shows a directory. *)
  is_directory : string -> bool;
  dlopen : list Z -> option Z;
  dlsym_entry : Z -> option Z;
  dlsym_config : Z -> option Z;
  (** The kernel behind a function pointer, applied to its arguments: it
      drives the orchestrator through the operations of the runtime, and can
      ask for the peers in the registry of the daemon. *)
  run_entry : Z -> list Z -> PeerRegistry -> LinquOrchestratorState -> outcome LinquOrchestratorState;
}.

(** ** storage.cpp *)
Record NodeStoragePaths := mkPaths {
  node_dir : string;
  code_cache_dir : string;
  data_cache_dir : string;
  logs_dir : string;
}.

Definition node_dir_path (base_path : string) (coord : LinquCoordinate) : string :=
  base_path +:+ "/L6_" +:+ std_to_string (l6_idx coord)
            +:+ "/L5_" +:+ std_to_string (l5_idx coord)
            +:+ "/L4_" +:+ std_to_string (l4_idx coord)
            +:+ "/L3_" +:+ std_to_string (l3_idx coord).

(** The paths and the [mkdir] calls. *)
Definition create_node_storage (base_path : string) (coord : LinquCoordinate)
    : NodeStoragePaths * list string :=
  let dir := node_dir_path base_path coord in
  let paths := mkPaths dir (dir +:+ "/code_cache") (dir +:+ "/data_cache") (dir +:+ "/logs") in
  (paths, mkdir_p (node_dir paths) ++ mkdir_p (code_cache_dir paths) ++
          mkdir_p (data_cache_dir paths) ++ mkdir_p (logs_dir paths)).

Definition node_storage_exists `{Host} (base_path : string) (coord : LinquCoordinate) : bool :=
  is_directory (node_dir_path base_path coord).

(** ** data_cache.h *)
Module DataCache.
Definition DataCache := gmap Z (list Z).
Definition register_data (handle : Z) (data : list Z) (c : DataCache) : DataCache :=
  <[handle := data]> c.
(** The pointer and the size; [(nullptr, 0)] when the handle is unknown. *)
Definition lookup (handle : Z) (c : DataCache) : option (list Z) * Z :=
  match c !! handle with Some d => (Some d, zlength d) | None => (None, 0) end.
Definition has (handle : Z) (c : DataCache) : bool := bool_decide (is_Some (c !! handle)).
Definition remove (handle : Z) (c : DataCache) : DataCache := delete handle c.
Definition clear (c : DataCache) : DataCache := ∅.
Definition size (c : DataCache) : Z := Z.of_nat (base.size c).
End DataCache.

(** ** code_cache.cpp *)
Module CodeCache.
Record LoadedKernel := mkKernel {
  dl_handle : option Z;
  entry_fn : option Z;
  config_fn : option Z;
  so_path : list Z;
}.

(** [LoadedKernel{}] *)
Definition no_kernel : LoadedKernel := mkKernel None None None [].

Record CodeCache := mk {
  storage_path_ : list Z;
  name_to_path_ : gmap (list Z) (list Z);
  loaded_ : gmap (list Z) LoadedKernel;
}.

#[global] Instance set_name_to_path_ : Setter name_to_path_ := fun f c =>
  mk (storage_path_ c) (f (name_to_path_ c)) (loaded_ c).
#[global] Instance set_loaded_ : Setter loaded_ := fun f c =>
  mk (storage_path_ c) (name_to_path_ c) (f (loaded_ c)).

(** The cache and the directories made for it. *)
Definition new (storage_path : string) : CodeCache * list string :=
  (mk (bytes_of_string storage_path) ∅ ∅,
   if String.eqb storage_path "" then []
   else mkdir_p storage_path ++ mkdir_p (storage_path +:+ "/code")).

Definition code_path (name : list Z) (c : CodeCache) : list Z :=
  storage_path_ c ++ bytes_of_string "/code/" ++ name.

(** The data goes into the file at the path. *)
Definition register_code `{Host} (name : list Z) (data : list Z) (c : CodeCache) : CodeCache :=
  let path := code_path name c in
  if can_write path then c <| name_to_path_ := <[name := path]> (name_to_path_ c) |> else c.

Definition has (name : list Z) (c : CodeCache) : bool :=
  bool_decide (is_Some (name_to_path_ c !! name)).

Inductive DlCall := Opened (h : Z) | Closed (h : Z).

Definition load `{Host} (name : list Z) (c : CodeCache) : LoadedKernel * CodeCache * list DlCall :=
  match loaded_ c !! name with
  | Some k => (k, c, [])
  | None =>
      match name_to_path_ c !! name with
      | None => (no_kernel, c, [])
      | Some path =>
          match dlopen path with
          | None => (no_kernel, c, [])
          | Some h =>
              let k := mkKernel (Some h) (dlsym_entry h) (dlsym_config h) path in
              match entry_fn k with
              | None => (no_kernel, c, [Opened h; Closed h])
              | Some _ => (k, c <| loaded_ := <[name := k]> (loaded_ c) |>, [Opened h])
              end
          end
      end
  end.

(** The map is iterated in some order. *)
Definition unload_all (c : CodeCache) : CodeCache * list DlCall :=
  (c <| loaded_ := ∅ |>,
   omap (fun nk => Closed <$> dl_handle nk.2) (map_to_list (loaded_ c))).
End CodeCache.

(** ** Properties of the caches *)
Section code_cache.
Context `{Host}.
Import CodeCache.

(** Every kernel in [loaded_] is complete, and its library is registered. *)
Definition cache_ok (c : CodeCache) : Prop :=
  map_Forall (fun name k => is_Some (dl_handle k) /\ is_Some (entry_fn k) /\
    is_Some (name_to_path_ c !! name)) (loaded_ c).

(** How often a handle was opened and not yet closed. *)
Fixpoint balance (h : Z) (calls : list DlCall) : Z :=
  match calls with
  | [] => 0
  | Opened x :: calls => (if decide (x = h) then 1 else 0) + balance h calls
  | Closed x :: calls => balance h calls - (if decide (x = h) then 1 else 0)
  end.

(** How often the cache holds a handle. *)
Definition held (h : Z) (c : CodeCache) : Z :=
  Z.of_nat (length (filter (fun nk => dl_handle nk.2 = Some h) (map_to_list (loaded_ c)))).

Lemma balance_closed h (l : list (list Z * LoadedKernel)) :
  balance h (omap (fun nk => Closed <$> dl_handle nk.2) l) =
    - Z.of_nat (length (filter (fun nk => dl_handle nk.2 = Some h) l)).
Proof.
  induction l as [|[n k] l IH]; [done|]. rewrite filter_cons. cbn [omap list_omap fst snd].
  destruct (dl_handle k) as [x|]; cbn [fmap option_fmap option_map].
  - cbn [balance]. rewrite IH. destruct (decide (x = h)) as [->|Hne].
    + rewrite decide_True by done. simpl. lia.
    + rewrite decide_False by congruence. lia.
  - rewrite IH, decide_False by done. lia.
Qed.

Lemma held_insert h name k c : loaded_ c !! name = None ->
  held h (c <| loaded_ := <[name := k]> (loaded_ c) |>) =
    held h c + (if decide (dl_handle k = Some h) then 1 else 0).
Proof.
  intros Hn. unfold held. simpl.
  rewrite (map_to_list_insert (loaded_ c) name k Hn). rewrite filter_cons. simpl.
  destruct (decide (dl_handle k = Some h)); simpl; lia.
Qed.
End code_cache.

(** The code cache loads a library once and gives every handle back.
    [load] returns a kernel with an entry point exactly when the name is
    loaded already, or is registered and its library opens and has one;
    loading it again returns the same kernel without asking the loader; in
    every other case the result is the empty kernel and the cache is as it
    was.  On every path the handles opened and not closed are those of the
    kernels in the cache, and [unload_all] closes each of them. *)
Theorem code_cache_load `{Host} name c k c' calls :
  cache_ok c -> CodeCache.load name c = (k, c', calls) ->
  (forall h, balance h (CodeCache.unload_all c').2 = - held h c') /\
  cache_ok c' /\
  (is_Some (CodeCache.entry_fn k) <->
     is_Some (CodeCache.loaded_ c !! name) \/
     exists path h, CodeCache.name_to_path_ c !! name = Some path /\ dlopen path = Some h /\
       is_Some (dlsym_entry h)) /\
  (is_Some (CodeCache.entry_fn k) -> CodeCache.load name c' = (k, c', [])) /\
  (CodeCache.entry_fn k = None -> k = CodeCache.no_kernel /\ c' = c) /\
  (forall h, balance h calls = held h c' - held h c).
Proof.
  intros Hok Hl. split; [intros h; apply balance_closed|]. unfold CodeCache.load in Hl.
  destruct (CodeCache.loaded_ c !! name) as [k0|] eqn:E0.
  { injection Hl as <- <- <-. destruct (Hok _ _ E0) as (_ & [e He] & _).
    split_and!; [done|split; [by left|by eexists]| |by rewrite He|intros h; simpl; lia].
    intros _. unfold CodeCache.load. by rewrite E0. }
  assert (Hnone : k = CodeCache.no_kernel -> c' = c -> (forall h, balance h calls = 0) ->
    ~ (exists path h, CodeCache.name_to_path_ c !! name = Some path /\ dlopen path = Some h /\
       is_Some (dlsym_entry h)) ->
    cache_ok c' /\ (is_Some (CodeCache.entry_fn k) <-> is_Some (None : option CodeCache.LoadedKernel) \/
      exists path h, CodeCache.name_to_path_ c !! name = Some path /\ dlopen path = Some h /\
       is_Some (dlsym_entry h)) /\
    (is_Some (CodeCache.entry_fn k) -> CodeCache.load name c' = (k, c', [])) /\
    (CodeCache.entry_fn k = None -> k = CodeCache.no_kernel /\ c' = c) /\
    (forall h, balance h calls = held h c' - held h c)).
  { intros -> -> Hb Hne. split_and!; [done| |by intros [? ?]|done|intros h; rewrite Hb; lia].
    split; [by intros [? ?]|]. intros [[? ?]|?]; done. }
  destruct (CodeCache.name_to_path_ c !! name) as [path|] eqn:E1.
  2:{ injection Hl as <- <- <-. apply Hnone; try done. by intros (? & ? & ? & _). }
  destruct (dlopen path) as [h|] eqn:E2.
  2:{ injection Hl as <- <- <-. apply Hnone; try done.
      intros (p & h & [= <-] & Hd & _). congruence. }
  cbv zeta in Hl. cbn [CodeCache.entry_fn] in Hl. destruct (dlsym_entry h) as [e|] eqn:E3.
  2:{ injection Hl as <- <- <-. apply Hnone; try done.
      - intros x. simpl. lia.
      - intros (p & h' & [= <-] & Hd & [? He]). congruence. }
  clear Hnone. injection Hl as <- <- <-. split_and!; [| | |done|].
  - apply map_Forall_insert; [done|]. split; [by simpl; eauto|]. exact Hok.
  - split; [intros _; right; eauto 6|by eexists].
  - intros _. unfold CodeCache.load. simpl. by rewrite lookup_insert_eq.
  - intros x. rewrite held_insert by done. simpl.
    destruct (decide (h = x)), (decide (Some h = Some x)); try congruence; lia.
Qed.

Definition sample_host : Host := {|
  can_write _ := true;
  is_directory _ := true;
  dlopen p := if decide (p = bytes_of_string "/n/code/k.so") then Some 77 else None;
  dlsym_entry h := if h =? 77 then Some 5 else None;
  dlsym_config _ := None;
  run_entry _ _ _ s := Ok s;
|}.

Definition sample_cache : CodeCache.CodeCache :=
  @CodeCache.register_code sample_host (bytes_of_string "k.so") [1; 2; 3] (CodeCache.new "/n").1.

Lemma code_cache_load_witness :
  exists k c', @CodeCache.load sample_host (bytes_of_string "k.so") sample_cache =
      (k, c', [CodeCache.Opened 77]) /\
    @CodeCache.load sample_host (bytes_of_string "k.so") c' = (k, c', []).
Proof.
  eexists _, _. split; [reflexivity|].
  eapply (@code_cache_load sample_host (bytes_of_string "k.so") sample_cache);
    [apply map_Forall_empty|reflexivity|by eexists].
Defined.
