(* ===== verification/NodeDaemon.v ===== *)
(** * NodeDaemon: the process of a node

    Models [src/src/daemon/node_daemon.h] and [node_daemon.cpp].  A handler is
    one function on the state of the daemon; the messages it sends are
    returned as the connections it made.  What an operation meets outside the
    process is an argument: the incoming connection ([incoming]), the answers
    to the calls of [send_task_complete] ([reply_answers]), and the loader and
    the kernels ([Host]).  The log lines on [stderr] are left out. *)

From S2P Require Import Prelude Paths Bytes Coordinate LinquHeader MsgTypes UnixSocketTransport.
From S2P Require Import StdMap PeerRegistry RingMetrics Json LinquOrchestratorState Caches.

Record NodeDaemon := mkDaemon {
  level_ : Level;
  coord_ : LinquCoordinate;
  base_path_ : string;
  storage_path_ : string;
  transport_ : UnixSocketTransport;
  registry_ : PeerRegistry;
  code_cache_ : CodeCache.CodeCache;
  data_cache_ : DataCache.DataCache;
  running_ : bool;
  messages_handled_ : Z;
  task_profiles_ : list ProfileReport;
}.

#[export] Instance set_transport_ : Setter transport_ := fun f d =>
  mkDaemon (level_ d) (coord_ d) (base_path_ d) (storage_path_ d) (f (transport_ d)) (registry_ d)
    (code_cache_ d) (data_cache_ d) (running_ d) (messages_handled_ d) (task_profiles_ d).
#[export] Instance set_registry_ : Setter registry_ := fun f d =>
  mkDaemon (level_ d) (coord_ d) (base_path_ d) (storage_path_ d) (transport_ d) (f (registry_ d))
    (code_cache_ d) (data_cache_ d) (running_ d) (messages_handled_ d) (task_profiles_ d).
#[export] Instance set_code_cache_ : Setter code_cache_ := fun f d =>
  mkDaemon (level_ d) (coord_ d) (base_path_ d) (storage_path_ d) (transport_ d) (registry_ d)
    (f (code_cache_ d)) (data_cache_ d) (running_ d) (messages_handled_ d) (task_profiles_ d).
#[export] Instance set_data_cache_ : Setter data_cache_ := fun f d =>
  mkDaemon (level_ d) (coord_ d) (base_path_ d) (storage_path_ d) (transport_ d) (registry_ d)
    (code_cache_ d) (f (data_cache_ d)) (running_ d) (messages_handled_ d) (task_profiles_ d).
#[export] Instance set_running_ : Setter running_ := fun f d =>
  mkDaemon (level_ d) (coord_ d) (base_path_ d) (storage_path_ d) (transport_ d) (registry_ d)
    (code_cache_ d) (data_cache_ d) (f (running_ d)) (messages_handled_ d) (task_profiles_ d).
#[export] Instance set_messages_handled_ : Setter messages_handled_ := fun f d =>
  mkDaemon (level_ d) (coord_ d) (base_path_ d) (storage_path_ d) (transport_ d) (registry_ d)
    (code_cache_ d) (data_cache_ d) (running_ d) (f (messages_handled_ d)) (task_profiles_ d).
#[export] Instance set_task_profiles_ : Setter task_profiles_ := fun f d =>
  mkDaemon (level_ d) (coord_ d) (base_path_ d) (storage_path_ d) (transport_ d) (registry_ d)
    (code_cache_ d) (data_cache_ d) (running_ d) (messages_handled_ d) (f (task_profiles_ d)).

(** The constructor and the directories it makes. *)
Definition new_daemon (level : Level) (coord : LinquCoordinate) (base_path : string)
    : NodeDaemon * list string :=
  let sock_path := make_socket_path base_path coord (level_value level) in
  let storage_path :=
    match split_last_slash sock_path with
    | Some (dir, _) => dir
    | None => base_path +:+ "/" +:+ sock_path
    end in
  let '(cache, dirs) := CodeCache.new storage_path in
  (mkDaemon level coord base_path storage_path
     (new_transport base_path coord (level_value level)) [] cache ∅ false 0 [], dirs).

Definition start (socket_ret bind_ret listen_ret : Z) (d : NodeDaemon)
    : bool * NodeDaemon * list SysCall :=
  let calls := Mkdir <$> mkdir_p (storage_path_ d) in
  let '(ok, t, more) := start_listening socket_ret bind_ret listen_ret (transport_ d) in
  let d := d <| transport_ := t |> in
  if negb ok then (false, d, calls ++ more) else (true, d <| running_ := true |>, calls ++ more).

(** The reports, between brackets and with commas between them. *)
Fixpoint profile_entries (ps : list ProfileReport) : string :=
  match ps with
  | [] => ""
  | p :: ps => to_json p +:+ (match ps with [] => "" | _ => "," end) +:+ nl +:+ profile_entries ps
  end.

(** The directories made, and the file written with its text: nothing when
    there is no report, no file when it cannot be opened. *)
Definition write_profile_json `{Host} (d : NodeDaemon) : list SysCall * option (string * string) :=
  match task_profiles_ d with
  | [] => ([], None)
  | ps =>
      let logs_dir := storage_path_ d +:+ "/logs" in
      let path := logs_dir +:+ "/ring_profile.json" in
      (Mkdir <$> mkdir_p logs_dir,
       if can_write (bytes_of_string path)
       then Some (path, "[" +:+ nl +:+ profile_entries ps +:+ "]" +:+ nl) else None)
  end.

Definition stop `{Host} (d : NodeDaemon)
    : NodeDaemon * option (string * string) * list SysCall * list CodeCache.DlCall :=
  let d := d <| running_ := false |> in
  let '(made, file) := write_profile_json d in
  let '(t, calls) := UnixSocketTransport.stop (transport_ d) in
  let '(cache, dl) := CodeCache.unload_all (code_cache_ d) in
  (d <| transport_ := t |> <| code_cache_ := cache |>, file, made ++ calls, dl).

(** ** Answering *)

(** The results of [socket], of [connect] to a path, and of the two [write]s,
    which are not checked. *)
Record reply_answers := mkReply {
  reply_socket : Z;
  reply_connect : string -> Z;
  reply_write1 : Z;
  reply_write2 : Z;
}.

(** What a [write] that returned [n] put into the connection. *)
Definition written (n : Z) (data : list Z) : list Z := take (Z.to_nat n) data.

Definition send_task_complete (sender_coord : LinquCoordinate) (level task_id status : Z)
    (rep : reply_answers) (d : NodeDaemon) : outcome (option connection) :=
  let! buf := TaskCompletePayload.serialize (TaskCompletePayload.mk task_id status) in
  let resp := make TASK_COMPLETE (level_value (level_ d)) (coord_ d) sender_coord (u32 (zlength buf)) in
  let resp := resp <| sender_level := level_value (level_ d) |> in
  let sender_sock := make_socket_path (base_path_ d) sender_coord level in
  if reply_socket rep <? 0 then Ok None else
  let path := sun_path sender_sock in
  if reply_connect rep path <? 0 then Ok None else
  let! wire := serialize resp (zeros WIRE_SIZE) in
  Ok (Some (path, written (reply_write1 rep) wire ++ written (reply_write2 rep) buf)).

(** ** The handlers *)
Section handlers.
Context `{Host}.

Definition task_arg (pe : CallTaskPayload.ParamEntry) : Z :=
  if CallTaskPayload.type pe =? 3 then CallTaskPayload.scalar_value pe
  else CallTaskPayload.handle pe.

Definition is_tensor (pe : CallTaskPayload.ParamEntry) : bool :=
  (CallTaskPayload.type pe =? 0) || (CallTaskPayload.type pe =? 2) || (CallTaskPayload.type pe =? 1).

Fixpoint alloc_tensors (ps : list CallTaskPayload.ParamEntry) (s : LinquOrchestratorState)
    : outcome LinquOrchestratorState :=
  match ps with
  | [] => Ok s
  | pe :: ps =>
      if is_tensor pe then let! (s, _) := alloc_tensor 0 [] s in alloc_tensors ps s
      else alloc_tensors ps s
  end.

(** The branch of [handle_call_task] with a kernel. *)
Definition run_kernel (entry_fn : Z) (params : list CallTaskPayload.ParamEntry) (d : NodeDaemon)
    : outcome NodeDaemon :=
  let! state := init (level_ d) (coord_ d) default_config new_state in
  let! state := alloc_tensors params state in
  let! state := run_entry entry_fn (task_arg <$> params) (registry_ d) state in
  let profile := generate_profile (to_string (coord_ d)) state in
  Ok (d <| task_profiles_ := task_profiles_ d ++ [profile] |>).

(** Loading the kernel and running it; a name without kernel is a mock
    execution. *)
Definition execute_task (task : CallTaskPayload.CallTaskPayload) (d : NodeDaemon)
    : outcome NodeDaemon :=
  let '(kernel, cache, _) := CodeCache.load (CallTaskPayload.kernel_so_name task) (code_cache_ d) in
  let d := d <| code_cache_ := cache |> in
  match CodeCache.entry_fn kernel with
  | Some fn => run_kernel fn (CallTaskPayload.params task) d
  | None => Ok d
  end.

Definition handle_call_task (hdr : LinquHeader) (payload : list Z) (rep : reply_answers)
    (d : NodeDaemon) : outcome (NodeDaemon * option connection) :=
  let! task := CallTaskPayload.deserialize payload (zlength payload) in
  let! d := execute_task task d in
  let! conn := send_task_complete (get_sender hdr) (sender_level hdr)
                 (CallTaskPayload.task_id task) 0 rep d in
  Ok (d, conn).

Definition handle_shutdown (d : NodeDaemon) : NodeDaemon := d <| running_ := false |>.

Definition handle_reg_code (payload : list Z) (d : NodeDaemon) : outcome NodeDaemon :=
  let! reg := RegCodePayload.deserialize payload (zlength payload) in
  if 0 <? zlength (RegCodePayload.code_binary reg) then
    let name := bytes_of_string ("blob_" +:+ std_to_string (RegCodePayload.blob_hash reg) +:+ ".so") in
    Ok (d <| code_cache_ :=
           CodeCache.register_code name (RegCodePayload.code_binary reg) (code_cache_ d) |>)
  else Ok d.

Definition handle_reg_data (payload : list Z) (d : NodeDaemon) : outcome NodeDaemon :=
  let! reg := RegDataPayload.deserialize payload (zlength payload) in
  if 0 <? zlength (RegDataPayload.buffer_bytes reg) then
    Ok (d <| data_cache_ :=
           DataCache.register_data (RegDataPayload.data_handle reg) (RegDataPayload.buffer_bytes reg)
             (data_cache_ d) |>)
  else Ok d.

Definition handle_scope_exit (payload : list Z) (d : NodeDaemon) : outcome NodeDaemon :=
  let! _ := ScopeExitPayload.deserialize payload (zlength payload) in Ok d.

(** The peer is entered at the level of this daemon, without a socket path. *)
Definition handle_heartbeat (payload : list Z) (d : NodeDaemon) : outcome NodeDaemon :=
  let! hb := HeartbeatPayload.deserialize payload (zlength payload) in
  let coord := mkCoord (HeartbeatPayload.sender_l6 hb) (HeartbeatPayload.sender_l5 hb)
                 (HeartbeatPayload.sender_l4 hb) (HeartbeatPayload.sender_l3 hb) 0 0 0 in
  let info := mkPeerInfo coord (level_value (level_ d)) "" (HeartbeatPayload.status hb =? 0) in
  Ok (d <| registry_ := add info (registry_ d) |>).

(** The [switch] on the message type. *)
Definition dispatch_message (hdr : LinquHeader) (payload : list Z) (rep : reply_answers)
    (d : NodeDaemon) : outcome (NodeDaemon * option connection) :=
  let quiet (m : outcome NodeDaemon) := let! d := m in Ok (d, None) in
  if msg_type hdr =? CALL_TASK then handle_call_task hdr payload rep d
  else if msg_type hdr =? SHUTDOWN then Ok (handle_shutdown d, None)
  else if msg_type hdr =? HEARTBEAT then quiet (handle_heartbeat payload d)
  else if msg_type hdr =? REG_CODE then quiet (handle_reg_code payload d)
  else if msg_type hdr =? REG_DATA then quiet (handle_reg_data payload d)
  else if msg_type hdr =? SCOPE_EXIT then quiet (handle_scope_exit payload d)
  else Ok (d, None).

(** The result of [handle_one_message] ([None]: still receiving), the daemon
    and the connection made. *)
Definition handle_one_message (inc : incoming) (rep : reply_answers) (d : NodeDaemon)
    : outcome (option bool * NodeDaemon * option connection) :=
  let! (ok, hdr, payload) := recv (transport_ d) inc (mkHeader 0 0 0 0 0 0 0 0 0 0 0 0 0 0 0 0 0 0) [] in
  match ok with
  | Some true =>
      if negb (magic hdr =? LINQU_MAGIC) then Ok (Some false, d, None) else
      let! n := i32_add (messages_handled_ d) 1 in
      let! (d, conn) := dispatch_message hdr payload rep (d <| messages_handled_ := n |>) in
      Ok (Some true, d, conn)
  | _ => Ok (ok, d, None)
  end.

(** [run_event_loop]: the list holds what each turn meets; the loop may still
    be running when it is used up. *)
Fixpoint event_loop (max_messages count : Z) (events : list (incoming * reply_answers))
    (d : NodeDaemon) : outcome (bool * NodeDaemon * list connection) :=
  if negb (running_ d) then Ok (true, d, []) else
  if (0 <=? max_messages) && (max_messages <=? count) then Ok (true, d, []) else
  match events with
  | [] => Ok (false, d, [])
  | (inc, rep) :: events =>
      let! (ok, d, conn) := handle_one_message inc rep d in
      match ok with
      | None => Ok (false, d, [])
      | Some handled =>
          let! count := (if handled : bool then i32_add count 1 else Ok count) in
          let! (ended, d, conns) := event_loop max_messages count events d in
          Ok (ended, d, match conn with Some c => c :: conns | None => conns end)
      end
  end.
End handlers.

(** ** Properties *)

(** What the address of a daemon is made of never changes. *)
Definition same_place (d d' : NodeDaemon) : Prop :=
  level_ d' = level_ d /\ coord_ d' = coord_ d /\ base_path_ d' = base_path_ d /\
  storage_path_ d' = storage_path_ d /\ transport_ d' = transport_ d.

Lemma same_place_refl d : same_place d d.
Proof. by repeat split. Qed.

Section properties.
Context `{Host}.

Lemma execute_task_place task d d' : execute_task task d = Ok d' -> same_place d d'.
Proof.
  unfold execute_task. destruct (CodeCache.load _ _) as [[k c] calls].
  destruct (CodeCache.entry_fn k); [|by intros [= <-]].
  unfold run_kernel. intros. inv_ok. by repeat split.
Qed.

(** The parts of the daemon that a handler leaves alone. *)
Ltac unchanged :=
  eexists; split; [done|]; split_and!; try done; try apply same_place_refl; try (by repeat split).

(** Nothing but a kernel call can bring a daemon down.  A message of any
    other type, known or not, with any payload, is handled without a fault:
    only [SHUTDOWN] ends the event loop, only [HEARTBEAT] touches the
    registry, which stays ordered, only [REG_CODE] the code cache and only
    [REG_DATA] the data cache; no such message is answered. *)
Theorem daemon_survives_messages hdr payload rep d :
  msg_type hdr <> CALL_TASK -> bytes_ok payload -> in_u32 (zlength payload + 4) ->
  exists d', dispatch_message hdr payload rep d = Ok (d', None) /\ same_place d d' /\
    running_ d' = running_ d && negb (msg_type hdr =? SHUTDOWN) /\
    task_profiles_ d' = task_profiles_ d /\
    (registry_ok (registry_ d) -> registry_ok (registry_ d')) /\
    (msg_type hdr <> HEARTBEAT -> registry_ d' = registry_ d) /\
    (msg_type hdr <> REG_CODE -> code_cache_ d' = code_cache_ d) /\
    (msg_type hdr <> REG_DATA -> data_cache_ d' = data_cache_ d).
Proof.
  intros Hc Hb Hl. unfold dispatch_message.
  assert (Hlen : 0 <= zlength payload <= zlength payload) by (pose proof (zlength_ge_0 payload); lia).
  destruct (Z.eqb_spec (msg_type hdr) CALL_TASK) as [|_]; [done|].
  destruct (Z.eqb_spec (msg_type hdr) SHUTDOWN) as [Hs|Hs]; simpl negb; rewrite ?andb_false_r, ?andb_true_r.
  { unchanged. }
  destruct (Z.eqb_spec (msg_type hdr) HEARTBEAT) as [Hh|_].
  { destruct (parses_safely_intro HeartbeatPayload.HeartbeatPayload payload _ Hb Hlen Hl) as (hb & Hd & _).
    unfold handle_heartbeat. simpl in Hd. rewrite Hd. bind_simpl. unchanged.
    intros Hr. by apply add_ok. }
  destruct (Z.eqb_spec (msg_type hdr) REG_CODE) as [Hh|_].
  { destruct (parses_safely_intro RegCodePayload.RegCodePayload payload _ Hb Hlen Hl) as (rc & Hd & _).
    unfold handle_reg_code. simpl in Hd. rewrite Hd. bind_simpl.
    destruct (0 <? _); unchanged. }
  destruct (Z.eqb_spec (msg_type hdr) REG_DATA) as [Hh|_].
  { destruct (parses_safely_intro RegDataPayload.RegDataPayload payload _ Hb Hlen Hl) as (rd & Hd & _).
    unfold handle_reg_data. simpl in Hd. rewrite Hd. bind_simpl.
    destruct (0 <? _); unchanged. }
  destruct (Z.eqb_spec (msg_type hdr) SCOPE_EXIT) as [Hh|_].
  { destruct (parses_safely_intro ScopeExitPayload.ScopeExitPayload payload _ Hb Hlen Hl) as (se & Hd & _).
    unfold handle_scope_exit. simpl in Hd. rewrite Hd. bind_simpl.
    unchanged. }
  unchanged.
Qed.

(** The answer to a call, as it leaves the daemon. *)
Definition answer_header (d : NodeDaemon) (sender : LinquCoordinate) : LinquHeader :=
  make TASK_COMPLETE (level_value (level_ d)) (coord_ d) sender 8.

Definition answer_payload (task_id : Z) : list Z := be 4 task_id ++ be 4 0.

Lemma sender_level_of_make type level sender target size :
  (make type level sender target size) <| sender_level := level |> = make type level sender target size.
Proof. vm_compute. reflexivity. Qed.

Lemma send_task_complete_eq sender level task_id rep d :
  0 <= reply_socket rep ->
  0 <= reply_connect rep (sun_path (make_socket_path (base_path_ d) sender level)) ->
  reply_write1 rep = WIRE_SIZE -> reply_write2 rep = 8 ->
  send_task_complete sender level task_id 0 rep d =
    Ok (Some (sun_path (make_socket_path (base_path_ d) sender level),
              message (answer_header d sender) (answer_payload task_id))).
Proof.
  intros Hs Hc H1 H2. unfold send_task_complete.
  change (TaskCompletePayload.serialize (TaskCompletePayload.mk task_id 0)) with
    (Ok (answer_payload task_id) : outcome (list Z)). bind_simpl.
  change (u32 (zlength (answer_payload task_id))) with 8.
  rewrite sender_level_of_make. fold (answer_header d sender).
  rewrite (proj2 (Z.ltb_ge (reply_socket rep) 0)) by done.
  rewrite (proj2 (Z.ltb_ge (reply_connect rep _) 0)) by done.
  rewrite header_serialize_eq by done. bind_simpl. unfold written. rewrite H1, H2.
  pose proof (zlength_header (answer_header d sender)) as Hw. unfold message.
  rewrite (take_ge (encoding _)) by (unfold zlength, WIRE_SIZE in *; lia).
  by rewrite (take_ge (answer_payload task_id)) by (unfold answer_payload; rewrite length_app, !length_be; lia).
Qed.

Lemma call_handled call bs sender target level size rep d d1 :
  CallTaskPayload.wf call -> CallTaskPayload.serialize call = Ok bs -> coord_ok sender ->
  execute_task call d = Ok d1 ->
  let path := sun_path (make_socket_path (base_path_ d) (visible 0 sender) level) in
  0 <= reply_socket rep -> 0 <= reply_connect rep path ->
  reply_write1 rep = WIRE_SIZE -> reply_write2 rep = 8 ->
  dispatch_message (make CALL_TASK level sender target size) bs rep d =
    Ok (d1, Some (path, message (answer_header d1 (visible 0 sender))
                          (answer_payload (CallTaskPayload.task_id call)))).
Proof.
  intros Hwf Hser Hsend Hex path Hs Hc H1 H2.
  destruct (CallTaskPayload.call_task_bytes call Hwf) as (bs' & Hs' & _ & _ & Hd).
  assert (bs' = bs) as -> by congruence.
  destruct (execute_task_place call d d1 Hex) as (_ & _ & Hbase & _).
  unfold dispatch_message. simpl. unfold handle_call_task. rewrite Hd. bind_simpl. rewrite Hex. bind_simpl.
  rewrite get_sender_make by done. change (mkCoord _ _ _ _ 0 0 0) with (visible 0 sender).
  change (sender_level _) with level.
  rewrite send_task_complete_eq; rewrite ?Hbase; done.
Qed.

Lemma answer_parses task_id : in_u32 task_id ->
  TaskCompletePayload.deserialize (answer_payload task_id) 8 = Ok (TaskCompletePayload.mk task_id 0).
Proof.
  intros Ht. unfold answer_payload, TaskCompletePayload.deserialize, peek_be.
  change (8 <? 8) with false. cbv iota. read_fields. by rewrite !unbe_be4 by auto with linqu.
Qed.

(** A kernel call is answered once, at the caller.  When the payload is
    the serialization of a call and the kernel (if there is one under the
    name) returns, the daemon makes one connection, to the socket of the
    sender's coordinate and level below the daemon's base path, and sends a
    [TASK_COMPLETE] message with the task id of the call and status 0. *)
Theorem daemon_answers_call call bs sender target level size rep d d1 :
  CallTaskPayload.wf call -> CallTaskPayload.serialize call = Ok bs -> coord_ok sender ->
  execute_task call d = Ok d1 ->
  let path := sun_path (make_socket_path (base_path_ d) (visible 0 sender) level) in
  0 <= reply_socket rep -> 0 <= reply_connect rep path ->
  reply_write1 rep = WIRE_SIZE -> reply_write2 rep = 8 ->
  exists payload,
    dispatch_message (make CALL_TASK level sender target size) bs rep d =
      Ok (d1, Some (path, message (make TASK_COMPLETE (level_value (level_ d1)) (coord_ d1)
                                     (visible 0 sender) 8) payload)) /\
    TaskCompletePayload.deserialize payload (zlength payload) =
      Ok (TaskCompletePayload.mk (CallTaskPayload.task_id call) 0).
Proof.
  intros Hwf Hser Hsend Hex path Hs Hc H1 H2. eexists. split; [by apply call_handled|].
  change (zlength (answer_payload (CallTaskPayload.task_id call))) with 8.
  apply answer_parses. apply Hwf.
Qed.
End properties.

Definition sample_daemon : NodeDaemon := (new_daemon HOST (mkCoord 0 1 2 5 0 0 0) "/tmp/cluster").1.
Definition sample_reply : reply_answers := mkReply 3 (fun _ => 0) 24 8.

(** An unknown message type. *)
Lemma daemon_survives_messages_witness :
  exists d', @dispatch_message sample_host (make 200 4 zero_coord zero_coord 2) [1; 2] sample_reply
    sample_daemon = Ok (d', None) /\ running_ d' = running_ sample_daemon.
Proof.
  assert (H1 : msg_type (make 200 4 zero_coord zero_coord 2) <> CALL_TASK) by (intros H; discriminate H).
  assert (H2 : bytes_ok [1; 2]) by (repeat constructor; unfold in_u8; lia).
  assert (H3 : in_u32 (zlength [1; 2] + 4)) by (unfold in_u32, zlength; simpl; lia).
  destruct (@daemon_survives_messages sample_host (make 200 4 zero_coord zero_coord 2) [1; 2]
    sample_reply sample_daemon H1 H2 H3) as (d' & Hd & _ & Hr & _).
  exists d'. split; [exact Hd|]. rewrite Hr. reflexivity.
Defined.

Lemma sample_call_wf : CallTaskPayload.wf sample_call.
Proof.
  unfold CallTaskPayload.wf, sample_call, CallTaskPayload.entry_ok. simpl. unfold_ints.
  split_and!; repeat constructor; simpl; try lia.
Qed.

Definition sample_call_bytes : list Z :=
  match CallTaskPayload.serialize sample_call with Ok bs => bs | Fault _ => [] end.

Lemma daemon_answers_call_witness :
  exists payload, @dispatch_message sample_host
    (make CALL_TASK 4 (mkCoord 0 1 2 0 0 0 0) (mkCoord 0 1 2 5 0 0 0) (zlength sample_call_bytes))
    sample_call_bytes sample_reply sample_daemon =
  Ok (sample_daemon, Some (sun_path (make_socket_path "/tmp/cluster" (mkCoord 0 1 2 0 0 0 0) 4),
        message (make TASK_COMPLETE 3 (mkCoord 0 1 2 5 0 0 0) (mkCoord 0 1 2 0 0 0 0) 8) payload)).
Proof.
  assert (Hc : coord_ok (mkCoord 0 1 2 0 0 0 0)) by (unfold coord_ok; unfold_ints; simpl; lia).
  assert (Hp : 0 <= reply_connect sample_reply
    (sun_path (make_socket_path (base_path_ sample_daemon) (visible 0 (mkCoord 0 1 2 0 0 0 0)) 4)))
    by (simpl; lia).
  assert (He : @execute_task sample_host sample_call sample_daemon = Ok sample_daemon)
    by (vm_compute; reflexivity).
  assert (Hr : 0 <= reply_socket sample_reply) by (simpl; lia).
  assert (Hs : CallTaskPayload.serialize sample_call = Ok sample_call_bytes) by (vm_compute; reflexivity).
  destruct (@daemon_answers_call sample_host sample_call sample_call_bytes
    (mkCoord 0 1 2 0 0 0 0) (mkCoord 0 1 2 5 0 0 0) 4 (zlength sample_call_bytes) sample_reply
    sample_daemon sample_daemon sample_call_wf Hs Hc He Hr Hp eq_refl eq_refl) as (payload & H & _).
  exists payload. exact H.
Defined.

(** A heartbeat replaces what discovery found: the sender of the heartbeat is
    entered at the level of the receiver, and its socket path is lost. *)
Definition sample_heartbeat : HeartbeatPayload.HeartbeatPayload :=
  HeartbeatPayload.mk 0 1 2 9 0 0 [] [].

Definition known_peer : PeerInfo :=
  mkPeerInfo (mkCoord 0 1 2 9 0 0 0) 3 "/tmp/cluster/L6_0/L5_1/L4_2/L3_9/daemon_L3.sock" true.

Lemma heartbeat_forgets_socket :
  match HeartbeatPayload.serialize sample_heartbeat with
  | Ok bs =>
      exists d', handle_heartbeat bs (sample_daemon <| registry_ := add known_peer [] |>) = Ok d' /\
        map_find (key_of known_peer) (registry_ d') = Some (mkPeerInfo (mkCoord 0 1 2 9 0 0 0) 3 "" true)
  | Fault _ => False
  end.
Proof. vm_compute. eexists. split; reflexivity. Qed.

(** ** The profile file *)
Lemma profile_items ps :
  ps <> [] -> forallb report_ok ps = true -> json_items (report_value <$> ps) (profile_entries ps).
Proof.
  intros Hne Hp. induction ps as [|p [|q ps] IH]; [done|..]; cbn [forallb] in Hp; apply andb_true_iff in Hp as [Hr Hp].
  - change (profile_entries [p]) with (to_json p +:+ nl). apply items_after; [done|]. constructor. by apply report_text.
  - change (profile_entries (p :: q :: ps)) with (to_json p +:+ "," +:+ (nl +:+ profile_entries (q :: ps))).
    constructor; [by apply report_text|]. apply items_before; [done|]. by apply IH.
Qed.

Lemma profile_chars p ps r : all_chars p (profile_entries ps) = true -> r ∈ ps -> all_chars p (to_json r) = true.
Proof.
  induction ps as [|q ps IH]; intros H Hr; [by apply not_elem_of_nil in Hr|].
  cbn [profile_entries] in H. rewrite !all_chars_app, !andb_true_iff in H. destruct H as (Hq & _ & _ & Hps).
  apply elem_of_cons in Hr as [->|Hr]; [done|by apply IH].
Qed.

(** The profile file of a daemon is JSON as long as nothing in it needs an
    escape: when the numbers are unsigned and the node ids and labels have no
    quote, backslash or control character, the file that [stop] writes is a
    JSON array of the reports, in the order of the tasks.  A label is copied as
    the kernel gave it: with a control character in it (other than tab, line
    feed and carriage return) the file is no JSON text at all. *)
Theorem profile_file_is_json `{Host} d path text :
  snd (write_profile_json d) = Some (path, text) ->
  (forallb report_ok (task_profiles_ d) = true ->
   json_text (JArr (report_value <$> task_profiles_ d)) text) /\
  (forall r s, r ∈ task_profiles_ d -> s ∈ r_snapshots r -> all_chars text_char (s_label s) = false ->
   forall v, ~ json_text v text).
Proof.
  unfold write_profile_json. destruct (task_profiles_ d) as [|p ps] eqn:Ep; [done|]. cbn [snd].
  remember (profile_entries (p :: ps)) as es eqn:Hes. destruct (can_write _); [|done]. intros [= <- <-]. split.
  - intros Hok. replace ("[" +:+ nl +:+ es +:+ "]" +:+ nl) with (("[" +:+ (nl +:+ es) +:+ "]") +:+ nl)
      by (by rewrite <- !sapp_assoc).
    apply text_after; [done|]. apply text_arr, items_before; [done|]. subst es. by apply profile_items.
  - intros r s Hr Hs Hl v Ht%json_text_chars. rewrite !all_chars_app, !andb_true_iff in Ht.
    destruct Ht as (_ & _ & Hp & _). subst es. pose proof (profile_chars _ _ _ Hp Hr) as Hj.
    apply report_chars in Hj as [_ Hj]. by rewrite (Hj s Hs) in Hl.
Qed.

(** A daemon that has run one kernel, which took one snapshot. *)
Definition sample_report (label : string) : ProfileReport :=
  mkProfileReport "L3_5" 3 [] [mkRingSnapshot 3 0 label 12 64 1 0 1 4096 0 0 0 1 0 0].
Definition profiled_daemon (label : string) : NodeDaemon := sample_daemon <| task_profiles_ := [sample_report label] |>.
Definition bell : string := String (Ascii.ascii_of_nat 7) "done".

Lemma profile_file_is_json_witness :
  (exists path text, snd (@write_profile_json sample_host (profiled_daemon "after scope")) = Some (path, text) /\
     json_text (JArr (report_value <$> [sample_report "after scope"])) text) /\
  (exists path text, snd (@write_profile_json sample_host (profiled_daemon bell)) = Some (path, text) /\
     forall v, ~ json_text v text).
Proof.
  split; [destruct (snd (@write_profile_json sample_host (profiled_daemon "after scope"))) as [[path text]|] eqn:E|
          destruct (snd (@write_profile_json sample_host (profiled_daemon bell))) as [[path text]|] eqn:E];
    try (vm_compute in E; discriminate E); exists path, text; (split; [reflexivity|]);
    destruct (@profile_file_is_json sample_host _ path text E) as [H1 H2].
  - apply H1. vm_compute. reflexivity.
  - apply (H2 (sample_report bell) (mkRingSnapshot 3 0 bell 12 64 1 0 1 4096 0 0 0 1 0 0)); [left|left|reflexivity].
Defined.
