(* ===== verification/RemoteCall.v ===== *)
(** * A remote call, from the dispatcher to the daemon and back

    Composes [RemoteDispatcher] ([src/src/runtime/remote_dispatcher.cpp]),
    [UnixSocketTransport] and [NodeDaemon]: one call end to end, byte for
    byte; and the receiving thread, from the answers it meets to its end.
    [CallsInFlight] is about any number of calls at once. *)

From S2P Require Import Prelude Paths Bytes Coordinate LinquHeader MsgTypes OrchestrationApi.
From S2P Require Import UnixSocketTransport Dispatchers LinquOrchestratorState Caches NodeDaemon.

(** ** One call *)

(** The kernel lets a process connect to [path] and send [n] payload bytes. *)
Definition lets_send (out : outgoing) (path : string) (n : Z) : Prop :=
  0 <= socket_ret out /\ 0 <= connect out path /\
  serves WIRE_SIZE (header_writes out) /\ serves n (payload_writes out).

(** The kernel hands a connection to a listening process, [n] payload bytes. *)
Definition lets_receive (t : UnixSocketTransport) (inc : incoming) (n : Z) : Prop :=
  accepts t inc /\ serves WIRE_SIZE (header_reads inc) /\ serves n (payload_reads inc).

(** The two writes of the answer go through whole. *)
Definition lets_reply (rep : reply_answers) (path : string) : Prop :=
  0 <= reply_socket rep /\ 0 <= reply_connect rep path /\
  reply_write1 rep = WIRE_SIZE /\ reply_write2 rep = 8.

Definition call_size (kernel_so : string) (params : list LinquParam) : Z :=
  14 + str_size kernel_so + 17 * zlength params.

Lemma visible_0 level c : visible level (visible 0 c) = visible level c.
Proof. done. Qed.

Lemma call_bytes task_id kernel_so params :
  call_fits kernel_so params -> Forall param_ok params ->
  exists bs, CallTaskPayload.serialize (RemoteDispatcher.call_payload task_id kernel_so params) = Ok bs /\
    zlength bs = call_size kernel_so params /\ in_u32 (zlength bs).
Proof.
  intros Hf Hp. pose proof (call_payload_wf task_id kernel_so params Hf Hp) as Hwf.
  exists (CallTaskPayload.fixed_bytes (RemoteDispatcher.call_payload task_id kernel_so params) ++
     CallTaskPayload.entries_bytes (RemoteDispatcher.param_entry <$> params)).
  assert (Hz : zlength (CallTaskPayload.fixed_bytes (RemoteDispatcher.call_payload task_id kernel_so params) ++
     CallTaskPayload.entries_bytes (RemoteDispatcher.param_entry <$> params)) = call_size kernel_so params).
  { rewrite zlength_app, CallTaskPayload.zlength_entries, zlength_fmap.
    unfold CallTaskPayload.fixed_bytes, call_size. cbn [CallTaskPayload.kernel_so_name RemoteDispatcher.call_payload].
    rewrite !zlength_app, !zlength_be, zlength_bytes_of_string. lia. }
  split; [by apply CallTaskPayload.call_task_serialize_eq|]. rewrite Hz. split; [done|].
  unfold call_fits in Hf. unfold call_size. pose proof (zlength_ge_0 params).
  unfold str_size in *. unfold_ints. lia.
Qed.

(** The dispatcher sends the call to the level below. *)
Lemma dispatch_sends task_id target kernel_so params out d bs :
  CallTaskPayload.serialize (RemoteDispatcher.call_payload task_id kernel_so params) = Ok bs ->
  in_u32 (zlength bs) -> coord_ok (RemoteDispatcher.self_coord_ d) -> coord_ok target -> in_u8 (RemoteDispatcher.self_level_ d) ->
  in_i32 (RemoteDispatcher.outstanding_ d + 1) ->
  let hdr := make CALL_TASK (RemoteDispatcher.self_level_ d) (RemoteDispatcher.self_coord_ d) target (zlength bs) in
  let path := target_socket (RemoteDispatcher.transport_ d) target hdr in
  lets_send out path (zlength bs) ->
  RemoteDispatcher.dispatch task_id target kernel_so params out d =
    Ok (Some true,
        d <| RemoteDispatcher.pending_ := <[task_id := TASK_PENDING]> (RemoteDispatcher.pending_ d) |>
          <| RemoteDispatcher.outstanding_ := RemoteDispatcher.outstanding_ d + 1 |>, [], Some (path, message hdr bs)).
Proof.
  intros Hs Hz Hself Htar Hlev Hn hdr path (H1 & H2 & H3 & H4). unfold RemoteDispatcher.dispatch. rewrite Hs. bind_simpl.
  unfold RemoteDispatcher.call_header, RemoteDispatcher.begin_dispatch, i32_add. rewrite u32_id by done.
  rewrite (proj2 (i32_range_spec _) Hn). bind_simpl. fold hdr.
  change (RemoteDispatcher.transport_ (d <| RemoteDispatcher.pending_ := <[task_id := TASK_PENDING]> (RemoteDispatcher.pending_ d) |>
          <| RemoteDispatcher.outstanding_ := RemoteDispatcher.outstanding_ d + 1 |>)) with (RemoteDispatcher.transport_ d).
  rewrite send_connected by done. cbv zeta. fold path.
  rewrite send_all_serves by (by rewrite zlength_header).
  destruct (Z.ltb_spec 0 (zlength bs)); [by rewrite send_all_serves|]. unfold message.
  destruct bs; [by rewrite app_nil_r|]. rewrite zlength_cons in *. pose proof (zlength_ge_0 bs). lia.
Qed.

Section make_facts.
Context (type level : Z) (sender target : LinquCoordinate) (size : Z).
Lemma make_magic : magic (make type level sender target size) = LINQU_MAGIC.
Proof. vm_compute. reflexivity. Qed.
Lemma make_type : msg_type (make type level sender target size) = type.
Proof. vm_compute. reflexivity. Qed.
Lemma make_size : payload_size (make type level sender target size) = size.
Proof. vm_compute. reflexivity. Qed.
Lemma make_level : sender_level (make type level sender target size) = level.
Proof. vm_compute. reflexivity. Qed.
End make_facts.

(** From here on a header is known by these facts. *)
#[local] Opaque make.

Lemma target_level_call level sender target size :
  target_level (make CALL_TASK level sender target size) = u8 (level - 1).
Proof. unfold target_level. by rewrite make_type, make_level. Qed.

(** A message that arrives whole is handled. *)
Lemma daemon_receives `{Host} inc rep node hdr bs :
  header_ok hdr -> magic hdr = LINQU_MAGIC -> payload_size hdr = zlength bs ->
  lets_receive (transport_ node) inc (zlength bs) -> stream inc = message hdr bs ->
  in_i32 (messages_handled_ node + 1) ->
  handle_one_message inc rep node =
    (let! (d, conn) := dispatch_message hdr bs rep
       (node <| messages_handled_ := messages_handled_ node + 1 |>) in
     Ok (Some true, d, conn)).
Proof.
  intros Hh Hm Hp (Ha & Hr1 & Hr2) Hs Hn. unfold handle_one_message.
  rewrite (recv_message _ inc hdr bs) by done. bind_simpl. rewrite Hm, Z.eqb_refl. cbn [negb].
  unfold i32_add. by rewrite (proj2 (i32_range_spec _) Hn).
Qed.

(** The daemon takes the call and answers. *)
Lemma daemon_handles_call `{Host} inc rep node call bs self target level node1 :
  CallTaskPayload.wf call -> CallTaskPayload.serialize call = Ok bs -> in_u32 (zlength bs) ->
  coord_ok self -> coord_ok target -> in_u8 level ->
  lets_receive (transport_ node) inc (zlength bs) ->
  stream inc = message (make CALL_TASK level self target (zlength bs)) bs ->
  in_i32 (messages_handled_ node + 1) ->
  execute_task call (node <| messages_handled_ := messages_handled_ node + 1 |>) = Ok node1 ->
  lets_reply rep (sun_path (make_socket_path (base_path_ node) self level)) ->
  handle_one_message inc rep node =
    Ok (Some true, node1, Some (sun_path (make_socket_path (base_path_ node) self level),
      message (answer_header node1 (visible 0 self)) (answer_payload (CallTaskPayload.task_id call)))).
Proof.
  intros Hwf Hser Hz Hself Htar Hlev Hrec Hstream Hn Hex (R1 & R2 & R3 & R4).
  rewrite <- (socket_path_visible (base_path_ node) (visible 0 self) self level (visible_0 level self)) in *.
  rewrite (daemon_receives inc rep node (make CALL_TASK level self target (zlength bs)) bs);
    [|apply make_ok; auto; unfold CALL_TASK; unfold_ints; lia|apply make_magic|apply make_size|done..].
  rewrite (call_handled call bs self target level (zlength bs) rep
    (node <| messages_handled_ := messages_handled_ node + 1 |>) node1 Hwf Hser Hself Hex R1 R2 R3 R4).
  reflexivity.
Qed.

Lemma visible_0_ok c : coord_ok c -> coord_ok (visible 0 c).
Proof. intros (? & ? & ? & ? & _). unfold coord_ok, visible. simpl. unfold_ints. split_and!; lia. Qed.

Lemma complete_answer task_id : in_i32 task_id ->
  RemoteDispatcher.complete (answer_payload (u32 task_id)) =
    Ok (mkDispatchResult task_id TASK_COMPLETED 0).
Proof.
  intros Ht. unfold RemoteDispatcher.complete.
  change (zlength (answer_payload (u32 task_id))) with 8.
  rewrite answer_parses by apply u32_range. bind_simpl. simpl. by rewrite i32_u32.
Qed.

(** The dispatcher takes the answer. *)
Lemma dispatcher_takes_answer inc d node1 self task_id :
  coord_ok self -> coord_ok (coord_ node1) -> in_i32 task_id ->
  RemoteDispatcher.completion_fn_ d = true -> in_i32 (RemoteDispatcher.outstanding_ d - 1) ->
  lets_receive (RemoteDispatcher.transport_ d) inc 8 ->
  stream inc = message (answer_header node1 (visible 0 self)) (answer_payload (u32 task_id)) ->
  RemoteDispatcher.recv_iteration inc d =
    Ok (d <| RemoteDispatcher.pending_ := <[task_id := TASK_COMPLETED]> (RemoteDispatcher.pending_ d) |>
          <| RemoteDispatcher.outstanding_ := RemoteDispatcher.outstanding_ d - 1 |>,
        [mkDispatchResult task_id TASK_COMPLETED 0]).
Proof.
  intros Hs Hn Ht Hf Ho (Ha & Hr1 & Hr2) Hstream. unfold RemoteDispatcher.recv_iteration.
  rewrite (recv_message _ inc (answer_header node1 (visible 0 self)) (answer_payload (u32 task_id)));
    [|done|apply make_ok; auto using visible_0_ok with linqu; unfold TASK_COMPLETE; unfold_ints; lia|
     apply make_magic|apply make_size|done..].
  bind_simpl. unfold answer_header at 1. rewrite make_type, Z.eqb_refl, complete_answer by done.
  bind_simpl. unfold RemoteDispatcher.record_completion, i32_sub.
  rewrite (proj2 (i32_range_spec _) Ho), Hf. done.
Qed.


Definition pod : LinquCoordinate := mkCoord 0 1 2 0 0 0 0.
Definition host5 : LinquCoordinate := mkCoord 0 1 2 5 0 0 0.
Definition sample_dispatcher : RemoteDispatcher.RemoteDispatcher :=
  (RemoteDispatcher.new ((new_transport "/tmp/cluster" pod 4) <| listen_fd_ := 8 |>) pod 4)
    <| RemoteDispatcher.completion_fn_ := true |>.
Definition sample_node : NodeDaemon :=
  sample_daemon <| transport_ := (transport_ sample_daemon) <| listen_fd_ := 9 |> |>.
Definition sample_params : list LinquParam := [linqu_make_input 11; linqu_make_scalar 42].
Definition sample_out : outgoing := mkOutgoing 5 (fun _ => 0) (in_pieces 12) (in_pieces 26).
Definition sample_in (s : list Z) (n : nat) : incoming :=
  mkIncoming 1 false 9 s (in_pieces 12) (in_pieces n).

(** A call to host 5, with the kernel's answers fixed. *)
Definition sample_call_message : list Z :=
  match RemoteDispatcher.dispatch 7 host5 "k.so" sample_params sample_out sample_dispatcher with
  | Ok (_, _, _, Some (_, s)) => s
  | _ => []
  end.

Definition sample_answer : list Z :=
  match @handle_one_message sample_host (sample_in sample_call_message 26) sample_reply sample_node with
  | Ok (_, _, Some (_, s)) => s
  | _ => []
  end.


(** ** The receiving thread *)

(** An answer that reaches the dispatcher: for which call, from which node. *)
Record Answered (self : LinquCoordinate) (t : UnixSocketTransport) (a : Z * NodeDaemon * incoming) : Prop := {
  ans_id : in_i32 a.1.1;
  ans_node : coord_ok (coord_ a.1.2);
  ans_recv : lets_receive t a.2 8;
  ans_stream : stream a.2 = message (answer_header a.1.2 (visible 0 self)) (answer_payload (u32 a.1.1));
}.

(** The thread takes every answer that arrives before it is stopped, calls the
    callback for each in the order of arrival, and [wait_all] returns when there
    are as many as there were calls outstanding. *)
Theorem recv_thread_takes_answers self answers last d :
  coord_ok self -> RemoteDispatcher.running_ d = true -> RemoteDispatcher.completion_fn_ d = true ->
  in_i32 (RemoteDispatcher.outstanding_ d) -> zlength answers <= RemoteDispatcher.outstanding_ d ->
  Forall (Answered self (RemoteDispatcher.transport_ d)) answers ->
  exists d',
    RemoteDispatcher.recv_thread_fn (((fun a => (false, a.2)) <$> answers) ++ [(true, last)]) d =
      Ok (true, d', (fun a => mkDispatchResult a.1.1 TASK_COMPLETED 0) <$> answers) /\
    RemoteDispatcher.running_ d' = false /\
    RemoteDispatcher.outstanding_ d' = RemoteDispatcher.outstanding_ d - zlength answers /\
    RemoteDispatcher.wait_all_returns d' = (RemoteDispatcher.outstanding_ d =? zlength answers) /\
    (forall tid, RemoteDispatcher.pending_ d' !! tid =
       if decide (tid ∈ (fun a => a.1.1) <$> answers) then Some TASK_COMPLETED
       else RemoteDispatcher.pending_ d !! tid).
Proof.
  intros Hself. revert d. induction answers as [|[[tid node] inc] answers IH]; intros d Hrun Hfn Ho Hle Hans.
  - rewrite zlength_nil in *. exists (RemoteDispatcher.stop_recv_loop d). split_and!; [done|done|unfold zlength; simpl; lia| |].
    + unfold RemoteDispatcher.wait_all_returns. unfold zlength in *; simpl in *. apply eq_true_iff_eq. rewrite Z.leb_le, Z.eqb_eq. lia.
    + intros t. by rewrite decide_False by (simpl; set_solver).
  - apply Forall_cons in Hans as [[Hid Hnode Hrecv Hst] Hans]. rewrite zlength_cons in *.
    pose proof (zlength_ge_0 answers). simpl in Hid, Hnode, Hrecv, Hst.
    cbn [fmap list_fmap app RemoteDispatcher.recv_thread_fn]. rewrite Hrun. cbn [negb fst snd].
    rewrite (dispatcher_takes_answer inc d node self tid) by (done || (unfold in_i32 in *; lia)).
    cbn [mbind outcome_bind].
    destruct (IH (d <| RemoteDispatcher.pending_ := <[tid := TASK_COMPLETED]> (RemoteDispatcher.pending_ d) |>
      <| RemoteDispatcher.outstanding_ := RemoteDispatcher.outstanding_ d - 1 |>)) as (d' & -> & H1 & H2 & H3 & H4);
      try done; [simpl; unfold in_i32 in *; lia|simpl; lia|].
    exists d'. cbn [mbind outcome_bind]. split_and!; [done|done|rewrite H2; simpl; lia| |].
    + rewrite H3. simpl. apply eq_true_iff_eq. rewrite !Z.eqb_eq. lia.
    + intros t. rewrite H4. cbn [fst snd]. destruct (decide (t ∈ _)) as [Hi|Hi].
      * by rewrite decide_True by (apply elem_of_cons; by right).
      * simpl. destruct (decide (t = tid)) as [->|Hne].
        -- rewrite decide_True by set_solver. apply lookup_insert_eq.
        -- rewrite decide_False by set_solver. by apply lookup_insert_ne.
Qed.
