(* ===== verification/CallsInFlight.v ===== *)
(** * Any number of remote calls in flight

    The threads around one [RemoteDispatcher]
    ([src/src/runtime/remote_dispatcher.cpp]) and the daemons that answer it,
    interleaved in any way.  A step is one section under [mu_], one message
    sent, answered, lost or received, or one call of the completion callback;
    [RemoteCall.remote_call_completes] shows what the bytes of one call do.
    [dispatched] lists the calls made so far; every one of them is at one
    place of the system. *)

From S2P Require Import Prelude Bytes LinquHeader MsgTypes OrchestrationApi.
From S2P Require Import Dispatchers NodeDaemon RemoteCall.

Record Cluster := mkCluster {
  disp : RemoteDispatcher.RemoteDispatcher;
  dispatched : list Z;       (* task ids [dispatch] was called with *)
  sending : list Z;          (* registered, [send] has not returned *)
  calls : list Z;            (* at a daemon, or on the way to it *)
  lost : list Z;             (* the daemon's answer went nowhere *)
  replies : list (list Z);   (* payloads of answers on the way back *)
  notified : list DispatchResult; (* callback called, not yet recorded *)
  callbacks : list DispatchResult;
}.

Inductive net_step : Cluster -> Cluster -> Prop :=
  | step_begin tid d d' ds s c l r n cb :
      in_i32 tid -> RemoteDispatcher.begin_dispatch tid d = Ok d' ->
      net_step (mkCluster d ds s c l r n cb) (mkCluster d' (tid :: ds) (tid :: s) c l r n cb)
  | step_sent tid d ds s1 s2 c l r n cb :
      net_step (mkCluster d ds (s1 ++ tid :: s2) c l r n cb)
               (mkCluster d ds (s1 ++ s2) (tid :: c) l r n cb)
  | step_not_sent tid d d' res ds s1 s2 c l r n cb :
      RemoteDispatcher.fail_dispatch tid d = Ok (d', res) ->
      net_step (mkCluster d ds (s1 ++ tid :: s2) c l r n cb)
               (mkCluster d' ds (s1 ++ s2) c l r n (cb ++ res))
  | step_answered tid d ds s c1 c2 l r n cb :
      net_step (mkCluster d ds s (c1 ++ tid :: c2) l r n cb)
               (mkCluster d ds s (c1 ++ c2) l (answer_payload (u32 tid) :: r) n cb)
  | step_lost tid d ds s c1 c2 l r n cb :
      net_step (mkCluster d ds s (c1 ++ tid :: c2) l r n cb)
               (mkCluster d ds s (c1 ++ c2) (tid :: l) r n cb)
  | step_received p res d ds s c l r1 r2 n cb :
      RemoteDispatcher.complete p = Ok res ->
      net_step (mkCluster d ds s c l (r1 ++ p :: r2) n cb)
               (mkCluster d ds s c l (r1 ++ r2) (res :: n)
                  (cb ++ notify_completion (RemoteDispatcher.completion_fn_ d) res))
  | step_recorded res d d' ds s c l r n1 n2 cb :
      RemoteDispatcher.record_completion res d = Ok d' ->
      net_step (mkCluster d ds s c l r (n1 ++ res :: n2) cb)
               (mkCluster d' ds s c l r (n1 ++ n2) cb).

(** A dispatcher with a callback and nothing outstanding. *)
Definition idle (d : RemoteDispatcher.RemoteDispatcher) : Prop :=
  RemoteDispatcher.completion_fn_ d = true /\ RemoteDispatcher.outstanding_ d = 0.

Definition start (d : RemoteDispatcher.RemoteDispatcher) : Cluster := mkCluster d [] [] [] [] [] [] [].

(** ** Where the calls are *)
Record accounts (x : Cluster) (ids : list Z) : Prop := {
  acc_fn : RemoteDispatcher.completion_fn_ (disp x) = true;
  acc_range : Forall in_i32 (dispatched x);
  acc_replies : replies x = (fun tid => answer_payload (u32 tid)) <$> ids;
  acc_count : RemoteDispatcher.outstanding_ (disp x) =
    zlength (sending x) + zlength (calls x) + zlength (lost x) + zlength ids + zlength (notified x);
  acc_calls : forall tid, occ tid (dispatched x) =
    occ tid (sending x) + occ tid (calls x) + occ tid (lost x) + occ tid ids +
    occ tid (result_task_id <$> callbacks x);
}.

Lemma occ_middle x a l1 l2 : occ x (l1 ++ a :: l2) = occ x [a] + occ x (l1 ++ l2).
Proof. rewrite !occ_app. simpl. lia. Qed.

Lemma zlength_middle {A} (a : A) l1 l2 : zlength (l1 ++ a :: l2) = 1 + zlength (l1 ++ l2).
Proof. rewrite !zlength_app, zlength_cons. lia. Qed.

Lemma occ_cons x a l : occ x (a :: l) = occ x [a] + occ x l.
Proof. simpl. lia. Qed.

Lemma i32_add_Ok a b n : i32_add a b = Ok n -> n = a + b.
Proof. unfold i32_add. destruct (i32_range _); congruence. Qed.

Lemma i32_sub_Ok a b n : i32_sub a b = Ok n -> n = a - b.
Proof. unfold i32_sub. destruct (i32_range _); congruence. Qed.

Lemma fmap_middle {A B} (f : A -> B) ids (r1 r2 : list B) p :
  f <$> ids = r1 ++ p :: r2 ->
  exists i1 a i2, ids = i1 ++ a :: i2 /\ p = f a /\ r1 ++ r2 = f <$> (i1 ++ i2).
Proof.
  intros H. apply fmap_app_inv in H as (i1 & i2 & -> & H2 & ->).
  symmetry in H2. apply fmap_cons_inv in H2 as (a & i3 & -> & -> & ->).
  exists i1, a, i3. by rewrite fmap_app.
Qed.

Ltac sums := cbn [disp dispatched sending calls lost replies notified callbacks] in *.

Lemma net_step_accounts x y ids : net_step x y -> accounts x ids -> exists ids', accounts y ids'.
Proof.
  intros Hs [Hfn Hr Hrep Hc Ha]. destruct Hs; sums.
  - unfold RemoteDispatcher.begin_dispatch in *. inv_ok.
    match goal with H : i32_add _ _ = _ |- _ => apply i32_add_Ok in H as -> end.
    exists ids. split; sums; try done; [by constructor| |].
    + rewrite zlength_cons. simpl. lia.
    + intros x. rewrite (occ_cons x tid ds), (occ_cons x tid s), Ha. lia.
  - exists ids. split; sums; try done; [rewrite zlength_cons; rewrite zlength_middle in Hc; lia|].
    intros x. rewrite (occ_cons x tid c), Ha, occ_middle. lia.
  - unfold RemoteDispatcher.fail_dispatch in *. inv_ok.
    match goal with H : i32_sub _ _ = _ |- _ => apply i32_sub_Ok in H as -> end.
    exists ids. split; sums; try done; [rewrite zlength_middle in Hc; simpl; lia|].
    intros x. rewrite Ha, occ_middle, fmap_app, !occ_app.
    simpl. rewrite Hfn. simpl. lia.
  - exists (tid :: ids). split; sums; try done; [by rewrite Hrep| |].
    + rewrite zlength_cons. rewrite zlength_middle in Hc. lia.
    + intros x. rewrite (occ_cons x tid ids), Ha, occ_middle. lia.
  - exists ids. split; sums; try done; [rewrite zlength_cons; rewrite zlength_middle in Hc; lia|].
    intros x. rewrite (occ_cons x tid l), Ha, occ_middle. lia.
  - symmetry in Hrep. apply fmap_middle in Hrep as (i1 & a & i2 & -> & -> & Hrep).
    assert (Hain : in_i32 a).
    { rewrite Forall_forall in Hr. apply Hr, occ_elem_of. rewrite Ha, (occ_middle a a i1 i2).
      pose proof (occ_nonneg a s). pose proof (occ_nonneg a c). pose proof (occ_nonneg a l).
      pose proof (occ_nonneg a (i1 ++ i2)). pose proof (occ_nonneg a (result_task_id <$> cb)).
      simpl. rewrite decide_True by done. lia. }
    rewrite complete_answer in H by done. injection H as <-.
    exists (i1 ++ i2). split; sums; try done.
    + rewrite zlength_cons. rewrite zlength_middle in Hc. lia.
    + intros x. rewrite Ha, (occ_middle x a i1 i2), fmap_app, !occ_app, Hfn. simpl. lia.
  - unfold RemoteDispatcher.record_completion in *. inv_ok.
    match goal with H : i32_sub _ _ = _ |- _ => apply i32_sub_Ok in H as -> end.
    exists ids. split; sums; try done. rewrite zlength_middle in Hc. simpl. lia.
Qed.

Lemma start_accounts d : idle d -> accounts (start d) [].
Proof. intros [Hf Ho]. by split. Qed.

Lemma reachable_accounts d x : idle d -> rtc net_step (start d) x -> exists ids, accounts x ids.
Proof.
  intros Hd Hx. apply (rtc_invariant net_step (fun x => exists ids, accounts x ids) (start d));
    [|done|eexists; by apply start_accounts].
  intros a b [ids Ha] Hab. by apply (net_step_accounts a b ids).
Qed.

(** The same elements, each as often. *)
Lemma occ_Permutation l k : (forall x, occ x l = occ x k) -> l ≡ₚ k.
Proof.
  revert k. induction l as [|a l IH]; intros k H.
  - destruct k as [|b k]; [done|]. specialize (H b). simpl in H. rewrite decide_True in H by done.
    pose proof (occ_nonneg b k). lia.
  - assert (Ha : a ∈ k).
    { apply occ_elem_of. rewrite <- H. simpl. rewrite decide_True by done.
      pose proof (occ_nonneg a l). lia. }
    apply list_elem_of_split in Ha as (k1 & k2 & ->).
    rewrite <- Permutation_middle. constructor. apply IH. intros x. specialize (H x).
    rewrite occ_middle, (occ_cons x a l) in H. lia.
Qed.


Definition after_begin : RemoteDispatcher.RemoteDispatcher :=
  match RemoteDispatcher.begin_dispatch 7 sample_dispatcher with Ok d => d | Fault _ => sample_dispatcher end.
Definition after_record : RemoteDispatcher.RemoteDispatcher :=
  match RemoteDispatcher.record_completion (mkDispatchResult 7 TASK_COMPLETED 0) after_begin with
  | Ok d => d | Fault _ => after_begin end.

