(* ===== verification/Programs.v ===== *)
(** * The two programs

    Models [src/src/daemon/main.cpp] (the process around a [NodeDaemon]) and
    [orchestrator_main.cpp] (the tool that finds the daemons of a cluster and
    shuts them down).  Environment variables, the directory tree, the answers
    of the system calls, the messages that arrive and the signals are
    arguments; what is written to [stderr] is left out. *)

From S2P Require Import Prelude Paths Bytes Coordinate LinquHeader MsgTypes StdMap PeerRegistry.
From S2P Require Import UnixSocketTransport FilesystemDiscovery RingMetrics Json LinquOrchestratorState Caches NodeDaemon RemoteCall.

(** ** The daemon process *)
Section daemon_process.
Context `{Host}.

(** What a turn of the loop meets: a signal that arrives in it, and what
    [handle_one_message] does. *)
Record Turn := mkTurn { turn_signal : bool; turn_incoming : incoming; turn_reply : reply_answers }.

(** [while (g_running && daemon.is_running()) daemon.handle_one_message(1000)]:
    the first result says that the loop has ended.  A turn that never gets its
    message whole is the last one. *)
Fixpoint daemon_loop (g_running : bool) (turns : list Turn) (d : NodeDaemon)
    : outcome (bool * NodeDaemon * list connection) :=
  if negb (g_running && running_ d) then Ok (true, d, []) else
  match turns with
  | [] => Ok (false, d, [])
  | t :: turns =>
      let! (handled, d, conn) := handle_one_message (turn_incoming t) (turn_reply t) d in
      match handled with
      | None => Ok (false, d, [])
      | Some _ =>
          let! (ended, d, conns) := daemon_loop (g_running && negb (turn_signal t)) turns d in
          Ok (ended, d, match conn with Some c => c :: conns | None => conns end)
      end
  end.

(** [main]: the exit code, [None] while the loop runs, and the daemon. *)
Definition daemon_main (env : string -> option string) (socket_ret bind_ret listen_ret : Z) (turns : list Turn)
    : outcome (option Z * option NodeDaemon) :=
  match env "LINQU_LEVEL" with
  | None => Ok (Some 1, None)
  | Some level_str =>
      let! level_val := atoi level_str in
      let level : Level := u8 level_val in
      let! coord := from_env env in
      let base := default "/tmp/linqu" (env "LINQU_BASE") in
      let '(daemon, _) := new_daemon level coord base in
      let '(ok, daemon, _) := start socket_ret bind_ret listen_ret daemon in
      if negb ok then Ok (Some 1, Some daemon) else
      let! (ended, daemon, _) := daemon_loop true turns daemon in
      if (ended : bool) then
        let '(daemon, _, _, _) := stop daemon in Ok (Some 0, Some daemon)
      else Ok (None, Some daemon)
  end.
End daemon_process.

(** ** The tool: [send_message] *)

(** The results of [socket], of [connect] to a path, and of the two writes. *)
Record send_answers := mkSend {
  send_socket : Z; send_connect : string -> Z; send_write1 : Z; send_write2 : Z;
}.

(** What it returns, and the connection it made with the bytes that went out. *)
Definition send_message (sock_path : string) (type : MsgType) (sender target : LinquCoordinate)
    (sender_level : Z) (payload : list Z) (ans : send_answers) : outcome (bool * option connection) :=
  let hdr := make type sender_level sender target (u32 (zlength payload)) in
  if send_socket ans <? 0 then Ok (false, None) else
  let path := sun_path sock_path in
  if send_connect ans path <? 0 then Ok (false, None) else
  let! wire := serialize hdr (zeros WIRE_SIZE) in
  let out := written (send_write1 ans) wire in
  if negb (send_write1 ans =? WIRE_SIZE) then Ok (false, Some (path, out)) else
  if 0 <? zlength payload then
    Ok (send_write2 ans =? zlength payload, Some (path, out ++ written (send_write2 ans) payload))
  else Ok (true, Some (path, out)).

(** ** The tool: [main] *)

(** The arguments after the program's name: [None] for the usage text. *)
Fixpoint parse_args (args : list string) (command base_path : string) : option (string * string) :=
  match args with
  | [] => Some (command, base_path)
  | a :: args =>
      match args with
      | v :: rest =>
          if String.eqb a "--command" then parse_args rest v base_path
          else if String.eqb a "--base" then parse_args rest command v
          else if String.eqb a "-h" || String.eqb a "--help" then None
          else parse_args args command base_path
      | [] => if String.eqb a "-h" || String.eqb a "--help" then None else Some (command, base_path)
      end
  end.

Definition status_num (name : string) (v : Z) : string :=
  "  " +:+ quoted name +:+ ": " +:+ std_to_string v +:+ "," +:+ nl.

(** What [discover] and [status] print. *)
Definition status_text (command base_path : string) (total : Z) (registry : PeerRegistry) : string :=
  let peers_l3 := peers_at_level 3 registry in
  let alive := zlength (filter (fun p => Is_true (p_alive p)) peers_l3) in
  "{" +:+ nl +:+
  json_str "  " "command" command "," +:+
  json_str "  " "base_path" base_path "," +:+
  status_num "total_peers" total +:+
  status_num "l3_hosts" (zlength peers_l3) +:+
  status_num "l4_pods" (zlength (peers_at_level 4 registry)) +:+
  status_num "l5_supernodes" (zlength (peers_at_level 5 registry)) +:+
  status_num "l6_clusters" (zlength (peers_at_level 6 registry)) +:+
  status_num "l3_alive" alive +:+
  json_str "  " "status" (if alive =? zlength peers_l3 then "healthy" else "degraded") "" +:+
  "}" +:+ nl.

(** The loop of [shutdown]: how many messages went out, and the connections.
    [ans k]: the answers to the [k]-th message. *)
Fixpoint shutdown_loop (peers : list PeerInfo) (k : nat) (ans : nat -> send_answers) : outcome (Z * list connection) :=
  match peers with
  | [] => Ok (0, [])
  | p :: peers =>
      let! buf := ShutdownPayload.serialize (ShutdownPayload.mk 1) in
      let! (ok, conn) := send_message (p_socket_path p) SHUTDOWN zero_coord (p_coord p) 6 buf (ans k) in
      let! (sent, conns) := shutdown_loop peers (S k) ans in
      Ok ((if (ok : bool) then sent + 1 else sent), match conn with Some c => c :: conns | None => conns end)
  end.

(** The exit code, the text on [stdout], the connections made and the count in
    the last message. *)
Record ToolRun := mkToolRun { exit_code : Z; stdout : string; sent_to : list connection; sent_count : Z }.

Definition orchestrator_main (args : list string) (env : string -> option string) (tree : string -> node)
    (ans : nat -> send_answers) : outcome ToolRun :=
  let base_path := default "/tmp/linqu/linqu_vcluster_1024" (env "LINQU_BASE") in
  match parse_args args "" base_path with
  | None => Ok (mkToolRun 0 "" [] 0)
  | Some (command, base_path) =>
      if String.eqb command "" then Ok (mkToolRun 1 "" [] 0) else
      let! (registry, _) := discover base_path (tree base_path) [] in
      let total := count registry in
      if String.eqb command "discover" || String.eqb command "status" then
        Ok (mkToolRun 0 (status_text command base_path total registry) [] 0)
      else if String.eqb command "shutdown" then
        let! (sent, conns) := shutdown_loop (peers_at_level 3 registry) 0 ans in
        Ok (mkToolRun 0 "" conns sent)
      else Ok (mkToolRun 1 "" [] 0)
  end.

(** ** What the status says *)

(** The peers of a level are living ones: the two counts of level 3 agree. *)
Lemma all_alive level r :
  filter (fun p => Is_true (p_alive p)) (peers_at_level level r) = peers_at_level level r.
Proof.
  unfold peers_at_level. induction r as [|[k p] r IH]; [done|]. rewrite (filter_bool_cons (at_level level)).
  destruct (at_level level (k, p)) eqn:E; [|done]. apply andb_true_iff in E as [_ E]. cbn [snd] in E. rewrite fmap_cons. cbn [snd]. rewrite filter_bool_cons, E. by f_equal.
Qed.

Definition status_nums (registry : PeerRegistry) : list (string * Z) :=
  let hosts := zlength (peers_at_level 3 registry) in
  [("total_peers", count registry); ("l3_hosts", hosts); ("l4_pods", zlength (peers_at_level 4 registry));
   ("l5_supernodes", zlength (peers_at_level 5 registry)); ("l6_clusters", zlength (peers_at_level 6 registry));
   ("l3_alive", hosts)].
Definition status_value (command base_path : string) (registry : PeerRegistry) : json :=
  JObj ([("command", JStr command); ("base_path", JStr base_path)] ++ nums (status_nums registry) ++
        [("status", JStr "healthy")]).

Lemma num_line name v l rest :
  plain name = true -> 0 <= v -> json_members l rest -> json_members ((name, JNum v) :: l) (status_num name v +:+ rest).
Proof.
  intros Hn Hv Hl.
  replace (status_num name v +:+ rest) with ("  " +:+ quoted name +:+ ": " +:+ std_to_string v +:+ "," +:+ nl +:+ rest)
    by (unfold status_num; rewrite <- !sapp_assoc; reflexivity).
  by apply member_line; [..|apply text_nat| |].
Qed.


Lemma status_is_json command base_path registry :
  plain command = true -> plain base_path = true ->
  json_text (status_value command base_path registry) (status_text command base_path (count registry) registry).
Proof.
  intros Hc Hb.
  replace (status_text command base_path (count registry) registry)
    with (("" +:+ "{" +:+ (nl +:+ json_str "  " "command" command "," +:+ json_str "  " "base_path" base_path "," +:+
      status_num "total_peers" (count registry) +:+ status_num "l3_hosts" (zlength (peers_at_level 3 registry)) +:+
      status_num "l4_pods" (zlength (peers_at_level 4 registry)) +:+
      status_num "l5_supernodes" (zlength (peers_at_level 5 registry)) +:+
      status_num "l6_clusters" (zlength (peers_at_level 6 registry)) +:+
      status_num "l3_alive" (zlength (peers_at_level 3 registry)) +:+
      ("  " +:+ quoted "status" +:+ ": " +:+ quoted "healthy" +:+ nl)) +:+ "}") +:+ nl)
    by (unfold status_text; rewrite all_alive, Z.eqb_refl; unfold json_str, quoted; rewrite <- !sapp_assoc; reflexivity).
  apply text_after; [done|]. apply obj_text; [done|]. apply members_before; [done|].
  do 2 (apply str_line; [done|done|done|]). do 6 (apply num_line; [done|apply zlength_ge_0|]).
  by apply member_last; [..|by apply text_plain|].
Qed.

(** What [discover] and [status] print.  For a base path that needs no
    escape it is one JSON object with the counts of the registry that the scan
    filled; its [status] is always [healthy], since the hosts counted are the
    living ones ([peers_at_level]).  The base path is copied as it is: with a
    control character in it the output is no JSON text. *)
Theorem tool_status_always_healthy args env tree ans command base_path registry n :
  parse_args args "" (default "/tmp/linqu/linqu_vcluster_1024" (env "LINQU_BASE")) = Some (command, base_path) ->
  command = "discover" \/ command = "status" ->
  discover base_path (tree base_path) [] = Ok (registry, n) ->
  exists run, orchestrator_main args env tree ans = Ok run /\ exit_code run = 0 /\ sent_to run = [] /\
    (plain base_path = true -> json_text (status_value command base_path registry) (stdout run)) /\
    (all_chars text_char base_path = false -> forall v, ~ json_text v (stdout run)).
Proof.
  intros Hargs Hcmd Hd. unfold orchestrator_main. cbv zeta. rewrite Hargs.
  replace (String.eqb command "") with false by (by destruct Hcmd as [-> | ->]). rewrite Hd. bind_simpl.
  replace (String.eqb command "discover" || String.eqb command "status") with true
    by (by destruct Hcmd as [-> | ->]).
  eexists. split; [reflexivity|]. cbn [exit_code sent_to stdout]. split_and!; [done|done|..].
  - intros Hb. apply status_is_json; [by destruct Hcmd as [-> | ->]|done].
  - intros Hb v Hv%json_text_chars. unfold status_text, json_str in Hv.
    rewrite !all_chars_app, !andb_true_iff in Hv. rewrite Hb in Hv. by decompose [and] Hv.
Qed.

(** ** Shutting a cluster down *)

(** The system lets a shutdown message through to [path]. *)
Definition lets_out (ans : send_answers) (path : string) : Prop :=
  0 <= send_socket ans /\ 0 <= send_connect ans path /\ send_write1 ans = WIRE_SIZE /\ send_write2 ans = 1.

Definition shutdown_header (target : LinquCoordinate) : LinquHeader := make SHUTDOWN 6 zero_coord target 1.
Definition shutdown_message (p : PeerInfo) : connection :=
  (sun_path (p_socket_path p), message (shutdown_header (p_coord p)) [1]).

#[local] Opaque make.

(** The message that goes out, or a first part of it, or none. *)
Lemma send_shutdown p ans :
  exists ok conn, send_message (p_socket_path p) SHUTDOWN zero_coord (p_coord p) 6 [1] ans = Ok (ok, conn) /\
    (lets_out ans (sun_path (p_socket_path p)) -> ok = true /\ conn = Some (shutdown_message p)) /\
    (forall q bytes, conn = Some (q, bytes) ->
       q = sun_path (p_socket_path p) /\ bytes `prefix_of` message (shutdown_header (p_coord p)) [1]).
Proof.
  unfold send_message, lets_out. change (u32 (zlength [1])) with 1. fold (shutdown_header (p_coord p)).
  rewrite header_serialize_eq by done. set (path := sun_path _).
  destruct (Z.ltb_spec (send_socket ans) 0); [eexists _, _; split; [done|]; split; [lia|done]|].
  destruct (Z.ltb_spec (send_connect ans path) 0); [eexists _, _; split; [done|]; split; [lia|done]|].
  bind_simpl. unfold written. set (enc := encoding _).
  assert (Hw : forall n, take n enc `prefix_of` message (shutdown_header (p_coord p)) [1])
    by (intros n; apply prefix_app_r; exists (drop n enc); by rewrite take_drop).
  destruct (Z.eqb_spec (send_write1 ans) WIRE_SIZE) as [Hn|Hn]; simpl negb; cbv iota.
  2:{ eexists _, _. split; [done|]. split; [tauto|]. intros q bytes [= <- <-]. auto. }
  assert (Ht : take (Z.to_nat (send_write1 ans)) enc = enc)
    by (apply take_ge; pose proof (zlength_header (shutdown_header (p_coord p))) as Hz; fold enc in Hz;
        unfold zlength, WIRE_SIZE in *; lia).
  rewrite Ht. change (0 <? zlength [1]) with true. cbv iota. eexists _, _. split; [done|]. split.
  - intros (_ & _ & _ & ->). split; [done|]. reflexivity.
  - intros q bytes Hq.
    assert (q = path /\ bytes = enc ++ take (Z.to_nat (send_write2 ans)) [1]) as [-> ->] by (split; congruence).
    split; [done|]. unfold message. fold enc. apply prefix_app.
    eexists (drop (Z.to_nat (send_write2 ans)) [1]). by rewrite take_drop.
Qed.

Lemma shutdown_loop_spec peers : forall k ans,
  exists sent conns, shutdown_loop peers k ans = Ok (sent, conns) /\
    ((forall i p, peers !! i = Some p -> lets_out (ans (k + i)%nat) (sun_path (p_socket_path p))) ->
       sent = zlength peers /\ conns = shutdown_message <$> peers) /\
    (forall i p, peers !! i = Some p -> lets_out (ans (k + i)%nat) (sun_path (p_socket_path p)) ->
       shutdown_message p ∈ conns) /\
    (forall q bytes, (q, bytes) ∈ conns ->
       exists p, p ∈ peers /\ q = (shutdown_message p).1 /\ bytes `prefix_of` (shutdown_message p).2).
Proof.
  induction peers as [|p peers IH]; intros k ans.
  { exists 0, []. split; [done|]. split; [done|]. split; [done|]. intros q bytes Hq. by apply not_elem_of_nil in Hq. }
  destruct (send_shutdown p (ans k)) as (ok & conn & Hsend & Hok & Hconn).
  destruct (IH (S k) ans) as (sent & conns & Hl & Hall & Hone & Honly).
  cbn [shutdown_loop]. change (ShutdownPayload.serialize (ShutdownPayload.mk 1)) with (Ok [1] : outcome (list Z)).
  bind_simpl. rewrite Hsend. bind_simpl. rewrite Hl. bind_simpl. eexists _, _. split; [done|]. split_and!.
  - intros Hi. destruct (Hok ltac:(pose proof (Hi 0%nat p eq_refl) as H; by rewrite Nat.add_0_r in H)) as [-> ->].
    destruct Hall as [-> ->]; [|split; [rewrite zlength_cons; lia|done]].
    intros i q Hq. pose proof (Hi (S i) q Hq) as H. by replace (S k + i)%nat with (k + S i)%nat by lia.
  - intros [|i] q Hq Ho.
    + injection Hq as <-. rewrite Nat.add_0_r in Ho. destruct (Hok Ho) as [_ ->]. by left.
    + assert (Hin : shutdown_message q ∈ conns)
        by (apply (Hone i); [done|by replace (S k + i)%nat with (k + S i)%nat by lia]).
      destruct conn; [by right|done].
  - intros q bytes Hq. assert (Hc : conn = Some (q, bytes) \/ (q, bytes) ∈ conns).
    { destruct conn; [|by right]. apply elem_of_cons in Hq as [->|Hq]; auto. }
    destruct Hc as [Hc|Hc].
    + exists p. split; [by left|]. by apply Hconn.
    + destruct (Honly q bytes Hc) as (p' & Hp' & Hq'). exists p'. split; [by right|done].
Qed.

(** The message, read whole, ends the daemon's loop. *)
Lemma shutdown_received `{Host} p inc rep node signal turns :
  coord_ok (p_coord p) -> lets_receive (transport_ node) inc 1 -> stream inc = (shutdown_message p).2 ->
  0 <= messages_handled_ node < 2 ^ 31 - 1 -> running_ node = true ->
  daemon_loop true (mkTurn signal inc rep :: turns) node =
    Ok (true, handle_shutdown (node <| messages_handled_ := messages_handled_ node + 1 |>), []).
Proof.
  intros Hc Hrec Hs Hm Hrun. cbn [daemon_loop turn_incoming turn_reply turn_signal]. rewrite Hrun. simpl negb. cbv iota.
  rewrite (daemon_receives inc rep node (shutdown_header (p_coord p)) [1]);
    [|apply make_ok; auto; unfold SHUTDOWN, coord_ok; unfold_ints; simpl; lia|apply make_magic|apply make_size|
     done|done|unfold_ints; lia].
  unfold dispatch_message, shutdown_header. rewrite make_type. simpl. by destruct turns, (negb signal).
Qed.

(** What [daemon_main] makes of its environment: a daemon that listens. *)
Definition listening_daemon (level : Level) (coord : LinquCoordinate) (base : string) (fd : Z) : NodeDaemon :=
  let d := (new_daemon level coord base).1 in
  d <| transport_ := (transport_ d) <| listen_fd_ := fd |> |> <| running_ := true |>.

Definition socket_calls_ok (socket_ret bind_ret listen_ret : Z) (path : string) : bool :=
  (0 <=? socket_ret) && (str_size path <? SUN_PATH_SIZE) && (0 <=? bind_ret) && (0 <=? listen_ret).

Lemma start_spec level c base sr br lr :
  let '(ok, d, _) := start sr br lr (new_daemon level c base).1 in
  if socket_calls_ok sr br lr (make_socket_path base c (level_value level))
  then ok = true /\ d = listening_daemon level c base sr else ok = false /\ running_ d = false.
Proof.
  unfold start, start_listening, socket_calls_ok, listening_daemon.
  change (listen_fd_ (transport_ (new_daemon level c base).1)) with (-1).
  change (socket_path_ (transport_ (new_daemon level c base).1)) with (make_socket_path base c (level_value level)).
  change (0 <=? -1) with false. cbv iota zeta. cbn [setter set_listen_fd listen_fd_ socket_path_].
  rewrite (Z.leb_antisym sr 0). destruct (sr <? 0); [done|]. cbn [negb andb].
  rewrite Z.leb_antisym. destruct (str_size _ <? SUN_PATH_SIZE); [|done]. cbn [negb andb].
  rewrite (Z.leb_antisym br 0), (Z.leb_antisym lr 0). by destruct (br <? 0), (lr <? 0).
Qed.

Lemma stop_closes t : is_listening (UnixSocketTransport.stop t).1 = false.
Proof.
  unfold UnixSocketTransport.stop, is_listening. cbn [setter set_stopped listen_fd_].
  by destruct (0 <=? listen_fd_ t) eqn:E; simpl.
Qed.

Lemma level_value_u8 v : level_value (u8 v) = u8 v.
Proof. unfold level_value. apply u8_id, u8_range. Qed.


(** C27.  [shutdown] stops the hosts of the cluster.  When no number in the names
    below the base overflows, the tool returns 0; it writes only to sockets
    that the names found give to level 3, and nothing but (a first part of) a
    [SHUTDOWN] message to the node named; a host whose socket lies at its place
    in the tree is among them, and is sent the whole message when the system
    lets it through, whatever happens to the others; and a host that reads that
    message leaves its loop in that turn.  If every message gets through, the
    count reported is the number of living level-3 peers. *)
Theorem tool_shutdown_stops_hosts args env tree ans base_path :
  parse_args args "" (default "/tmp/linqu/linqu_vcluster_1024" (env "LINQU_BASE")) = Some ("shutdown", base_path) ->
  let paths := sockets base_path (tree base_path) in
  zlength paths < 2 ^ 31 -> (forall q, q ∈ paths -> exists o, parse_socket_path q = Ok o) ->
  exists run hosts, orchestrator_main args env tree ans = Ok run /\ exit_code run = 0 /\
    (forall p, p ∈ hosts -> p_socket_path p ∈ paths /\ parse_socket_path (p_socket_path p) = Ok (Some (p_coord p, 3))) /\
    (forall q bytes, (q, bytes) ∈ sent_to run ->
       exists p, p ∈ hosts /\ q = sun_path (p_socket_path p) /\ bytes `prefix_of` (shutdown_message p).2) /\
    ((forall k q, lets_out (ans k) q) -> sent_count run = zlength hosts /\ sent_to run = shutdown_message <$> hosts) /\
    (forall c, coord_ok c -> coord_matches base_path = [] ->
       lookup_path (node_dirs c 3 ++ [file_name 3]) (tree base_path) = Some Socket ->
       exists p, p ∈ hosts /\ p_coord p = visible 3 c /\
         ((forall k, lets_out (ans k) (sun_path (p_socket_path p))) -> shutdown_message p ∈ sent_to run) /\
         (forall (h : Host) inc rep node signal turns, lets_receive (transport_ node) inc 1 ->
            stream inc = (shutdown_message p).2 -> 0 <= messages_handled_ node < 2 ^ 31 - 1 -> running_ node = true ->
            exists node', daemon_loop true (mkTurn signal inc rep :: turns) node = Ok (true, node', []) /\
              running_ node' = false)).
Proof.
  intros Hargs paths Hlen Hp. unfold orchestrator_main. cbv zeta. rewrite Hargs. cbn [String.eqb Ascii.eqb Bool.eqb orb].
  destruct (register_all_total paths [] 0 Hp ltac:(lia) ltac:(lia)) as [[r n] Hreg].
  assert (Hd : discover base_path (tree base_path) [] = Ok (r, n))
    by (unfold discover; by rewrite (proj1 scan_is_register_all)).
  rewrite Hd. bind_simpl.
  destruct (register_all_spec paths [] 0 r n ltac:(split; constructor) Hreg) as ([Hsort Hkeys] & _ & Hv).
  destruct (shutdown_loop_spec (peers_at_level 3 r) 0 ans) as (sent & conns & Hl & Hall & Hone & Honly).
  rewrite Hl. bind_simpl. eexists _, (peers_at_level 3 r). split; [reflexivity|].
  cbn [exit_code sent_to sent_count].
  assert (Hr : registry_ok r) by (split; done).
  assert (Hfound : forall k p, view r !! k = Some p ->
    exists q, last_socket k paths = Some q /\ q ∈ paths /\ names_key k q = true /\ p = found k q).
  { intros k p Hk. rewrite Hv in Hk. unfold expected in Hk. destruct (last_socket k paths) as [q|] eqn:E; [|done].
    injection Hk as <-. exists q. by apply last_Some_elem_of, list_elem_of_filter in E as [Hn%Is_true_true Hq]. }
  split; [done|]. split_and!.
  - intros p Hin. apply query_elem in Hin as [Hin [Hlv _]%at_level_spec]; [|done].
    destruct (Hfound _ _ Hin) as (q & _ & Hq & Hn & Hpq). assert (p_socket_path p = q) as -> by (by rewrite Hpq).
    split; [done|]. unfold names_key in Hn. destruct (parse_socket_path q) as [[[c l]|]|]; [|done..].
    apply bool_decide_eq_true in Hn. cbn [k_level key_of] in Hlv. unfold key_of in Hn. injection Hn as -> ->.
    by rewrite Hlv.
  - exact Honly.
  - intros Hlet. apply Hall. auto.
  - intros c Hc Hq Hlook.
    pose proof (sockets_lookup _ base_path (tree base_path) (node_names_visible c 3) ltac:(by unfold node_dirs) Hlook) as Hin.
    destruct (last_socket_elem (mkKey (visible 3 c) 3) _ _ Hin) as (q & Hlast & Hqin).
    { unfold names_key. rewrite parse_node_path by (done || unfold_ints; lia). by apply bool_decide_eq_true. }
    exists (found (mkKey (visible 3 c) 3) q).
    assert (Hpeer : found (mkKey (visible 3 c) 3) q ∈ peers_at_level 3 r).
    { apply query_elem; [done|]. split; [|done]. rewrite Hv. unfold expected, key_of. cbn. unfold paths. by rewrite Hlast. }
    split_and!; [done|done|..].
    + intros Hlet. apply list_elem_of_lookup in Hpeer as [i Hi]. by apply (Hone i).
    + intros h inc rep node signal turns H1 H2 H3 H4.
      exists (handle_shutdown (node <| messages_handled_ := messages_handled_ node + 1 |>)). split; [|done].
      apply (shutdown_received (found (mkKey (visible 3 c) 3) q)); try done.
      unfold coord_ok, visible in *. simpl. destruct Hc as (? & ? & ? & ? & ?). unfold_ints. split_and!; lia.
Qed.

(** ** The tool on a small cluster *)
Definition sample_args (command : string) : list string := ["--base"; "/tmp/cluster"; "--command"; command].
Definition sample_send (k : nat) : send_answers := mkSend 5 (fun _ => 0) WIRE_SIZE 1.
Definition sample_cluster : PeerRegistry :=
  match discover "/tmp/cluster" sample_tree [] with Ok (r, _) => r | Fault _ => [] end.

Definition shutdown_arrives (p : PeerInfo) : incoming :=
  mkIncoming 1 false 9 (shutdown_message p).2 (in_pieces 12) [mkAnswer 1 false].

Lemma serves_one : serves 1 [mkAnswer 1 false].
Proof. apply serves_moved; [simpl; lia|constructor]. Qed.

Lemma tool_status_always_healthy_witness :
  exists run, orchestrator_main (sample_args "status") (fun _ => None) (fun _ => sample_tree) sample_send = Ok run /\
    json_text (JObj [("command", JStr "status"); ("base_path", JStr "/tmp/cluster"); ("total_peers", JNum 2);
      ("l3_hosts", JNum 1); ("l4_pods", JNum 0); ("l5_supernodes", JNum 0); ("l6_clusters", JNum 1);
      ("l3_alive", JNum 1); ("status", JStr "healthy")]) (stdout run).
Proof.
  destruct (tool_status_always_healthy (sample_args "status") (fun _ => None) (fun _ => sample_tree) sample_send
    "status" "/tmp/cluster" sample_cluster 2 eq_refl (or_intror eq_refl) ltac:(vm_compute; reflexivity))
    as (run & Hrun & _ & _ & Hj & _).
  exists run. split; [exact Hrun|]. exact (Hj eq_refl).
Defined.

Lemma tool_shutdown_stops_hosts_witness :
  exists run p, orchestrator_main (sample_args "shutdown") (fun _ => None) (fun _ => sample_tree) sample_send = Ok run /\
    p_coord p = mkCoord 0 1 2 9 0 0 0 /\ shutdown_message p ∈ sent_to run /\
    exists node', @daemon_loop sample_host true [mkTurn false (shutdown_arrives p) sample_reply]
      (sample_node <| running_ := true |>) = Ok (true, node', []) /\ running_ node' = false.
Proof.
  destruct (tool_shutdown_stops_hosts (sample_args "shutdown") (fun _ => None) (fun _ => sample_tree) sample_send
    "/tmp/cluster" eq_refl ltac:(vm_compute; reflexivity)) as (run & hosts & Hrun & _ & _ & _ & _ & Hf).
  - intros q Hq. vm_compute in Hq. apply elem_of_cons in Hq as [->|Hq]; [by eexists; vm_compute|].
    apply elem_of_cons in Hq as [->|Hq]; [by eexists; vm_compute|by apply not_elem_of_nil in Hq].
  - destruct (Hf (mkCoord 0 1 2 9 0 0 0)) as (p & _ & Hp & Hs & Hd);
      [unfold coord_ok; unfold_ints; simpl; lia|reflexivity|reflexivity|].
    exists run, p. split; [exact Hrun|]. split; [exact Hp|]. split.
    + apply Hs. intros k. split_and!; simpl; lia.
    + apply Hd; [|reflexivity|simpl; lia|reflexivity].
      split_and!; [by repeat split|exact (serves_pieces 12)|exact serves_one].
Defined.

(** The daemon of host 9, and the shutdown message of the tool. *)
Definition host9_env (k : string) : option string :=
  if String.eqb k "LINQU_LEVEL" then Some "3" else if String.eqb k "LINQU_L3" then Some "9"
  else if String.eqb k "LINQU_BASE" then Some "/tmp/cluster" else None.
Definition host9 : LinquCoordinate := mkCoord 0 0 0 9 0 0 0.
Definition host9_stream : list Z := message (make SHUTDOWN 6 zero_coord host9 1) [1].
Definition host9_turn : Turn :=
  mkTurn false (mkIncoming 1 false 9 host9_stream (in_pieces 12) [mkAnswer 1 false]) sample_reply.

