(* ===== verification/OrchestratorGraph.v ===== *)
(** * The dependency graph behind the orchestrator

    An abstract view of [LinquOrchestratorState]: the live tasks as the nodes
    of a graph whose edges are the producer and consumer lists, with the
    reference counts of the descriptors.  [graph_ok] is the invariant that
    makes retirement and group dispatch safe; one lemma per elementary step of
    the scheduler says that the step keeps it.  The handlers of
    [src/src/runtime/linqu_orchestrator_state.cpp] are built from these steps
    in [OrchestratorInvariant].

    The counts are allowed to lag: [owed_out] is the multiset of producers
    whose [fanout_refcount] a completion in progress has still to bump,
    [owed_in] the multiset of consumers whose [fanin_refcount] it has still to
    bump. *)

From S2P Require Import Prelude Coordinate LinquTaskRing LinquScopeStack OrchestrationApi.
From S2P Require Import RingMetrics LinquOrchestratorState.

Definition done (st : Status) : bool :=
  match st with COMPLETED | CONSUMED => true | _ => false end.

Record graph := mkGraph {
  lo : Z;
  hi : Z;
  node : Z -> LinquTaskDescriptor;
  deps : Z -> list Z;
  cons : Z -> list Z;
  scoped : list Z;
  subs : gmap Z Z;
  next_id : Z;
  specs : gmap Z PendingGroupSpec;
  direct : bool;
}.

Definition alive (g : graph) (t : Z) : Prop := lo g <= t < hi g.
Definition is_done (g : graph) (t : Z) : bool := done (status (node g t)).

(** The finished tasks of a list, with multiplicity. *)
Fixpoint ndone (g : graph) (l : list Z) : Z :=
  match l with [] => 0 | c :: l => (if is_done g c then 1 else 0) + ndone g l end.

(** Sub-tasks of group [t] whose completion is awaited.  Without a dispatcher
    the sub-tasks complete on the spot and the table is not used. *)
Definition outstanding (g : graph) (t : Z) : Z :=
  if direct g then 0 else Z.of_nat (size (filter (fun kv => kv.2 = t) (subs g))).

(** Where the orchestrator is: between handlers, handing out the sub-tasks of
    a group with some left, or building the descriptor of a new task. *)
Inductive phase := Idle | Dispatching (t left_ : Z) | Building (t : Z).

Definition undispatched (ph : phase) (t : Z) : Z :=
  match ph with Dispatching u r => if decide (u = t) then r else 0 | _ => 0 end.

Definition spec_for (g : graph) (t : Z) : Prop :=
  exists sp, specs g !! t = Some sp /\ zlength (spec_sub_tasks sp) = group_size (node g t) /\
    length (private_params_storage sp) = length (spec_sub_tasks sp).

(** The group bookkeeping of a live task. *)
Definition group_ok (g : graph) (ph : phase) (t : Z) : Prop :=
  match status (node g t) with
  | PENDING => outstanding g t = 0 /\ sub_complete_count (node g t) = 0 /\ undispatched ph t = 0 /\
      (ph <> Building t -> fanin_count (node g t) = zlength (deps g t) /\ spec_for g t)
  | READY => False
  | RUNNING => outstanding g t + sub_complete_count (node g t) + undispatched ph t
      = group_size (node g t)
  | COMPLETED | CONSUMED => outstanding g t = 0 /\ undispatched ph t = 0
  end.

Record graph_ok (g : graph) (owed_out owed_in : list Z) (ph : phase) : Prop := {
  ok_range : 0 <= lo g <= hi g;
  ok_deps : forall t p, alive g t -> p ∈ deps g t ->
    0 <= p <= t /\ (is_done g t = false -> alive g p);
  ok_cons : forall t c, alive g t -> c ∈ cons g t -> alive g c;
  ok_sym : forall p c, alive g p -> alive g c -> occ p (deps g c) = occ c (cons g p);
  ok_small : forall t, alive g t -> zlength (deps g t) < 2 ^ 31 /\ zlength (cons g t) < 2 ^ 31;
  ok_fanout : forall t, alive g t -> fanout_count (node g t) = 1 + zlength (cons g t);
  ok_ref : forall p, alive g p -> 0 <= fanout_refcount (node g p) /\
    fanout_refcount (node g p) + occ p owed_out
      <= (if decide (p ∈ scoped g) then 0 else 1) + ndone g (cons g p);
  ok_consumed : forall p, alive g p -> status (node g p) = CONSUMED ->
    p ∉ scoped g /\ forall c, c ∈ cons g p -> is_done g c = true;
  ok_fanin : forall c, alive g c -> is_done g c = false -> 0 <= fanin_refcount (node g c) /\
    fanin_refcount (node g c) + occ c owed_in <= ndone g (deps g c);
  ok_scoped : NoDup (scoped g) /\ forall t, t ∈ scoped g -> alive g t;
  ok_group : forall t, alive g t -> is_group (node g t) = true ->
    0 <= sub_complete_count (node g t) /\ 0 <= group_size (node g t) < 2 ^ 32 /\ group_ok g ph t;
  ok_started : forall t, alive g t -> is_group (node g t) = true -> 0 < group_size (node g t) ->
    status (node g t) <> PENDING -> forall p, p ∈ deps g t -> is_done g t = false -> is_done g p = true;
  ok_subs : direct g = false -> forall i t, subs g !! i = Some t ->
    alive g t /\ is_group (node g t) = true /\ status (node g t) = RUNNING /\ next_id g < i < 0;
  ok_next : next_id g < 0;
}.

(** ** Counting *)

Lemma ndone_bounds g l : 0 <= ndone g l <= zlength l.
Proof. unfold zlength. induction l; simpl; [done|]. destruct (is_done g a); lia. Qed.
Lemma ndone_full g l c : zlength l <= ndone g l -> c ∈ l -> is_done g c = true.
Proof.
  unfold zlength. induction l as [|d l IH]; [by intros _ ?%not_elem_of_nil|]. simpl.
  pose proof (ndone_bounds g l) as Hb. unfold zlength in Hb.
  intros Hn [->|Hc]%elem_of_cons; [destruct (is_done g d); [done|lia]|].
  apply IH; [destruct (is_done g d); lia|done].
Qed.
Lemma ndone_agree g g' l : (forall c, c ∈ l -> is_done g' c = is_done g c) -> ndone g' l = ndone g l.
Proof.
  induction l as [|c l IH]; simpl; [done|]. intros H. rewrite H by set_solver. rewrite IH; [done|].
  intros. apply H. set_solver.
Qed.
(** One task finishes: a list gains as many finished members as it lists the task. *)
Lemma ndone_finish g g' t l :
  is_done g t = false -> is_done g' t = true -> (forall c, c ∈ l -> c <> t -> is_done g' c = is_done g c) ->
  ndone g' l = ndone g l + occ t l.
Proof.
  intros H0 H1. induction l as [|c l IH]; simpl; intros H; [done|].
  rewrite IH by (intros; apply H; set_solver). case_decide; subst; [rewrite H0, H1; lia|].
  rewrite H by set_solver. lia.
Qed.

(** ** Graphs that agree on the live tasks *)

Record same_graph (g g' : graph) : Prop := {
  same_lo : lo g' = lo g;
  same_hi : hi g' = hi g;
  same_node : forall t, alive g t -> node g' t = node g t;
  same_deps : forall t, alive g t -> deps g' t = deps g t;
  same_cons : forall t, alive g t -> cons g' t = cons g t;
  same_scoped : scoped g' = scoped g;
  same_subs : subs g' = subs g;
  same_next : next_id g' = next_id g;
  same_specs : specs g' = specs g;
  same_direct : direct g' = direct g;
}.

(** [g] with the descriptor of one task changed. *)
Definition upd (t : Z) (f : LinquTaskDescriptor -> LinquTaskDescriptor) (g : graph) : graph :=
  mkGraph (lo g) (hi g) (fun u => if decide (u = t) then f (node g u) else node g u)
    (deps g) (cons g) (scoped g) (subs g) (next_id g) (specs g) (direct g).

Lemma node_upd_eq t f g : node (upd t f g) t = f (node g t).
Proof. simpl. by rewrite decide_True. Qed.
Lemma node_upd_ne t f g u : u <> t -> node (upd t f g) u = node g u.
Proof. intros. simpl. by rewrite decide_False. Qed.

Lemma same_graph_ok g g' oo oi ph : same_graph g g' -> graph_ok g oo oi ph -> graph_ok g' oo oi ph.
Proof.
  intros [Hlo Hhi Hn Hd Hc Hs Hsu Hnx Hsp Hdi] Hok.
  assert (Ha : forall t, alive g' t <-> alive g t) by (intros; unfold alive; by rewrite Hlo, Hhi).
  assert (Hdn : forall t, alive g t -> is_done g' t = is_done g t)
    by (intros t Ht; unfold is_done; by rewrite Hn).
  assert (Hnc : forall p, alive g p -> ndone g' (cons g p) = ndone g (cons g p)).
  { intros p Hp. apply ndone_agree. intros c Hcp. apply Hdn. by apply (ok_cons _ _ _ _ Hok p). }
  constructor; rewrite ?Hlo, ?Hhi, ?Hs, ?Hnx; try apply Hok.
  - intros t p Ht%Ha. rewrite Hd, Hdn, Ha by done. by apply Hok.
  - intros t c Ht%Ha. rewrite Hc, Ha by done. by apply Hok.
  - intros p c Hp%Ha Hcc%Ha. rewrite Hd, Hc by done. by apply Hok.
  - intros t Ht%Ha. rewrite Hd, Hc by done. by apply Hok.
  - intros t Ht%Ha. rewrite Hn, Hc by done. by apply Hok.
  - intros p Hp%Ha. rewrite Hn, Hc, Hnc by done. by apply Hok.
  - intros p Hp%Ha. rewrite Hn, Hc by done. intros Hst.
    destruct (ok_consumed _ _ _ _ Hok p Hp Hst) as [? Hall]. split; [done|]. intros c Hcc.
    rewrite Hdn; [by apply Hall|by apply (ok_cons _ _ _ _ Hok p)].
  - intros c Hcc%Ha. rewrite Hdn, Hn, Hd by done. intros Hnd.
    rewrite (ndone_agree g g' (deps g c)); [by apply Hok|]. intros p Hp. apply Hdn.
    by apply (ok_deps _ _ _ _ Hok c p).
  - split; [apply Hok|]. intros t Ht. apply Ha. by apply (ok_scoped _ _ _ _ Hok).
  - intros t Ht%Ha. unfold group_ok, outstanding, spec_for. rewrite Hn, Hd, Hsu, Hdi, Hsp by done. by apply Hok.
  - intros t Ht%Ha. rewrite Hn, Hdn, Hd by done. intros Hg Hz Hst p Hp Hnd.
    rewrite Hdn; [by eapply (ok_started _ _ _ _ Hok)|by apply (ok_deps _ _ _ _ Hok t p)].
  - rewrite Hdi, Hsu. intros Hdir i t Hi. destruct (ok_subs _ _ _ _ Hok Hdir i t Hi) as (Ht & ? & ? & ?).
    rewrite Ha, Hn by done. done.
Qed.

#[export] Instance same_graph_refl : Reflexive same_graph.
Proof. by constructor. Qed.
#[export] Instance same_graph_trans : Transitive same_graph.
Proof.
  intros g1 g2 g3 [H1 H2 H3 H4 H5 H6 H7 H8 H9 H10] [K1 K2 K3 K4 K5 K6 K7 K8 K9 K10].
  assert (Ha : forall t, alive g1 t -> alive g2 t) by (unfold alive; intros; lia).
  constructor; intros; try congruence; (rewrite ?K3, ?K4, ?K5 by auto); auto.
Qed.

(** ** Elementary steps *)

Section updates.
Context (t : Z) (f : LinquTaskDescriptor -> LinquTaskDescriptor) (g : graph).
Implicit Types u : Z.

Lemma is_done_upd u :
  is_done (upd t f g) u = if decide (u = t) then done (status (f (node g t))) else is_done g u.
Proof. unfold is_done. simpl. case_decide; by subst. Qed.

Lemma is_done_upd_same u : done (status (f (node g t))) = is_done g t -> is_done (upd t f g) u = is_done g u.
Proof. intros Hd. rewrite is_done_upd. case_decide; by subst. Qed.

Lemma ndone_upd_same l : done (status (f (node g t))) = is_done g t -> ndone (upd t f g) l = ndone g l.
Proof. intros Hd. apply ndone_agree. intros. by apply is_done_upd_same. Qed.
End updates.

(** Changing counters only: the reference counts may grow by what is owed. *)
Lemma upd_counters t f g oo oi oo' oi' ph :
  graph_ok g oo oi ph -> alive g t ->
  let d := node g t in
  status (f d) = status d -> fanout_count (f d) = fanout_count d -> is_group (f d) = is_group d ->
  group_size (f d) = group_size d -> (fanin_count (f d) = fanin_count d \/ ph = Building t) ->
  sub_complete_count (f d) = sub_complete_count d ->
  0 <= fanout_refcount (f d) ->
  fanout_refcount (f d) + occ t oo' <= fanout_refcount d + occ t oo ->
  (is_done g t = false -> 0 <= fanin_refcount (f d) /\
     fanin_refcount (f d) + occ t oi' <= fanin_refcount d + occ t oi) ->
  (forall u, u <> t -> occ u oo' <= occ u oo) -> (forall u, u <> t -> occ u oi' <= occ u oi) ->
  graph_ok (upd t f g) oo' oi' ph.
Proof.
  intros Hok Ht; cbv zeta; intros Hst Hfo Hig Hgs Hfc Hsc Hr0 Hr Hf Hoo Hoi.
  assert (Hd : done (status (f (node g t))) = is_done g t) by (unfold is_done; by rewrite Hst).
  assert (Hnode : forall (A : Type) (pr : LinquTaskDescriptor -> A) u, pr (f (node g t)) = pr (node g t) ->
    pr (node (upd t f g) u) = pr (node g u)).
  { intros A pr u Hpr. simpl. case_decide as E; [by rewrite E|done]. }
  pose proof (fun u => is_done_upd_same t f g u Hd) as Hdn.
  pose proof (fun l => ndone_upd_same t f g l Hd) as Hnd.
  constructor; try apply Hok.
  - intros u p. rewrite Hdn. apply Hok.
  - intros u Hu. rewrite (Hnode _ fanout_count) by done. by apply Hok.
  - intros p Hp. rewrite Hnd. destruct (ok_ref _ _ _ _ Hok p Hp) as [Hp0 Hp1].
    simpl. destruct (decide (p = t)) as [E|E]; [subst; lia|]. specialize (Hoo p E). lia.
  - intros p Hp. rewrite (Hnode _ status) by done. intros Hs.
    destruct (ok_consumed _ _ _ _ Hok p Hp Hs) as [? Hall]. split; [done|]. intros. rewrite Hdn. auto.
  - intros c Hc. rewrite Hdn, Hnd. intros Hcd. destruct (ok_fanin _ _ _ _ Hok c Hc Hcd) as [Hc0 Hc1].
    simpl. destruct (decide (c = t)) as [E|E]; [subst; specialize (Hf Hcd); lia|]. specialize (Hoi c E). lia.
  - intros u Hu. rewrite (Hnode _ is_group), (Hnode _ sub_complete_count), (Hnode _ group_size) by done.
    intros Hgu. destruct (ok_group _ _ _ _ Hok u Hu Hgu) as (? & ? & Hgo). split; [done|]. split; [done|].
    unfold group_ok, spec_for in *. rewrite (Hnode _ status), (Hnode _ sub_complete_count),
      (Hnode _ group_size) by done.
    destruct (status (node g u)); try done. destruct Hgo as (? & ? & ? & Hx). split_and!; try done.
    intros Hb. destruct Hfc as [Hfc|Hfc]; [rewrite (Hnode _ fanin_count) by done; auto|].
    destruct (decide (u = t)) as [->|E]; [done|rewrite node_upd_ne by done; auto].
  - intros u Hu. rewrite (Hnode _ is_group), (Hnode _ group_size), (Hnode _ status) by done.
    intros ? ? ? p ?. rewrite !Hdn. by apply Hok.
  - intros Hdir i u Hi. rewrite (Hnode _ is_group), (Hnode _ status) by done. by apply Hok.
Qed.

(** [producer->fanout_refcount++] pays one owed bump. *)
Lemma release_ok p g oo oi ph :
  graph_ok g (p :: oo) oi ph -> alive g p -> graph_ok (upd p bump_fanout_refcount g) oo oi ph.
Proof.
  intros Hok Hp. destruct (ok_ref _ _ _ _ Hok p Hp) as [H0 H1].
  assert (Hsm : fanout_refcount (node g p) + 1 < 2 ^ 32).
  { simpl in H1. rewrite decide_True in H1 by done. destruct (ok_small _ _ _ _ Hok p Hp).
    pose proof (ndone_bounds g (cons g p)). pose proof (occ_nonneg p oo). destruct (decide (p ∈ scoped g)); lia. }
  eapply upd_counters; try done; try (by left); cbn; rewrite ?u32_id by (unfold_ints; lia).
  - lia.
  - rewrite decide_True by done. lia.
  - intros Hd. split; [|lia]. apply (ok_fanin _ _ _ _ Hok p Hp Hd).
  - intros u Hu. rewrite decide_False by done. lia.
Qed.

(** [consumer->fanin_refcount++] pays one owed bump. *)
Lemma notify_ok c g oo oi ph :
  graph_ok g oo (c :: oi) ph -> alive g c -> graph_ok (upd c bump_fanin_refcount g) oo oi ph.
Proof.
  intros Hok Hc. eapply upd_counters; try done; try (by left); cbn.
  - apply (ok_ref _ _ _ _ Hok c Hc).
  - intros Hd. destruct (ok_fanin _ _ _ _ Hok c Hc Hd) as [H0 H1]. simpl in H1.
    rewrite decide_True in H1 by done. destruct (ok_small _ _ _ _ Hok c Hc).
    pose proof (ndone_bounds g (deps g c)). pose proof (occ_nonneg c oi).
    rewrite u32_id by (unfold_ints; lia). rewrite decide_True by done. lia.
  - intros u Hu. rewrite decide_False by done. lia.
Qed.

(** Statuses that change neither who is finished nor the counts. *)
Lemma upd_status_ok t st g oo oi ph ph' :
  graph_ok g oo oi ph -> alive g t -> done st = is_done g t ->
  (st = CONSUMED -> t ∉ scoped g /\ forall c, c ∈ cons g t -> is_done g c = true) ->
  (is_group (node g t) = true -> group_ok (upd t (set_desc_status st) g) ph' t) ->
  (forall u, u <> t -> group_ok g ph u -> group_ok g ph' u) ->
  (is_group (node g t) = true -> 0 < group_size (node g t) -> st <> PENDING -> done st = false ->
     forall p, p ∈ deps g t -> is_done g p = true) ->
  (direct g = false -> forall i, subs g !! i = Some t -> st = RUNNING) ->
  graph_ok (upd t (set_desc_status st) g) oo oi ph'.
Proof.
  intros Hok Ht Hd Hcon Hgrp Hph Hst Hsub.
  assert (Hnode : forall (A : Type) (pr : LinquTaskDescriptor -> A) u,
    pr (set_desc_status st (node g t)) = pr (node g t) ->
    pr (node (upd t (set_desc_status st) g) u) = pr (node g u)).
  { intros A pr u Hpr. simpl. case_decide as E; [by rewrite E|done]. }
  pose proof (fun u => is_done_upd_same t (set_desc_status st) g u Hd) as Hdn.
  pose proof (fun l => ndone_upd_same t (set_desc_status st) g l Hd) as Hnd.
  constructor; try apply Hok.
  - intros u p. rewrite Hdn. apply Hok.
  - intros u Hu. rewrite (Hnode _ fanout_count) by done. by apply Hok.
  - intros p Hp. rewrite Hnd, (Hnode _ fanout_refcount) by done. by apply Hok.
  - intros p Hp Hs. destruct (decide (p = t)) as [->|E].
    + rewrite node_upd_eq in Hs. destruct (Hcon Hs) as [? Hall]. split; [done|]. intros. rewrite Hdn. auto.
    + rewrite node_upd_ne in Hs by done. destruct (ok_consumed _ _ _ _ Hok p Hp Hs) as [? Hall].
      split; [done|]. intros. rewrite Hdn. auto.
  - intros c Hc. rewrite Hdn, Hnd, (Hnode _ fanin_refcount) by done. by apply Hok.
  - intros u Hu. rewrite (Hnode _ is_group), (Hnode _ sub_complete_count), (Hnode _ group_size) by done.
    intros Hg. destruct (ok_group _ _ _ _ Hok u Hu Hg) as (? & ? & Hgo). split; [done|]. split; [done|].
    destruct (decide (u = t)) as [->|E]; [by apply Hgrp|].
    unfold group_ok, spec_for. rewrite node_upd_ne by done. by apply Hph.
  - intros u Hu. rewrite (Hnode _ is_group), (Hnode _ group_size) by done. intros Hg Hz Hs p Hp. rewrite !Hdn.
    destruct (decide (u = t)) as [->|E].
    + rewrite node_upd_eq in Hs. intros Hud. apply Hst; try done. by rewrite Hd.
    + rewrite node_upd_ne in Hs by done. by apply (ok_started _ _ _ _ Hok u).
  - intros Hdir i u Hi. rewrite (Hnode _ is_group) by done.
    destruct (ok_subs _ _ _ _ Hok Hdir i u Hi) as (? & ? & Hr & ?). split; [done|]. split; [done|]. split; [|done].
    destruct (decide (u = t)) as [->|E]; [rewrite node_upd_eq; by apply (Hsub Hdir i)|by rewrite node_upd_ne].
Qed.

(** [check_task_consumed] when its test succeeds: every consumer has finished
    and the scope has let go. *)
Lemma consume_ok t g oo oi ph :
  graph_ok g oo oi ph -> alive g t -> status (node g t) = COMPLETED ->
  fanout_count (node g t) <= fanout_refcount (node g t) ->
  graph_ok (upd t (set_desc_status CONSUMED) g) oo oi ph.
Proof.
  intros Hok Ht Hs Hf. destruct (ok_ref _ _ _ _ Hok t Ht) as [_ Hb].
  rewrite (ok_fanout _ _ _ _ Hok t Ht) in Hf. pose proof (occ_nonneg t oo).
  pose proof (ndone_bounds g (cons g t)).
  eapply upd_status_ok; eauto.
  - unfold is_done. by rewrite Hs.
  - intros _. destruct (decide (t ∈ scoped g)); [lia|]. split; [done|]. intros c. apply ndone_full. lia.
  - intros Hg. destruct (ok_group _ _ _ _ Hok t Ht Hg) as (_ & _ & Hgo).
    unfold group_ok in *. rewrite node_upd_eq. by rewrite Hs in Hgo.
  - done.
  - intros Hdir i Hi. destruct (ok_subs _ _ _ _ Hok Hdir i t Hi) as (_ & _ & Hr & _). congruence.
Qed.

(** A pending group whose producers have all reported starts. *)
Lemma start_group_ok t g :
  graph_ok g [] [] Idle -> alive g t -> status (node g t) = PENDING -> is_group (node g t) = true ->
  fanin_count (node g t) <= fanin_refcount (node g t) ->
  graph_ok (upd t (set_desc_status RUNNING) g) [] [] (Dispatching t (group_size (node g t))) /\ spec_for g t.
Proof.
  intros Hok Ht Hs Hg Hf.
  destruct (ok_group _ _ _ _ Hok t Ht Hg) as (Hsc & Hgs & Hgo). unfold group_ok in Hgo. rewrite Hs in Hgo.
  destruct Hgo as (Hout & Hsub & _ & Hfc). destruct Hfc as [Hfc Hspec]; [done|]. split; [|done].
  assert (Hnd : is_done g t = false) by (unfold is_done; by rewrite Hs).
  destruct (ok_fanin _ _ _ _ Hok t Ht Hnd) as [_ Hb]. simpl in Hb.
  eapply upd_status_ok; eauto.
  - done.
  - intros _. unfold group_ok. rewrite node_upd_eq. cbn. rewrite decide_True by done.
    change (outstanding (upd t (set_desc_status RUNNING) g) t) with (outstanding g t). lia.
  - intros u Hu. unfold group_ok. cbn. rewrite decide_False by done.
    destruct (status (node g u)); try done. intros (? & ? & ? & Hx). split_and!; try done.
    intros _. by apply Hx.
  - intros _ _ _ _ p. apply ndone_full. lia.
Qed.

Lemma ready_ok t g ph :
  graph_ok g [] [] ph -> alive g t -> status (node g t) = PENDING -> is_group (node g t) = false ->
  graph_ok (upd t (set_desc_status READY) g) [] [] ph.
Proof.
  intros Hok Ht Hs Hg. eapply upd_status_ok; eauto; try congruence.
  - unfold is_done. by rewrite Hs.
  - intros Hdir i Hi. destruct (ok_subs _ _ _ _ Hok Hdir i t Hi) as (_ & _ & Hr & _). congruence.
Qed.

(** A task finishes: its producers and its consumers are owed one bump each. *)
Lemma complete_ok t g ph ph' :
  graph_ok g [] [] ph -> alive g t -> is_done g t = false ->
  (is_group (node g t) = true -> outstanding g t = 0 /\ undispatched ph' t = 0) ->
  (forall u, u <> t -> group_ok g ph u -> group_ok g ph' u) ->
  (direct g = false -> forall i, subs g !! i <> Some t) ->
  graph_ok (upd t (set_desc_status COMPLETED) g) (deps g t) (cons g t) ph'.
Proof.
  intros Hok Ht Hnd Hgrp Hph Hsub. set (g' := upd t (set_desc_status COMPLETED) g).
  assert (Hnode : forall (A : Type) (pr : LinquTaskDescriptor -> A) u,
    pr (set_desc_status COMPLETED (node g t)) = pr (node g t) -> pr (node g' u) = pr (node g u)).
  { intros A pr u Hpr. simpl. case_decide as E; [by rewrite E|done]. }
  assert (Hdone : forall u, is_done g' u = if decide (u = t) then true else is_done g u)
    by (intros; apply is_done_upd).
  assert (Hmono : forall u, is_done g u = true -> is_done g' u = true)
    by (intros u Hu; rewrite Hdone; by case_decide).
  assert (Hfin : forall l, ndone g' l = ndone g l + occ t l).
  { intros l. apply ndone_finish; [done|by rewrite Hdone, decide_True|].
    intros c _ Hc. by rewrite Hdone, decide_False. }
  constructor; try apply Hok.
  - intros u p Hu Hp. destruct (ok_deps _ _ _ _ Hok u p Hu Hp) as [? Ha]. split; [done|].
    intros Hd. apply Ha. destruct (is_done g u) eqn:E; [|done]. apply Hmono in E. congruence.
  - intros u Hu. rewrite (Hnode _ fanout_count) by done. by apply Hok.
  - intros p Hp. rewrite Hfin, (Hnode _ fanout_refcount) by done.
    pose proof (ok_ref _ _ _ _ Hok p Hp) as [? Hb]. simpl in Hb. split; [done|].
    change (cons g' p) with (cons g p). rewrite (ok_sym _ _ _ _ Hok p t Hp Ht). simpl. lia.
  - intros p Hp Hs. destruct (decide (p = t)) as [->|E]; [unfold g' in Hs; by rewrite node_upd_eq in Hs|].
    unfold g' in Hs. rewrite node_upd_ne in Hs by done.
    destruct (ok_consumed _ _ _ _ Hok p Hp Hs) as [? Hall]. split; [done|]. auto.
  - intros c Hc. rewrite Hdone. case_decide as E; [done|]. intros Hcd.
    rewrite Hfin, (Hnode _ fanin_refcount) by done. change (deps g' c) with (deps g c).
    rewrite (ok_sym _ _ _ _ Hok t c Ht Hc). pose proof (ok_fanin _ _ _ _ Hok c Hc Hcd) as [? Hb].
    simpl in Hb. lia.
  - intros u Hu. rewrite (Hnode _ is_group), (Hnode _ sub_complete_count), (Hnode _ group_size) by done.
    intros Hg. destruct (ok_group _ _ _ _ Hok u Hu Hg) as (? & ? & Hgo). split; [done|]. split; [done|].
    unfold group_ok. destruct (decide (u = t)) as [->|E].
    + unfold g'. rewrite node_upd_eq. by apply Hgrp.
    + unfold g', spec_for. rewrite node_upd_ne by done. by apply Hph.
  - intros u Hu. rewrite (Hnode _ is_group), (Hnode _ group_size) by done. intros Hg Hz Hs p Hp Hud.
    rewrite Hdone in Hud. case_decide as E; [done|]. unfold g' in Hs. rewrite node_upd_ne in Hs by done.
    apply Hmono. by apply (ok_started _ _ _ _ Hok u).
  - intros Hdir i u Hi. rewrite (Hnode _ is_group) by done.
    destruct (ok_subs _ _ _ _ Hok Hdir i u Hi) as (? & ? & Hr & ?). split; [done|]. split; [done|]. split; [|done].
    destruct (decide (u = t)) as [->|E]; [by destruct (Hsub Hdir i)|by unfold g'; rewrite node_upd_ne].
Qed.

(** *** Group bookkeeping *)

Definition with_subs (m : gmap Z Z) (n : Z) (g : graph) : graph :=
  mkGraph (lo g) (hi g) (node g) (deps g) (cons g) (scoped g) m n (specs g) (direct g).

(** A change of the sub-task table and of the count of completed sub-tasks
    that keeps the balance of a running group. *)
Lemma group_step_ok t f m n g ph ph' :
  graph_ok g [] [] ph -> alive g t -> is_group (node g t) = true -> status (node g t) = RUNNING ->
  let d := node g t in
  f d = d <| sub_complete_count := sub_complete_count (f d) |> ->
  0 <= sub_complete_count (f d) ->
  outstanding (with_subs m n g) t + sub_complete_count (f d) + undispatched ph' t
    = outstanding g t + sub_complete_count d + undispatched ph t ->
  (forall u, u <> t -> outstanding (with_subs m n g) u = outstanding g u) ->
  (forall u, u <> t -> undispatched ph' u = undispatched ph u) ->
  (forall u, ph = Building u <-> ph' = Building u) ->
  (direct g = false -> forall i u, m !! i = Some u -> (subs g !! i = Some u \/ u = t) /\ n < i < 0) ->
  n < 0 ->
  graph_ok (upd t f (with_subs m n g)) [] [] ph'.
Proof.
  intros Hok Ht Hg Hs; cbv zeta; intros Hf H0 Hbal Hout Hund Hbld Hsubs Hn.
  set (g' := upd t f (with_subs m n g)).
  assert (Hnode : forall (A : Type) (pr : LinquTaskDescriptor -> A) u,
    (forall d x, pr (d <| sub_complete_count := x |>) = pr d) -> pr (node g' u) = pr (node g u)).
  { intros A pr u Hpr. simpl. case_decide as E; [rewrite E, Hf; apply Hpr|done]. }
  assert (Hdn : forall u, is_done g' u = is_done g u)
    by (intros u; unfold is_done; by rewrite (Hnode _ status)).
  assert (Hnd : forall l, ndone g' l = ndone g l) by (intros; by apply ndone_agree).
  constructor; try apply Hok; try done.
  - intros u p. rewrite Hdn. apply Hok.
  - intros u Hu. rewrite (Hnode _ fanout_count) by done. by apply Hok.
  - intros p Hp. rewrite Hnd, (Hnode _ fanout_refcount) by done. by apply Hok.
  - intros p Hp. rewrite (Hnode _ status) by done. intros Hp2.
    destruct (ok_consumed _ _ _ _ Hok p Hp Hp2) as [? Hall]. split; [done|]. intros. rewrite Hdn. auto.
  - intros c Hc. rewrite Hdn, Hnd, (Hnode _ fanin_refcount) by done. by apply Hok.
  - intros u Hu. rewrite (Hnode _ is_group), (Hnode _ group_size) by done. intros Hgu.
    destruct (ok_group _ _ _ _ Hok u Hu Hgu) as (Hsc & ? & Hgo).
    change (outstanding g' u) with (outstanding (with_subs m n g) u).
    destruct (decide (u = t)) as [->|E].
    + split; [unfold g'; by rewrite node_upd_eq|]. split; [done|].
      unfold group_ok in *. rewrite (Hnode _ status), (Hnode _ group_size), Hs by done. rewrite Hs in Hgo.
      change (outstanding g' t) with (outstanding (with_subs m n g) t). unfold g' at 1.
      rewrite node_upd_eq. cbn. cbn in Hbal. lia.
    + split; [unfold g'; by rewrite node_upd_ne|]. split; [done|].
      unfold group_ok, spec_for in *. change (outstanding g' u) with (outstanding (with_subs m n g) u).
      unfold g'. rewrite !node_upd_ne by done. rewrite Hout, Hund by done. cbn.
      destruct (status (node g u)); try done. destruct Hgo as (? & ? & ? & Hx). split_and!; try done.
      intros Hb. apply Hx. intros Hb'. by apply Hb, Hbld.
  - intros u Hu. rewrite (Hnode _ is_group), (Hnode _ group_size), (Hnode _ status) by done.
    intros ? ? ? p ?. rewrite !Hdn. by apply Hok.
  - intros Hdir i u Hi. rewrite (Hnode _ is_group), (Hnode _ status) by done.
    destruct (Hsubs Hdir i u Hi) as [[Hi'| ->] ?]; [|done].
    destruct (ok_subs _ _ _ _ Hok Hdir i u Hi') as (? & ? & ? & ?). done.
Qed.

Lemma upd_id t g : same_graph (upd t (fun d => d) g) g.
Proof. constructor; try done. intros u _. simpl. by case_decide. Qed.

Lemma desc_set_sub_id (d : LinquTaskDescriptor) : d = d <| sub_complete_count := sub_complete_count d |>.
Proof. by destruct d. Qed.

(** [sub_dispatch_to_group_[sub_id] = group_tid] with the next free id. *)
Lemma sub_register_ok t r g :
  graph_ok g [] [] (Dispatching t (r + 1)) -> alive g t -> is_group (node g t) = true ->
  status (node g t) = RUNNING ->
  graph_ok (with_subs (<[next_id g := t]> (subs g)) (next_id g - 1) g) [] []
    (Dispatching t (if direct g then r + 1 else r)).
Proof.
  intros Hok Ht Hg Hs. pose proof (ok_next _ _ _ _ Hok) as Hn.
  eapply same_graph_ok; [apply (upd_id t)|].
  assert (Hfresh : direct g = false -> subs g !! next_id g = None).
  { intros Hd. destruct (subs g !! next_id g) as [u|] eqn:E; [|done].
    destruct (ok_subs _ _ _ _ Hok Hd _ _ E) as (_ & _ & _ & ?). lia. }
  eapply group_step_ok; eauto using desc_set_sub_id.
  - apply (ok_group _ _ _ _ Hok t Ht Hg).
  - unfold outstanding. simpl. rewrite !decide_True by done. destruct (direct g); [lia|].
    rewrite map_filter_insert_True by done. rewrite map_size_insert_None; [lia|].
    apply map_lookup_filter_None. left. auto.
  - intros u Hu. unfold outstanding. simpl. destruct (direct g) eqn:Hd; [done|].
    rewrite map_filter_insert_False by (simpl; congruence).
    by rewrite delete_id by auto.
  - intros u Hu. simpl. by rewrite !decide_False.
  - by intros u.
  - intros Hd i u. rewrite lookup_insert_Some. intros [[<- <-]|[_ Hi]]; [split; [by right|lia]|].
    destruct (ok_subs _ _ _ _ Hok Hd i u Hi) as (_ & _ & _ & ?). split; [by left|lia].
  - lia.
Qed.

(** A sub-task reports: it leaves the table and is counted. *)
Lemma sub_complete_ok i t g ph :
  graph_ok g [] [] ph -> direct g = false -> subs g !! i = Some t -> 0 <= undispatched ph t ->
  graph_ok (upd t bump_sub_complete (with_subs (delete i (subs g)) (next_id g) g)) [] [] ph.
Proof.
  intros Hok Hd Hi Hu0. destruct (ok_subs _ _ _ _ Hok Hd i t Hi) as (Ht & Hg & Hs & Hir).
  destruct (ok_group _ _ _ _ Hok t Ht Hg) as (Hsc & Hgs & Hgo). unfold group_ok in Hgo. rewrite Hs in Hgo.
  assert (Hdel : forall u, Z.of_nat (size (filter (fun kv : Z * Z => kv.2 = u) (delete i (subs g)))) =
    Z.of_nat (size (filter (fun kv : Z * Z => kv.2 = u) (subs g))) - if decide (u = t) then 1 else 0).
  { intros u. rewrite map_filter_delete. case_decide as E.
    - subst u. rewrite map_size_delete_Some; [|exists t; by apply map_lookup_filter_Some].
      destruct (size (filter _ (subs g))) eqn:Ez; [|lia].
      apply map_size_empty_inv in Ez.
      assert (Hx : filter (fun kv : Z * Z => kv.2 = t) (subs g) !! i = Some t) by (by apply map_lookup_filter_Some).
      by rewrite Ez, lookup_empty in Hx.
    - rewrite delete_id; [lia|]. apply map_lookup_filter_None. right. intros v Hv. simpl. congruence. }
  pose proof (Hdel t) as Hdt. rewrite decide_True in Hdt by done. unfold outstanding in Hgo. rewrite Hd in Hgo.
  assert (Hb : sub_complete_count (bump_sub_complete (node g t)) = sub_complete_count (node g t) + 1).
  { cbn. apply u32_id. unfold_ints. lia. }
  eapply group_step_ok; eauto.
  - rewrite Hb. lia.
  - unfold outstanding. cbn [direct subs with_subs]. rewrite Hd, Hdt, Hb. lia.
  - intros u Hu. unfold outstanding. simpl. rewrite Hd, Hdel, decide_False by done. lia.
  - intros _ j u. rewrite lookup_delete_Some. intros [_ Hj].
    destruct (ok_subs _ _ _ _ Hok Hd j u Hj) as (_ & _ & _ & ?). split; [by left|done].
  - apply Hok.
Qed.

(** Without a dispatcher a sub-task is counted on the spot. *)
Lemma sub_direct_ok t r g :
  graph_ok g [] [] (Dispatching t (r + 1)) -> direct g = true -> alive g t -> is_group (node g t) = true ->
  status (node g t) = RUNNING -> 0 <= r ->
  graph_ok (upd t bump_sub_complete g) [] [] (Dispatching t r).
Proof.
  intros Hok Hd Ht Hg Hs Hr.
  destruct (ok_group _ _ _ _ Hok t Ht Hg) as (Hsc & Hgs & Hgo). unfold group_ok in Hgo. rewrite Hs in Hgo.
  simpl in Hgo. rewrite decide_True in Hgo by done.
  assert (Ho : outstanding g t = 0) by (unfold outstanding; by rewrite Hd).
  assert (Hb : sub_complete_count (bump_sub_complete (node g t)) = sub_complete_count (node g t) + 1).
  { cbn. apply u32_id. unfold_ints. lia. }
  apply (same_graph_ok (upd t bump_sub_complete (with_subs (subs g) (next_id g) g))); [by constructor|].
  eapply group_step_ok; eauto.
  - rewrite Hb. lia.
  - rewrite Hb. cbn. rewrite !decide_True by done. change (outstanding (with_subs (subs g) (next_id g) g) t)
      with (outstanding g t). lia.
  - intros u Hu. simpl. by rewrite !decide_False.
  - by intros u.
  - by rewrite Hd.
  - apply Hok.
Qed.

(** *** Retirement *)

Definition with_lo (n : Z) (g : graph) : graph :=
  mkGraph n (hi g) (node g) (deps g) (cons g) (scoped g) (subs g) (next_id g) (specs g) (direct g).

(** Consumed tasks at the old end of the window can leave it: nothing that is
    still unfinished depends on them. *)
Lemma retire_ok n g ph :
  graph_ok g [] [] ph -> lo g <= n <= hi g ->
  (forall t, lo g <= t < n -> status (node g t) = CONSUMED) ->
  graph_ok (with_lo n g) [] [] ph.
Proof.
  intros Hok Hn Hcon. pose proof (ok_range _ _ _ _ Hok) as Hr.
  assert (Ha : forall t, alive (with_lo n g) t -> alive g t) by (unfold alive; cbn; intros; lia).
  assert (Hstay : forall t, alive g t -> status (node g t) <> CONSUMED -> alive (with_lo n g) t).
  { intros t Ht Hs. unfold alive in *. cbn. destruct (decide (t < n)); [|lia]. by destruct (Hs (Hcon t ltac:(lia))). }
  assert (Hdn : forall l, ndone (with_lo n g) l = ndone g l) by (intros; by apply ndone_agree).
  constructor; cbn; try (solve [apply Hok]).
  - lia.
  - intros t p Ht%Ha Hp. destruct (ok_deps _ _ _ _ Hok t p Ht Hp) as [? Hap]. split; [done|].
    intros Hd. specialize (Hap Hd). apply Hstay; [done|]. intros Hs.
    destruct (ok_consumed _ _ _ _ Hok p Hap Hs) as [_ Hall].
    change (is_done (with_lo n g) t) with (is_done g t) in Hd. rewrite Hall in Hd; [done|].
    apply occ_elem_of. rewrite <- (ok_sym _ _ _ _ Hok p t Hap Ht). by apply occ_elem_of.
  - intros t c Ht Hc. pose proof (ok_cons _ _ _ _ Hok t c (Ha t Ht) Hc) as Hac.
    pose proof (ok_sym _ _ _ _ Hok t c (Ha t Ht) Hac) as Hsym.
    assert (Ht2 : t ∈ deps g c) by (apply occ_elem_of; rewrite Hsym; by apply occ_elem_of).
    destruct (ok_deps _ _ _ _ Hok c t Hac Ht2) as [? _]. unfold alive in *. cbn in *. lia.
  - intros p c Hp%Ha Hc%Ha. by apply Hok.
  - intros t Ht%Ha. by apply Hok.
  - intros t Ht%Ha. by apply Hok.
  - intros p Hp%Ha. rewrite Hdn. by apply Hok.
  - intros p Hp%Ha. by apply Hok.
  - intros c Hc%Ha. rewrite Hdn. by apply Hok.
  - split; [apply Hok|]. intros t Ht. pose proof (proj2 (ok_scoped _ _ _ _ Hok) t Ht) as Hat.
    apply Hstay; [done|]. intros Hs. by destruct (ok_consumed _ _ _ _ Hok t Hat Hs).
  - intros t Ht%Ha. by apply Hok.
  - intros t Ht%Ha. by apply Hok.
  - intros Hd i t Hi. destruct (ok_subs _ _ _ _ Hok Hd i t Hi) as (? & ? & Hs & ?).
    split; [apply Hstay; congruence|done].
Qed.

(** *** Scopes *)

Definition with_scoped (l : list Z) (g : graph) : graph :=
  mkGraph (lo g) (hi g) (node g) (deps g) (cons g) l (subs g) (next_id g) (specs g) (direct g).

(** A task that leaves its scope is owed the scope's reference. *)
Lemma leave_ok u rest g oo oi ph :
  graph_ok g oo oi ph -> scoped g = u :: rest -> graph_ok (with_scoped rest g) (u :: oo) oi ph.
Proof.
  intros Hok Hs. pose proof (ok_scoped _ _ _ _ Hok) as [Hnd Hsc]. rewrite Hs in Hnd, Hsc.
  apply NoDup_cons in Hnd as [Hu Hnd].
  assert (Hdn : forall l, ndone (with_scoped rest g) l = ndone g l) by (intros; by apply ndone_agree).
  constructor; try apply Hok; cbn.
  - intros p Hp. rewrite Hdn. destruct (ok_ref _ _ _ _ Hok p Hp) as [? Hb]. split; [done|].
    rewrite Hs in Hb. destruct (decide (u = p)) as [->|Hne].
    + rewrite decide_False by done. rewrite decide_True in Hb by set_solver. lia.
    + destruct (decide (p ∈ rest)); [rewrite decide_True in Hb by set_solver|rewrite decide_False in Hb by set_solver]; lia.
  - intros p Hp Hc. destruct (ok_consumed _ _ _ _ Hok p Hp Hc) as [Hn ?]. rewrite Hs in Hn. split; [set_solver|done].
  - intros c Hc. rewrite Hdn. by apply Hok.
  - split; [done|]. intros t Ht. apply Hsc. set_solver.
Qed.

Lemma forgive_ok u g oo oi ph : graph_ok g (u :: oo) oi ph -> graph_ok g oo oi ph.
Proof.
  intros Hok. constructor; try apply Hok. intros p Hp. destruct (ok_ref _ _ _ _ Hok p Hp) as [? Hb].
  simpl in Hb. destruct (decide (u = p)); lia.
Qed.

(** A new task enters a scope. *)
Lemma enter_ok t l g oi ph :
  graph_ok g [] oi ph -> alive g t -> t ∉ scoped g -> fanout_refcount (node g t) = 0 ->
  status (node g t) <> CONSUMED ->
  NoDup l -> (forall u, u ∈ l <-> u = t \/ u ∈ scoped g) ->
  graph_ok (with_scoped l g) [] oi ph.
Proof.
  intros Hok Ht Hn Hr Hst Hnd Hl.
  assert (Hdn : forall k, ndone (with_scoped l g) k = ndone g k) by (intros; by apply ndone_agree).
  constructor; try apply Hok; cbn.
  - intros p Hp. rewrite Hdn. destruct (ok_ref _ _ _ _ Hok p Hp) as [? Hb]. split; [done|]. simpl in Hb.
    pose proof (ndone_bounds g (cons g p)). destruct (decide (p = t)) as [->|E].
    { rewrite decide_True by (apply Hl; by left). lia. }
    destruct (decide (p ∈ scoped g)); [rewrite decide_True by (apply Hl; by right); lia|].
    rewrite decide_False; [lia|]. intros [?|?]%Hl; done.
  - intros p Hp Hc. destruct (ok_consumed _ _ _ _ Hok p Hp Hc) as [? ?]. split; [|done].
    intros [->|?]%Hl; done.
  - intros c Hc. rewrite Hdn. by apply Hok.
  - split; [done|]. intros u [->|Hu]%Hl; [done|]. by apply (ok_scoped _ _ _ _ Hok).
Qed.

(** *** Building a task *)

(** [g] with one more task, whose descriptor is [d] and which has no edges. *)
Definition extend (d : LinquTaskDescriptor) (g : graph) : graph :=
  mkGraph (lo g) (hi g + 1) (fun u => if decide (u = hi g) then d else node g u)
    (fun u => if decide (u = hi g) then [] else deps g u)
    (fun u => if decide (u = hi g) then [] else cons g u)
    (scoped g) (subs g) (next_id g) (specs g) (direct g).

Lemma extend_ok d g :
  graph_ok g [] [] Idle -> status d = PENDING -> fanout_count d = 1 -> fanout_refcount d = 0 ->
  fanin_refcount d = 0 -> is_group d = false ->
  graph_ok (extend d g) [] [] (Building (hi g)).
Proof.
  intros Hok Hst Hfo Hr Hf Hg. set (n := hi g). set (g' := extend d g).
  pose proof (ok_range _ _ _ _ Hok) as Hrg.
  assert (Ha : forall t, alive g' t <-> alive g t \/ t = n) by (unfold alive, n; cbn; intros; lia).
  assert (Hne : forall t, alive g t -> t <> n) by (unfold alive, n; lia).
  assert (Hnode : forall t, t <> n -> node g' t = node g t) by (intros; cbn; by rewrite decide_False).
  assert (Hdeps : forall t, t <> n -> deps g' t = deps g t) by (intros; cbn; by rewrite decide_False).
  assert (Hcons : forall t, t <> n -> cons g' t = cons g t) by (intros; cbn; by rewrite decide_False).
  assert (Hnn : node g' n = d) by (cbn; by rewrite decide_True).
  assert (Hdn : deps g' n = []) by (cbn; by rewrite decide_True).
  assert (Hcn : cons g' n = []) by (cbn; by rewrite decide_True).
  assert (Hdone : forall t, t <> n -> is_done g' t = is_done g t) by (intros; unfold is_done; by rewrite Hnode).
  assert (Hnc : forall t, alive g t -> ndone g' (cons g t) = ndone g (cons g t)).
  { intros t Ht. apply ndone_agree. intros c Hc. apply Hdone, Hne. by apply (ok_cons _ _ _ _ Hok t). }
  assert (Hdp : forall t p, alive g t -> p ∈ deps g t -> p <> n).
  { intros t p Ht Hp. destruct (ok_deps _ _ _ _ Hok t p Ht Hp) as [? _]. unfold alive, n in *. lia. }
  constructor; try (solve [apply Hok]).
  - cbn. lia.
  - intros t p [Ht| ->]%Ha; [|rewrite Hdn; by intros ?%not_elem_of_nil].
    rewrite Hdeps, Hdone, Ha by auto. intros Hp. destruct (ok_deps _ _ _ _ Hok t p Ht Hp). auto.
  - intros t c [Ht| ->]%Ha; [|rewrite Hcn; by intros ?%not_elem_of_nil].
    rewrite Hcons, Ha by auto. intros Hc. left. by apply (ok_cons _ _ _ _ Hok t).
  - intros p c [Hp| ->]%Ha [Hc| ->]%Ha; rewrite ?Hdn, ?Hcn, ?Hdeps, ?Hcons by auto; try done.
    + by apply Hok.
    + symmetry. apply occ_notin. intros Hx%(ok_cons _ _ _ _ Hok p); [|done]. by apply Hne in Hx.
    + apply occ_notin. intros Hx. by apply (Hdp c n).
  - intros t [Ht| ->]%Ha; rewrite ?Hdn, ?Hcn, ?Hdeps, ?Hcons by auto; [by apply Hok|done].
  - intros t [Ht| ->]%Ha; rewrite ?Hnn, ?Hcn, ?Hnode, ?Hcons by auto; [by apply Hok|done].
  - intros p [Hp| ->]%Ha; rewrite ?Hnn, ?Hcn, ?Hnode, ?Hcons, ?Hnc by auto; [by apply Hok|].
    rewrite Hr. cbn. destruct (decide _); lia.
  - intros p [Hp| ->]%Ha; rewrite ?Hnn, ?Hnode, ?Hcons by auto; [|congruence]. intros Hs.
    destruct (ok_consumed _ _ _ _ Hok p Hp Hs) as [? Hall]. split; [done|]. intros c Hc.
    rewrite Hdone; [auto|]. apply Hne. by apply (ok_cons _ _ _ _ Hok p).
  - intros c [Hc| ->]%Ha; [|rewrite Hnn, Hdn, Hf; cbn; lia].
    rewrite Hdone, Hnode, Hdeps by auto. intros Hd.
    rewrite (ndone_agree g g' (deps g c)); [by apply Hok|]. intros p Hp. apply Hdone. eauto.
  - split; [apply Hok|]. intros t Ht. apply Ha. left. by apply (ok_scoped _ _ _ _ Hok).
  - intros t [Ht| ->]%Ha; [|rewrite Hnn; congruence]. unfold group_ok, spec_for.
    rewrite Hnode, Hdeps by auto. change (outstanding g' t) with (outstanding g t). intros Hgt.
    destruct (ok_group _ _ _ _ Hok t Ht Hgt) as (? & ? & Hgo). split; [done|]. split; [done|].
    unfold group_ok in Hgo. destruct (status (node g t)); try done.
    destruct Hgo as (? & ? & ? & Hx). split_and!; try done. intros _. by apply Hx.
  - intros t [Ht| ->]%Ha; [|rewrite Hnn; congruence]. rewrite Hnode, Hdeps, Hdone by auto.
    intros ? ? ? p Hp ?. rewrite Hdone by eauto. by apply (ok_started _ _ _ _ Hok t).
  - intros Hdir i t Hi. destruct (ok_subs _ _ _ _ Hok Hdir i t Hi) as (Ht & ? & ? & ?).
    rewrite Ha, Hnode by auto. by split; [left|].
Qed.

(** A group task under construction gets its group fields. *)
Lemma group_fields_ok t f g :
  graph_ok g [] [] (Building t) -> alive g t -> is_group (node g t) = false -> status (node g t) = PENDING ->
  let d := node g t in
  status (f d) = PENDING -> fanout_count (f d) = fanout_count d ->
  fanout_refcount (f d) = fanout_refcount d -> fanin_refcount (f d) = fanin_refcount d ->
  0 <= group_size (f d) < 2 ^ 32 -> sub_complete_count (f d) = 0 ->
  graph_ok (upd t f g) [] [] (Building t).
Proof.
  intros Hok Ht Hg Hs; cbv zeta; intros Hst Hfo Hr Hf Hgs Hsc.
  assert (Hd : done (status (f (node g t))) = is_done g t) by (unfold is_done; by rewrite Hst, Hs).
  pose proof (fun u => is_done_upd_same t f g u Hd) as Hdn.
  pose proof (fun l => ndone_upd_same t f g l Hd) as Hnd.
  assert (Hnode : forall (A : Type) (pr : LinquTaskDescriptor -> A) u, pr (f (node g t)) = pr (node g t) ->
    pr (node (upd t f g) u) = pr (node g u)).
  { intros A pr u Hpr. simpl. case_decide as E; [by rewrite E|done]. }
  assert (Hst2 : status (f (node g t)) = status (node g t)) by congruence.
  assert (Hout : direct g = false -> forall i u, subs g !! i = Some u -> u <> t).
  { intros Hdir i u Hi ->. destruct (ok_subs _ _ _ _ Hok Hdir i t Hi) as (_ & ? & _). congruence. }
  constructor; try (solve [apply Hok]).
  - intros u p. rewrite Hdn. apply Hok.
  - intros u Hu. rewrite (Hnode _ fanout_count) by done. by apply Hok.
  - intros p Hp. rewrite Hnd, (Hnode _ fanout_refcount) by done. by apply Hok.
  - intros p Hp. rewrite (Hnode _ status) by done. intros Hp2.
    destruct (ok_consumed _ _ _ _ Hok p Hp Hp2) as [? Hall]. split; [done|]. intros. rewrite Hdn. auto.
  - intros c Hc. rewrite Hdn, Hnd, (Hnode _ fanin_refcount) by done. by apply Hok.
  - intros u Hu. destruct (decide (u = t)) as [->|E].
    + unfold group_ok. rewrite !node_upd_eq, Hst. intros _. split; [lia|]. split; [done|].
      split_and!; try done. unfold outstanding. cbn. destruct (direct g) eqn:Hdir; [done|].
      rewrite map_empty_filter_2; [done|]. intros i u Hi. simpl. by apply (Hout eq_refl i).
    + unfold group_ok, spec_for. rewrite !node_upd_ne by done. by apply Hok.
  - intros u Hu. destruct (decide (u = t)) as [->|E].
    + rewrite node_upd_eq, Hst. done.
    + rewrite !node_upd_ne by done. intros ? ? ? p ?. rewrite !Hdn. by apply (ok_started _ _ _ _ Hok u).
  - intros Hdir i u Hi. pose proof (Hout Hdir i u Hi). rewrite node_upd_ne by done. by apply Hok.
Qed.

(** Descriptors that differ in the list heads and in [fanout_count] only. *)
Definition relinked (d d' : LinquTaskDescriptor) : Prop :=
  exists n a b, d' = d <| fanout_count := n |> <| dep_list_head := a |> <| fanout_list_head := b |>.

Lemma relinked_refl d : relinked d d.
Proof. exists (fanout_count d), (dep_list_head d), (fanout_list_head d). by destruct d. Qed.

(** An edge from [p] to the task being built. *)
Definition link_edge (p t : Z) (nd : Z -> LinquTaskDescriptor) (g : graph) : graph :=
  mkGraph (lo g) (hi g) nd
    (fun u => if decide (u = t) then p :: deps g u else deps g u)
    (fun u => if decide (u = p) then t :: cons g u else cons g u)
    (scoped g) (subs g) (next_id g) (specs g) (direct g).

Lemma edge_ok p t nd g :
  graph_ok g [] [] (Building t) -> alive g p -> alive g t -> hi g = t + 1 ->
  status (node g t) = PENDING -> status (node g p) <> CONSUMED ->
  zlength (deps g t) + 1 < 2 ^ 31 -> zlength (cons g p) + 1 < 2 ^ 31 ->
  (forall u, relinked (node g u) (nd u)) ->
  (forall u, alive g u -> fanout_count (nd u) = fanout_count (node g u) + if decide (u = p) then 1 else 0) ->
  graph_ok (link_edge p t nd g) [] [] (Building t).
Proof.
  intros Hok Hp Ht Hhi Hst Hpc Hd1 Hc1 Hnd' Hf. set (g' := link_edge p t nd g).
  assert (Hnode : forall (A : Type) (pr : LinquTaskDescriptor -> A) u,
    (forall d x a b, pr (d <| fanout_count := x |> <| dep_list_head := a |> <| fanout_list_head := b |>) = pr d) ->
    pr (node g' u) = pr (node g u)).
  { intros A pr u Hpr. cbn. destruct (Hnd' u) as (x & a & b & ->). apply Hpr. }
  assert (Hdn : forall u, is_done g' u = is_done g u)
    by (intros u; unfold is_done; by rewrite (Hnode _ status)).
  assert (Hnd : forall l, ndone g' l = ndone g l) by (intros; by apply ndone_agree).
  assert (Htd : is_done g t = false) by (unfold is_done; by rewrite Hst).
  pose proof (ok_range _ _ _ _ Hok) as Hrg.
  constructor; try (solve [apply Hok]).
  - intros u q Hu. rewrite Hdn. cbn. case_decide as E; [subst u|by apply Hok].
    intros [->|Hq]%elem_of_cons; [|by apply Hok]. unfold alive in *. cbn. lia.
  - intros u c Hu. cbn. case_decide as E; [subst u|by apply Hok].
    intros [->|Hc]%elem_of_cons; [done|by apply (ok_cons _ _ _ _ Hok p)].
  - intros q c Hq Hc. pose proof (ok_sym _ _ _ _ Hok q c Hq Hc) as Hs. cbn.
    destruct (decide (c = t)) as [->|Ec], (decide (q = p)) as [->|Eq]; cbn; rewrite ?Hs.
    + by rewrite !decide_True.
    + by rewrite decide_False.
    + by rewrite decide_False.
    + done.
  - intros u Hu. cbn. unfold zlength in *. destruct (ok_small _ _ _ _ Hok u Hu). unfold zlength in *.
    repeat case_decide; subst; simpl; lia.
  - intros u Hu. cbn. pose proof (ok_fanout _ _ _ _ Hok u Hu) as Hfo. rewrite Hf, Hfo by done.
    case_decide as E; [|lia]. unfold zlength. simpl. lia.
  - intros q Hq. rewrite (Hnode _ fanout_refcount) by done. destruct (ok_ref _ _ _ _ Hok q Hq) as [? Hb].
    split; [done|]. cbn -[ndone]. destruct (decide (q = p)) as [->|E]; [|by rewrite Hnd].
    simpl. rewrite Hdn, Htd, Hnd. simpl in Hb. done.
  - intros q Hq. rewrite (Hnode _ status) by done. intros Hs.
    assert (q <> p) by (intros ->; done). destruct (ok_consumed _ _ _ _ Hok q Hq Hs) as [? Hall].
    split; [done|]. cbn. rewrite decide_False by done. intros. rewrite Hdn. auto.
  - intros c Hc. rewrite Hdn, (Hnode _ fanin_refcount) by done. intros Hcd.
    destruct (ok_fanin _ _ _ _ Hok c Hc Hcd) as [? Hb]. split; [done|]. cbn -[ndone].
    case_decide as E; [|by rewrite Hnd]. simpl. rewrite Hnd. simpl in Hb. destruct (is_done _ p); lia.
  - intros u Hu. rewrite (Hnode _ is_group), (Hnode _ sub_complete_count), (Hnode _ group_size) by done.
    intros Hg. destruct (ok_group _ _ _ _ Hok u Hu Hg) as (? & ? & Hgo). split; [done|]. split; [done|].
    unfold group_ok, spec_for in *. rewrite (Hnode _ status), (Hnode _ sub_complete_count), (Hnode _ group_size),
      (Hnode _ fanin_count) by done. change (outstanding g' u) with (outstanding g u).
    destruct (status (node g u)) eqn:Hsu; try done. destruct Hgo as (? & ? & ? & Hx). split_and!; try done.
    intros Hb. cbn. rewrite decide_False by congruence. auto.
  - intros u Hu. rewrite (Hnode _ is_group), (Hnode _ group_size), (Hnode _ status), Hdn by done.
    intros Hg Hz Hs q. cbn. rewrite decide_False by (intros ->; congruence). rewrite Hdn.
    by apply (ok_started _ _ _ _ Hok u).
  - intros Hdir i u Hi. rewrite (Hnode _ is_group), (Hnode _ status) by done. by apply Hok.
Qed.

(** A pending group whose specification is stored. *)
Definition with_specs (m : gmap Z PendingGroupSpec) (g : graph) : graph :=
  mkGraph (lo g) (hi g) (node g) (deps g) (cons g) (scoped g) (subs g) (next_id g) m (direct g).

Lemma ndone_with_specs m g l : ndone (with_specs m g) l = ndone g l.
Proof. by apply ndone_agree. Qed.

Lemma with_specs_ok m g ph ph' :
  graph_ok g [] [] ph ->
  (forall u, alive g u -> is_group (node g u) = true -> group_ok g ph u -> group_ok (with_specs m g) ph' u) ->
  graph_ok (with_specs m g) [] [] ph'.
Proof.
  intros Hok Hg. constructor; try (solve [apply Hok]).
  - intros p Hp. rewrite ndone_with_specs. by apply Hok.
  - intros c Hc. rewrite ndone_with_specs. by apply Hok.
  - intros u Hu Hgu. destruct (ok_group _ _ _ _ Hok u Hu Hgu) as (? & ? & Hgo). split; [done|]. split; [done|].
    auto.
Qed.

Lemma park_ok t sp g :
  graph_ok g [] [] (Building t) -> alive g t -> fanin_count (node g t) = zlength (deps g t) ->
  zlength (spec_sub_tasks sp) = group_size (node g t) ->
  length (private_params_storage sp) = length (spec_sub_tasks sp) ->
  graph_ok (with_specs (<[t := sp]> (specs g)) g) [] [] Idle.
Proof.
  intros Hok Ht Hfc Hn Hst. apply (with_specs_ok _ _ (Building t)); [done|]. intros u Hu Hg Hgo.
  unfold group_ok, spec_for in *. cbn in *. destruct (status (node g u)); try done.
  destruct Hgo as (? & ? & ? & Hx). split_and!; try done. intros _.
  destruct (decide (u = t)) as [->|E].
  - split; [done|]. exists sp. by rewrite lookup_insert_eq.
  - destruct Hx as [? Hsp]; [congruence|]. split; [done|]. by rewrite lookup_insert_ne by done.
Qed.

(** The specification of a started group is dropped. *)
Lemma unpark_ok t g ph :
  graph_ok g [] [] ph -> status (node g t) <> PENDING ->
  graph_ok (with_specs (delete t (specs g)) g) [] [] ph.
Proof.
  intros Hok Hs. apply (with_specs_ok _ _ ph); [done|]. intros u Hu Hg Hgo.
  unfold group_ok, spec_for in *. cbn in *. destruct (status (node g u)) eqn:E; try done.
  destruct Hgo as (? & ? & ? & Hx). split_and!; try done. intros Hb. specialize (Hx Hb).
  rewrite lookup_delete_ne by (intros ->; congruence). done.
Qed.

Lemma group_ok_phase g ph ph' u :
  undispatched ph' u = undispatched ph u -> (ph = Building u -> ph' = Building u) ->
  group_ok g ph u -> group_ok g ph' u.
Proof.
  intros Hu Hb. unfold group_ok. rewrite Hu. destruct (status (node g u)); try done.
  intros (? & ? & ? & Hx). split_and!; try done. intros Hn. apply Hx. by intros ?%Hb.
Qed.

(** Phases that say the same. *)
Lemma phase_ok ph' g oo oi ph :
  graph_ok g oo oi ph -> (forall u, undispatched ph' u = undispatched ph u) ->
  (forall u, ph = Building u <-> ph' = Building u) -> graph_ok g oo oi ph'.
Proof.
  intros Hok Hu Hb. constructor; try (solve [apply Hok]).
  intros t Ht Hg. destruct (ok_group _ _ _ _ Hok t Ht Hg) as (? & ? & Hgo). split; [done|]. split; [done|].
  eapply group_ok_phase; [apply Hu|apply Hb|done].
Qed.

Lemma dispatched_all t g oo oi : graph_ok g oo oi (Dispatching t 0) <-> graph_ok g oo oi Idle.
Proof.
  split; intros Hok; eapply phase_ok; try exact Hok; try done; intros u; cbn; by case_decide.
Qed.

(** A group with sub-tasks still to hand out is running. *)
Lemma dispatching_running t r g oo oi :
  graph_ok g oo oi (Dispatching t r) -> alive g t -> is_group (node g t) = true -> 0 < r ->
  status (node g t) = RUNNING.
Proof.
  intros Hok Ht Hg Hr. destruct (ok_group _ _ _ _ Hok t Ht Hg) as (_ & _ & Hgo).
  unfold group_ok in Hgo. cbn in Hgo. rewrite decide_True in Hgo by done.
  destruct (status (node g t)); try done; lia.
Qed.
