(* ===== verification/OrchestratorInvariant.v ===== *)
(** * The orchestrator keeps its dependency graph consistent

    [inv]: the memory of [LinquOrchestratorState] is well-formed and the graph
    it denotes ([graph_of]) satisfies [graph_ok].  Every handler of
    [src/src/runtime/linqu_orchestrator_state.cpp] keeps it; in particular no
    handler reads outside its arrays, divides by zero or loops for ever.  The
    faults that remain possible are listed by [sched_fault] and [op_fault]. *)

From S2P Require Import Prelude Coordinate LinquHeapRing LinquDepListPool LinquTaskRing.
From S2P Require Import LinquScopeStack LinquTensorMap OrchestrationApi RingMetrics.
From S2P Require Import LinquOrchestratorState OrchestratorGraph.

(** Faults a completion can end in: the 32-bit sub-task id runs out, or the
    scheduler's mutex is taken twice. *)
Definition sched_fault (f : fault) : Prop := f = SignedOverflow \/ f = SelfDeadlock.

Definition graph_of (L : list (list Z)) (s : LinquOrchestratorState) : graph :=
  let ring := task_ring_ s in
  mkGraph (LinquTaskRing.last_task_alive_ ring) (current_index_ ring) (fun t => desc t ring)
    (fun t => chain (dep_pool_ s) (dep_list_head (desc t ring)))
    (fun t => chain (dep_pool_ s) (fanout_list_head (desc t ring)))
    (concat L) (sub_dispatch_to_group_ s) (next_sub_dispatch_id_ s) (pending_group_specs_ s)
    (if dispatcher_ s then false else true).

Record mem_ok (s : LinquOrchestratorState) : Prop := {
  mem_ring : LinquTaskRing.wf (task_ring_ s);
  mem_pool : LinquDepListPool.wf (dep_pool_ s);
  mem_deps : forall t, live t (task_ring_ s) -> valid_head (dep_pool_ s) (dep_list_head (desc t (task_ring_ s)));
  mem_cons : forall t, live t (task_ring_ s) -> valid_head (dep_pool_ s) (fanout_list_head (desc t (task_ring_ s)));
}.

Record sched_ok (L : list (list Z)) (oo oi : list Z) (ph : phase) (s : LinquOrchestratorState) : Prop := {
  s_mem : mem_ok s;
  s_graph : graph_ok (graph_of L s) oo oi ph;
}.

(** What the completion of tasks leaves alone, and how a live task moves. *)
Definition advances (d d' : LinquTaskDescriptor) : Prop :=
  dep_list_head d' = dep_list_head d /\ fanout_list_head d' = fanout_list_head d /\
  heap_end d' = heap_end d /\ is_group d' = is_group d /\ group_size d' = group_size d /\
  (status d <> PENDING -> status d' <> PENDING).

Record sched_frame (s s' : LinquOrchestratorState) : Prop := {
  fr_pool : dep_pool_ s' = dep_pool_ s;
  fr_map : tensor_map_ s' = tensor_map_ s;
  fr_scope : scope_stack_ s' = scope_stack_ s;
  fr_heap : heap_ring_ s' = heap_ring_ s;
  fr_disp : dispatcher_ s' = dispatcher_ s;
  fr_mu : scheduler_mu_ s' = scheduler_mu_ s;
  fr_window : window_size_ (task_ring_ s') = window_size_ (task_ring_ s);
  fr_lo : LinquTaskRing.last_task_alive_ (task_ring_ s') = LinquTaskRing.last_task_alive_ (task_ring_ s);
  fr_hi : current_index_ (task_ring_ s') = current_index_ (task_ring_ s);
  fr_desc : forall t, live t (task_ring_ s) -> advances (desc t (task_ring_ s)) (desc t (task_ring_ s'));
}.

#[export] Instance sched_frame_refl : Reflexive sched_frame.
Proof. constructor; try done. Qed.
#[export] Instance sched_frame_trans : Transitive sched_frame.
Proof.
  intros a b c [? ? ? ? ? ? ? Hl Hh Hd] [? ? ? ? ? ? ? Hl' Hh' Hd']. constructor; try congruence.
  intros t Ht. assert (Ht' : live t (task_ring_ b)) by (unfold live in *; congruence).
  destruct (Hd t Ht) as (? & ? & ? & ? & ? & ?), (Hd' t Ht') as (? & ? & ? & ? & ? & ?).
  unfold advances. split_and!; try congruence. auto.
Qed.

Lemma frame_live s s' t : sched_frame s s' -> live t (task_ring_ s') <-> live t (task_ring_ s).
Proof. intros Hf. unfold live. by rewrite (fr_lo _ _ Hf), (fr_hi _ _ Hf). Qed.

Lemma frame_live_fwd s s' t : sched_frame s s' -> live t (task_ring_ s) -> live t (task_ring_ s').
Proof. intros Hf. by apply frame_live. Qed.

(** Only fields outside the graph differ. *)
Definition same_core (s s' : LinquOrchestratorState) : Prop :=
  task_ring_ s' = task_ring_ s /\ dep_pool_ s' = dep_pool_ s /\
  sub_dispatch_to_group_ s' = sub_dispatch_to_group_ s /\
  next_sub_dispatch_id_ s' = next_sub_dispatch_id_ s /\
  pending_group_specs_ s' = pending_group_specs_ s /\ dispatcher_ s' = dispatcher_ s.

Lemma sched_ok_core L oo oi ph s s' : same_core s s' -> sched_ok L oo oi ph s -> sched_ok L oo oi ph s'.
Proof.
  intros (Hr & Hp & Hs & Hn & Hg & Hd) [[? ? ? ?] Hok]. split.
  - constructor; rewrite ?Hr, ?Hp; done.
  - unfold graph_of in *. by rewrite Hr, Hp, Hs, Hn, Hg, Hd.
Qed.

(** ** Updating a descriptor *)

Definition updated_state (t : Z) (f : LinquTaskDescriptor -> LinquTaskDescriptor)
    (s : LinquOrchestratorState) : LinquOrchestratorState :=
  s <| task_ring_ := updated t f (task_ring_ s) |>.

Lemma get_desc_ok t s : mem_ok s -> get_desc t s = Ok (desc t (task_ring_ s)).
Proof. intros Hm. apply LinquTaskRing.get_desc, Hm. Qed.

Lemma upd_desc_ok t f s : mem_ok s -> upd_desc t f s = Ok (updated_state t f s).
Proof. intros Hm. unfold upd_desc. rewrite upd_updated by apply Hm. done. Qed.

Definition keeps_heads (f : LinquTaskDescriptor -> LinquTaskDescriptor) (d : LinquTaskDescriptor) : Prop :=
  dep_list_head (f d) = dep_list_head d /\ fanout_list_head (f d) = fanout_list_head d.

Lemma desc_updated_state t f s u :
  mem_ok s -> live t (task_ring_ s) -> live u (task_ring_ s) ->
  desc u (task_ring_ (updated_state t f s)) =
    if decide (u = t) then f (desc u (task_ring_ s)) else desc u (task_ring_ s).
Proof.
  intros Hm Ht Hu. cbn. case_decide as E; subst; [by apply desc_updated_eq, Hm|].
  apply desc_updated_live; auto. apply Hm.
Qed.

Lemma keeps_head_at t f s u :
  mem_ok s -> live t (task_ring_ s) -> live u (task_ring_ s) -> keeps_heads f (desc t (task_ring_ s)) ->
  dep_list_head (desc u (task_ring_ (updated_state t f s))) = dep_list_head (desc u (task_ring_ s)) /\
  fanout_list_head (desc u (task_ring_ (updated_state t f s))) = fanout_list_head (desc u (task_ring_ s)).
Proof.
  intros Hm Ht Hu [H1 H2]. rewrite desc_updated_state by done. case_decide as E; [by rewrite E|done].
Qed.

Lemma mem_ok_updated t f s :
  mem_ok s -> live t (task_ring_ s) -> keeps_heads f (desc t (task_ring_ s)) -> mem_ok (updated_state t f s).
Proof.
  intros Hm Ht Hk. pose proof Hm as [Hr Hp Hd Hc]. constructor; [by apply wf_updated|done| |]; intros u Hu;
    destruct (keeps_head_at t f s u Hm Ht Hu Hk) as [E1 E2]; [rewrite E1; by apply Hd|rewrite E2; by apply Hc].
Qed.

Lemma graph_updated L t f s :
  mem_ok s -> live t (task_ring_ s) -> keeps_heads f (desc t (task_ring_ s)) ->
  same_graph (upd t f (graph_of L s)) (graph_of L (updated_state t f s)).
Proof.
  intros Hm Ht Hk. constructor; try done; intros u Hu; cbn [graph_of upd node deps cons].
  - change (dep_pool_ (updated_state t f s)) with (dep_pool_ s). by apply desc_updated_state.
  - change (dep_pool_ (updated_state t f s)) with (dep_pool_ s).
    by rewrite (proj1 (keeps_head_at t f s u Hm Ht Hu Hk)).
  - change (dep_pool_ (updated_state t f s)) with (dep_pool_ s).
    by rewrite (proj2 (keeps_head_at t f s u Hm Ht Hu Hk)).
Qed.

Lemma sched_ok_updated L oo oi ph oo' oi' ph' t f s :
  sched_ok L oo oi ph s -> live t (task_ring_ s) -> keeps_heads f (desc t (task_ring_ s)) ->
  graph_ok (upd t f (graph_of L s)) oo' oi' ph' -> sched_ok L oo' oi' ph' (updated_state t f s).
Proof.
  intros [Hm _] Ht Hk Hg. split; [by apply mem_ok_updated|].
  eapply same_graph_ok; [by apply graph_updated|done].
Qed.

Lemma frame_updated t f s :
  mem_ok s -> live t (task_ring_ s) -> advances (desc t (task_ring_ s)) (f (desc t (task_ring_ s))) ->
  sched_frame s (updated_state t f s).
Proof.
  intros Hm Ht Ha. constructor; try done. intros u Hu. rewrite desc_updated_state by done.
  case_decide as E; [by rewrite E|done].
Qed.

(** One rule for every descriptor update of the scheduler. *)
Lemma wp_upd_desc (E : fault -> Prop) L oo oi ph oo' oi' ph' t f s (Q : LinquOrchestratorState -> Prop) :
  sched_ok L oo oi ph s -> live t (task_ring_ s) ->
  advances (desc t (task_ring_ s)) (f (desc t (task_ring_ s))) ->
  graph_ok (upd t f (graph_of L s)) oo' oi' ph' ->
  (sched_ok L oo' oi' ph' (updated_state t f s) -> sched_frame s (updated_state t f s) ->
     Q (updated_state t f s)) ->
  wp E (upd_desc t f s) Q.
Proof.
  intros Hs Ht Ha Hg HQ. rewrite upd_desc_ok by apply Hs. apply HQ.
  - eapply sched_ok_updated; eauto. destruct Ha as (? & ? & _). by split.
  - apply frame_updated; auto. apply Hs.
Qed.

Lemma alive_live L s t : alive (graph_of L s) t <-> live t (task_ring_ s).
Proof. done. Qed.

Definition after (L : list (list Z)) (oo oi : list Z) (ph : phase) (s s' : LinquOrchestratorState) : Prop :=
  sched_ok L oo oi ph s' /\ sched_frame s s'.

Lemma after_trans L oo oi ph s1 s2 s3 :
  sched_frame s1 s2 -> after L oo oi ph s2 s3 -> after L oo oi ph s1 s3.
Proof. intros H [? ?]. split; [done|by transitivity s2]. Qed.

(** ** The steps of a completion *)

Lemma wp_check_task_consumed L oo oi ph t s :
  sched_ok L oo oi ph s -> live t (task_ring_ s) ->
  wp sched_fault (check_task_consumed t s) (after L oo oi ph s).
Proof.
  intros Hs Ht. unfold check_task_consumed. rewrite get_desc_ok by apply Hs. bind_simpl.
  destruct (status_eqb _ COMPLETED && _) eqn:E; [|by split].
  apply andb_true_iff in E as [Es%bool_decide_eq_true Ef%Z.leb_le].
  eapply wp_upd_desc; [done|done|by unfold advances; cbn|by apply consume_ok, Ef; [apply Hs| |]|by split].
Qed.

Lemma wp_release_producer L p oo oi ph s :
  sched_ok L (p :: oo) oi ph s -> live p (task_ring_ s) ->
  wp sched_fault (release_producer p s) (after L oo oi ph s).
Proof.
  intros Hs Hp. unfold release_producer. apply wp_bind.
  eapply wp_upd_desc; [done|done|by unfold advances; cbn|by apply release_ok; [apply Hs|]|].
  intros Hs1 Hf1. eapply wp_mono; [apply wp_check_task_consumed; [done|by eapply frame_live_fwd]|].
  intros s2. by apply after_trans.
Qed.

Lemma wp_notify_consumer L c oo oi ph s :
  sched_ok L oo (c :: oi) ph s -> live c (task_ring_ s) ->
  wp sched_fault (notify_consumer c s) (after L oo oi ph s).
Proof.
  intros Hs Hc. unfold notify_consumer.
  eapply wp_upd_desc; [done|done|by unfold advances; cbn|by apply notify_ok; [apply Hs|]|by split].
Qed.

(** The list loops, with the frame carried along. *)
Lemma wp_walk_list (P : list Z -> LinquOrchestratorState -> Prop) body head s :
  mem_ok s -> valid_head (dep_pool_ s) head -> P (chain (dep_pool_ s) head) s ->
  (forall t l s', sched_frame s s' -> P (t :: l) s' ->
     wp sched_fault (body t s') (fun s'' => sched_frame s' s'' /\ P l s'')) ->
  wp sched_fault (walk_list body head s) (fun s' => sched_frame s s' /\ P [] s').
Proof.
  intros Hm Hv HP Hb. unfold walk_list.
  eapply wp_mono; [apply (wp_walk dep_pool_ body sched_fault (dep_pool_ s)
    (fun l s' => sched_frame s s' /\ P l s')); try done|].
  - apply Hm.
  - unfold walk_fuel, valid_head in *. lia.
  - intros t l s' Hp [Hf HP']. eapply wp_mono; [by apply Hb|]. intros s'' [Hf' HP''].
    split; [by rewrite (fr_pool _ _ Hf')|]. split; [by transitivity s'|done].
  - intros s' [_ ?]. done.
Qed.

(** ** Measure: the tasks still pending *)

Definition is_pending (s : LinquOrchestratorState) (t : Z) : Prop := status (desc t (task_ring_ s)) = PENDING.
#[export] Instance is_pending_dec s t : Decision (is_pending s t).
Proof. unfold is_pending. apply _. Defined.

Definition window_ids (s : LinquOrchestratorState) : list Z :=
  seqZ (LinquTaskRing.last_task_alive_ (task_ring_ s)) (active_count (task_ring_ s)).
Definition pending (s : LinquOrchestratorState) : nat := length (filter (is_pending s) (window_ids s)).

Lemma window_live s t : t ∈ window_ids s <-> live t (task_ring_ s).
Proof. unfold window_ids, active_count, live. rewrite elem_of_seqZ. lia. Qed.

Lemma frame_window s s' : sched_frame s s' -> window_ids s' = window_ids s.
Proof. intros Hf. unfold window_ids, active_count. by rewrite (fr_lo _ _ Hf), (fr_hi _ _ Hf). Qed.

Lemma filter_length_le {A} (P Q : A -> Prop) `{!forall x, Decision (P x)} `{!forall x, Decision (Q x)} (l : list A) :
  (forall x, x ∈ l -> P x -> Q x) -> (length (filter P l) <= length (filter Q l))%nat.
Proof.
  induction l as [|a l IH]; intros Hpq; [done|]. rewrite !filter_cons.
  assert (length (filter P l) <= length (filter Q l))%nat by (apply IH; intros; apply Hpq; [by right|done]).
  destruct (decide (P a)); [rewrite decide_True by (apply Hpq; [by left|done]); simpl; lia|].
  case_decide; simpl; lia.
Qed.

Lemma filter_length_lt {A} (P Q : A -> Prop) `{!forall x, Decision (P x)} `{!forall x, Decision (Q x)} (l : list A) y :
  (forall x, x ∈ l -> P x -> Q x) -> y ∈ l -> Q y -> ~ P y -> (length (filter P l) < length (filter Q l))%nat.
Proof.
  induction l as [|a l IH]; intros Hpq Hy HQ HP; [by apply not_elem_of_nil in Hy|]. rewrite !filter_cons.
  assert (length (filter P l) <= length (filter Q l))%nat by (apply filter_length_le; intros; apply Hpq; [by right|done]).
  apply elem_of_cons in Hy as [->|Hy].
  - rewrite decide_False, decide_True by done. simpl. lia.
  - assert (length (filter P l) < length (filter Q l))%nat by (apply IH; [intros; apply Hpq; [by right|done]|done..]).
    destruct (decide (P a)); [rewrite decide_True by (apply Hpq; [by left|done]); simpl; lia|].
    case_decide; simpl; lia.
Qed.

Lemma pending_frame s s' : sched_frame s s' -> (pending s' <= pending s)%nat.
Proof.
  intros Hf. unfold pending. rewrite (frame_window _ _ Hf). apply filter_length_le.
  intros t Ht%window_live Hp. unfold is_pending in *. destruct (fr_desc _ _ Hf t Ht) as (_ & _ & _ & _ & _ & Hst).
  destruct (decide (status (desc t (task_ring_ s)) = PENDING)) as [E|E]; [done|by destruct (Hst E)].
Qed.

Lemma pending_started s s' t :
  sched_frame s s' -> live t (task_ring_ s) -> is_pending s t -> ~ is_pending s' t ->
  (pending s' < pending s)%nat.
Proof.
  intros Hf Ht Hp Hp'. unfold pending. rewrite (frame_window _ _ Hf). apply (filter_length_lt _ _ _ t); auto.
  - intros u Hu%window_live Hpu. unfold is_pending in *.
    destruct (fr_desc _ _ Hf u Hu) as (_ & _ & _ & _ & _ & Hst).
    destruct (decide (status (desc u (task_ring_ s)) = PENDING)) as [E|E]; [done|by destruct (Hst E)].
  - by apply window_live.
Qed.

Lemma pending_bound s : mem_ok s -> (pending s < propagate_fuel s)%nat.
Proof.
  intros Hm. unfold pending, propagate_fuel. pose proof (length_filter (is_pending s) (window_ids s)) as Hl.
  pose proof Hm as [[_ Hlen ? Hw _] _ _ _]. unfold window_ids, active_count in *.
  rewrite length_seqZ in Hl. unfold zlength in Hlen. lia.
Qed.

(** ** The mutually recursive handlers *)

Lemma bind_assoc {A B C} (m : outcome A) (f : A -> outcome B) (k : B -> outcome C) :
  (m ≫= f) ≫= k = m ≫= (fun x => f x ≫= k).
Proof. by destruct m. Qed.

Lemma frame_core s s' :
  task_ring_ s' = task_ring_ s -> dep_pool_ s' = dep_pool_ s -> tensor_map_ s' = tensor_map_ s ->
  scope_stack_ s' = scope_stack_ s -> heap_ring_ s' = heap_ring_ s -> dispatcher_ s' = dispatcher_ s ->
  scheduler_mu_ s' = scheduler_mu_ s -> sched_frame s s'.
Proof. intros Hr ? ? ? ? ? ?. constructor; rewrite ?Hr; done. Qed.

(** Releasing the mutex restores the frame of a state that did not hold it. *)
Lemma after_unlock L oo oi ph s s' :
  scheduler_mu_ s = false -> after L oo oi ph (s <| scheduler_mu_ := true |>) s' ->
  after L oo oi ph s (unlock s').
Proof.
  intros Hmu [Hs [? ? ? ? ? ? ? ? ? ?]]. split; [|by constructor].
  eapply sched_ok_core; [|exact Hs]. unfold same_core. by split_and!.
Qed.

Lemma sched_ok_locked L oo oi ph s : sched_ok L oo oi ph s -> sched_ok L oo oi ph (s <| scheduler_mu_ := true |>).
Proof. apply sched_ok_core. unfold same_core. by split_and!. Qed.

Section recursion.
Context (prop : Z -> LinquOrchestratorState -> outcome LinquOrchestratorState) (n : nat).

Definition propagate_ok : Prop := forall L t s,
  sched_ok L (deps (graph_of L s) t) (cons (graph_of L s) t) Idle s -> live t (task_ring_ s) ->
  (forall p, p ∈ deps (graph_of L s) t -> live p (task_ring_ s)) -> (pending s < n)%nat ->
  wp sched_fault (prop t s) (after L [] [] Idle s).

Context (Hprop : propagate_ok).

(** A task is marked [COMPLETED] and its completion propagated. *)
Lemma wp_complete L t s ph :
  sched_ok L [] [] ph s -> live t (task_ring_ s) -> is_done (graph_of L s) t = false ->
  (ph = Idle \/ ph = Dispatching t 0 \/ ph = Building t) ->
  (is_group (desc t (task_ring_ s)) = true -> outstanding (graph_of L s) t = 0) ->
  (direct (graph_of L s) = false -> forall i, sub_dispatch_to_group_ s !! i <> Some t) ->
  (pending s < n)%nat ->
  wp sched_fault (upd_desc t (set_desc_status COMPLETED) s ≫= prop t) (after L [] [] Idle s).
Proof.
  intros Hs Ht Hd Hph Hg Hsub Hn. apply wp_bind.
  assert (Hun : forall u, undispatched ph u = 0).
  { intros u. destruct Hph as [->|[->| ->]]; cbn; [done|by case_decide|done]. }
  eapply wp_upd_desc; [done|done|by unfold advances; cbn| |].
  { eapply (complete_ok t _ ph Idle); [apply Hs|done|done|by auto| |by auto].
    intros u Hu. apply group_ok_phase; [by rewrite Hun|]. destruct Hph as [->|[->| ->]]; congruence. }
  intros Hs1 Hf1. set (s1 := updated_state t (set_desc_status COMPLETED) s) in *.
  assert (Hheads : dep_list_head (desc t (task_ring_ s1)) = dep_list_head (desc t (task_ring_ s)) /\
    fanout_list_head (desc t (task_ring_ s1)) = fanout_list_head (desc t (task_ring_ s))).
  { destruct (fr_desc _ _ Hf1 t Ht) as (? & ? & _). done. }
  assert (Hde : deps (graph_of L s1) t = deps (graph_of L s) t) by (unfold graph_of; cbn [deps]; by rewrite (proj1 Hheads)).
  assert (Hce : cons (graph_of L s1) t = cons (graph_of L s) t) by (unfold graph_of; cbn [cons]; by rewrite (proj2 Hheads)).
  eapply wp_mono; [apply (Hprop L)|].
  - by rewrite Hde, Hce.
  - by eapply frame_live_fwd.
  - rewrite Hde. intros p Hp. eapply frame_live_fwd; [exact Hf1|].
    by apply (ok_deps _ _ _ _ (s_graph _ _ _ _ _ Hs) t p).
  - pose proof (pending_frame _ _ Hf1). lia.
  - intros s2. by apply after_trans.
Qed.

(** A sub-task of a group reports. *)
Lemma wp_on_sub_complete L i t s ph :
  sched_ok L [] [] ph s -> dispatcher_ s <> None -> sub_dispatch_to_group_ s !! i = Some t ->
  (ph = Idle \/ exists r, 0 <= r /\ ph = Dispatching t r) -> (pending s < n)%nat ->
  wp sched_fault (on_task_complete_with prop i s) (after L [] [] ph s).
Proof.
  intros Hs Hdisp Hi Hph Hn. unfold on_task_complete_with, lock.
  destruct (scheduler_mu_ s) eqn:Hmu; [by right|]. bind_simpl.
  set (s0 := s <| scheduler_mu_ := true |>). assert (Hs0 : sched_ok L [] [] ph s0) by by apply sched_ok_locked.
  change (sub_dispatch_to_group_ s0) with (sub_dispatch_to_group_ s). rewrite Hi.
  assert (Hdir : direct (graph_of L s0) = false) by (cbn; by destruct (dispatcher_ s)).
  assert (Hu0 : 0 <= undispatched ph t).
  { destruct Hph as [->|(r & ? & ->)]; cbn; [done|]. by rewrite decide_True. }
  destruct (ok_subs _ _ _ _ (s_graph _ _ _ _ _ Hs0) Hdir i t Hi) as (Ht & Hg & Hst & _).
  set (s1 := s0 <| sub_dispatch_to_group_ := delete i (sub_dispatch_to_group_ s) |>).
  assert (Hm1 : mem_ok s1) by (by destruct Hs as [[] _]).
  rewrite get_desc_ok by done. bind_simpl. rewrite upd_desc_ok by done. bind_simpl.
  change (task_ring_ s1) with (task_ring_ s).
  set (s2 := updated_state t bump_sub_complete s1).
  assert (Hf12 : sched_frame s0 s2).
  { transitivity s1; [by apply frame_core|]. by apply frame_updated. }
  assert (Hs2 : sched_ok L [] [] ph s2).
  { split; [by apply mem_ok_updated|]. eapply same_graph_ok; [by apply graph_updated|].
    apply (sub_complete_ok i t (graph_of L s0)); try done. apply Hs0. }
  assert (Hd2 : desc t (task_ring_ s2) = bump_sub_complete (desc t (task_ring_ s))).
  { unfold s2. rewrite desc_updated_state by done. by rewrite decide_True. }
  pose proof (ok_group _ _ _ _ (s_graph _ _ _ _ _ Hs2) t Ht) as Hgrp. unfold group_ok in Hgrp.
  cbn [graph_of node] in Hgrp. rewrite Hd2 in Hgrp.
  destruct Hgrp as (Hsc0 & Hgs & Hbal); [done|]. cbn [status bump_sub_complete setter set_sub_complete_count] in Hbal.
  change (status (desc t (task_ring_ s))) with (status (node (graph_of L s0) t)) in Hbal. rewrite Hst in Hbal.
  cbn [group_size sub_complete_count bump_sub_complete setter set_sub_complete_count] in *.
  assert (Hout0 : 0 <= outstanding (graph_of L s2) t) by (unfold outstanding; destruct (direct _); lia).
  destruct (Z.leb_spec (group_size (desc t (task_ring_ s))) (u32 (sub_complete_count (desc t (task_ring_ s)) + 1)))
    as [Hlast|Hmore].
  - rewrite <- bind_assoc. eapply wp_step.
    + apply (wp_complete L t s2 ph); auto.
      * unfold is_done. cbn [graph_of node]. rewrite Hd2. cbn.
        change (status (desc t (task_ring_ s))) with (status (node (graph_of L s0) t)). by rewrite Hst.
      * destruct Hph as [->|(r & ? & ->)]; [by left|]. cbn in Hbal, Hu0. rewrite decide_True in Hbal, Hu0 by done.
        right. left. f_equal. lia.
      * intros _. lia.
      * intros _ j. cbn [sub_dispatch_to_group_ s2 updated_state setter set_task_ring_]. intros Hj.
        assert (Hz : outstanding (graph_of L s2) t = 0) by lia.
        unfold outstanding in Hz. cbn [graph_of direct subs] in Hz.
        change (dispatcher_ s2) with (dispatcher_ s) in Hz. destruct (dispatcher_ s); [|done].
        assert (Hz2 : size (filter (fun kv : Z * Z => kv.2 = t) (sub_dispatch_to_group_ s2)) = 0%nat) by lia.
        apply map_size_empty_inv in Hz2.
        assert (Hx : filter (fun kv : Z * Z => kv.2 = t) (sub_dispatch_to_group_ s2) !! j = Some t)
          by (by apply map_lookup_filter_Some).
        by rewrite Hz2, lookup_empty in Hx.
      * pose proof (pending_frame _ _ Hf12). change (pending s0) with (pending s) in *. lia.
    + intros s3 [Hs3 Hf3]. apply after_unlock; [done|]. split; [|by transitivity s2].
      destruct Hph as [->|(r & ? & ->)]; [done|]. cbn in Hbal, Hu0. rewrite decide_True in Hbal, Hu0 by done.
      replace r with 0 by lia. split; [apply Hs3|]. apply dispatched_all, Hs3.
  - apply wp_ret. apply after_unlock; [done|]. by split.
Qed.

(** An ordinary task reports. *)
Lemma wp_on_plain_complete L t s :
  sched_ok L [] [] Idle s -> sub_dispatch_to_group_ s !! t = None -> live t (task_ring_ s) ->
  is_group (desc t (task_ring_ s)) = false -> (pending s < n)%nat ->
  wp sched_fault (on_task_complete_with prop t s) (after L [] [] Idle s).
Proof.
  intros Hs Hi Ht Hg Hn. unfold on_task_complete_with, lock.
  destruct (scheduler_mu_ s) eqn:Hmu; [by right|]. bind_simpl.
  set (s0 := s <| scheduler_mu_ := true |>). assert (Hs0 : sched_ok L [] [] Idle s0) by by apply sched_ok_locked.
  change (sub_dispatch_to_group_ s0) with (sub_dispatch_to_group_ s). rewrite Hi.
  rewrite get_desc_ok by apply Hs0. bind_simpl.
  destruct (status_eqb _ RUNNING) eqn:Hst; [|apply wp_ret, after_unlock; [done|by split]].
  apply bool_decide_eq_true in Hst. rewrite <- bind_assoc. eapply wp_step.
  - apply (wp_complete L t s0 Idle); auto.
    + unfold is_done. cbn [graph_of node]. by rewrite Hst.
    + cbn [task_ring_ s0 setter set_scheduler_mu_]. congruence.
    + intros Hdir i Hit. destruct (ok_subs _ _ _ _ (s_graph _ _ _ _ _ Hs0) Hdir i t Hit) as (_ & Hg' & _).
      cbn in Hg'. congruence.
  - intros s3 Hs3. by apply after_unlock.
Qed.

(** One sub-task of a group counted on the spot. *)
Lemma wp_direct_sub L t r num s :
  sched_ok L [] [] (Dispatching t (r + 1)) s -> dispatcher_ s = None -> live t (task_ring_ s) ->
  is_group (desc t (task_ring_ s)) = true -> 0 <= r -> u32 num = group_size (desc t (task_ring_ s)) ->
  (pending s < n)%nat ->
  wp sched_fault
    (let! d := get_desc t s in
     let! s := upd_desc t bump_sub_complete s in
     if u32 num <=? u32 (sub_complete_count d + 1) then
       let! s := upd_desc t (set_desc_status COMPLETED) s in prop t s
     else Ok s)
    (after L [] [] (Dispatching t r) s).
Proof.
  intros Hs Hd Ht Hg Hr Hnum Hn. rewrite get_desc_ok by apply Hs. bind_simpl.
  pose proof (dispatching_running t (r + 1) (graph_of L s) [] [] (s_graph _ _ _ _ _ Hs) Ht Hg ltac:(lia)) as Hst.
  apply wp_bind. eapply wp_upd_desc; [done|done|by unfold advances; cbn| |].
  { eapply (sub_direct_ok t r); auto; [apply Hs|]. cbn. by rewrite Hd. }
  intros Hs1 Hf1. set (s1 := updated_state t bump_sub_complete s) in *.
  assert (Hd1 : desc t (task_ring_ s1) = bump_sub_complete (desc t (task_ring_ s))).
  { unfold s1. rewrite desc_updated_state by (done || apply Hs). by rewrite decide_True. }
  pose proof (ok_group _ _ _ _ (s_graph _ _ _ _ _ Hs1) t Ht) as Hgrp. unfold group_ok in Hgrp.
  cbn [graph_of node] in Hgrp, Hst. rewrite Hd1 in Hgrp. destruct Hgrp as (_ & _ & Hbal); [done|].
  cbn [status bump_sub_complete setter set_sub_complete_count] in Hbal. rewrite Hst in Hbal.
  cbn [group_size sub_complete_count bump_sub_complete setter set_sub_complete_count undispatched] in Hbal.
  rewrite decide_True in Hbal by done.
  assert (Hout : outstanding (graph_of L s1) t = 0)
    by (unfold outstanding; cbn; by rewrite Hd).
  destruct (Z.leb_spec (u32 num) (u32 (sub_complete_count (desc t (task_ring_ s)) + 1))) as [Hlast|Hmore];
    [|by split].
  assert (r = 0) as -> by lia. eapply wp_mono; [apply (wp_complete L t s1 (Dispatching t 0)); auto|].
  - unfold is_done. cbn [graph_of node]. rewrite Hd1. cbn. by rewrite Hst.
  - cbn. by rewrite Hd.
  - pose proof (pending_frame _ _ Hf1). lia.
  - intros s2 [[Hm2 Hg2] Hf2]. split; [|by transitivity s1]. split; [done|by apply dispatched_all].
Qed.

(** One sub-task of a group handed to the dispatcher. *)
Lemma wp_dispatch_sub L t r i d tgt k params s :
  sched_ok L [] [] (Dispatching t r) s -> dispatcher_ s = Some d -> 0 <= r ->
  sub_dispatch_to_group_ s !! i = Some t -> (pending s < n)%nat ->
  wp sched_fault (dispatcher_dispatch_with prop d i tgt k params s) (after L [] [] (Dispatching t r) s).
Proof.
  intros Hs Hd Hr Hi Hn. unfold dispatcher_dispatch_with.
  set (s0 := s <| dispatched := _ |>).
  assert (Hs0 : sched_ok L [] [] (Dispatching t r) s0).
  { eapply sched_ok_core; [|exact Hs]. unfold same_core. by split_and!. }
  assert (Hf0 : sched_frame s s0) by by apply frame_core.
  destruct d; [|by split]. unfold completion_callback_with. cbn [result_status result_task_id].
  eapply wp_mono; [apply (wp_on_sub_complete L i t s0 (Dispatching t r)); auto; [|right; by exists r]|].
  - cbn. by rewrite Hd.
  - intros s1. by apply after_trans.
Qed.

Lemma wp_dispatch_group L t kernel gparams num sub_tasks s :
  sched_ok L [] [] (Dispatching t (zlength sub_tasks)) s -> live t (task_ring_ s) ->
  is_group (desc t (task_ring_ s)) = true -> u32 num = group_size (desc t (task_ring_ s)) ->
  (pending s < n)%nat ->
  wp sched_fault (dispatch_group_sub_tasks_with prop t kernel gparams num sub_tasks s)
    (after L [] [] Idle s).
Proof.
  revert s. induction sub_tasks as [|sub rest IH]; intros s Hs Ht Hg Hnum Hn.
  { simpl. split; [|done]. split; [apply Hs|]. apply (proj1 (dispatched_all t _ _ _)). apply Hs. }
  cbn [dispatch_group_sub_tasks_with]. set (r := zlength rest).
  assert (Hlen : zlength (sub :: rest) = r + 1) by (unfold r, zlength; simpl; lia). rewrite Hlen in Hs.
  assert (Hr0 : 0 <= r) by apply zlength_nonneg.
  pose proof (dispatching_running t (r + 1) (graph_of L s) [] [] (s_graph _ _ _ _ _ Hs) Ht Hg ltac:(lia)) as Hst.
  unfold i32_sub. destruct (i32_range _); [|by left]. bind_simpl.
  set (s0 := s <| next_sub_dispatch_id_ := _ |> <| sub_dispatch_to_group_ := _ |>).
  assert (Hf0 : sched_frame s s0) by by apply frame_core.
  pose proof (sub_register_ok t r (graph_of L s) (s_graph _ _ _ _ _ Hs) Ht Hg Hst) as Hok0.
  assert (Hm0 : mem_ok s0) by (by destruct Hs as [[] _]).
  eapply wp_step with (Q := after L [] [] (Dispatching t r) s0).
  - change (dispatcher_ s0) with (dispatcher_ s). destruct (dispatcher_ s) as [d|] eqn:Hd.
    + eapply wp_dispatch_sub; try done; [|cbn; apply lookup_insert_eq].
      assert (Hdir : direct (graph_of L s) = false) by (cbn; by rewrite Hd).
      rewrite Hdir in Hok0. split; [done|exact Hok0].
    + eapply wp_direct_sub; try done.
      assert (Hdir : direct (graph_of L s) = true) by (cbn; by rewrite Hd).
      rewrite Hdir in Hok0. split; [done|exact Hok0].
  - intros s1 [Hs1 Hf1]. assert (Hf : sched_frame s s1) by by transitivity s0.
    destruct (fr_desc _ _ Hf t Ht) as (_ & _ & _ & Hg1 & Hgs1 & _).
    eapply wp_mono; [apply IH; auto|].
    + by eapply frame_live_fwd.
    + congruence.
    + congruence.
    + pose proof (pending_frame _ _ Hf). lia.
    + intros s2. by apply after_trans.
Qed.
End recursion.

(** A consumer whose producers have all reported is made ready, a group is started. *)
Lemma wp_check_consumer prop n L c s :
  propagate_ok prop n -> sched_ok L [] [] Idle s -> live c (task_ring_ s) -> (pending s < S n)%nat ->
  wp sched_fault (check_consumer_with prop c s) (after L [] [] Idle s).
Proof.
  intros Hprop Hs Hc Hn. unfold check_consumer_with. rewrite get_desc_ok by apply Hs. bind_simpl.
  destruct (_ && _) eqn:E; [|by split].
  apply andb_true_iff in E as [Hf%Z.leb_le Hst%bool_decide_eq_true].
  destruct (is_group _) eqn:Hg.
  - pose proof (start_group_ok c (graph_of L s) (s_graph _ _ _ _ _ Hs) Hc Hst Hg Hf) as [Hok Hspec].
    apply wp_bind. eapply wp_upd_desc; [done|done|by unfold advances; cbn|exact Hok|].
    intros Hs1 Hf1. set (s1 := updated_state c (set_desc_status RUNNING) s) in *.
    change (pending_group_specs_ s1) with (pending_group_specs_ s).
    destruct Hspec as (sp & Hsp & Hlen & Hst2). cbn [graph_of specs node] in Hsp, Hlen. rewrite Hsp.
    set (subs := zip_with fixup _ _).
    assert (Hzl : zlength subs = group_size (desc c (task_ring_ s))).
    { rewrite <- Hlen. unfold subs, zlength. rewrite length_zip_with. lia. }
    destruct (fr_desc _ _ Hf1 c Hc) as (_ & _ & _ & Hg1 & Hgs1 & _).
    assert (Hgr : in_u32 (group_size (desc c (task_ring_ s)))).
    { apply (ok_group _ _ _ _ (s_graph _ _ _ _ _ Hs) c Hc Hg). }
    assert (Hnp : ~ is_pending s1 c).
    { unfold is_pending, s1. rewrite desc_updated_state by (done || apply Hs). by rewrite decide_True. }
    eapply wp_step with (Q := after L [] [] Idle s1).
    + apply (wp_dispatch_group prop n); auto.
      * by rewrite Hzl.
      * congruence.
      * rewrite Hzl, Hgs1. by apply u32_id.
      * pose proof (pending_started _ _ c Hf1 Hc Hst Hnp). lia.
    + intros s2 [Hs2 Hf2]. apply wp_ret. split.
      * split; [by destruct Hs2 as [[] _]|]. apply (unpark_ok c (graph_of L s2)); [apply Hs2|].
        destruct (fr_desc _ _ Hf2 c) as (_ & _ & _ & _ & _ & Hx); [by eapply frame_live_fwd|]. by apply Hx.
      * transitivity s1; [done|]. transitivity s2; [done|by apply frame_core].
  - eapply wp_upd_desc; [done|done|by unfold advances; cbn|by apply ready_ok; [apply Hs| | |]|by split].
Qed.

(** The whole completion handler, given the nested one. *)
Lemma wp_propagate_with prop n :
  propagate_ok prop n -> propagate_ok (propagate_completion_with prop) (S n).
Proof.
  intros Hprop L t s Hs Ht Hdeps Hn. unfold propagate_completion_with.
  rewrite get_desc_ok by apply Hs. bind_simpl.
  eapply wp_step.
  { apply (wp_walk_list (fun l s' => sched_ok L l (cons (graph_of L s) t) Idle s' /\
      forall p, p ∈ l -> live p (task_ring_ s))); [apply Hs|by apply Hs|by split|].
    intros p l s' Hf [Hs' Hl]. eapply wp_mono; [apply (wp_release_producer L p l (cons (graph_of L s) t) Idle)|].
    - done.
    - eapply frame_live_fwd; [done|]. apply Hl. by left.
    - intros s'' [? ?]. split; [done|]. split; [done|]. intros q Hq. apply Hl. by right. }
  intros s1 (Hf1 & Hs1 & _). pose proof (frame_live_fwd _ _ _ Hf1 Ht) as Ht1.
  rewrite get_desc_ok by apply Hs1. bind_simpl.
  assert (Hcons : cons (graph_of L s) t = chain (dep_pool_ s1) (fanout_list_head (desc t (task_ring_ s1)))).
  { destruct (fr_desc _ _ Hf1 t Ht) as (_ & Hfo & _). by rewrite (fr_pool _ _ Hf1), Hfo. }
  assert (Hlive : forall c, c ∈ cons (graph_of L s) t -> live c (task_ring_ s1)).
  { intros c Hc. apply (ok_cons _ _ _ _ (s_graph _ _ _ _ _ Hs1) t c Ht1). unfold graph_of at 1. cbn [cons]. by rewrite <- Hcons. }
  eapply wp_step.
  { apply (wp_walk_list (fun l s' => sched_ok L [] l Idle s' /\ forall c, c ∈ l -> live c (task_ring_ s1)));
      [apply Hs1|by apply Hs1|rewrite <- Hcons; by split|].
    intros c l s' Hf [Hs' Hl]. eapply wp_mono; [apply (wp_notify_consumer L c [] l Idle)|].
    - done.
    - eapply frame_live_fwd; [done|]. apply Hl. by left.
    - intros s'' [? ?]. split; [done|]. split; [done|]. intros q Hq. apply Hl. by right. }
  intros s2 (Hf2 & Hs2 & _). pose proof (frame_live_fwd _ _ _ Hf2 Ht1) as Ht2.
  assert (Hcons2 : cons (graph_of L s) t = chain (dep_pool_ s2) (fanout_list_head (desc t (task_ring_ s2)))).
  { destruct (fr_desc _ _ Hf2 t Ht1) as (_ & Hfo & _). by rewrite (fr_pool _ _ Hf2), Hfo, Hcons. }
  eapply wp_step.
  { unfold check_consumers_ready_with. rewrite get_desc_ok by apply Hs2. bind_simpl.
    apply (wp_walk_list (fun l s' => sched_ok L [] [] Idle s' /\ (forall c, c ∈ l -> live c (task_ring_ s1)) /\
      (pending s' < S n)%nat)); [apply Hs2|by apply Hs2| |].
    - rewrite <- Hcons2. split_and!; auto. pose proof (pending_frame _ _ Hf1). pose proof (pending_frame _ _ Hf2). lia.
    - intros c l s' Hf (Hs' & Hl & Hp'). eapply wp_mono; [apply (wp_check_consumer prop n L c); try done|].
      + eapply frame_live_fwd; [done|]. eapply frame_live_fwd; [exact Hf2|]. apply Hl. by left.
      + intros s'' [? Hf'']. split; [done|]. split_and!; [done|intros q Hq; apply Hl; by right|].
        pose proof (pending_frame _ _ Hf''). lia. }
  intros s3 (Hf3 & Hs3 & _ & _). eapply wp_mono; [apply (wp_check_task_consumed L [] [] Idle); [done|]|].
  - by eapply frame_live_fwd.
  - intros s4 [? ?]. split; [done|]. transitivity s1; [done|]. transitivity s2; [done|]. by transitivity s3.
Qed.

Lemma wp_propagate_completion n : propagate_ok (propagate_completion n) n.
Proof.
  induction n as [|n IH]; [|by apply wp_propagate_with]. intros L t s _ _ _ Hn. lia.
Qed.

(** The closed handler: its fuel covers every pending task. *)
Lemma wp_propagate n : propagate_ok propagate n.
Proof.
  intros L t s Hs Ht Hd _. unfold propagate.
  apply (wp_propagate_completion (propagate_fuel s)); try done. apply pending_bound, Hs.
Qed.
