(* ===== verification/OrchestratorSafety.v ===== *)
(** * What the orchestrator guarantees

    Lifts [OrchestratorInvariant] from completions to every operation of
    [src/src/runtime/linqu_orchestrator_state.cpp]: submission, group
    submission, scopes, tensor allocation, retirement.  [inv] is the invariant
    between operations, [exec] runs one operation, [permitted] states what the
    caller must respect, and [reachable] closes them from [init]. *)

From S2P Require Import Prelude Coordinate LinquHeapRing LinquDepListPool LinquTaskRing.
From S2P Require Import LinquScopeStack LinquTensorMap OrchestrationApi RingMetrics.
From S2P Require Import LinquOrchestratorState OrchestratorGraph OrchestratorInvariant.

(** The faults an operation may still end in: an exhausted pool, stack or
    window ([assert]), a 32-bit id that runs out, the mutex taken twice. *)
Definition op_fault (f : fault) : Prop := f = AssertFailed \/ f = SignedOverflow \/ f = SelfDeadlock.

Lemma sched_op_fault f : sched_fault f -> op_fault f.
Proof. unfold sched_fault, op_fault. tauto. Qed.

Record env_ok (L : list (list Z)) (s : LinquOrchestratorState) : Prop := {
  env_repr : repr (scope_stack_ s) L;
  env_map : LinquTensorMap.wf (tensor_map_ s);
  env_unwrapped : unwrapped (tensor_map_ s);
  env_alive : LinquTensorMap.last_task_alive_ (tensor_map_ s) = LinquTaskRing.last_task_alive_ (task_ring_ s);
  env_bind : forall h t, live_binding (tensor_map_ s) h t -> t < current_index_ (task_ring_ s);
  env_heap : LinquHeapRing.wf (heap_ring_ s);
  env_end : forall t, live t (task_ring_ s) ->
    heap_end (desc t (task_ring_ s)) <= LinquHeapRing.top_ (heap_ring_ s);
  env_mu : scheduler_mu_ s = false;
}.

Record inv (L : list (list Z)) (s : LinquOrchestratorState) : Prop := {
  inv_sched : sched_ok L [] [] Idle s;
  inv_env : env_ok L s;
}.

Lemma env_frame L s s' : env_ok L s -> sched_frame s s' -> env_ok L s'.
Proof.
  intros [? ? ? ? ? ? He ?] Hf. pose proof Hf as [Hp Hm Hs Hh Hd Hmu Hw Hl Hc Hds].
  constructor; rewrite ?Hm, ?Hs, ?Hh, ?Hmu, ?Hl, ?Hc; try done.
  intros t Ht. pose proof (proj1 (frame_live _ _ t Hf) Ht) as Ht'.
  destruct (Hds t Ht') as (_ & _ & -> & _). auto.
Qed.

Lemma inv_after L s s' : env_ok L s -> after L [] [] Idle s s' -> inv L s'.
Proof. intros He [Hs Hf]. split; [done|by eapply env_frame]. Qed.

(** ** Retirement *)

Lemma advance_loop_ok n c r s :
  mem_ok s -> exists c' r', advance_loop n c r s = Ok (c', r') /\ c <= c' <= c + Z.of_nat n /\
    (forall t, c <= t < c' -> status (desc t (task_ring_ s)) = CONSUMED) /\
    (c' < c + Z.of_nat n -> status (desc c' (task_ring_ s)) <> CONSUMED) /\
    (0 <= r < 2 ^ 64 -> r' = u64 (r + (c' - c))).
Proof.
  intros Hm. revert c r. induction n as [|n IH]; intros c r; cbn [advance_loop].
  { exists c, r. split_and!; try done; try lia. intros. rewrite Z.sub_diag, Z.add_0_r. symmetry. by apply u64_id. }
  rewrite get_desc_ok by done. bind_simpl. destruct (status_eqb _ CONSUMED) eqn:E; simpl.
  - apply bool_decide_eq_true in E. destruct (IH (c + 1) (u64 (r + 1))) as (c' & r' & -> & Hr & Hc & Hs & Hn).
    exists c', r'. split_and!; try done; try lia.
    + intros t Ht. destruct (decide (t = c)) as [->|?]; [done|]. apply Hc. lia.
    + intros. apply Hs. lia.
    + intros. rewrite Hn by apply u64_range. unfold u64. rewrite Zplus_mod_idemp_l. f_equal. lia.
  - apply bool_decide_eq_false in E. exists c, r. split_and!; try done; try lia.
    intros. rewrite Z.sub_diag, Z.add_0_r. symmetry. by apply u64_id.
Qed.

(** The state after the tasks below [c] are retired. *)
Record retired (c : Z) (s s' : LinquOrchestratorState) : Prop := {
  ret_alive : LinquTaskRing.last_task_alive_ (task_ring_ s') = c;
  ret_window : window_size_ (task_ring_ s') = window_size_ (task_ring_ s);
  ret_current : current_index_ (task_ring_ s') = current_index_ (task_ring_ s);
  ret_desc : forall t, desc t (task_ring_ s') = desc t (task_ring_ s);
  ret_map : tensor_map_ s' = if LinquTaskRing.last_task_alive_ (task_ring_ s) <? c
    then invalidate_below c (tensor_map_ s) else tensor_map_ s;
  ret_tail : tail_ (heap_ring_ s') = if LinquTaskRing.last_task_alive_ (task_ring_ s) <? c
    then Z.max (tail_ (heap_ring_ s)) (heap_end (desc (c - 1) (task_ring_ s))) else tail_ (heap_ring_ s);
  ret_heap : LinquHeapRing.top_ (heap_ring_ s') = LinquHeapRing.top_ (heap_ring_ s);
  ret_scope : scope_stack_ s' = scope_stack_ s;
  ret_pool : dep_pool_ s' = dep_pool_ s;
  ret_disp : dispatcher_ s' = dispatcher_ s;
}.

Lemma live_binding_invalidate c m h t : live_binding (invalidate_below c m) h t -> LinquTensorMap.last_task_alive_ m <= c -> live_binding m h t.
Proof.
  intros (Ht & i & e & He & Hv & Hh & Hp & Hl) Hc. split; [done|]. exists i, e. cbn in Hl. split_and!; try done. lia.
Qed.

(** The effect of a successful retirement, as one equation. *)
Definition retire_state (c r : Z) (h : LinquHeapRing) (s : LinquOrchestratorState) : LinquOrchestratorState :=
  s <| scheduler_mu_ := true |> <| task_retire_count_ := r |>
    <| task_ring_ := set_last_task_alive c (task_ring_ s) |>
    <| tensor_map_ := invalidate_below c (tensor_map_ s) |> <| heap_ring_ := h |> <| scheduler_mu_ := false |>.

Lemma retire_state_inv L c r h s :
  inv L s -> LinquTaskRing.last_task_alive_ (task_ring_ s) <= c <= current_index_ (task_ring_ s) ->
  (forall t, LinquTaskRing.last_task_alive_ (task_ring_ s) <= t < c -> status (desc t (task_ring_ s)) = CONSUMED) ->
  LinquHeapRing.wf h -> LinquHeapRing.top_ h = LinquHeapRing.top_ (heap_ring_ s) ->
  inv L (retire_state c r h s).
Proof.
  intros [[Hm Hg] [? Hmap Hunw Hal Hbind Hheap Hend Hmu]] Hc Hcon Hh Htop.
  pose proof Hm as [[Hp2 Hl Hrng Hw Hi] Hpool Hd1 Hd2].
  assert (Hlive : forall t, live t (task_ring_ (retire_state c r h s)) -> live t (task_ring_ s))
    by (unfold live; cbn; intros; lia).
  split; [split|].
  - constructor; [constructor; cbn; try done; lia|done| |]; intros t Ht%Hlive; [by apply Hd1|by apply Hd2].
  - eapply same_graph_ok; [|by apply (retire_ok c (graph_of L s))]. by constructor.
  - constructor; try done; [by apply wf_invalidate_below|by apply unwrapped_invalidate_below| |].
    + intros k t Hb. apply (Hbind k). eapply live_binding_invalidate; [exact Hb|]. cbn in *. lia.
    + intros t Ht%Hlive. change (desc t (task_ring_ (retire_state c r h s))) with (desc t (task_ring_ s)).
      cbn [heap_ring_ retire_state setter set_heap_ring_ set_scheduler_mu_]. rewrite Htop. auto.
Qed.

Lemma try_advance_ok L s :
  inv L s -> exists c s', try_advance_ring_pointers s = Ok s' /\ inv L s' /\ retired c s s' /\
    LinquTaskRing.last_task_alive_ (task_ring_ s) <= c <= current_index_ (task_ring_ s) /\
    (forall t, LinquTaskRing.last_task_alive_ (task_ring_ s) <= t < c -> status (desc t (task_ring_ s)) = CONSUMED) /\
    (c < current_index_ (task_ring_ s) -> status (desc c (task_ring_ s)) <> CONSUMED).
Proof.
  intros [Hs He]. pose proof Hs as [Hm Hg]. pose proof He as [? Hmap Hunw Hal Hbind Hheap Hend Hmu].
  pose proof Hm as [[? ? Hrng ? ?] _ _ _]. unfold try_advance_ring_pointers, lock. rewrite Hmu. bind_simpl.
  cbn [task_ring_ task_retire_count_ setter set_scheduler_mu_].
  set (s0 := s <| scheduler_mu_ := true |>). set (lo0 := LinquTaskRing.last_task_alive_ (task_ring_ s)) in *.
  set (n := Z.to_nat (current_index_ (task_ring_ s) - lo0)).
  assert (Hm0 : mem_ok s0) by (by apply (sched_ok_locked L [] [] Idle)).
  destruct (advance_loop_ok n lo0 (task_retire_count_ s) s0 Hm0) as (c & r' & -> & Hc & Hcon & Hstop & _).
  change (task_ring_ s0) with (task_ring_ s) in *. bind_simpl.
  cbn [task_ring_ tensor_map_ heap_ring_ setter set_scheduler_mu_ set_task_retire_count_ set_task_ring_ set_tensor_map_ s0].
  fold lo0. assert (Hcb : lo0 <= c <= current_index_ (task_ring_ s)) by (subst n; lia).
  destruct (Z.ltb_spec lo0 c) as [Hlt|Hge].
  2:{ assert (c = lo0) as -> by lia. eexists lo0, _. split; [reflexivity|].
      split; [|split_and!; [constructor; cbn; fold lo0; rewrite ?Z.ltb_irrefl; done|lia|lia|by intros; lia|intros; apply Hstop; subst n; lia]].
      split; [|by constructor]. eapply sched_ok_core; [|exact Hs]. unfold same_core. by split_and!. }
  rewrite (proj2 (Z.ltb_lt 0 c)) by lia.
  set (s1 := s0 <| task_retire_count_ := r' |> <| task_ring_ := _ |> <| tensor_map_ := _ |>).
  rewrite get_desc_ok by (by destruct (retire_state_inv L c r' (heap_ring_ s) s) as [[[] _] _]). bind_simpl.
  change (desc (c - 1) (task_ring_ s1)) with (desc (c - 1) (task_ring_ s)).
  set (d := desc (c - 1) (task_ring_ s)).
  assert (Hhe : heap_end d <= LinquHeapRing.top_ (heap_ring_ s)) by (apply Hend; unfold live; lia).
  pose proof (LinquHeapRing.wf_order _ Hheap).
  destruct (Z.ltb_spec (tail_ (heap_ring_ s)) (heap_end d)) as [Ht|Ht].
  - exists c, (retire_state c r' (retire_to (heap_end d) (heap_ring_ s)) s). split; [reflexivity|].
    split; [apply retire_state_inv; try done; apply wf_retire_to; [done|lia]|].
    split_and!; try done; try lia; [|intros; apply Hstop; subst n; lia].
    constructor; try done; cbn; fold lo0 d; rewrite (proj2 (Z.ltb_lt lo0 c)) by done; [done|lia].
  - exists c, (retire_state c r' (heap_ring_ s) s). split; [reflexivity|].
    split; [by apply retire_state_inv|].
    split_and!; try done; try lia; [|intros; apply Hstop; subst n; lia].
    constructor; try done; cbn; fold lo0 d; rewrite (proj2 (Z.ltb_lt lo0 c)) by done; [done|lia].
Qed.

(** ** Scopes *)

Definition keeps_inv (m : outcome LinquOrchestratorState) : Prop :=
  wp op_fault m (fun s' => exists L', inv L' s').

Lemma scope_begin_inv L s : inv L s -> wp op_fault (scope_begin s) (inv ([] :: L)).
Proof.
  intros [Hs He]. unfold scope_begin. apply wp_bind.
  apply (wp_scope_begin _ (scope_stack_ s) L); [apply He|by left|].
  intros st _ _ _ Hr. apply wp_ret. split.
  - destruct Hs as [Hm Hg]. split; [by destruct Hm|]. exact Hg.
  - destruct He. by constructor.
Qed.

(** The release of the tasks of the innermost scope. *)
Lemma release_all_inv L l s :
  sched_ok (l :: L) [] [] Idle s ->
  sched_ok L [] [] Idle (s <| task_ring_ := release_all l (task_ring_ s) |>) /\
  sched_frame s (s <| task_ring_ := release_all l (task_ring_ s) |>).
Proof.
  revert s. induction l as [|u l IH]; intros s Hs.
  - split; [|by constructor]. destruct Hs as [[? ? ? ?] Hg]. split; [by constructor|exact Hg].
  - assert (Hu : live u (task_ring_ s)).
    { apply (ok_scoped _ _ _ _ (s_graph _ _ _ _ _ Hs)). by left. }
    pose proof (leave_ok u (l ++ concat L) (graph_of ((u :: l) :: L) s) [] [] Idle (s_graph _ _ _ _ _ Hs) eq_refl) as Hg.
    assert (Hs1 : sched_ok (l :: L) [] [] Idle (s <| task_ring_ := released u (task_ring_ s) |>) /\
      sched_frame s (s <| task_ring_ := released u (task_ring_ s) |>)).
    { unfold released. destruct (task_freed _).
      - split; [|by constructor]. split; [by destruct Hs as [[] _]|]. eapply forgive_ok, Hg.
      - assert (Hs' : sched_ok (l :: L) [u] [] Idle s) by (split; [apply Hs|exact Hg]). split.
        + eapply (sched_ok_updated (l :: L) [u]); [exact Hs'|done|done|].
          apply release_ok; [apply Hs'|done].
        + apply (frame_updated u bump_fanout_refcount s); [apply Hs|done|by unfold advances; cbn]. }
    destruct Hs1 as [Hs1 Hf1]. destruct (IH _ Hs1) as [Hs2 Hf2]. split; [exact Hs2|].
    etransitivity; [exact Hf1|exact Hf2].
Qed.

Lemma check_consumed_loop_ok L n i s :
  sched_ok L [] [] Idle s -> LinquTaskRing.last_task_alive_ (task_ring_ s) <= i ->
  i + Z.of_nat n <= current_index_ (task_ring_ s) ->
  wp sched_fault (check_consumed_loop n i s) (after L [] [] Idle s).
Proof.
  revert i s. induction n as [|n IH]; intros i s Hs Hi Hn; cbn [check_consumed_loop]; [by split|].
  eapply wp_step; [apply (wp_check_task_consumed L); [done|unfold live; lia]|].
  intros s1 [Hs1 Hf1]. eapply wp_mono; [apply IH; [done| |]|intros s2; by apply after_trans].
  - rewrite (fr_lo _ _ Hf1). lia.
  - rewrite (fr_hi _ _ Hf1). lia.
Qed.

Lemma scope_end_inv l L s : inv (l :: L) s -> wp op_fault (scope_end s) (inv L).
Proof.
  intros [Hs He]. unfold scope_end.
  destruct (scope_end_ok (scope_stack_ s) l L (task_ring_ s)) as (st & -> & Hr & _ & _);
    [apply He|apply Hs|]. bind_simpl. unfold lock.
  cbn [scheduler_mu_ setter set_scope_stack_ set_task_ring_ set_scope_end_count_].
  rewrite (env_mu _ _ He). bind_simpl.
  destruct (release_all_inv L l s Hs) as [Hs1 Hf1].
  set (sr := s <| task_ring_ := release_all l (task_ring_ s) |>) in *.
  set (s2 := _ <| scheduler_mu_ := true |>).
  assert (Hs2 : sched_ok L [] [] Idle s2) by (by eapply sched_ok_core; [|exact Hs1]; unfold same_core; split_and!).
  pose proof (mem_ring _ (s_mem _ _ _ _ _ Hs2)) as Hring. pose proof (wf_alive _ Hring).
  eapply wp_step.
  { eapply wp_faults; [|exact sched_op_fault].
    apply (check_consumed_loop_ok L _ _ s2 Hs2); [done|]. lia. }
  intros s3 [Hs3 Hf3].
  assert (Hinv : inv L (unlock s3)).
  { split; [by eapply sched_ok_core; [|exact Hs3]; unfold same_core; split_and!|].
    assert (Henv2 : env_ok L (unlock s2)).
    { pose proof (env_frame _ _ _ He Hf1) as [? ? ? ? ? ? ? ?]. by constructor. }
    eapply env_frame; [exact Henv2|]. destruct Hf3. by constructor. }
  destruct (try_advance_ok L (unlock s3) Hinv) as (c & s4 & -> & Hinv4 & _). exact Hinv4.
Qed.

Lemma scope_end_none s : inv [] s -> scope_end s = Fault AssertFailed.
Proof.
  intros [_ He]. unfold scope_end. by rewrite (scope_end_empty _ _ (env_repr _ _ He)).
Qed.

(** ** Completions *)

(** What a dispatcher may report: a sub-task it was given, or a live task that
    is not a group. *)
Definition reportable (t : Z) (s : LinquOrchestratorState) : Prop :=
  (dispatcher_ s <> None /\ is_Some (sub_dispatch_to_group_ s !! t)) \/
  (sub_dispatch_to_group_ s !! t = None /\ live t (task_ring_ s) /\ is_group (desc t (task_ring_ s)) = false).

Lemma wp_on_task_complete L t s :
  sched_ok L [] [] Idle s -> reportable t s ->
  wp sched_fault (on_task_complete t s) (after L [] [] Idle s).
Proof.
  intros Hs Hr. unfold on_task_complete. pose proof (wp_propagate (S (pending s))) as Hp.
  destruct Hr as [[Hd [g Hg]]|(Hn & Ht & Hg)].
  - eapply wp_on_sub_complete; eauto.
  - eapply wp_on_plain_complete; eauto.
Qed.

Lemma on_task_complete_inv L t s : inv L s -> reportable t s -> wp op_fault (on_task_complete t s) (inv L).
Proof.
  intros [Hs He] Hr. eapply wp_faults; [|exact sched_op_fault].
  eapply wp_mono; [by apply wp_on_task_complete|]. intros s'. by apply inv_after.
Qed.

(** ** Submission *)

(** Task [t] is being built: it is the newest task, pending and still unlinked
    from its scope. *)
Record building (L : list (list Z)) (t : Z) (s : LinquOrchestratorState) : Prop := {
  b_sched : sched_ok L [] [] (Building t) s;
  b_env : env_ok L s;
  b_hi : current_index_ (task_ring_ s) = t + 1;
  b_live : live t (task_ring_ s);
  b_status : status (desc t (task_ring_ s)) = PENDING;
  b_ref : fanout_refcount (desc t (task_ring_ s)) = 0;
  b_scope : t ∉ concat L;
}.

(** No input is produced by a task that was consumed but is not retired yet. *)
Definition fresh_reads (params : list LinquParam) (s : LinquOrchestratorState) : Prop :=
  forall p r, p ∈ params -> reads p = true -> live_binding (tensor_map_ s) (handle p) r ->
    status (desc r (task_ring_ s)) <> CONSUMED.

Definition writes_count (params : list LinquParam) : Z :=
  zlength (filter (fun p => writes p = true) params).

(** The tensor map's pool does not come round during the submission. *)
Definition map_room (params : list LinquParam) (s : LinquOrchestratorState) : Prop :=
  next_entry_ (tensor_map_ s) + writes_count params <= pool_size_ (tensor_map_ s).

Lemma open_task_building L kernel s :
  inv L s -> wp op_fault (open_task kernel s)
    (fun '(s', t) => building L t s' /\ t = current_index_ (task_ring_ s) /\
       tensor_map_ s' = tensor_map_ s /\ dispatcher_ s' = dispatcher_ s /\
       is_group (desc t (task_ring_ s')) = false /\ deps (graph_of L s') t = [] /\
       forall u, live u (task_ring_ s) -> desc u (task_ring_ s') = desc u (task_ring_ s)).
Proof.
  intros [[Hm Hg] He]. unfold open_task. apply wp_bind.
  apply wp_alloc; [apply Hm|by left|by right; left|]. intros Hsp Hci.
  pose proof (mem_ring _ Hm) as Hr. set (t := current_index_ (task_ring_ s)).
  set (s1 := s <| task_ring_ := allocated (task_ring_ s) |>).
  assert (Hr1 : LinquTaskRing.wf (task_ring_ s1)) by (by apply wf_allocated).
  assert (Hnew : desc t (task_ring_ s1) = new_descriptor) by (by apply desc_allocated_new).
  assert (Hold : forall u, live u (task_ring_ s) -> desc u (task_ring_ s1) = desc u (task_ring_ s))
    by (intros; by apply desc_allocated_old).
  assert (Hlive : forall u, live u (task_ring_ s1) <-> live u (task_ring_ s) \/ u = t).
  { pose proof (wf_alive _ Hr). unfold live, t. cbn. intros. lia. }
  assert (Hm1 : mem_ok s1).
  { pose proof (wf_top _ (mem_pool _ Hm)). constructor; [done|apply Hm| |]; intros u [Hu| ->]%Hlive;
      rewrite ?Hnew, ?Hold by done; try (by apply Hm); unfold valid_head; cbn; lia. }
  assert (Hs1 : sched_ok L [] [] (Building t) s1).
  { split; [done|]. eapply same_graph_ok; [|apply (extend_ok new_descriptor (graph_of L s)); [exact Hg|done..]].
    constructor; try done; intros u [Hu| ->]%Hlive; cbn [graph_of extend node deps cons hi].
    all: change (dep_pool_ s1) with (dep_pool_ s).
    all: rewrite ?Hnew; fold t; rewrite ?(decide_True (P := t = t)) by done.
    all: try (rewrite Hold by done; rewrite decide_False; [done|unfold live, t in *; lia]).
    all: done. }
  bind_simpl.
  change (scope_stack_ (s <| task_ring_ := allocated (task_ring_ s) |>)) with (scope_stack_ s).
  set (f := fun d : LinquTaskDescriptor => _). rewrite upd_desc_ok by done. bind_simpl. apply wp_ret.
  assert (Ht : live t (task_ring_ s1)) by (apply Hlive; by right).
  set (s2 := updated_state t f s1).
  assert (Hd2 : forall u, live u (task_ring_ s1) ->
    desc u (task_ring_ s2) = if decide (u = t) then f (desc u (task_ring_ s1)) else desc u (task_ring_ s1))
    by (intros; by apply desc_updated_state).
  assert (Hdt : desc t (task_ring_ s2) = f new_descriptor) by (rewrite Hd2, decide_True by done; by rewrite Hnew).
  split; [constructor|split_and!]; try done.
  - eapply (sched_ok_updated L [] [] (Building t)); [exact Hs1|done|done|].
    apply (upd_counters t f (graph_of L s1) [] [] [] [] (Building t)); [apply Hs1|exact Ht|..]; try done;
      [by left|apply (ok_ref _ _ _ _ (s_graph _ _ _ _ _ Hs1) t Ht)|].
    intros Hd. split; [|done]. apply (ok_fanin _ _ _ _ (s_graph _ _ _ _ _ Hs1) t Ht Hd).
  - destruct He as [? ? ? ? Hb ? Hend ?]. constructor; try done.
    + intros k u Hu. specialize (Hb k u Hu). change (u < t + 1). subst t. lia.
    + intros u Hu. rewrite Hd2 by done. change (heap_ring_ s2) with (heap_ring_ s).
      apply Hlive in Hu as [Hu| ->].
      * rewrite decide_False by (unfold live, t in *; lia). rewrite Hold by done. auto.
      * rewrite decide_True, Hnew by done. cbn. pose proof (wf_tail _ env_heap0). pose proof (wf_order _ env_heap0). lia.
  - by rewrite Hdt.
  - by rewrite Hdt.
  - intros Hx. apply (ok_scoped _ _ _ _ Hg) in Hx. unfold alive in Hx. cbn in Hx. unfold t in *. lia.
  - by rewrite Hdt.
  - cbn [graph_of deps]. rewrite Hdt. by apply chain_nil.
  - intros u Hu. rewrite Hd2 by (apply Hlive; by left). rewrite decide_False by (unfold live, t in *; lia). auto.
Qed.

(** *** Adding an edge *)

(** An update seen from any id: ids that share the slot share the effect. *)
Lemma desc_updated_any t f r u :
  LinquTaskRing.wf r -> desc u (updated t f r) =
    if decide (slot_of t r = slot_of u r) then f (desc u r) else desc u r.
Proof.
  intros Hr. rewrite desc_updated by done. case_decide as E; [|done].
  unfold desc. by rewrite E.
Qed.

Lemma relinked_updated t f r d u :
  LinquTaskRing.wf r -> (forall x, relinked d x -> relinked d (f x)) -> relinked d (desc u r) ->
  relinked d (desc u (updated t f r)).
Proof. intros Hr Hf Hd. rewrite desc_updated_any by done. case_decide; auto. Qed.

Lemma relinked_set d x n a b :
  relinked d x -> relinked d (x <| fanout_count := n |>) /\ relinked d (x <| dep_list_head := a |>) /\
    relinked d (x <| fanout_list_head := b |>).
Proof.
  intros (n0 & a0 & b0 & ->). destruct d. split_and!; [exists n, a0, b0|exists n0, a, b0|exists n0, a0, b]; done.
Qed.

Lemma chain_small p h : LinquDepListPool.wf p -> valid_head p h -> zlength (chain p h) <= Z.max 0 h.
Proof. intros Hw Hv. pose proof (chain_length p Hw h Hv). unfold zlength. lia. Qed.

(** What the handlers of a submission leave alone. *)
Record build_frame (t : Z) (s s' : LinquOrchestratorState) : Prop := {
  bf_map : tensor_map_ s' = tensor_map_ s;
  bf_disp : dispatcher_ s' = dispatcher_ s;
  bf_lo : LinquTaskRing.last_task_alive_ (task_ring_ s') = LinquTaskRing.last_task_alive_ (task_ring_ s);
  bf_hi : current_index_ (task_ring_ s') = current_index_ (task_ring_ s);
  bf_status : forall u, status (desc u (task_ring_ s')) = status (desc u (task_ring_ s));
  bf_group : forall u, is_group (desc u (task_ring_ s')) = is_group (desc u (task_ring_ s)) /\
    group_size (desc u (task_ring_ s')) = group_size (desc u (task_ring_ s));
}.

Section add_edge.
Context (L : list (list Z)) (t p : Z) (s : LinquOrchestratorState).
Context (Hb : building L t s) (Hp : live p (task_ring_ s)).
Context (Hpc : status (desc p (task_ring_ s)) <> CONSUMED).
Context (pool1 pool2 : LinquDepListPool) (h1 h2 : Z).

Let r := task_ring_ s.
Let r1 := updated t (fun d => d <| dep_list_head := h1 |>) r.
Let r2 := updated p (fun d => d <| fanout_count := u32 (fanout_count d + 1) |>) r1.
Let r3 := updated p (fun d => d <| fanout_list_head := h2 |>) r2.
Let s3 := s <| task_ring_ := r3 |> <| dep_pool_ := pool2 |>.

Lemma edge_ring_wf : LinquTaskRing.wf r /\ LinquTaskRing.wf r1 /\ LinquTaskRing.wf r2 /\ LinquTaskRing.wf r3.
Proof. assert (LinquTaskRing.wf r) by apply Hb. unfold r3, r2, r1. split_and!; auto with linqu. Qed.

Lemma edge_relinked u : relinked (desc u r) (desc u r3).
Proof.
  destruct edge_ring_wf as (? & ? & ? & ?). unfold r3, r2, r1.
  repeat (apply relinked_updated; [done|intros x Hx; by apply relinked_set|]). apply relinked_refl.
Qed.

(** The three fields that change, at a live task. *)
Lemma edge_fields u : live u r ->
  fanout_count (desc u r3) = (if decide (u = p) then u32 (fanout_count (desc u r) + 1) else fanout_count (desc u r)) /\
  dep_list_head (desc u r3) = (if decide (u = t) then h1 else dep_list_head (desc u r)) /\
  fanout_list_head (desc u r3) = (if decide (u = p) then h2 else fanout_list_head (desc u r)).
Proof.
  intros Hu. destruct edge_ring_wf as (W & W1 & W2 & W3). pose proof (b_live _ _ _ Hb) as Ht.
  assert (Hupd : forall v f q, LinquTaskRing.wf q -> live v q -> live u q ->
    desc u (updated v f q) = if decide (u = v) then f (desc u q) else desc u q).
  { intros v f q Hq Hv Huq. case_decide as E; [subst; by apply desc_updated_eq|by apply desc_updated_live]. }
  unfold r3. rewrite Hupd by done. unfold r2. rewrite Hupd by done. unfold r1. rewrite Hupd by done.
  destruct (decide (u = p)), (decide (u = t)); done.
Qed.

Context (Hw1 : LinquDepListPool.wf pool1) (Hw2 : LinquDepListPool.wf pool2).
Context (Hv1 : valid_head pool1 h1) (Hv2 : valid_head pool2 h2).
Context (Hroom : LinquDepListPool.top_ (dep_pool_ s) <= LinquDepListPool.capacity_ (dep_pool_ s)).
Context (Hc1 : chain pool1 h1 = p :: chain (dep_pool_ s) (dep_list_head (desc t r))).
Context (Hc2 : chain pool2 h2 = t :: chain pool1 (fanout_list_head (desc p r))).
Context (Hold1 : forall h, valid_head (dep_pool_ s) h -> valid_head pool1 h /\ chain pool1 h = chain (dep_pool_ s) h).
Context (Hold2 : forall h, valid_head pool1 h -> valid_head pool2 h /\ chain pool2 h = chain pool1 h).

Lemma edge_chains u : live u r ->
  valid_head pool2 (dep_list_head (desc u r3)) /\ valid_head pool2 (fanout_list_head (desc u r3)) /\
  chain pool2 (dep_list_head (desc u r3)) = (if decide (u = t) then p :: deps (graph_of L s) u else deps (graph_of L s) u) /\
  chain pool2 (fanout_list_head (desc u r3)) = (if decide (u = p) then t :: cons (graph_of L s) u else cons (graph_of L s) u).
Proof.
  intros Hu. destruct (edge_fields u Hu) as (_ & -> & ->).
  pose proof (mem_deps _ (s_mem _ _ _ _ _ (b_sched _ _ _ Hb)) u Hu) as Hd.
  pose proof (mem_cons _ (s_mem _ _ _ _ _ (b_sched _ _ _ Hb)) u Hu) as Hc.
  destruct (Hold1 _ Hd) as [Hd1 Ed1], (Hold1 _ Hc) as [Hcc1 Ec1].
  destruct (Hold2 _ Hd1) as [Hd2 Ed2], (Hold2 _ Hcc1) as [Hcc2 Ec2]. destruct (Hold2 _ Hv1) as [Hh1 Eh1].
  cbn [graph_of deps cons]. split_and!; (case_decide as E; [subst u|]); try done.
  - by rewrite Eh1, Hc1.
  - etransitivity; [exact Ed2|exact Ed1].
  - rewrite Hc2. f_equal. exact Ec1.
  - etransitivity; [exact Ec2|exact Ec1].
Qed.

Lemma edge_building : building L t s3 /\ deps (graph_of L s3) t = p :: deps (graph_of L s) t /\ build_frame t s s3.
Proof.
  destruct Hb as [Hs He Hhi Ht Hst Hrf Hsc]. pose proof Hs as [Hm Hg]. pose proof (mem_pool _ Hm) as Hwp.
  pose proof (wf_cap _ Hwp) as Hcap.
  assert (Hpr : forall (A : Type) (pr : LinquTaskDescriptor -> A) u,
    (forall d x a b, pr (d <| fanout_count := x |> <| dep_list_head := a |> <| fanout_list_head := b |>) = pr d) ->
    pr (desc u r3) = pr (desc u r)).
  { intros A pr u Hx. destruct (edge_relinked u) as (x & a & b & ->). apply Hx. }
  assert (Hm3 : mem_ok s3).
  { constructor; [apply edge_ring_wf|exact Hw2| |]; intros u Hu; by apply (edge_chains u). }
  assert (Hsmall : forall h, valid_head (dep_pool_ s) h -> zlength (chain (dep_pool_ s) h) + 1 < 2 ^ 31).
  { intros h Hh. pose proof (chain_small _ _ Hwp Hh). unfold valid_head in Hh. lia. }
  assert (Hs3 : sched_ok L [] [] (Building t) s3).
  { split; [done|]. eapply same_graph_ok; [|apply (edge_ok p t (fun u => desc u r3) (graph_of L s))]; try done.
    - constructor; try done; intros u Hu; cbn [graph_of link_edge deps cons]; by apply (edge_chains u).
    - apply Hsmall. by apply Hm.
    - apply Hsmall. by apply Hm.
    - intros u. apply edge_relinked.
    - intros u Hu. destruct (edge_fields u Hu) as (-> & _).
      change (desc u r) with (node (graph_of L s) u). case_decide; [|lia].
      pose proof (ok_fanout _ _ _ _ Hg u Hu) as ->. destruct (ok_small _ _ _ _ Hg u Hu) as [_ Hsm].
      pose proof (zlength_nonneg (cons (graph_of L s) u)). apply u32_id. unfold_ints. lia. }
  split; [|split].
  - constructor; try done.
    + destruct He as [? ? ? ? ? ? Hend ?]. constructor; try done. intros u Hu.
      change (heap_end (desc u r3) <= LinquHeapRing.top_ (heap_ring_ s)). rewrite (Hpr _ heap_end) by done. auto.
    + change (status (desc t r3) = PENDING). by rewrite (Hpr _ status).
    + change (fanout_refcount (desc t r3) = 0). by rewrite (Hpr _ fanout_refcount).
  - destruct (edge_chains t Ht) as (_ & _ & Hd & _). cbn [graph_of deps]. 
    change (chain pool2 (dep_list_head (desc t r3)) = p :: deps (graph_of L s) t). rewrite Hd. by rewrite decide_True.
  - constructor; try done; intros u; [by apply (Hpr _ status)|split; [by apply (Hpr _ is_group)|by apply (Hpr _ group_size)]].
Qed.
End add_edge.

Lemma get_desc_ring t s : LinquTaskRing.wf (task_ring_ s) -> get_desc t s = Ok (desc t (task_ring_ s)).
Proof. intros Hr. by apply LinquTaskRing.get_desc. Qed.
Lemma upd_desc_ring t f s : LinquTaskRing.wf (task_ring_ s) -> upd_desc t f s = Ok (updated_state t f s).
Proof. intros Hr. unfold upd_desc. by rewrite upd_updated. Qed.

Lemma wp_add_edge L t p s :
  building L t s -> live p (task_ring_ s) -> status (desc p (task_ring_ s)) <> CONSUMED ->
  wp op_fault (add_edge t p s) (fun s' => building L t s' /\
    deps (graph_of L s') t = p :: deps (graph_of L s) t /\ build_frame t s s').
Proof.
  intros Hb Hp Hpc. pose proof (s_mem _ _ _ _ _ (b_sched _ _ _ Hb)) as Hm.
  pose proof (mem_pool _ Hm) as Hw. pose proof (mem_ring _ Hm) as Hr. pose proof (b_live _ _ _ Hb) as Ht.
  unfold add_edge. rewrite get_desc_ring by done. bind_simpl. apply wp_bind.
  apply wp_prepend; [done|by apply Hm|by left|].
  intros pool1 h1 Hroom Hw1 _ _ _ Hv1 Hc1 Hold1. bind_simpl.
  rewrite upd_desc_ring by done. bind_simpl.
  rewrite upd_desc_ring by (cbn; by apply wf_updated). bind_simpl.
  rewrite get_desc_ring by (cbn; by do 2 apply wf_updated). bind_simpl.
  set (r2 := task_ring_ (updated_state p _ _)).
  assert (Hfo : fanout_list_head (desc p r2) = fanout_list_head (desc p (task_ring_ s))).
  { unfold r2. cbn. rewrite desc_updated_eq by (by apply wf_updated). cbn.
    rewrite desc_updated_any by done. by case_decide. }
  change (dep_pool_ (updated_state p _ _)) with pool1.
  apply wp_bind. apply wp_prepend; [done| |by left|].
  { rewrite Hfo. apply Hold1. by apply Hm. }
  intros pool2 h2 _ Hw2 _ _ _ Hv2 Hc2 Hold2. bind_simpl. rewrite Hfo in Hc2.
  rewrite upd_desc_ring by (cbn; by do 2 apply wf_updated). apply wp_ret.
  by apply (edge_building L t p s Hb Hp Hpc pool1 pool2 h1 h2).
Qed.

(** *** The dependency loop *)

Lemma live_binding_live L s h r :
  env_ok L s -> live_binding (tensor_map_ s) h r -> live r (task_ring_ s).
Proof.
  intros He Hb. split; [|by apply (env_bind _ _ He h)].
  destruct Hb as (_ & i & e & _ & _ & _ & _ & Hl). by rewrite (env_alive _ _ He) in Hl.
Qed.

(** The state after the loop, without the frame on the tensor map. *)
Record linked_frame (s s' : LinquOrchestratorState) : Prop := {
  lf_disp : dispatcher_ s' = dispatcher_ s;
  lf_lo : LinquTaskRing.last_task_alive_ (task_ring_ s') = LinquTaskRing.last_task_alive_ (task_ring_ s);
  lf_hi : current_index_ (task_ring_ s') = current_index_ (task_ring_ s);
  lf_status : forall u, status (desc u (task_ring_ s')) = status (desc u (task_ring_ s));
  lf_group : forall u, is_group (desc u (task_ring_ s')) = is_group (desc u (task_ring_ s)) /\
    group_size (desc u (task_ring_ s')) = group_size (desc u (task_ring_ s));
}.

#[export] Instance linked_frame_refl : Reflexive linked_frame.
Proof. by constructor. Qed.
#[export] Instance linked_frame_trans : Transitive linked_frame.
Proof.
  intros a b c [? ? ? H1 H2] [? ? ? K1 K2]. constructor; [congruence|congruence|congruence| |].
  - intros u. by rewrite K1, H1.
  - intros u. destruct (H2 u), (K2 u). split; congruence.
Qed.

Lemma building_map L t m s :
  building L t s -> LinquTensorMap.wf m -> unwrapped m ->
  LinquTensorMap.last_task_alive_ m = LinquTensorMap.last_task_alive_ (tensor_map_ s) ->
  (forall h u, live_binding m h u -> u < current_index_ (task_ring_ s)) ->
  building L t (s <| tensor_map_ := m |>).
Proof.
  intros [Hs He ? ? ? ? ?] Hw Hu Hl Hb. constructor; try done.
  - eapply sched_ok_core; [|exact Hs]. unfold same_core. by split_and!.
  - destruct He as [? ? ? Ha ? ? ? ?]. constructor; try done. cbn. by rewrite Hl, Ha.
Qed.

Lemma writes_count_cons p params :
  writes_count (p :: params) = (if writes p then 1 else 0) + writes_count params.
Proof.
  unfold writes_count, zlength. rewrite filter_cons. destruct (writes p).
  - rewrite decide_True by done. simpl. lia.
  - rewrite decide_False by done. lia.
Qed.

Lemma writes_count_nonneg params : 0 <= writes_count params.
Proof. apply zlength_nonneg. Qed.

Lemma wp_link_params L t params fanin s :
  building L t s -> fresh_reads params s -> map_room params s ->
  fanin = zlength (deps (graph_of L s) t) ->
  wp op_fault (link_params t params fanin s) (fun '(s', fanin') => building L t s' /\
    fanin' = zlength (deps (graph_of L s') t) /\ linked_frame s s').
Proof.
  revert fanin s. induction params as [|p params IH]; intros fanin s Hb Hfr Hmr Hfan; cbn [link_params].
  { by split. }
  unfold map_room in Hmr. rewrite writes_count_cons in Hmr. pose proof (writes_count_nonneg params) as Hw0.
  pose proof (b_env _ _ _ Hb) as He. pose proof (b_live _ _ _ Hb) as Ht.
  pose proof (wf_alive _ (mem_ring _ (s_mem _ _ _ _ _ (b_sched _ _ _ Hb)))) as Hlo.
  eapply wp_step with (Q := fun '(s1, f1) => building L t s1 /\ f1 = zlength (deps (graph_of L s1) t) /\
    linked_frame s s1 /\ tensor_map_ s1 = tensor_map_ s).
  { destruct (reads p) eqn:Hrd; [|by apply wp_ret].
    destruct (lookup_ok (handle p) (tensor_map_ s) (env_map _ _ He)) as (r & -> & Hnew). bind_simpl.
    destruct (found r) eqn:Hfd; [|by apply wp_ret]. unfold newest in Hnew. rewrite Hfd in Hnew.
    destruct Hnew as [Hlive _]. eapply wp_step.
    - apply (wp_add_edge L t (result_producer r) s Hb); [by eapply live_binding_live|].
      apply (Hfr p); [by left|done|done].
    - intros s1 (Hb1 & Hd1 & [? ? ? ? ? ?]). apply wp_ret. split_and!; try done.
      rewrite Hd1, Hfan. destruct (ok_small _ _ _ _ (s_graph _ _ _ _ _ (b_sched _ _ _ Hb)) t Ht) as [Hsm _].
      pose proof (zlength_nonneg (deps (graph_of L s) t)). unfold zlength in *.
      rewrite u32_id by (unfold_ints; lia). simpl. lia. }
  intros [s1 f1] (Hb1 & Hf1 & Hlf & Hm1). bind_simpl.
  eapply wp_step with (Q := fun s2 => building L t s2 /\ deps (graph_of L s2) t = deps (graph_of L s1) t /\
    linked_frame s s2 /\ fresh_reads params s2 /\ map_room params s2).
  { assert (Hfr1 : fresh_reads params s1).
    { intros q u Hq Hrq Hlb. rewrite Hm1 in Hlb. rewrite (lf_status _ _ Hlf). apply (Hfr q); [by right|done|done]. }
    destruct (writes p) eqn:Hwr; [|apply wp_ret; split_and!; try done; unfold map_room; rewrite Hm1; lia].
    pose proof (b_env _ _ _ Hb1) as He1. rewrite <- Hm1 in Hmr.
    assert (Ht0 : 0 <= t) by (unfold live in Ht; lia).
    destruct (insert_unwrapped (handle p) t true (tensor_map_ s1)) as (m & -> & Hwm & Hum & Hn & Hps & Hla & Hbd);
      [apply He1|apply He1|done|lia|].
    bind_simpl. apply wp_ret. pose proof (b_hi _ _ _ Hb1) as Hhi.
    assert (Hb2 : building L t (s1 <| tensor_map_ := m |>)).
    { apply building_map; auto. intros h u [->|Hlb]%Hbd; [lia|]. by apply (env_bind _ _ He1 h). }
    split_and!; try done; [by destruct Hlf| |unfold map_room; cbn; lia].
    intros q u Hq Hrq Hlb. cbn in Hlb. apply Hbd in Hlb as [->|Hlb].
    - cbn. rewrite (b_status _ _ _ Hb1). done.
    - by apply (Hfr1 q u). }
  intros s2 (Hb2 & Hd2 & Hlf2 & Hfr2 & Hmr2). eapply wp_mono.
  - apply IH; try done. by rewrite Hd2.
  - intros [s3 f3] (Hb3 & Hf3 & Hlf3). split_and!; try done. by transitivity s2.
Qed.

(** *** Registration and dispatch *)

(** Task [t] has its edges, its fan-in and its scope. *)
Record registered (L : list (list Z)) (t fanin : Z) (s : LinquOrchestratorState) : Prop := {
  rg_sched : sched_ok L [] [] (Building t) s;
  rg_env : env_ok L s;
  rg_live : live t (task_ring_ s);
  rg_status : status (desc t (task_ring_ s)) = PENDING;
  rg_fanin : fanin_count (desc t (task_ring_ s)) = fanin;
  rg_deps : fanin = zlength (deps (graph_of L s) t);
}.

(** An update of a field the graph does not see. *)
Lemma building_upd L t f s :
  building L t s ->
  let d := desc t (task_ring_ s) in
  status (f d) = status d -> fanout_count (f d) = fanout_count d -> is_group (f d) = is_group d ->
  group_size (f d) = group_size d -> sub_complete_count (f d) = sub_complete_count d ->
  fanout_refcount (f d) = fanout_refcount d -> fanin_refcount (f d) = fanin_refcount d ->
  keeps_heads f d -> heap_end (f d) <= LinquHeapRing.top_ (heap_ring_ s) ->
  building L t (updated_state t f s).
Proof.
  intros [Hs He Hhi Ht Hst Hrf Hsc]; cbv zeta; intros H1 H2 H3 H4 H5 H6 H7 H8 H9. pose proof (s_mem _ _ _ _ _ Hs) as Hm.
  assert (Hdt : desc t (task_ring_ (updated_state t f s)) = f (desc t (task_ring_ s)))
    by (rewrite desc_updated_state by done; by rewrite decide_True).
  pose proof (s_graph _ _ _ _ _ Hs) as Hg.
  constructor; try done; try (rewrite Hdt; congruence).
  - eapply sched_ok_updated; [exact Hs|done|done|].
    apply (upd_counters t f (graph_of L s) [] [] [] [] (Building t));
      [exact Hg|exact Ht|exact H1|exact H2|exact H3|exact H4|by right|exact H5| | | |done|done];
      cbn [graph_of node].
    + rewrite H6. apply (ok_ref _ _ _ _ Hg t Ht).
    + rewrite H6. lia.
    + intros Hd. rewrite H7. split; [|lia]. apply (ok_fanin _ _ _ _ Hg t Ht Hd).
  - destruct He as [? ? ? ? ? ? Hend ?]. constructor; try done. intros u Hu.
    rewrite desc_updated_state by done. change (heap_ring_ (updated_state t f s)) with (heap_ring_ s).
    case_decide as E; [|by apply Hend]. by subst u.
Qed.

Lemma depth_spec L s : env_ok L s -> (0 <=? depth (scope_stack_ s)) = negb (bool_decide (L = [])).
Proof.
  intros He. unfold depth. rewrite (frames_top _ _ _ _ _ (repr_frames _ _ (env_repr _ _ He))).
  unfold zlength. destruct L; [done|]. rewrite bool_decide_eq_false_2 by done. simpl. apply Z.leb_le. lia.
Qed.

(** The task enters the innermost open scope, if there is one. *)
Definition enlist (t : Z) (L : list (list Z)) : list (list Z) :=
  match L with [] => [] | l :: L => (l ++ [t]) :: L end.

Lemma wp_register_task L t fanin s :
  building L t s -> fanin = zlength (deps (graph_of L s) t) ->
  wp op_fault (register_task t fanin s) (fun s' => registered (enlist t L) t fanin s' /\ linked_frame s s').
Proof.
  intros Hb Hfan. pose proof (s_mem _ _ _ _ _ (b_sched _ _ _ Hb)) as Hm. pose proof (b_live _ _ _ Hb) as Ht.
  unfold register_task. rewrite upd_desc_ring by apply Hm. bind_simpl.
  set (f1 := fun d : LinquTaskDescriptor => d <| fanin_count := fanin |>). set (s1 := updated_state t f1 s).
  assert (Hb1 : building L t s1).
  { apply building_upd; auto; try done. apply (env_end _ _ (b_env _ _ _ Hb)); done. }
  assert (Hd1 : desc t (task_ring_ s1) = f1 (desc t (task_ring_ s)))
    by (unfold s1; rewrite desc_updated_state by done; by rewrite decide_True).
  assert (Hlf1 : linked_frame s s1).
  { constructor; try done; intros u; unfold s1; cbn; rewrite desc_updated_any by apply Hm; by case_decide. }
  assert (Hdeps1 : deps (graph_of L s1) t = deps (graph_of L s) t) by (cbn [graph_of deps]; by rewrite Hd1).
  change (depth (scope_stack_ s)) with (depth (scope_stack_ s1)). rewrite (depth_spec L) by apply Hb1.
  eapply wp_step with (Q := fun s2 => sched_ok (enlist t L) [] [] (Building t) s2 /\ env_ok (enlist t L) s2 /\
    task_ring_ s2 = task_ring_ s1 /\ dep_pool_ s2 = dep_pool_ s1 /\ dispatcher_ s2 = dispatcher_ s1).
  { destruct L as [|l L]; simpl.
    - split_and!; try done; apply Hb1.
    - apply wp_bind. apply (wp_add_task _ (scope_stack_ s1) l L); [apply Hb1|by left|].
      intros st _ _ _ Hr. apply wp_ret. pose proof Hb1 as [[Hm1 Hg1] He1 Hhi1 Ht1 Hst1 Hrf1 Hsc1].
      split_and!; try done.
      + split; [by destruct Hm1|].
        apply (enter_ok t (concat ((l ++ [t]) :: L)) (graph_of (l :: L) s1)); try done.
        * cbn [graph_of node]. by rewrite Hst1.
        * simpl. rewrite <- app_assoc. simpl. rewrite <- Permutation_middle.
          apply NoDup_cons. split; [done|]. apply (ok_scoped _ _ _ _ Hg1).
        * intros u. simpl. set_solver.
      + destruct He1. by constructor. }
  intros s2 (Hs2 & He2 & Hr2 & Hp2 & Hdi2). pose proof (s_mem _ _ _ _ _ Hs2) as Hm2.
  rewrite upd_desc_ring by apply Hm2. bind_simpl.
  set (f2 := fun d : LinquTaskDescriptor => d <| heap_end := _ |>). set (s3 := updated_state t f2 s2).
  assert (Ht2 : live t (task_ring_ s2)) by (by rewrite Hr2).
  assert (Hd3 : desc t (task_ring_ s3) = f2 (f1 (desc t (task_ring_ s)))).
  { unfold s3. rewrite desc_updated_state by done. rewrite decide_True by done. by rewrite Hr2, Hd1. }
  assert (Hs3 : sched_ok (enlist t L) [] [] (Building t) s3).
  { eapply sched_ok_updated; [exact Hs2|done|done|].
    apply (upd_counters t f2 (graph_of (enlist t L) s2) [] [] [] [] (Building t)); try done; [apply Hs2|by left| |].
    - apply (ok_ref _ _ _ _ (s_graph _ _ _ _ _ Hs2) t Ht2).
    - intros Hd. split; [|done]. apply (ok_fanin _ _ _ _ (s_graph _ _ _ _ _ Hs2) t Ht2 Hd). }
  assert (He3 : env_ok (enlist t L) s3).
  { destruct He2 as [? ? ? ? ? ? Hend ?]. constructor; try done. intros u Hu. unfold s3.
    rewrite desc_updated_state by done. cbn [heap_ring_ updated_state setter set_task_ring_].
    case_decide; [cbn; lia|by apply Hend]. }
  assert (Hlf3 : linked_frame s s3).
  { transitivity s1; [done|]. constructor; try done; try (cbn; by rewrite ?Hr2, ?Hdi2); intros u; unfold s3; cbn;
      rewrite desc_updated_any by apply Hm2; rewrite Hr2; by case_decide. }
  apply wp_ret. 
  assert (Hend : forall s4, same_core s3 s4 -> tensor_map_ s4 = tensor_map_ s3 -> scope_stack_ s4 = scope_stack_ s3 ->
    heap_ring_ s4 = heap_ring_ s3 -> scheduler_mu_ s4 = scheduler_mu_ s3 ->
    registered (enlist t L) t fanin s4 /\ linked_frame s s4).
  { intros s4 Hc Hm4 Hsc4 Hh4 Hmu4. pose proof Hc as (Hr4 & Hp4 & _ & _ & _ & Hd4). split.
    - constructor.
      + by eapply sched_ok_core.
      + destruct He3. constructor; rewrite ?Hm4, ?Hsc4, ?Hh4, ?Hmu4, ?Hr4; done.
      + by rewrite Hr4.
      + rewrite Hr4, Hd3. cbn. apply Hb.
      + by rewrite Hr4, Hd3.
      + cbn [graph_of deps]. rewrite Hr4, Hp4, Hd3. change (dep_pool_ s3) with (dep_pool_ s2). rewrite Hp2. exact Hfan.
    - destruct Hlf3. constructor; rewrite ?Hr4, ?Hd4; done. }
  destruct (_ <? _), (_ <? _); apply Hend; try done; unfold same_core; by split_and!.
Qed.

(** *** The two submissions *)

(** Linking and registering, the part the two submissions share. *)
Lemma wp_link_register {B} L t params s (k : LinquOrchestratorState * Z -> outcome B) (Q : B -> Prop) :
  building L t s -> fresh_reads params s -> map_room params s -> deps (graph_of L s) t = [] ->
  (forall fanin s', registered (enlist t L) t fanin s' -> linked_frame s s' -> wp op_fault (k (s', fanin)) Q) ->
  wp op_fault (let! (s1, fanin) := link_params t params 0 s in
               let! s2 := register_task t fanin s1 in k (s2, fanin)) Q.
Proof.
  intros Hb Hfr Hmr Hd Hk. eapply wp_step; [apply (wp_link_params L t params 0 s); try done; by rewrite Hd|].
  intros [s1 fanin] (Hb1 & Hf1 & Hlf1). eapply wp_step; [by apply (wp_register_task L t fanin s1)|].
  intros s2 (Hrg & Hlf2). apply Hk; [done|by transitivity s1].
Qed.

Lemma registered_dispatchable L t fanin s :
  registered L t fanin s -> is_done (graph_of L s) t = false /\
  (direct (graph_of L s) = false -> forall i, sub_dispatch_to_group_ s !! i <> Some t) /\
  (is_group (desc t (task_ring_ s)) = true -> outstanding (graph_of L s) t = 0).
Proof.
  intros [Hs He Ht Hst _ _]. split_and!.
  - unfold is_done. cbn. by rewrite Hst.
  - intros Hd i Hi. destruct (ok_subs _ _ _ _ (s_graph _ _ _ _ _ Hs) Hd i t Hi) as (_ & _ & Hr & _).
    cbn in Hr. congruence.
  - intros Hg. destruct (ok_group _ _ _ _ (s_graph _ _ _ _ _ Hs) t Ht Hg) as (_ & _ & Hgo).
    unfold group_ok in Hgo. cbn [graph_of node] in Hgo. rewrite Hst in Hgo. apply Hgo.
Qed.

(** A task without sub-tasks to wait for completes on the spot. *)
Lemma wp_complete_now L t fanin s :
  registered L t fanin s ->
  wp op_fault (let! s := upd_desc t (set_desc_status COMPLETED) s in propagate t s) (inv L).
Proof.
  intros Hrg. pose proof (registered_dispatchable _ _ _ _ Hrg) as (Hd & Hsub & Hout).
  pose proof Hrg as [Hs He Ht Hst _ _]. eapply wp_faults; [|exact sched_op_fault].
  eapply wp_mono; [eapply (wp_complete propagate _ (wp_propagate (S (pending s))) L t s (Building t)); eauto|].
  intros s'. by apply inv_after.
Qed.

Lemma wp_run_plain L t fanin s :
  registered L t fanin s -> is_group (desc t (task_ring_ s)) = false ->
  wp sched_fault (upd_desc t (set_desc_status RUNNING) s) (fun s' => after L [] [] Idle s s' /\ live t (task_ring_ s') /\
    is_group (desc t (task_ring_ s')) = false /\ sub_dispatch_to_group_ s' = sub_dispatch_to_group_ s /\
    status (desc t (task_ring_ s')) = RUNNING).
Proof.
  intros Hrg Hg. pose proof (registered_dispatchable _ _ _ _ Hrg) as (Hd & Hsub & _).
  pose proof Hrg as [Hs He Ht Hst _ _].
  eapply wp_upd_desc; [done|done|by unfold advances; cbn| |].
  { eapply (upd_status_ok t RUNNING _ [] [] (Building t) Idle); [apply Hs|done|by rewrite Hd|done| | | |].
    - cbn. congruence.
    - intros u Hu. by apply group_ok_phase; [|congruence].
    - cbn. congruence.
    - done. }
  intros Hs1 Hf1. split; [by split|]. split; [by eapply frame_live_fwd|].
  rewrite desc_updated_state by (done || apply Hs). rewrite decide_True by done. done.
Qed.

Lemma submit_task_inv L target kernel params s :
  inv L s -> has_space (task_ring_ s) = true -> fresh_reads params s -> map_room params s ->
  wp op_fault (submit_task target kernel params [] s) (inv (enlist (current_index_ (task_ring_ s)) L)).
Proof.
  intros Hi Hsp Hfr Hmr. unfold submit_task, reserve_task_slot. rewrite Hsp. simpl negb. bind_simpl.
  eapply wp_step; [by apply (open_task_building L)|].
  intros [s1 t] (Hb & -> & Htm & Hdisp & Hg & Hdeps & Hold).
  assert (Hfr1 : fresh_reads params s1).
  { intros p r Hp Hr Hl. rewrite Htm in Hl. rewrite Hold by (by eapply live_binding_live; [apply Hi|]).
    by apply (Hfr p). }
  apply (wp_link_register L _ params s1 (fun '(s, fanin) => _)); [done|done| |done|].
  { unfold map_room in *. by rewrite Htm. }
  intros fanin s2 Hrg Hlf. eapply wp_step.
  { eapply wp_faults; [|exact sched_op_fault]. apply (wp_run_plain _ _ fanin s2 Hrg).
    destruct (lf_group _ _ Hlf (current_index_ (task_ring_ s))) as [-> _]. done. }
  intros s3 ([Hs3 Hf3] & Ht3 & Hg3 & Hsub3 & Hst3).
  assert (Hinv3 : inv (enlist (current_index_ (task_ring_ s)) L) s3).
  { apply (inv_after _ s2); [apply Hrg|by split]. }
  destruct (dispatcher_ s3) as [d|] eqn:Hd3.
  - unfold dispatcher_dispatch, dispatcher_dispatch_with. set (s4 := s3 <| dispatched := _ |>).
    assert (Hinv4 : inv (enlist (current_index_ (task_ring_ s)) L) s4).
    { destruct Hinv3 as [Hs He]. split; [by eapply sched_ok_core; [|exact Hs]; unfold same_core; split_and!|].
      destruct He. by constructor. }
    destruct d; [|done]. unfold completion_callback_with. cbn [result_status result_task_id].
    apply (on_task_complete_inv _ _ s4); [done|]. right. split_and!; try done.
    cbn [sub_dispatch_to_group_ s4 setter set_dispatched].
    destruct (sub_dispatch_to_group_ s3 !! _) as [g|] eqn:Hx; [|done].
    assert (Hdir : direct (graph_of (enlist (current_index_ (task_ring_ s)) L) s3) = false) by (cbn; by rewrite Hd3).
    destruct (ok_subs _ _ _ _ (s_graph _ _ _ _ _ Hs3) Hdir _ _ Hx) as (_ & _ & _ & ?).
    pose proof (wf_alive _ (mem_ring _ (s_mem _ _ _ _ _ Hs3))). unfold live in Ht3. lia.
  - set (s4 := if dispatch_fn_ s3 then _ else _).
    assert (Hs4 : sched_ok (enlist (current_index_ (task_ring_ s)) L) [] [] Idle s4 /\
      env_ok (enlist (current_index_ (task_ring_ s)) L) s4 /\ task_ring_ s4 = task_ring_ s3 /\
      dispatcher_ s4 = None).
    { destruct Hinv3 as [Hs He]. subst s4. destruct (dispatch_fn_ s3); [|done]. split_and!; try done.
      - by eapply sched_ok_core; [|exact Hs]; unfold same_core; split_and!.
      - destruct He. by constructor. }
    destruct Hs4 as (Hs4 & He4 & Hr4 & Hd4). eapply wp_faults; [|exact sched_op_fault].
    eapply wp_mono; [eapply (wp_complete propagate _ (wp_propagate (S (pending s4))) _ _ s4 Idle); eauto|].
    + by rewrite Hr4.
    + unfold is_done. cbn. by rewrite Hr4, Hst3.
    + rewrite Hr4. congruence.
    + cbn. by rewrite Hd4.
    + intros s5. by apply inv_after.
Qed.

Definition group_fields (n : Z) (d : LinquTaskDescriptor) : LinquTaskDescriptor :=
  d <| is_group := true |> <| group_size := n |> <| sub_complete_count := 0 |>.

Lemma building_group_fields L t n s :
  building L t s -> is_group (desc t (task_ring_ s)) = false -> 0 <= n < 2 ^ 32 ->
  building L t (updated_state t (group_fields n) s) /\
  is_group (desc t (task_ring_ (updated_state t (group_fields n) s))) = true /\
  group_size (desc t (task_ring_ (updated_state t (group_fields n) s))) = n.
Proof.
  intros [Hs He Hhi Ht Hst Hrf Hsc] Hg Hn. pose proof (s_mem _ _ _ _ _ Hs) as Hm.
  assert (Hdt : desc t (task_ring_ (updated_state t (group_fields n) s)) = group_fields n (desc t (task_ring_ s)))
    by (rewrite desc_updated_state by done; by rewrite decide_True).
  split; [|by rewrite Hdt]. constructor; try done; try (by rewrite Hdt).
  - eapply sched_ok_updated; [exact Hs|done|done|]. by apply group_fields_ok; [apply Hs|..].
  - destruct He as [? ? ? ? ? ? Hend ?]. constructor; try done. intros u Hu.
    rewrite desc_updated_state by done. change (heap_ring_ (updated_state t (group_fields n) s)) with (heap_ring_ s).
    case_decide as E; [subst u; cbn; by apply Hend|by apply Hend].
Qed.

(** The three ends of [submit_task_group]: nothing to run, everything ready,
    or the group waits for its producers. *)
Lemma group_start_inv L t fanin kernel params subs s :
  registered L t fanin s -> is_group (desc t (task_ring_ s)) = true ->
  group_size (desc t (task_ring_ s)) = zlength subs -> fanin = 0 ->
  wp op_fault (let! s := upd_desc t (set_desc_status RUNNING) s in
               dispatch_group_sub_tasks t kernel params subs s) (inv L).
Proof.
  intros Hrg Hg Hgs ->. pose proof (registered_dispatchable _ _ _ _ Hrg) as (Hd & Hsub & Hout).
  pose proof Hrg as [Hs He Ht Hst _ Hdeps]. specialize (Hout Hg).
  assert (Hnil : deps (graph_of L s) t = []) by (unfold zlength in Hdeps; destruct (deps _ t); [done|simpl in Hdeps; lia]).
  destruct (ok_group _ _ _ _ (s_graph _ _ _ _ _ Hs) t Ht Hg) as (_ & Hgr & Hgo).
  unfold group_ok in Hgo. cbn [graph_of node] in Hgo, Hgr. rewrite Hst in Hgo. destruct Hgo as (_ & Hsc & _).
  eapply wp_faults; [|exact sched_op_fault]. apply wp_bind.
  eapply (wp_upd_desc _ _ _ _ (Building t) [] [] (Dispatching t (zlength subs))); [done|done|by unfold advances; cbn| |].
  { eapply (upd_status_ok t RUNNING _ [] [] (Building t)); [apply Hs|done|by rewrite Hd|done| | | |done].
    - intros _. unfold group_ok. rewrite node_upd_eq. cbn [status set_desc_status setter set_status undispatched].
      rewrite decide_True by done. change (outstanding (upd t (set_desc_status RUNNING) (graph_of L s)) t)
        with (outstanding (graph_of L s) t). cbn [graph_of node]. cbn. rewrite Hgs. lia.
    - intros u Hu. apply group_ok_phase; [cbn; by rewrite decide_False|congruence].
    - intros _ _ _ _ p. rewrite Hnil. by intros ?%not_elem_of_nil. }
  intros Hs1 Hf1. set (s1 := updated_state t (set_desc_status RUNNING) s) in *.
  destruct (fr_desc _ _ Hf1 t Ht) as (_ & _ & _ & Hg1 & Hgs1 & _).
  unfold dispatch_group_sub_tasks. eapply wp_mono.
  { apply (wp_dispatch_group propagate (S (pending s1)) (wp_propagate _) L); [exact Hs1|by eapply frame_live_fwd|congruence| |lia].
    rewrite Hgs1, <- Hgs. by apply u32_id. }
  intros s2 [Hs2 Hf2]. apply (inv_after _ s); [done|]. split; [done|by transitivity s1].
Qed.

Lemma group_park_inv L t fanin sp s :
  registered L t fanin s -> is_group (desc t (task_ring_ s)) = true ->
  zlength (spec_sub_tasks sp) = group_size (desc t (task_ring_ s)) ->
  length (private_params_storage sp) = length (spec_sub_tasks sp) ->
  wp op_fault (let! s := upd_desc t (set_desc_status PENDING) s in
               Ok (s <| pending_group_specs_ := <[t := sp]> (pending_group_specs_ s) |>)) (inv L).
Proof.
  intros Hrg Hg Hgs Hlen. pose proof Hrg as [Hs He Ht Hst Hfan Hdeps].
  rewrite upd_desc_ring by apply Hs. apply wp_ret.
  assert (Hsame : updated_state t (set_desc_status PENDING) s = s).
  { unfold updated_state, updated.
    assert (set_desc_status PENDING (desc t (task_ring_ s)) = desc t (task_ring_ s)) as ->
      by (unfold set_desc_status; rewrite <- Hst; by destruct (desc t (task_ring_ s))).
    assert (zinsert (slot_of t (task_ring_ s)) (desc t (task_ring_ s)) (descriptors_ (task_ring_ s))
      = descriptors_ (task_ring_ s)) as ->.
    { apply list_eq_zlookup. intros i. destruct (decide (slot_of t (task_ring_ s) = i)) as [<-|E].
      - rewrite zlookup_zinsert_eq by (apply slot_range, Hs). symmetry. apply lookup_desc, Hs.
      - by rewrite zlookup_zinsert_ne. }
    destruct s as [? ? [] ? ? ? ? ? ? ? ? ? ? ? ? ? ? ? ? ? ? ? ? ? ? ?]. done. }
  rewrite Hsame. split.
  - split; [by destruct Hs as [[] _]|]. apply (park_ok t sp (graph_of L s)); try done; [apply Hs|].
    cbn [graph_of node]. by rewrite Hfan.
  - destruct He. by constructor.
Qed.

Lemma submit_task_group_inv L kernel params subs s :
  inv L s -> has_space (task_ring_ s) = true -> fresh_reads params s -> map_room params s ->
  zlength subs < 2 ^ 31 ->
  wp op_fault (submit_task_group kernel params subs [] s) (inv (enlist (current_index_ (task_ring_ s)) L)).
Proof.
  intros Hi Hsp Hfr Hmr Hlen. unfold submit_task_group, reserve_task_slot. rewrite Hsp. simpl negb. bind_simpl.
  eapply wp_step; [by apply (open_task_building L)|].
  intros [s0 t] (Hb0 & -> & Htm & Hdisp & Hg0 & Hdeps & Hold). set (t := current_index_ (task_ring_ s)) in *.
  pose proof (zlength_nonneg subs) as Hn0.
  assert (Hu : u32 (zlength subs) = zlength subs) by (apply u32_id; unfold_ints; lia).
  rewrite Hu, upd_desc_ring by apply Hb0. bind_simpl. change (fun d : LinquTaskDescriptor => _) with (group_fields (zlength subs)).
  destruct (building_group_fields L t (zlength subs) s0 Hb0 Hg0 ltac:(lia)) as (Hb & Hg & Hgs).
  set (s1 := updated_state t (group_fields (zlength subs)) s0) in *.
  assert (Hst1 : forall u, live u (task_ring_ s) -> status (desc u (task_ring_ s1)) = status (desc u (task_ring_ s))).
  { intros u Hu'. unfold s1. cbn. rewrite desc_updated_any by apply Hb0. rewrite <- Hold by done. by case_decide. }
  assert (Hfr1 : fresh_reads params s1).
  { intros p r Hp Hr Hl. change (tensor_map_ s1) with (tensor_map_ s0) in Hl. rewrite Htm in Hl.
    rewrite Hst1 by (by eapply live_binding_live; [apply Hi|]). by apply (Hfr p). }
  assert (Hdeps1 : deps (graph_of L s1) t = []).
  { rewrite <- Hdeps. cbn [graph_of deps]. change (dep_pool_ s1) with (dep_pool_ s0). f_equal.
    pose proof (b_live _ _ _ Hb0). pose proof (s_mem _ _ _ _ _ (b_sched _ _ _ Hb0)).
    unfold s1. rewrite desc_updated_state by done. by rewrite decide_True. }
  apply (wp_link_register L _ params s1 (fun '(s, fanin) => _)); [done|done| |done|].
  { unfold map_room in *. change (tensor_map_ s1) with (tensor_map_ s0). by rewrite Htm. }
  intros fanin s2 Hrg Hlf. destruct (lf_group _ _ Hlf t) as [Hg2 Hgs2]. rewrite Hg in Hg2. rewrite Hgs in Hgs2.
  destruct (Z.eqb_spec (zlength subs) 0); [by eapply wp_complete_now|].
  destruct (Z.eqb_spec fanin 0) as [->|?]; [by eapply group_start_inv|].
  eapply group_park_inv; try done. simpl. by rewrite length_map.
Qed.

(** ** Tensors *)

(** [alloc_tensor] without waiting. *)
Lemma alloc_tensor_inv L size s :
  inv L s -> no_wrap (heap_ring_ s) -> 0 <= size < 2 ^ 64 ->
  (0 < size -> fits size (heap_ring_ s) = true) ->
  exists s', alloc_tensor size [] s = Ok (s', next_tensor_handle_ s) /\ inv L s'.
Proof.
  intros [Hs He] Hnw Hsz Hfit. unfold alloc_tensor.
  assert (Hcore : forall s', same_core s s' -> tensor_map_ s' = tensor_map_ s -> scope_stack_ s' = scope_stack_ s ->
    scheduler_mu_ s' = scheduler_mu_ s -> LinquHeapRing.wf (heap_ring_ s') ->
    LinquHeapRing.top_ (heap_ring_ s) <= LinquHeapRing.top_ (heap_ring_ s') -> inv L s').
  { intros s' Hc Hm Hsc Hmu Hw Htop. pose proof Hc as (Hr & _). split; [by eapply sched_ok_core|].
    destruct He as [? ? ? ? ? ? Hend ?]. constructor; rewrite ?Hm, ?Hsc, ?Hmu, ?Hr; try done.
    intros t Ht. specialize (Hend t Ht). lia. }
  pose proof (env_heap _ _ He) as Hw.
  destruct (Z.ltb_spec 0 size) as [Hpos|Hz].
  - cbn [heap_ring_ setter set_next_tensor_handle_].
    destruct (LinquHeapRing.try_alloc size (heap_ring_ s)) as [h o] eqn:Ha.
    assert (Hw' : LinquHeapRing.wf h) by (by eapply wf_try_alloc).
    rewrite try_alloc_eq, (Hfit Hpos) in Ha by done. injection Ha as <- <-. bind_simpl.
    pose proof (wf_cap_nonneg _ Hw). pose proof (proj1 (fits_spec _ _) (Hfit Hpos)) as [? _].
    pose proof (padding_range size (heap_ring_ s) ltac:(lia)) as Hpd.
    eexists. split; [reflexivity|]. destruct (_ <? _); apply Hcore; try done; try (unfold same_core; by split_and!); cbn; lia.
  - eexists. split; [reflexivity|]. apply Hcore; try done; try (unfold same_core; by split_and!); cbn; lia.
Qed.

(** ** The orchestrator as a transition system *)

Record config_ok (cfg : LinquOrchConfig_Internal) : Prop := {
  cfg_window : is_pow2 (task_ring_window cfg) = true;
  cfg_window_small : task_ring_window cfg * MAX_SCOPE_DEPTH < 2 ^ 31;
  cfg_heap : 0 <= heap_ring_capacity cfg;
  cfg_pool : 0 < dep_pool_capacity cfg < 2 ^ 31 - 1;
  cfg_buckets : is_pow2 (tensormap_buckets cfg) = true /\ tensormap_buckets cfg < 2 ^ 31;
  cfg_map : 0 < tensormap_pool cfg < 2 ^ 31;
}.

Lemma init_inv level coord cfg d :
  config_ok cfg -> exists s, init level coord cfg new_state = Ok s /\ inv [] (set_dispatcher d s).
Proof.
  intros [Hw Hws Hh Hp [Hb Hbs] Hm]. unfold init.
  destruct (init_ok (task_ring_window cfg) (task_ring_ new_state) Hw) as (ring & -> & Hring & Hrw & Hci & Hla & Hd).
  pose proof (is_pow2_pos _ Hw) as Hwp. unfold MAX_SCOPE_DEPTH in *. bind_simpl.
  destruct (LinquDepListPool.wf_init_pool (dep_pool_capacity cfg) (dep_pool_ new_state) Hp) as (pool & -> & Hpool & _). bind_simpl.
  destruct (LinquTensorMap.init (tensormap_buckets cfg) (tensormap_pool cfg) (tensor_map_ new_state)) as [m|] eqn:Em.
  2:{ unfold LinquTensorMap.init in Em. unfold is_pow2 in Hb. by rewrite Hb in Em. }
  bind_simpl. eexists. split; [reflexivity|]. specialize (Hring ltac:(lia)).
  assert (Hemp : forall t, ~ live t ring) by (unfold live; rewrite Hci, Hla; lia).
  split.
  - split; [constructor; cbn; try done; intros t Ht; by destruct (Hemp t)|].
    constructor; unfold alive; cbn; try (intros t; intros; exfalso; by apply (Hemp t)).
    + rewrite Hci, Hla. done.
    + split; [constructor|]. intros t Ht. by apply not_elem_of_nil in Ht.
    + intros _ i t. by rewrite lookup_empty.
    + done.
  - constructor; cbn; try done.
    + apply repr_init; lia.
    + by eapply LinquTensorMap.wf_init_map.
    + eapply unwrapped_init; [exact Em|lia].
    + unfold LinquTensorMap.init in Em. inv_ok. cbn. by rewrite Hla.
    + intros h t Hlb. by apply (init_no_binding _ _ _ h t Em) in Hlb.
    + by apply LinquHeapRing.wf_init_heap.
    + intros t Ht. by destruct (Hemp t).
Qed.

Inductive op :=
  | OpSubmit (target : LinquCoordinate_C) (kernel : option string) (params : list LinquParam)
  | OpSubmitGroup (kernel : option string) (params : list LinquParam) (subs : list LinquSubTaskSpec)
  | OpComplete (t : Z)
  | OpScopeBegin
  | OpScopeEnd
  | OpAllocTensor (size : Z)
  | OpFreeTensor (h : Z)
  | OpAdvance
  | OpDone
  | OpSnapshot (label : string) (now_us : Z).

Definition exec (o : op) (s : LinquOrchestratorState) : outcome LinquOrchestratorState :=
  match o with
  | OpSubmit target kernel params => submit_task target kernel params [] s
  | OpSubmitGroup kernel params subs => submit_task_group kernel params subs [] s
  | OpComplete t => on_task_complete t s
  | OpScopeBegin => scope_begin s
  | OpScopeEnd => scope_end s
  | OpAllocTensor size => let! (s, _) := alloc_tensor size [] s in Ok s
  | OpFreeTensor h => Ok (free_tensor h s)
  | OpAdvance => try_advance_ring_pointers s
  | OpDone => Ok (orchestration_done s)
  | OpSnapshot label now_us => Ok (take_snapshot label now_us s)
  end.

(** What the caller must respect.  A full window or heap is waited for by
    [OpAdvance] and [OpComplete] steps, as the spin loops do ([wait_steps]). *)
Definition permitted (o : op) (s : LinquOrchestratorState) : Prop :=
  match o with
  | OpSubmit _ _ params => has_space (task_ring_ s) = true /\ fresh_reads params s /\ map_room params s
  | OpSubmitGroup _ params subs =>
      has_space (task_ring_ s) = true /\ fresh_reads params s /\ map_room params s /\ zlength subs < 2 ^ 31
  | OpComplete t => reportable t s
  | OpAllocTensor size => no_wrap (heap_ring_ s) /\ 0 <= size < 2 ^ 64 /\
      (0 < size -> fits size (heap_ring_ s) = true)
  | _ => True
  end.

Definition orch_step (s s' : LinquOrchestratorState) : Prop :=
  exists o, permitted o s /\ exec o s = Ok s'.

Definition reachable (cfg : LinquOrchConfig_Internal) (d : option Dispatcher) (s : LinquOrchestratorState) : Prop :=
  exists level coord s0, init level coord cfg new_state = Ok s0 /\ rtc orch_step (set_dispatcher d s0) s.

Lemma exec_inv o L s :
  inv L s -> permitted o s -> wp op_fault (exec o s) (fun s' => exists L', inv L' s').
Proof.
  intros Hi Hp. destruct o; simpl in *.
  - destruct Hp as (? & ? & ?). eapply wp_mono; [by apply (submit_task_inv L)|eauto].
  - destruct Hp as (? & ? & ? & ?). eapply wp_mono; [by apply (submit_task_group_inv L)|eauto].
  - eapply wp_mono; [by apply (on_task_complete_inv L)|eauto].
  - eapply wp_mono; [by apply scope_begin_inv|eauto].
  - destruct L as [|l L]; [rewrite scope_end_none by done; by left|].
    eapply wp_mono; [by apply (scope_end_inv l L)|eauto].
  - destruct Hp as (? & ? & ?). destruct (alloc_tensor_inv L size s) as (s' & -> & ?); [done..|]. simpl. eauto.
  - exists L. destruct Hi as [[Hm Hg] He]. split; [split; [by destruct Hm|exact Hg]|]. destruct He; by constructor.
  - destruct (try_advance_ok L s Hi) as (c & s' & -> & ? & _). simpl. eauto.
  - exists L. destruct Hi as [[Hm Hg] He]. split; [split; [by destruct Hm|exact Hg]|]. destruct He; by constructor.
  - exists L. destruct Hi as [[Hm Hg] He]. split; [split; [by destruct Hm|exact Hg]|]. destruct He; by constructor.
Qed.

Lemma reachable_inv cfg d s : config_ok cfg -> reachable cfg d s -> exists L, inv L s.
Proof.
  intros Hcfg (level & coord & s0 & Hi & Hr).
  destruct (init_inv level coord cfg d Hcfg) as (s1 & Hi1 & Hinv). rewrite Hi in Hi1. injection Hi1 as <-.
  apply (rtc_invariant orch_step (fun s => exists L, inv L s) _ _) with (2 := Hr); [|by exists []].
  intros x y [L HL] (o & Hp & He). pose proof (exec_inv o L x HL Hp) as Hw. by rewrite He in Hw.
Qed.

(** ** Waiting for space *)

(** With no completion arriving, waiting only retries the retirement. *)
Lemma wait_stuck L n s :
  inv L s -> has_space (task_ring_ s) = false ->
  status (desc (LinquTaskRing.last_task_alive_ (task_ring_ s)) (task_ring_ s)) <> CONSUMED ->
  wait_task_space n [] s = Fault AssertFailed.
Proof.
  revert s. induction n as [|n IH]; intros s Hi Hsp Hst; cbn [wait_task_space]; rewrite Hsp;
    destruct (try_advance_ok L s Hi) as (c & s' & -> & Hi' & Hret & Hc & Hcon & Hstop); bind_simpl.
  all: assert (Hcl : c = LinquTaskRing.last_task_alive_ (task_ring_ s))
    by (destruct (decide (c = LinquTaskRing.last_task_alive_ (task_ring_ s))) as [?|?]; [done|destruct Hst; apply Hcon; lia]).
  all: assert (Hsp' : has_space (task_ring_ s') = false)
    by (revert Hsp; unfold has_space, active_count; rewrite (ret_alive _ _ _ Hret), (ret_current _ _ _ Hret), (ret_window _ _ _ Hret), Hcl; done).
  all: rewrite Hsp'; cbn [hd deliver]; bind_simpl.
  - done.
  - cbn [tl]. apply IH; [done|done|]. rewrite (ret_alive _ _ _ Hret), (ret_desc _ _ _ Hret). by rewrite Hcl.
Qed.

Lemma wait_retires L n s :
  inv L s -> has_space (task_ring_ s) = false ->
  status (desc (LinquTaskRing.last_task_alive_ (task_ring_ s)) (task_ring_ s)) = CONSUMED ->
  exists s', wait_task_space n [] s = Ok s' /\ inv L s' /\ has_space (task_ring_ s') = true.
Proof.
  intros Hi Hsp Hst. pose proof (mem_ring _ (s_mem _ _ _ _ _ (inv_sched _ _ Hi))) as Hr.
  destruct (try_advance_ok L s Hi) as (c & s' & Ha & Hi' & Hret & Hc & Hcon & Hstop).
  assert (Hlt : LinquTaskRing.last_task_alive_ (task_ring_ s) < c).
  { destruct (decide (c = LinquTaskRing.last_task_alive_ (task_ring_ s))) as [E|?]; [|lia]. exfalso.
    apply Hstop; [|by rewrite E]. pose proof (is_pow2_pos _ (LinquTaskRing.wf_pow2 _ Hr)).
    unfold has_space, active_count in Hsp. apply Z.ltb_ge in Hsp. lia. }
  assert (Hsp' : has_space (task_ring_ s') = true).
  { unfold has_space, active_count. rewrite (ret_alive _ _ _ Hret), (ret_current _ _ _ Hret), (ret_window _ _ _ Hret).
    pose proof (wf_window _ Hr). apply Z.ltb_lt. lia. }
  exists s'. split; [|done]. destruct n; cbn [wait_task_space]; rewrite Hsp, Ha; bind_simpl; by rewrite Hsp'.
Qed.

Lemma inv_block_count L n s : inv L s -> inv L (s <| task_block_count_ := n |>).
Proof. intros [[Hm Hg] He]. split; [split; [by destruct Hm|exact Hg]|]. destruct He; by constructor. Qed.

(** ** Checking a run *)

(** A test that implies [permitted]: no live task is consumed, or nothing is read. *)
Definition no_consumed (s : LinquOrchestratorState) : bool :=
  forallb (fun t => negb (status_eqb (status (desc t (task_ring_ s))) CONSUMED)) (window_ids s).

Definition params_ok (params : list LinquParam) (s : LinquOrchestratorState) : bool :=
  has_space (task_ring_ s) && (no_consumed s || forallb (fun p => negb (reads p)) params) &&
  (next_entry_ (tensor_map_ s) + writes_count params <=? pool_size_ (tensor_map_ s)).

Definition permittedb (o : op) (s : LinquOrchestratorState) : bool :=
  match o with
  | OpSubmit _ _ params => params_ok params s
  | OpSubmitGroup _ params subs => params_ok params s && (zlength subs <? 2 ^ 31)
  | OpComplete t =>
      match sub_dispatch_to_group_ s !! t with
      | Some _ => if dispatcher_ s then true else false
      | None => (LinquTaskRing.last_task_alive_ (task_ring_ s) <=? t) && (t <? current_index_ (task_ring_ s)) &&
          negb (is_group (desc t (task_ring_ s)))
      end
  | OpAllocTensor size =>
      (LinquHeapRing.top_ (heap_ring_ s) + 2 * LinquHeapRing.capacity_ (heap_ring_ s) <? 2 ^ 64) &&
      (0 <=? size) && (size <? 2 ^ 64) && ((size =? 0) || fits size (heap_ring_ s))
  | _ => true
  end.

Lemma params_ok_sound L params s :
  inv L s -> params_ok params s = true ->
  has_space (task_ring_ s) = true /\ fresh_reads params s /\ map_room params s.
Proof.
  intros Hi. unfold params_ok. rewrite !andb_true_iff, orb_true_iff, Z.leb_le. intros [[Hs Hc] Hm].
  split_and!; try done. intros p r Hp Hr Hl Hst. destruct Hc as [Hc|Hc].
  - pose proof (live_binding_live L s (handle p) r (inv_env _ _ Hi) Hl) as Hlive.
    apply forallb_forall with (x := r) in Hc; [|by apply list_elem_of_In, window_live].
    unfold status_eqb in Hc. by rewrite bool_decide_eq_true_2 in Hc.
  - apply forallb_forall with (x := p) in Hc; [|by apply list_elem_of_In]. by rewrite Hr in Hc.
Qed.

Lemma permittedb_sound L o s : inv L s -> permittedb o s = true -> permitted o s.
Proof.
  intros Hi. destruct o; simpl; try done.
  - by apply (params_ok_sound L).
  - rewrite andb_true_iff, Z.ltb_lt. intros [Hp ?].
    destruct (params_ok_sound L params s Hi Hp) as (? & ? & ?). done.
  - unfold reportable. destruct (sub_dispatch_to_group_ s !! t); intros Hb.
    + left. split; [by destruct (dispatcher_ s)|by eexists].
    + right. rewrite !andb_true_iff, Z.leb_le, Z.ltb_lt, negb_true_iff in Hb. unfold live. tauto.
  - rewrite !andb_true_iff, Z.ltb_lt, Z.leb_le, Z.ltb_lt, orb_true_iff, Z.eqb_eq. unfold no_wrap.
    intros [[[? ?] ?] Hor]. split; [lia|]. split; [lia|]. intros. destruct Hor; [lia|done].
Qed.

Fixpoint run_checked (ops : list op) (s : LinquOrchestratorState) : option LinquOrchestratorState :=
  match ops with
  | [] => Some s
  | o :: ops => if permittedb o s then match exec o s with Ok s' => run_checked ops s' | Fault _ => None end else None
  end.

Definition small_config : LinquOrchConfig_Internal := mkOrchConfig 4 64 32 4 16.

Lemma small_config_ok : config_ok small_config.
Proof.
  constructor; [reflexivity|reflexivity|vm_compute; congruence|split; reflexivity|split; reflexivity|split; reflexivity].
Qed.

Definition run_from_init (d : option Dispatcher) (ops : list op) : option LinquOrchestratorState :=
  match init HOST zero_coord small_config new_state with
  | Ok s => run_checked ops (set_dispatcher d s)
  | Fault _ => None
  end.

Lemma run_checked_reachable d ops s : run_from_init d ops = Some s -> reachable small_config d s.
Proof.
  unfold run_from_init. destruct (init_inv HOST zero_coord small_config d small_config_ok) as (s0 & Hi & Hinv).
  rewrite Hi. intros Hrun. exists HOST, zero_coord, s0. split; [done|].
  assert (Hex : exists L, inv L (set_dispatcher d s0)) by (by exists []). clear Hinv Hi.
  revert Hrun Hex. generalize (set_dispatcher d s0). induction ops as [|o ops IH]; intros x Hrun [L HL]; simpl in Hrun.
  - injection Hrun as <-. apply rtc_refl.
  - destruct (permittedb o x) eqn:Hp; [|done]. destruct (exec o x) as [y|] eqn:He; [|done].
    pose proof (permittedb_sound L o x HL Hp) as Hper. apply rtc_l with y; [by exists o|].
    apply IH; [done|]. pose proof (exec_inv o L x HL Hper) as Hw. by rewrite He in Hw.
Qed.

(** ** What the orchestrator promises *)


Definition c_zero : LinquCoordinate_C := mkCoord_C 0 0 0 0 0 0 0.
Definition submit (params : list LinquParam) : op := OpSubmit c_zero None params.
Definition one_sub : LinquSubTaskSpec := mkSubTaskSpec c_zero None [].


(** The consumers recorded for a task. *)
Definition consumers (t : Z) (s : LinquOrchestratorState) : list Z :=
  chain (dep_pool_ s) (fanout_list_head (desc t (task_ring_ s))).
Definition producers (t : Z) (s : LinquOrchestratorState) : list Z :=
  chain (dep_pool_ s) (dep_list_head (desc t (task_ring_ s))).
Definition finished (t : Z) (s : LinquOrchestratorState) : Prop :=
  status (desc t (task_ring_ s)) = COMPLETED \/ status (desc t (task_ring_ s)) = CONSUMED.

Lemma is_done_finished L s t : is_done (graph_of L s) t = true <-> finished t s.
Proof. unfold is_done, finished. cbn. destruct (status _); simpl; split; intros H; try done; try (by left); try (by right); by destruct H. Qed.


(** A task consumed behind one that still runs. *)
Definition consumed_run : list op :=
  [OpScopeBegin; submit []; OpScopeBegin; submit [linqu_make_output 7]; submit [linqu_make_input 7];
   OpComplete 1; OpComplete 2; OpScopeEnd].


(** C14.  Retirement.  In every reachable state [try_advance_ring_pointers]
    returns; it retires exactly the longest run of [CONSUMED] tasks at the old
    end of the window, in submission order; it hides their tensors from later
    lookups and moves the heap tail to the last retired task's end, never
    backwards and never past [top_]; all descriptors stay as they are. *)
Theorem orch_retires_consumed_prefix cfg d s :
  config_ok cfg -> reachable cfg d s ->
  exists c s', try_advance_ring_pointers s = Ok s' /\ reachable cfg d s' /\
    LinquTaskRing.last_task_alive_ (task_ring_ s) <= c <= current_index_ (task_ring_ s) /\
    (forall t, LinquTaskRing.last_task_alive_ (task_ring_ s) <= t < c -> status (desc t (task_ring_ s)) = CONSUMED) /\
    (c < current_index_ (task_ring_ s) -> status (desc c (task_ring_ s)) <> CONSUMED) /\
    retired c s s' /\ tail_ (heap_ring_ s) <= tail_ (heap_ring_ s') <= LinquHeapRing.top_ (heap_ring_ s').
Proof.
  intros Hcfg Hr. destruct (reachable_inv cfg d s Hcfg Hr) as [L HL].
  destruct (try_advance_ok L s HL) as (c & s' & Ha & Hi' & Hret & Hc & Hcon & Hstop).
  exists c, s'. split_and!; try done; try lia.
  - destruct Hr as (level & coord & s0 & Hi & Hr). exists level, coord, s0. split; [done|].
    eapply rtc_r; [exact Hr|]. by exists OpAdvance.
  - rewrite (ret_tail _ _ _ Hret). destruct (_ <? c); lia.
  - apply (wf_order _ (env_heap _ _ (inv_env _ _ Hi'))).
Qed.

Lemma orch_retires_consumed_prefix_witness :
  exists s s', run_from_init (Some AsyncDispatcher) (consumed_run ++ [OpComplete 0]) = Some s /\
    try_advance_ring_pointers s = Ok s' /\ tail_ (heap_ring_ s') = 0.
Proof.
  destruct (run_from_init (Some AsyncDispatcher) (consumed_run ++ [OpComplete 0])) as [s|] eqn:E;
    [|vm_compute in E; discriminate E].
  destruct (orch_retires_consumed_prefix small_config (Some AsyncDispatcher) s small_config_ok
    (run_checked_reachable _ _ _ E)) as (c & s' & Ha & _ & _ & _ & _ & Hret & Htail).
  exists s, s'. split; [reflexivity|]. split; [exact Ha|].
  rewrite (ret_heap _ _ _ Hret) in Htail. vm_compute in E. injection E as <-. cbn in Htail. lia.
Defined.



(** C18.  Back-pressure.  With a full window and no completion arriving, a
    submission frees slots at once when the oldest task is consumed; otherwise
    it gives up in a failed assertion after its 100000 retries, without ever
    looping. *)
Theorem orch_backpressure cfg d s :
  config_ok cfg -> reachable cfg d s -> has_space (task_ring_ s) = false ->
  if status_eqb (status (desc (LinquTaskRing.last_task_alive_ (task_ring_ s)) (task_ring_ s))) CONSUMED
  then exists s', reserve_task_slot [] s = Ok s' /\ has_space (task_ring_ s') = true
  else forall target kernel params, submit_task target kernel params [] s = Fault AssertFailed.
Proof.
  intros Hcfg Hr Hsp. destruct (reachable_inv cfg d s Hcfg Hr) as [L HL].
  set (s0 := s <| task_block_count_ := u64 (task_block_count_ s + 1) |>).
  assert (HL0 : inv L s0) by (by apply inv_block_count).
  destruct (status_eqb _ CONSUMED) eqn:E.
  - apply bool_decide_eq_true in E. destruct (wait_retires L MAX_SPINS s0 HL0 Hsp E) as (s' & Hw & _ & Hs').
    exists s'. unfold reserve_task_slot. rewrite Hsp. simpl negb. by split.
  - apply bool_decide_eq_false in E. intros. unfold submit_task.
    assert (reserve_task_slot [] s = Fault AssertFailed) as ->; [|done].
    unfold reserve_task_slot. rewrite Hsp. exact (wait_stuck L MAX_SPINS s0 HL0 Hsp E).
Qed.

Lemma orch_backpressure_witness :
  exists s, run_from_init (Some AsyncDispatcher) [submit []; submit []; submit []; submit []] = Some s /\
    submit_task c_zero None [] [] s = Fault AssertFailed.
Proof.
  destruct (run_from_init (Some AsyncDispatcher) [submit []; submit []; submit []; submit []]) as [s|] eqn:E;
    [|vm_compute in E; discriminate E].
  exists s. split; [reflexivity|].
  pose proof (orch_backpressure small_config (Some AsyncDispatcher) s small_config_ok (run_checked_reachable _ _ _ E)) as H.
  vm_compute in E. injection E as <-. apply H. reflexivity.
Defined.

(** ** Where the guarantees stop *)

(** A group whose producer has already finished never starts.  In the run
    below task 0 completes, then a group that reads its output is submitted:
    the lookup still finds task 0, the group counts it in [fanin_count], and
    the producer's completion, which alone could bump [fanin_refcount], is in
    the past.  The group stays [PENDING], nothing is handed to the dispatcher,
    and no completion that can be reported changes the state. *)
Theorem orch_group_after_finished_producer_stuck :
  exists s, run_from_init (Some AsyncDispatcher)
      [submit [linqu_make_output 7]; OpComplete 0; OpSubmitGroup None [linqu_make_input 7] [one_sub]] = Some s /\
    status (desc 1 (task_ring_ s)) = PENDING /\ producers 1 s = [0] /\ finished 0 s /\
    map record_task_id (dispatched s) = [0] /\
    forall t, reportable t s -> on_task_complete t s = Ok s.
Proof.
  destruct (run_from_init (Some AsyncDispatcher)
    [submit [linqu_make_output 7]; OpComplete 0; OpSubmitGroup None [linqu_make_input 7] [one_sub]]) as [s|] eqn:E;
    [|vm_compute in E; discriminate E].
  exists s. split; [reflexivity|]. vm_compute in E. injection E as <-.
  split; [reflexivity|]. split; [reflexivity|]. split; [left; reflexivity|]. split; [reflexivity|].
  intros t [[_ [g Hg]]|(_ & [Hlo Hhi] & Hgr)]; [discriminate Hg|].
  cbn in Hlo, Hhi. assert (t = 0 \/ t = 1) as [-> | ->] by lia; [vm_compute; reflexivity|discriminate Hgr].
Qed.

(** A plain task does not wait for its producers: it is [RUNNING] and in the
    dispatcher's hands as soon as it is submitted, here while task 0, whose
    output it reads, has not finished. *)
Theorem orch_plain_task_not_held :
  exists s, run_from_init (Some AsyncDispatcher) [submit [linqu_make_output 7]; submit [linqu_make_input 7]] = Some s /\
    producers 1 s = [0] /\ ~ finished 0 s /\
    status (desc 1 (task_ring_ s)) = RUNNING /\ map record_task_id (dispatched s) = [0; 1].
Proof.
  destruct (run_from_init (Some AsyncDispatcher) [submit [linqu_make_output 7]; submit [linqu_make_input 7]]) as [s|] eqn:E;
    [|vm_compute in E; discriminate E].
  exists s. split; [reflexivity|]. vm_compute in E. injection E as <-.
  split; [reflexivity|]. split; [intros [H|H]; discriminate H|]. split; reflexivity.
Qed.

(** Operations one after the other, whether permitted or not. *)
Fixpoint run_ops (ops : list op) (s : LinquOrchestratorState) : outcome LinquOrchestratorState :=
  match ops with
  | [] => Ok s
  | o :: ops => let! s := exec o s in run_ops ops s
  end.

(** Task 2 reads the output of task 1, which is consumed but held in the window
    by task 0; then tasks 0 and 1 retire and task 5 takes task 1's slot. *)
Definition stale_edge_run : list op :=
  [OpScopeBegin; submit []; OpScopeBegin; submit [linqu_make_output 7]; OpComplete 1; OpScopeEnd;
   submit [linqu_make_input 7]; OpScopeEnd; OpComplete 0; OpAdvance;
   OpScopeBegin; submit []; submit []; submit [linqu_make_output 9]; OpComplete 2; OpComplete 5].

(** Why inputs must not come from consumed tasks.  When a task reads the
    output of a task that is consumed and not yet retired, its completion pays
    its reference to whatever task lives in the producer's slot by then: here
    task 5 is [CONSUMED] although it sits in a scope that is still open. *)
Theorem orch_stale_edge_releases_other_task :
  exists s0 s, init HOST zero_coord small_config new_state = Ok s0 /\
    run_ops stale_edge_run (set_dispatcher (Some AsyncDispatcher) s0) = Ok s /\
    live 5 (task_ring_ s) /\ status (desc 5 (task_ring_ s)) = CONSUMED /\
    repr (scope_stack_ s) [[3; 4; 5]].
Proof.
  destruct (init HOST zero_coord small_config new_state) as [s0|] eqn:E0; [|vm_compute in E0; discriminate E0].
  destruct (run_ops stale_edge_run (set_dispatcher (Some AsyncDispatcher) s0)) as [s|] eqn:E;
    [|vm_compute in E0; injection E0 as <-; vm_compute in E; discriminate E].
  exists s0, s. split; [reflexivity|]. split; [exact E|].
  vm_compute in E0. injection E0 as <-. vm_compute in E. injection E as <-.
  split; [vm_compute; split; congruence|]. split; [reflexivity|].
  constructor; cbn -[zlength]; [reflexivity|lia|reflexivity|vm_compute; split; congruence|].
  split; [lia|]. exists 0. split_and!; try reflexivity; lia.
Qed.
