(* ===== verification/KernelRuntime.v ===== *)
(** * The runtime a kernel sees: the table of operations

    Models the function table of [src/src/runtime/linqu_orchestration_api.h]
    ([LinquRuntimeOps]) and its implementation, the [op_*] functions of
    [src/src/runtime/linqu_orchestrator_state.cpp].

    The table does not use the runtime it is called with: every [op_*] finds
    the orchestrator in a variable of the thread, [hidden_state], which [init]
    sets.  So the model keeps the objects of one thread by their address, the
    variable, and the registries the objects point to ([Thread]).  A pointer is
    an address; using the address of an object that is gone, or the table of an
    object that was never initialised, is a fault.

    A kernel is code outside this source: a tree of calls ([kernel]), each
    continued with the reply.  What a call meets outside the thread is its
    [CallEnv]: the completions that arrive while it waits, the clock, and the
    file system that discovery looks at. *)

From S2P Require Import Prelude Paths Coordinate StdMap PeerRegistry FilesystemDiscovery OrchestrationApi.
From S2P Require Import RingMetrics LinquTaskRing LinquOrchestratorState OrchestratorSafety.

(** ** The objects of a thread *)

Record Object := mkObject {
  orch : LinquOrchestratorState;
  (** [rt_.ops] points to the filled table. *)
  rt_ops : bool;
  peer_registry_ : option nat;
  fs_discovery_ : option string;
}.
#[export] Instance set_orch : Setter orch := fun f o =>
  mkObject (f (orch o)) (rt_ops o) (peer_registry_ o) (fs_discovery_ o).
#[export] Instance set_rt_ops : Setter rt_ops := fun f o =>
  mkObject (orch o) (f (rt_ops o)) (peer_registry_ o) (fs_discovery_ o).
#[export] Instance set_peer_registry_ : Setter peer_registry_ := fun f o =>
  mkObject (orch o) (rt_ops o) (f (peer_registry_ o)) (fs_discovery_ o).
#[export] Instance set_fs_discovery_ : Setter fs_discovery_ := fun f o =>
  mkObject (orch o) (rt_ops o) (peer_registry_ o) (f (fs_discovery_ o)).

Record Thread := mkThread {
  objects : gmap nat Object;
  hidden_state : option nat;
  registries : gmap nat PeerRegistry;
}.
#[export] Instance set_objects : Setter objects := fun f th =>
  mkThread (f (objects th)) (hidden_state th) (registries th).
#[export] Instance set_hidden_state : Setter hidden_state := fun f th =>
  mkThread (objects th) (f (hidden_state th)) (registries th).
#[export] Instance set_registries : Setter registries := fun f th =>
  mkThread (objects th) (hidden_state th) (f (registries th)).

(** Reading through a pointer. *)
Definition deref {A} (m : gmap nat A) (p : nat) : outcome A :=
  match m !! p with Some a => Ok a | None => Fault OutOfBounds end.
Definition deref_opt {A} (m : gmap nat A) (p : option nat) : outcome A :=
  match p with Some p => deref m p | None => Fault NullPointer end.

(** [LinquOrchestratorState state;] at address [p], and the end of its life:
    the thread's variable is left as it is. *)
Definition construct (p : nat) (th : Thread) : Thread :=
  th <| objects := <[p := mkObject new_state false None None]> (objects th) |>.
Definition destroy (p : nat) (th : Thread) : Thread :=
  th <| objects := delete p (objects th) |>.

(** [init] of the object at [p]: the members, the table, the variable. *)
Definition init_object (level : Level) (coord : LinquCoordinate) (cfg : LinquOrchConfig_Internal)
    (p : nat) (th : Thread) : outcome Thread :=
  let! o := deref (objects th) p in
  let! s := init level coord cfg (orch o) in
  Ok (th <| objects := <[p := o <| orch := s |> <| rt_ops := true |>]> (objects th) |>
        <| hidden_state := Some p |>).

Definition set_peer_registry (reg : option nat) (p : nat) (th : Thread) : outcome Thread :=
  let! o := deref (objects th) p in
  Ok (th <| objects := <[p := o <| peer_registry_ := reg |>]> (objects th) |>).
Definition set_filesystem_discovery (disc : option string) (p : nat) (th : Thread) : outcome Thread :=
  let! o := deref (objects th) p in
  Ok (th <| objects := <[p := o <| fs_discovery_ := disc |>]> (objects th) |>).

(** ** The operations of the table *)

Inductive RtCall :=
  | CallSubmitTask (target : LinquCoordinate_C) (kernel_so : option string) (params : list LinquParam)
  | CallScopeBegin
  | CallScopeEnd
  | CallAllocTensor (target : LinquCoordinate_C) (size_bytes : Z)
  | CallFreeTensor (handle : Z)
  | CallDone
  | CallRegData (target : LinquCoordinate_C) (size : Z)
  | CallQueryPeers (level : Z)
  | CallSelfCoord
  | CallWaitAll
  | CallDumpSnapshot (label : option string)
  | CallLog (text : string)
  | CallGetTensorPool
  | CallSubmitTaskGroup (kernel_so : option string) (group_params : list LinquParam)
      (sub_tasks : list LinquSubTaskSpec).

(** What a call returns. *)
Definition reply (c : RtCall) : Type :=
  match c with
  | CallAllocTensor _ _ | CallRegData _ _ => Z
  | CallQueryPeers _ => list LinquCoordinate_C
  | CallSelfCoord => LinquCoordinate_C
  | CallGetTensorPool => option nat
  | _ => unit
  end.

Record CallEnv := mkCallEnv {
  (** For each sleep of a spin loop, and for [wait_all]: the completions. *)
  env_sleeps : list (list Z);
  env_wait : list Z;
  env_now : Z;
  env_tree : string -> node;
}.

(** [hidden_state(rt)->...] *)
Definition on_hidden {A} (f : LinquOrchestratorState -> outcome (LinquOrchestratorState * A))
    (th : Thread) : outcome (Thread * A) :=
  let! o := deref_opt (objects th) (hidden_state th) in
  let! (s, a) := f (orch o) in
  Ok (th <| objects := match hidden_state th with
                       | Some p => <[p := o <| orch := s |>]> (objects th)
                       | None => objects th
                       end |>, a).

(** The operations that return nothing. *)
Definition quiet (f : LinquOrchestratorState -> outcome LinquOrchestratorState)
    (s : LinquOrchestratorState) : outcome (LinquOrchestratorState * unit) :=
  let! s := f s in Ok (s, tt).

(** With both pointers set, discovery updates the registry. *)
Definition refresh (tree : string -> node) (o : Object) (th : Thread) : outcome Thread :=
  match fs_discovery_ o, peer_registry_ o with
  | Some base, Some reg =>
      let! r := deref (registries th) reg in
      let! (r, _) := discover base (tree base) r in
      Ok (th <| registries := <[reg := r]> (registries th) |>)
  | _, _ => Ok th
  end.

Definition op_query_peers (level : Z) (tree : string -> node) (th : Thread)
    : outcome (Thread * list LinquCoordinate_C) :=
  match hidden_state th with
  | None => Ok (th, [])
  | Some p =>
      let! o := deref (objects th) p in
      let! th := refresh tree o th in
      match peer_registry_ o with
      | None => Ok (th, [])
      | Some reg =>
          let! r := deref (registries th) reg in
          Ok (th, coord_to_C ∘ p_coord <$> peers_at_level level r)
      end
  end.

(** [rt->ops->...(rt, ...)] *)
Definition rt_call (rt : nat) (c : RtCall) (e : CallEnv) (th : Thread) : outcome (Thread * reply c) :=
  let! o := deref (objects th) rt in
  if negb (rt_ops o) then Fault NullPointer else
  match c return outcome (Thread * reply c) with
  | CallSubmitTask target kernel_so params =>
      on_hidden (quiet (submit_task target kernel_so params (env_sleeps e))) th
  | CallScopeBegin => on_hidden (quiet scope_begin) th
  | CallScopeEnd => on_hidden (quiet scope_end) th
  | CallAllocTensor _ size_bytes => on_hidden (alloc_tensor size_bytes (env_sleeps e)) th
  | CallFreeTensor h => on_hidden (quiet (fun s => Ok (free_tensor h s))) th
  | CallDone => on_hidden (quiet (fun s => Ok (orchestration_done s))) th
  | CallRegData _ size => Ok (th, size)
  | CallQueryPeers level => op_query_peers level (env_tree e) th
  | CallSelfCoord => on_hidden (fun s => Ok (s, self_coord s)) th
  | CallWaitAll => on_hidden (quiet (wait_all (env_wait e))) th
  | CallDumpSnapshot label =>
      on_hidden (quiet (fun s => Ok (take_snapshot (default "snapshot" label) (env_now e) s))) th
  | CallLog _ => Ok (th, tt)
  | CallGetTensorPool => Ok (th, None)
  | CallSubmitTaskGroup kernel_so group_params sub_tasks =>
      on_hidden (quiet (submit_task_group kernel_so group_params sub_tasks (env_sleeps e))) th
  end.

(** ** Kernels *)

Inductive kernel (A : Type) : Type :=
  | Ret (a : A)
  | Do (c : RtCall) (k : reply c -> kernel A).
Arguments Ret {A} a.
Arguments Do {A} c k.

Fixpoint kernel_bind {A B} (m : kernel A) (f : A -> kernel B) : kernel B :=
  match m with
  | Ret a => f a
  | Do c k => Do c (fun r => kernel_bind (k r) f)
  end.
Definition do_call (c : RtCall) : kernel (reply c) := Do c Ret.

Declare Scope kernel_scope.
Delimit Scope kernel_scope with kernel.
Notation "x <~ m ; k" := (kernel_bind m (fun x => k))
  (at level 100, m at next level, right associativity) : kernel_scope.
Notation "m ;; k" := (kernel_bind m (fun _ => k)) (at level 100, right associativity) : kernel_scope.

(** The kernel runs with the environment of its [n]-th, next, ... call. *)
Fixpoint run {A} (m : kernel A) (rt : nat) (env : nat -> CallEnv) (n : nat) (th : Thread)
    : outcome (Thread * A) :=
  match m with
  | Ret a => Ok (th, a)
  | Do c k => let! (th, r) := rt_call rt c (env n) th in run (k r) rt env (S n) th
  end.

(** [LINQU_SCOPE(rt) body]: a [LinquScopeGuard] around it. *)
Definition linqu_scope {A} (body : kernel A) : kernel A :=
  (do_call CallScopeBegin ;; a <~ body ; do_call CallScopeEnd ;; Ret a)%kernel.

(** ** Which objects a kernel can change *)

(** [th'] differs from [th] in the orchestrator at [p] and the registry it
    points to, and nowhere else. *)
Record same_but (p : nat) (o : Object) (th th' : Thread) : Prop := {
  sb_hidden : hidden_state th' = hidden_state th;
  sb_here : exists s, objects th' !! p = Some (o <| orch := s |>);
  sb_others : forall q, q <> p -> objects th' !! q = objects th !! q;
  sb_registries : forall q, peer_registry_ o <> Some q -> registries th' !! q = registries th !! q;
}.

Lemma same_but_refl p o th : objects th !! p = Some o -> same_but p o th th.
Proof. intros Ho. split; try done. exists (orch o). by destruct o. Qed.

Lemma same_but_trans p o o1 th th1 th2 :
  same_but p o th th1 -> objects th1 !! p = Some o1 -> same_but p o1 th1 th2 -> same_but p o th th2.
Proof.
  intros [H1 [s H2] H3 H4] Ho1 [K1 [s' K2] K3 K4]. rewrite H2 in Ho1. injection Ho1 as <-. split.
  - by rewrite K1.
  - exists s'. by rewrite K2.
  - intros q Hq. by rewrite K3, H3.
  - intros q Hq. by rewrite K4, H4.
Qed.

Lemma on_hidden_inv {A} (f : LinquOrchestratorState -> outcome (LinquOrchestratorState * A)) p o th th' a :
  hidden_state th = Some p -> objects th !! p = Some o -> on_hidden f th = Ok (th', a) ->
  exists s, f (orch o) = Ok (s, a) /\ th' = th <| objects := <[p := o <| orch := s |>]> (objects th) |>.
Proof.
  intros Hp Ho. unfold on_hidden, deref_opt, deref. rewrite Hp. cbn [mbind outcome_bind]. rewrite Ho.
  cbn [mbind outcome_bind]. destruct (f (orch o)) as [[s x]|]; [|done]. intros [= <- <-]. by exists s.
Qed.

Lemma on_hidden_same {A} (f : LinquOrchestratorState -> outcome (LinquOrchestratorState * A)) p o th th' a :
  hidden_state th = Some p -> objects th !! p = Some o -> on_hidden f th = Ok (th', a) -> same_but p o th th'.
Proof.
  intros Hp Ho Hf. destruct (on_hidden_inv _ _ _ _ _ _ Hp Ho Hf) as (s & _ & ->).
  split; [done| |by intros q Hq; apply lookup_insert_ne|done].
  exists s. apply lookup_insert_eq.
Qed.

Lemma query_same level tree p o th th' l :
  hidden_state th = Some p -> objects th !! p = Some o ->
  op_query_peers level tree th = Ok (th', l) -> same_but p o th th'.
Proof.
  intros Hp Ho Hq. unfold op_query_peers, deref in Hq. rewrite Hp, Ho in Hq. cbn [mbind outcome_bind] in Hq.
  apply bind_Ok in Hq as (th1 & Hr & Hq).
  assert (Hs : same_but p o th th1).
  { unfold refresh in Hr. destruct (fs_discovery_ o) as [base|]; [|injection Hr as <-; by apply same_but_refl].
    destruct (peer_registry_ o) as [reg|] eqn:Ereg; [|injection Hr as <-; by apply same_but_refl].
    apply bind_Ok in Hr as (r & _ & Hr). apply bind_Ok in Hr as ([r' n] & _ & [= <-]).
    split; [done|exists (orch o); by destruct o|done|].
    intros q Hneq. simpl. apply lookup_insert_ne. congruence. }
  destruct (peer_registry_ o); [|by injection Hq as <- <-].
  apply bind_Ok in Hq as (r & _ & Hq). by injection Hq as <- <-.
Qed.

Lemma rt_call_same rt c e p o th th' r :
  hidden_state th = Some p -> objects th !! p = Some o ->
  rt_call rt c e th = Ok (th', r) -> same_but p o th th'.
Proof.
  intros Hp Ho Hc. unfold rt_call in Hc. apply bind_Ok in Hc as (ot & _ & Hc).
  destruct (negb (rt_ops ot)); [done|].
  destruct c; try (by eapply on_hidden_same); try (by eapply query_same);
    injection Hc as <- <-; by apply same_but_refl.
Qed.

(** Only the table is taken from the runtime that a call names. *)
Definition has_table (rt : nat) (th : Thread) : Prop :=
  exists o, objects th !! rt = Some o /\ rt_ops o = true.

Lemma rt_call_any rt rt' c e th :
  has_table rt th -> has_table rt' th -> rt_call rt c e th = rt_call rt' c e th.
Proof.
  intros (o & Ho & Hops) (o' & Ho' & Hops'). unfold rt_call, deref. rewrite Ho, Ho'.
  cbn [mbind outcome_bind]. by rewrite Hops, Hops'.
Qed.

Lemma same_but_table rt p o th th' :
  objects th !! p = Some o -> same_but p o th th' -> has_table rt th -> has_table rt th'.
Proof.
  intros Ho [_ [s Hs] Hothers _] (o' & Ho' & Hops). destruct (decide (rt = p)) as [->|Hne].
  - exists (o <| orch := s |>). rewrite Ho in Ho'. by injection Ho' as <-.
  - exists o'. by rewrite Hothers.
Qed.

(** C20.  Which orchestrator a kernel drives.  Whatever a kernel does, the only
    orchestrator it changes is the one that was initialised last in its
    thread, and the only registry the one this orchestrator points to; the
    runtime its calls name has no influence.  So the runtime handed to a
    kernel is the one it drives exactly when no other orchestrator has been
    initialised in the thread since. *)
Theorem kernel_drives_hidden_state {A} (m : kernel A) rt env n th th' a p o :
  hidden_state th = Some p -> objects th !! p = Some o -> has_table rt th ->
  run m rt env n th = Ok (th', a) ->
  same_but p o th th' /\ forall rt', has_table rt' th -> run m rt' env n th = Ok (th', a).
Proof.
  revert n th o. induction m as [x|c k IH]; intros n th o Hp Ho Hrt Hr; simpl in Hr.
  - injection Hr as <- <-. split; [by apply same_but_refl|done].
  - apply bind_Ok in Hr as ([th1 r] & Hc & Hr).
    pose proof (rt_call_same _ _ _ _ _ _ _ _ Hp Ho Hc) as Hs.
    destruct (sb_here _ _ _ _ Hs) as [s Hs1].
    destruct (IH r (S n) th1 (o <| orch := s |>)) as [Hs2 Hany];
      [by rewrite (sb_hidden _ _ _ _ Hs)|done|eapply (same_but_table rt p o th); eauto|done|].
    split; [by apply (same_but_trans p o (o <| orch := s |>) th th1)|]. intros rt' Hrt'. simpl.
    rewrite (rt_call_any rt' rt) by done. rewrite Hc. cbn [mbind outcome_bind]. apply Hany.
    by apply (same_but_table rt' p o th).
Qed.

(** ** Kernels that respect the orchestrator *)

(** The operations of [OrchestratorSafety] that a call performs. *)
Definition call_ops (c : RtCall) (e : CallEnv) : list op :=
  match c with
  | CallSubmitTask target kernel_so params => [OpSubmit target kernel_so params]
  | CallScopeBegin => [OpScopeBegin]
  | CallScopeEnd => [OpScopeEnd]
  | CallAllocTensor _ size_bytes => [OpAllocTensor size_bytes]
  | CallFreeTensor h => [OpFreeTensor h]
  | CallDone => [OpDone]
  | CallWaitAll => OpComplete <$> env_wait e
  | CallDumpSnapshot label => [OpSnapshot (default "snapshot" label) (env_now e)]
  | CallSubmitTaskGroup kernel_so group_params sub_tasks => [OpSubmitGroup kernel_so group_params sub_tasks]
  | CallRegData _ _ | CallQueryPeers _ | CallSelfCoord | CallLog _ | CallGetTensorPool => []
  end.

(** Every operation is permitted in the state it is performed in. *)
Fixpoint all_permitted (ops : list op) (s : LinquOrchestratorState) : Prop :=
  match ops with
  | [] => True
  | o :: ops => permitted o s /\ forall s', exec o s = Ok s' -> all_permitted ops s'
  end.

(** The kernel respects the obligations of the orchestrator at [p] all along. *)
Fixpoint well_behaved {A} (m : kernel A) (rt p : nat) (env : nat -> CallEnv) (n : nat) (th : Thread) : Prop :=
  match m with
  | Ret _ => True
  | Do c k =>
      (forall o, objects th !! p = Some o -> all_permitted (call_ops c (env n)) (orch o)) /\
      forall th' r, rt_call rt c (env n) th = Ok (th', r) -> well_behaved (k r) rt p env (S n) th'
  end.

(** The object at [p] is alive, has its table and a registry that is alive,
    and its orchestrator is in a reachable state. *)
Record live_object (cfg : LinquOrchConfig_Internal) (d : option Dispatcher) (p : nat) (o : Object)
    (th : Thread) : Prop := {
  lo_hidden : hidden_state th = Some p;
  lo_here : objects th !! p = Some o;
  lo_reachable : reachable cfg d (orch o);
  lo_registry : forall q, peer_registry_ o = Some q -> is_Some (registries th !! q);
}.

Lemma reachable_step cfg d o s s' :
  reachable cfg d s -> permitted o s -> exec o s = Ok s' -> reachable cfg d s'.
Proof.
  intros (level & coord & s0 & Hi & Hr) Hp He. exists level, coord, s0. split; [done|].
  eapply rtc_r; [exact Hr|]. by exists o.
Qed.

Lemma permitted_exec cfg d o s :
  config_ok cfg -> reachable cfg d s -> permitted o s -> wp op_fault (exec o s) (reachable cfg d).
Proof.
  intros Hcfg Hr Hp. destruct (reachable_inv cfg d s Hcfg Hr) as [L HL].
  pose proof (exec_inv o L s HL Hp) as Hw. destruct (exec o s) as [s'|f] eqn:He; [|exact Hw].
  by apply (reachable_step cfg d o s).
Qed.

(** With space in the window or in the heap, no spin loop is entered. *)
Lemma reserve_sleeps sleeps s : has_space (task_ring_ s) = true -> reserve_task_slot sleeps s = Ok s.
Proof. intros Hs. unfold reserve_task_slot. by rewrite Hs. Qed.

Lemma alloc_sleeps sleeps size s :
  LinquHeapRing.wf (heap_ring_ s) -> permitted (OpAllocTensor size) s ->
  alloc_tensor size sleeps s = alloc_tensor size [] s.
Proof.
  intros Hwf (Hnw & Hsz & Hfit). unfold alloc_tensor. destruct (Z.ltb_spec 0 size); [|done].
  pose proof (LinquHeapRing.try_alloc_eq size (heap_ring_ s) Hwf Hnw Hsz) as E. rewrite Hfit in E by done.
  change (heap_ring_ (s <| next_tensor_handle_ := _ |>)) with (heap_ring_ s). by rewrite E.
Qed.

Lemma discover_faults base root r : wp (fun f => f = SignedOverflow) (discover base root r) (fun _ => True).
Proof.
  unfold discover. rewrite (proj1 scan_is_register_all). generalize (r, 0).
  induction (sockets base root) as [|p ps IH]; intros st; [done|]. simpl.
  assert (Ha : forall s, wp (fun f => f = SignedOverflow) (atoi s) (fun _ => True))
    by (intros s; unfold atoi; repeat case_match; simpl; done).
  apply (wp_step _ _ (fun _ => True)); [|intros; apply IH]. unfold register_socket. destruct st as [r0 n].
  eapply (wp_step _ _ (fun _ => True)).
  { unfold parse_socket_path. destruct (split_last_slash p) as [[dir fname]|]; [|done].
    destruct (sock_re_match fname); [|done]. eapply wp_step; [apply Ha|]. intros lv _.
    eapply wp_step; [|done]. generalize zero_coord. induction (coord_matches dir) as [|[x y] ms IHm]; [intros c; exact I|].
    intros c. simpl. eapply wp_step; [apply Ha|]. intros. eapply wp_step; [apply Ha|]. intros. apply IHm. }
  intros [[c lv]|] _; [|exact I]. simpl. unfold i32_add. by case_match.
Qed.

Section safety.
Context (cfg : LinquOrchConfig_Internal) (d : option Dispatcher) (Hcfg : config_ok cfg).

Definition kept (p : nat) (th : Thread) : Prop := exists o, live_object cfg d p o th.

Lemma wp_on_hidden {A} (f : LinquOrchestratorState -> outcome (LinquOrchestratorState * A)) p o th :
  live_object cfg d p o th -> wp op_fault (f (orch o)) (fun '(s, _) => reachable cfg d s) ->
  wp op_fault (on_hidden f th) (fun '(th', _) => kept p th').
Proof.
  intros [Hp Ho Hr Hreg] Hf. unfold on_hidden, deref_opt, deref. rewrite Hp. cbn [mbind outcome_bind].
  rewrite Ho. cbn [mbind outcome_bind]. eapply wp_step; [exact Hf|]. intros [s a] Hs. simpl.
  exists (o <| orch := s |>). split; [done|apply lookup_insert_eq|done|done].
Qed.

Lemma wp_quiet f s Q :
  wp op_fault (f s) Q -> wp op_fault (quiet f s) (fun '(s', _) => Q s').
Proof. intros H. unfold quiet. eapply wp_step; [exact H|]. intros s' Hs. exact Hs. Qed.

Lemma wp_query level tree p o th :
  live_object cfg d p o th -> wp op_fault (op_query_peers level tree th) (fun '(th', _) => kept p th').
Proof.
  intros Hl. pose proof Hl as [Hp Ho Hr Hreg]. unfold op_query_peers, deref. rewrite Hp, Ho.
  cbn [mbind outcome_bind].
  apply (wp_step _ _ (fun th' => live_object cfg d p o th')).
  - unfold refresh, deref. destruct (fs_discovery_ o) as [base|]; [|exact Hl].
    destruct (peer_registry_ o) as [reg|] eqn:Ereg; [|exact Hl].
    destruct (Hreg reg eq_refl) as [r Er]. rewrite Er. cbn [mbind outcome_bind].
    pose proof (discover_faults base (tree base) r) as Hd.
    destruct (discover base (tree base) r) as [[r' n]|f]; [|simpl in Hd; subst f; by right; left].
    simpl. split; [done|done|done|]. intros q Hq. simpl. rewrite Ereg in Hq. injection Hq as <-.
    rewrite lookup_insert_eq. by eexists.
  - intros th' Hl'. assert (Hk : kept p th') by (by exists o).
    pose proof (lo_registry _ _ _ _ _ Hl') as Hreg'. destruct (peer_registry_ o) as [reg|]; [|exact Hk].
    destruct (Hreg' reg eq_refl) as [r Er]. rewrite Er. exact Hk.
Qed.

Lemma wp_wait ts s :
  reachable cfg d s -> all_permitted (OpComplete <$> ts) s -> wp op_fault (wait_all ts s) (reachable cfg d).
Proof.
  intros Hr Hp. unfold wait_all. destruct (dispatcher_ s) as [[]|]; [exact Hr| |exact Hr].
  revert s Hr Hp. induction ts as [|t ts IH]; intros s Hr Hp; [exact Hr|].
  destruct Hp as [Ht Hp]. cbn [deliver].
  pose proof (permitted_exec cfg d (OpComplete t) s Hcfg Hr Ht) as Hw. cbn [exec] in Hw, Hp.
  destruct (on_task_complete t s) as [s'|f]; [|exact Hw]. apply IH; [exact Hw|by apply Hp].
Qed.

Lemma rt_call_safe rt c e p o th :
  live_object cfg d p o th -> has_table rt th -> all_permitted (call_ops c e) (orch o) ->
  wp op_fault (rt_call rt c e th) (fun '(th', _) => kept p th').
Proof.
  intros Hl (ot & Hot & Hops) Hp. unfold rt_call, deref. rewrite Hot. cbn [mbind outcome_bind].
  rewrite Hops. cbn [negb]. pose proof (lo_reachable _ _ _ _ _ Hl) as Hr.
  pose proof (fun o' => permitted_exec cfg d o' (orch o) Hcfg Hr) as He.
  assert (Hk : kept p th) by (by exists o).
  destruct c; cbn [call_ops all_permitted] in Hp; try exact Hk; try (apply (wp_query _ _ p o); exact Hl);
    apply (wp_on_hidden _ p o th Hl); try (apply wp_quiet).
  - destruct Hp as [Hp _]. specialize (He _ Hp). cbn [exec] in He. unfold submit_task in *.
    by rewrite reserve_sleeps in * by apply Hp.
  - apply (He OpScopeBegin), Hp.
  - apply (He OpScopeEnd), Hp.
  - destruct Hp as [Hp _]. specialize (He _ Hp). cbn [exec] in He.
    destruct (reachable_inv _ _ _ Hcfg Hr) as [L HL].
    rewrite alloc_sleeps; [|apply (env_heap _ _ (inv_env _ _ HL))|exact Hp].
    destruct (alloc_tensor size_bytes [] (orch o)) as [[s h]|]; exact He.
  - apply (He (OpFreeTensor handle)), Hp.
  - apply (He OpDone), Hp.
  - exact Hr.
  - by apply wp_wait.
  - apply (He (OpSnapshot _ _)), Hp.
  - destruct Hp as [Hp _]. specialize (He _ Hp). cbn [exec] in He. unfold submit_task_group in *.
    by rewrite reserve_sleeps in * by apply Hp.
Qed.

Lemma run_safe {A} (m : kernel A) rt env n p o th :
  live_object cfg d p o th -> has_table rt th -> well_behaved m rt p env n th ->
  match run m rt env n th with
  | Ok (th', _) => exists o', live_object cfg d p o' th'
  | Fault f => f = AssertFailed \/ f = SignedOverflow \/ f = SelfDeadlock
  end.
Proof.
  revert n th o. induction m as [x|c k IH]; intros n th o Hl Hrt Hw; simpl; [by exists o|].
  destruct Hw as [Hp Hw]. pose proof (rt_call_safe rt c (env n) p o th Hl Hrt (Hp o (lo_here _ _ _ _ _ Hl))) as Hc.
  destruct (rt_call rt c (env n) th) as [[th1 r]|f] eqn:Ec; [|exact Hc]. destruct Hc as [o1 Hl1].
  cbn [mbind outcome_bind]. apply (IH r (S n) th1 o1 Hl1); [|by apply Hw].
  apply (same_but_table rt p o th); [apply Hl| |exact Hrt].
  eapply rt_call_same; [apply Hl|apply Hl|exact Ec].
Qed.
(** A test that implies [well_behaved]. *)
Fixpoint all_permittedb (ops : list op) (s : LinquOrchestratorState) : bool :=
  match ops with
  | [] => true
  | o :: ops => permittedb o s && match exec o s with Ok s' => all_permittedb ops s' | Fault _ => true end
  end.
Fixpoint well_behavedb {A} (m : kernel A) (rt p : nat) (env : nat -> CallEnv) (n : nat) (th : Thread) : bool :=
  match m with
  | Ret _ => true
  | Do c k =>
      match objects th !! p with Some o => all_permittedb (call_ops c (env n)) (orch o) | None => true end &&
      match rt_call rt c (env n) th with Ok (th', r) => well_behavedb (k r) rt p env (S n) th' | Fault _ => true end
  end.

Lemma all_permittedb_sound ops s : reachable cfg d s -> all_permittedb ops s = true -> all_permitted ops s.
Proof.
  revert s. induction ops as [|o ops IH]; intros s Hr H; [done|]. simpl in H. apply andb_true_iff in H as [Ho H].
  destruct (reachable_inv cfg d s Hcfg Hr) as [L HL]. pose proof (permittedb_sound L o s HL Ho) as Hp.
  split; [exact Hp|]. intros s' He. rewrite He in H. apply IH; [by apply (reachable_step cfg d o s)|exact H].
Qed.

Lemma well_behavedb_sound {A} (m : kernel A) rt env n p o th :
  live_object cfg d p o th -> has_table rt th -> well_behavedb m rt p env n th = true ->
  well_behaved m rt p env n th.
Proof.
  revert n th o. induction m as [x|c k IH]; intros n th o Hl Hrt H; [done|].
  cbn [well_behavedb] in H. apply andb_true_iff in H as [Ho H]. rewrite (lo_here _ _ _ _ _ Hl) in Ho.
  apply all_permittedb_sound in Ho; [|apply Hl]. split.
  - intros o' Ho'. rewrite (lo_here _ _ _ _ _ Hl) in Ho'. by injection Ho' as <-.
  - intros th' r Hc. rewrite Hc in H.
    pose proof (rt_call_safe rt c (env n) p o th Hl Hrt Ho) as Hw. rewrite Hc in Hw. destruct Hw as [o' Hl'].
    apply (IH r (S n) th' o'); [exact Hl'| |exact H].
    apply (same_but_table rt p o th); [apply Hl| |exact Hrt]. eapply rt_call_same; [apply Hl..|exact Hc].
Qed.

(** C19.  A kernel cannot break the orchestrator.  Any kernel, running on a
    thread whose orchestrator is in a reachable state, that respects the
    obligations of the operations it calls: it ends in a reachable state, or
    in a failed assertion, an overflow of an [int] or a second lock of the
    scheduler mutex; it never reads outside a ring or a pool, never uses a
    dangling pointer, and no loop runs for ever. *)
Theorem kernel_safe {A} (m : kernel A) rt env n p o th :
  live_object cfg d p o th -> has_table rt th -> well_behaved m rt p env n th ->
  match run m rt env n th with
  | Ok (th', _) => exists o', live_object cfg d p o' th'
  | Fault f => f = AssertFailed \/ f = SignedOverflow \/ f = SelfDeadlock
  end.
Proof. apply run_safe. Qed.
End safety.

(** ** Two orchestrators in one thread *)

(** Orchestrators at the addresses 0 and 1, initialised in this order. *)
Definition two_orchestrators : outcome Thread :=
  let! th := init_object HOST zero_coord small_config 0
               (construct 1 (construct 0 (mkThread ∅ None ∅))) in
  init_object POD zero_coord small_config 1 th.
Definition submit_one : kernel unit := do_call (CallSubmitTask c_zero None []).
Definition no_events : CallEnv := mkCallEnv [] [] 0 (fun _ => UnreadableDirectory).
Definition submitted (p : nat) (th : Thread) : option Z := tasks_submitted_ ∘ orch <$> objects th !! p.

(** The kernel of the first runtime submits to the second orchestrator. *)
Lemma kernel_drives_hidden_state_witness : exists th th',
  two_orchestrators = Ok th /\ run submit_one 0 (fun _ => no_events) 0 th = Ok (th', tt) /\
  objects th' !! 0%nat = objects th !! 0%nat /\
  submitted 0 th' = Some 0 /\ submitted 1 th' = Some 1.
Proof.
  destruct two_orchestrators as [th|] eqn:E; [|vm_compute in E; discriminate E].
  destruct (run submit_one 0 (fun _ => no_events) 0 th) as [[th' []]|] eqn:Er;
    [|exfalso; vm_compute in E; injection E as <-; vm_compute in Er; discriminate Er].
  exists th, th'. split; [reflexivity|]. split; [exact Er|].
  destruct (objects th !! 1%nat) as [o|] eqn:Eo; [|exfalso; vm_compute in E; injection E as <-; discriminate Eo].
  assert (Hh : hidden_state th = Some 1%nat) by (vm_compute in E; injection E as <-; reflexivity).
  assert (Ht : has_table 0 th)
    by (vm_compute in E; injection E as <-; eexists; split; [vm_compute; reflexivity|reflexivity]).
  destruct (kernel_drives_hidden_state submit_one 0 (fun _ => no_events) 0 th th' tt 1 o Hh Eo Ht Er) as [Hs _].
  split; [apply (sb_others _ _ _ _ Hs); discriminate|].
  vm_compute in E. injection E as <-. vm_compute in Er. injection Er as <-. split; vm_compute; reflexivity.
Defined.

(** A kernel that allocates, submits and leaves its scope. *)
Definition small_kernel : kernel unit :=
  (do_call CallScopeBegin ;;
   h <~ do_call (CallAllocTensor c_zero 16) ;
   do_call (CallSubmitTask c_zero None [linqu_make_output h]) ;;
   do_call CallScopeEnd)%kernel.

(** An orchestrator and its runtime, ready for a kernel. *)
Definition one_orchestrator : outcome Thread :=
  init_object HOST zero_coord small_config 0 (construct 0 (mkThread ∅ None ∅)).

Lemma one_orchestrator_live th :
  one_orchestrator = Ok th ->
  has_table 0 th /\ exists o, live_object small_config None 0 o th.
Proof.
  destruct (init_inv HOST zero_coord small_config None small_config_ok) as (s & Hs & _).
  unfold one_orchestrator, init_object, deref.
  assert (objects (construct 0 (mkThread ∅ None ∅)) !! 0%nat = Some (mkObject new_state false None None)) as ->
    by apply lookup_insert_eq.
  cbn [mbind outcome_bind orch]. rewrite Hs. cbn [mbind outcome_bind]. intros [= <-].
  split; [eexists; split; [apply lookup_insert_eq|done]|].
  eexists. split; [done|apply lookup_insert_eq| |done]. exists HOST, zero_coord, s. split; [done|].
  assert (dispatcher_ s = None) as Hd
    by (unfold init in Hs; apply bind_Ok in Hs as (? & _ & Hs); apply bind_Ok in Hs as (? & _ & Hs);
        apply bind_Ok in Hs as (? & _ & Hs); by injection Hs as <-).
  replace (set_dispatcher None s) with s; [apply rtc_refl|]. destruct s. simpl in *. by subst.
Qed.

Lemma kernel_safe_witness : exists th th' o',
  one_orchestrator = Ok th /\ run small_kernel 0 (fun _ => no_events) 0 th = Ok (th', tt) /\
  live_object small_config None 0 o' th' /\ submitted 0 th' = Some 1.
Proof.
  destruct one_orchestrator as [th|] eqn:E; [|vm_compute in E; discriminate E].
  destruct (one_orchestrator_live th E) as [Ht [o Hl]].
  assert (Hw : well_behavedb small_kernel 0 0 (fun _ => no_events) 0 th = true)
    by (clear Ht Hl; vm_compute in E; injection E as <-; vm_compute; reflexivity).
  pose proof (kernel_safe small_config None small_config_ok small_kernel 0 (fun _ => no_events) 0 0 o th Hl Ht
    (well_behavedb_sound small_config None small_config_ok _ _ _ _ _ _ _ Hl Ht Hw)) as Hs.
  clear Ht Hl Hw. destruct (run small_kernel 0 (fun _ => no_events) 0 th) as [[th' []]|] eqn:Er;
    [|exfalso; vm_compute in E; injection E as <-; vm_compute in Er; discriminate Er].
  destruct Hs as [o' Ho']. exists th, th', o'. split; [reflexivity|]. split; [exact Er|]. split; [exact Ho'|].
  clear Ho'. vm_compute in E. injection E as <-. vm_compute in Er. injection Er as <-. vm_compute. reflexivity.
Defined.
