(* ===== verification/LocalKernels.v ===== *)
(** * Kernels run by a daemon

    [NodeDaemon::handle_call_task] ([src/src/daemon/node_daemon.cpp]) gives
    each kernel an orchestrator of its own that has the registry of the daemon
    and neither a dispatcher, nor a dispatch function, nor discovery.  This
    file says what that means for the kernel, whatever it does, and puts
    kernels in the place of the [run_entry] of [Caches.Host]. *)

From S2P Require Import Prelude Coordinate StdMap PeerRegistry FilesystemDiscovery OrchestrationApi.
From S2P Require Import LinquHeapRing LinquDepListPool LinquTaskRing LinquScopeStack LinquTensorMap.
From S2P Require Import RingMetrics LinquOrchestratorState OrchestratorSafety KernelRuntime Caches NodeDaemon.

(** ** Without dispatcher nothing is dispatched *)
Section alone.
Context (sent : list DispatchRecord).

Record alone (s : LinquOrchestratorState) : Prop := {
  al_dispatcher : dispatcher_ s = None;
  al_dispatch_fn : dispatch_fn_ s = false;
  al_dispatched : dispatched s = sent;
}.

(** A handler keeps the orchestrator alone. *)
Definition keeps (f : LinquOrchestratorState -> outcome LinquOrchestratorState) : Prop :=
  forall s s', alone s -> f s = Ok s' -> alone s'.

Ltac same_net := match goal with H : alone _ |- alone _ => destruct H; split; assumption end.

Lemma lock_keeps : keeps lock.
Proof. intros s s' Hs H. unfold lock in H. destruct (scheduler_mu_ s); [done|]. injection H as <-. same_net. Qed.

Lemma upd_desc_keeps t f : keeps (upd_desc t f).
Proof. intros s s' Hs H. unfold upd_desc in H. inv_ok. same_net. Qed.

Lemma check_task_consumed_keeps t : keeps (check_task_consumed t).
Proof.
  intros s s' Hs H. unfold check_task_consumed in H. apply bind_Ok in H as (d & _ & H).
  destruct (_ && _); [by apply upd_desc_keeps in H|by injection H as <-].
Qed.

Lemma walk_list_keeps body h : (forall x, keeps (body x)) -> keeps (walk_list body h).
Proof.
  intros Hb s s'. unfold walk_list. generalize (walk_fuel (dep_pool_ s)) as n. intros n. revert h s.
  induction n as [|n IH]; intros h s Hs H; [done|]. simpl in H.
  destruct (0 <? h); [|by injection H as <-]. apply bind_Ok in H as (e & _ & H).
  destruct e as [e|]; [|by injection H as <-]. apply bind_Ok in H as (s1 & H1 & H).
  apply bind_Ok in H as (e1 & _ & H). by apply Hb in H1; [apply IH in H|].
Qed.

Section handlers.
Context (prop : Z -> LinquOrchestratorState -> outcome LinquOrchestratorState).
Context (Hprop : forall t, keeps (prop t)).

Lemma dispatch_group_keeps t k ps n subs : keeps (dispatch_group_sub_tasks_with prop t k ps n subs).
Proof.
  induction subs as [|sub subs IH]; intros s s' Hs H; [by injection H as <-|].
  cbn [dispatch_group_sub_tasks_with] in H. apply bind_Ok in H as (next & _ & H).
  set (s1 := s <| next_sub_dispatch_id_ := next |> <| sub_dispatch_to_group_ := _ |>) in H.
  assert (Hs1 : alone s1) by same_net. clearbody s1. rewrite (al_dispatcher _ Hs1) in H.
  apply bind_Ok in H as (s2 & H2 & H). apply IH in H; [done|].
  apply bind_Ok in H2 as (d & _ & H2). apply bind_Ok in H2 as (s3 & H3 & H2).
  apply upd_desc_keeps in H3; [|done]. destruct (_ <=? _); [|by injection H2 as <-].
  apply bind_Ok in H2 as (s4 & H4 & H2). apply upd_desc_keeps in H4; [|done]. by apply Hprop in H2.
Qed.

Lemma check_consumer_keeps c : keeps (check_consumer_with prop c).
Proof.
  intros s s' Hs H. unfold check_consumer_with in H. apply bind_Ok in H as (d & _ & H).
  destruct (_ && _); [|by injection H as <-].
  destruct (is_group d); [|by apply upd_desc_keeps in H].
  apply bind_Ok in H as (s1 & H1 & H). apply upd_desc_keeps in H1; [|done].
  destruct (pending_group_specs_ s1 !! c) as [spec|]; [|by injection H as <-].
  apply bind_Ok in H as (s2 & H2 & H). apply dispatch_group_keeps in H2; [|done].
  injection H as <-. same_net.
Qed.

Lemma propagate_with_keeps t : keeps (propagate_completion_with prop t).
Proof.
  intros s s' Hs H. unfold propagate_completion_with, check_consumers_ready_with in H. inv_ok.
  repeat match goal with
  | Hw : walk_list _ _ _ = Ok ?x |- _ =>
      apply walk_list_keeps in Hw; [|intros p y y' Hy Hr|done];
      [|first [by apply check_consumer_keeps in Hr
              |unfold notify_consumer in Hr; by apply upd_desc_keeps in Hr
              |unfold release_producer in Hr; apply bind_Ok in Hr as (z & Hz & Hr);
               apply upd_desc_keeps in Hz; [by apply check_task_consumed_keeps in Hr|done]]]
  end.
  by eapply check_task_consumed_keeps.
Qed.
End handlers.

Lemma propagate_keeps t : keeps (propagate t).
Proof.
  intros s s'. unfold propagate. generalize (propagate_fuel s) as n. intros n. revert t s s'.
  induction n as [|n IH]; intros t s s' Hs H; [done|]. by apply (propagate_with_keeps _ IH) in H.
Qed.

Lemma on_task_complete_keeps t : keeps (on_task_complete t).
Proof.
  intros s s' Hs H. unfold on_task_complete, on_task_complete_with in H.
  apply bind_Ok in H as (s1 & H1 & H). apply lock_keeps in H1; [|done].
  assert (Hdone : forall g x, alone x ->
    (let! s := upd_desc g (set_desc_status COMPLETED) x in let! s := propagate g s in Ok (unlock s)) = Ok s' ->
    alone s').
  { intros g x Hx Hr. inv_ok. apply upd_desc_keeps in H0; [|done]. apply propagate_keeps in H2; [|done]. same_net. }
  assert (Hun : forall x, alone x -> Ok (unlock x) = Ok s' -> alone s') by (intros x Hx [= <-]; same_net).
  destruct (sub_dispatch_to_group_ s1 !! t) as [g|].
  - apply bind_Ok in H as (d & _ & H). apply bind_Ok in H as (s2 & H2 & H).
    apply upd_desc_keeps in H2; [|same_net]. destruct (_ <=? _); eauto.
  - apply bind_Ok in H as (d & _ & H). destruct (status_eqb _ _); eauto.
Qed.

Lemma deliver_keeps ts : keeps (deliver ts).
Proof.
  induction ts as [|t ts IH]; intros s s' Hs H; [by injection H as <-|]. simpl in H.
  apply bind_Ok in H as (s1 & H1 & H). apply on_task_complete_keeps in H1; [by apply IH in H|done].
Qed.

Lemma try_advance_keeps : keeps try_advance_ring_pointers.
Proof.
  intros s s' Hs H. unfold try_advance_ring_pointers in H. apply bind_Ok in H as (s1 & H1 & H).
  apply lock_keeps in H1; [|done]. apply bind_Ok in H as ([c r] & _ & H).
  repeat match type of H with
  | (if ?b then _ else _) = _ => destruct b
  | mbind _ _ = _ => apply bind_Ok in H as (? & _ & H)
  end; injection H as <-; same_net.
Qed.

Lemma reserve_keeps sleeps : keeps (reserve_task_slot sleeps).
Proof.
  intros s s'. unfold reserve_task_slot. destruct (has_space (task_ring_ s)); [by intros ? [= <-]|].
  cbn [negb]. intros Hs. set (x := s <| task_block_count_ := _ |>).
  assert (Hx : alone x) by same_net. clearbody x. clear Hs. revert sleeps x Hx.
  induction MAX_SPINS as [|n IH]; intros sleeps x Hx H; cbn [wait_task_space] in H;
    (destruct (has_space (task_ring_ x)); [by injection H as <-|]);
    apply bind_Ok in H as (s1 & H1 & H); (apply try_advance_keeps in H1; [|done]);
    (destruct (has_space (task_ring_ s1)); [by injection H as <-|]);
    apply bind_Ok in H as (s2 & H2 & H); (apply deliver_keeps in H2; [|done]); [done|by apply IH in H].
Qed.

Lemma open_task_keeps k s s' t : alone s -> open_task k s = Ok (s', t) -> alone s'.
Proof.
  intros Hs H. unfold open_task in H. apply bind_Ok in H as ([ring tid] & _ & H).
  apply bind_Ok in H as (s1 & H1 & H). injection H as <- <-. apply upd_desc_keeps in H1; [done|same_net].
Qed.

Lemma add_edge_keeps t p : keeps (add_edge t p).
Proof.
  intros s s' Hs H. unfold add_edge in H. apply bind_Ok in H as (d & _ & H).
  apply bind_Ok in H as ([pool h] & _ & H). apply bind_Ok in H as (s1 & H1 & H).
  apply upd_desc_keeps in H1; [|same_net]. apply bind_Ok in H as (s2 & H2 & H).
  apply upd_desc_keeps in H2; [|done]. apply bind_Ok in H as (d2 & _ & H).
  apply bind_Ok in H as ([pool2 h2] & _ & H). apply upd_desc_keeps in H; [done|same_net].
Qed.

Lemma link_params_keeps t ps : forall n s s' m, alone s -> link_params t ps n s = Ok (s', m) -> alone s'.
Proof.
  induction ps as [|p ps IH]; intros n s s' m Hs H; [by injection H as <- <-|]. cbn [link_params] in H.
  apply bind_Ok in H as ([s1 n1] & H1 & H). apply bind_Ok in H as (s2 & H2 & H). apply IH in H; [done|].
  assert (Hs1 : alone s1).
  { destruct (reads p); [|by injection H1 as <- <-]. apply bind_Ok in H1 as (r & _ & H1).
    destruct (found r); [|by injection H1 as <- <-]. apply bind_Ok in H1 as (x & Hx & H1).
    injection H1 as <- <-. by apply add_edge_keeps in Hx. }
  destruct (writes p); [|by injection H2 as <-]. apply bind_Ok in H2 as (mp & _ & H2).
  injection H2 as <-. same_net.
Qed.

Lemma register_task_keeps t n : keeps (register_task t n).
Proof.
  intros s s' Hs H. unfold register_task in H. apply bind_Ok in H as (s1 & H1 & H).
  apply upd_desc_keeps in H1; [|done]. apply bind_Ok in H as (s2 & H2 & H).
  assert (Hs2 : alone s2).
  { destruct (0 <=? _); [|by injection H2 as <-]. apply bind_Ok in H2 as (st & _ & H2).
    injection H2 as <-. same_net. }
  apply bind_Ok in H as (s3 & H3 & H). apply upd_desc_keeps in H3; [|done]. injection H as <-.
  destruct H3 as [E1 E2 E3]. destruct (_ <? _); destruct (_ <? _); by split.
Qed.

(** The end of a submission that completes on the spot. *)
Lemma complete_keeps t s s' :
  alone s -> (let! s := upd_desc t (set_desc_status COMPLETED) s in propagate t s) = Ok s' -> alone s'.
Proof.
  intros Hs H. apply bind_Ok in H as (s1 & H1 & H). apply upd_desc_keeps in H1; [|done].
  by apply propagate_keeps in H.
Qed.

Lemma submit_task_keeps target k ps sleeps : keeps (submit_task target k ps sleeps).
Proof.
  intros s s' Hs H. unfold submit_task in H. apply bind_Ok in H as (s1 & H1 & H).
  apply reserve_keeps in H1; [|done]. apply bind_Ok in H as ([s2 t] & H2 & H).
  apply open_task_keeps in H2; [|done]. apply bind_Ok in H as ([s3 n] & H3 & H).
  apply link_params_keeps in H3; [|done]. apply bind_Ok in H as (s4 & H4 & H).
  apply register_task_keeps in H4; [|done]. apply bind_Ok in H as (s5 & H5 & H).
  apply upd_desc_keeps in H5; [|done]. rewrite (al_dispatcher _ H5), (al_dispatch_fn _ H5) in H.
  by apply complete_keeps in H.
Qed.

Lemma submit_task_group_keeps k ps subs sleeps : keeps (submit_task_group k ps subs sleeps).
Proof.
  intros s s' Hs H. unfold submit_task_group in H. apply bind_Ok in H as (s1 & H1 & H).
  apply reserve_keeps in H1; [|done]. apply bind_Ok in H as ([s2 t] & H2 & H).
  apply open_task_keeps in H2; [|done]. apply bind_Ok in H as (s3 & H3 & H).
  apply upd_desc_keeps in H3; [|done]. apply bind_Ok in H as ([s4 n] & H4 & H).
  apply link_params_keeps in H4; [|done]. apply bind_Ok in H as (s5 & H5 & H).
  apply register_task_keeps in H5; [|done].
  destruct (zlength subs =? 0); [by apply complete_keeps in H|].
  destruct (n =? 0); apply bind_Ok in H as (s6 & H6 & H); (apply upd_desc_keeps in H6; [|done]).
  - unfold dispatch_group_sub_tasks in H. by apply (dispatch_group_keeps _ propagate_keeps) in H.
  - injection H as <-. same_net.
Qed.

Lemma scope_begin_keeps : keeps scope_begin.
Proof. intros s s' Hs H. unfold scope_begin in H. inv_ok. same_net. Qed.

Lemma scope_end_keeps : keeps scope_end.
Proof.
  intros s s' Hs H. unfold scope_end in H. apply bind_Ok in H as ([st ring] & _ & H).
  apply bind_Ok in H as (s1 & H1 & H). apply lock_keeps in H1; [|same_net].
  apply bind_Ok in H as (s2 & H2 & H).
  assert (Hl : forall n i x y, alone x -> check_consumed_loop n i x = Ok y -> alone y).
  { induction n as [|n IH]; intros i x y Hx Hl; [by injection Hl as <-|]. simpl in Hl.
    apply bind_Ok in Hl as (z & Hz & Hl). apply check_task_consumed_keeps in Hz; [by apply IH in Hl|done]. }
  apply Hl in H2; [|done]. apply try_advance_keeps in H; [done|same_net].
Qed.

Lemma alloc_tensor_keeps size sleeps s s' h :
  alone s -> alloc_tensor size sleeps s = Ok (s', h) -> alone s'.
Proof.
  intros Hs H. unfold alloc_tensor in H. set (x := s <| next_tensor_handle_ := _ |>) in H.
  assert (Hx : alone x) by same_net. clearbody x. destruct (0 <? size); [|by injection H as <- <-].
  apply bind_Ok in H as (s1 & H1 & H).
  assert (Hs1 : alone s1).
  { destruct (LinquHeapRing.try_alloc size (heap_ring_ x)) as [r [q|]]; [injection H1 as <-; same_net|].
    set (y := x <| heap_ring_ := r |> <| heap_block_count_ := _ |>) in H1.
    assert (Hy : alone y) by same_net. clearbody y. clear - Hy H1. revert sleeps y Hy H1.
    induction MAX_SPINS as [|n IH]; intros sleeps y Hy H; cbn [wait_heap_space] in H;
      (destruct (LinquHeapRing.try_alloc size (heap_ring_ y)) as [r1 [q1|]]; [injection H as <-; same_net|]);
      apply bind_Ok in H as (s2 & H2 & H); (apply try_advance_keeps in H2; [|same_net]);
      (destruct (LinquHeapRing.try_alloc size (heap_ring_ s2)) as [r2 [q2|]]; [injection H as <-; same_net|]);
      apply bind_Ok in H as (s3 & H3 & H); (apply deliver_keeps in H3; [|same_net]);
      [done|by apply IH in H]. }
  injection H as <- <-. destruct (_ <? _); [same_net|done].
Qed.

Lemma wait_all_keeps ts : keeps (wait_all ts).
Proof. intros s s' Hs H. unfold wait_all in H. rewrite (al_dispatcher _ Hs) in H. by injection H as <-. Qed.
End alone.

(** ** A kernel on an orchestrator of its own *)

(** The orchestrator at [p] is alone, cannot discover, and the registries are
    as they were. *)
Definition local_thread (sent : list DispatchRecord) (p : nat) (regs : gmap nat PeerRegistry) (th : Thread) : Prop :=
  hidden_state th = Some p /\ registries th = regs /\
  exists o, objects th !! p = Some o /\ fs_discovery_ o = None /\ alone sent (orch o).

Lemma on_hidden_local {A} sent p regs (f : LinquOrchestratorState -> outcome (LinquOrchestratorState * A)) th th' a :
  (forall s s' a, alone sent s -> f s = Ok (s', a) -> alone sent s') ->
  local_thread sent p regs th -> on_hidden f th = Ok (th', a) -> local_thread sent p regs th'.
Proof.
  intros Hf (Hp & Hr & o & Ho & Hd & Hs) H.
  destruct (on_hidden_inv _ _ _ _ _ _ Hp Ho H) as (s & Hfs & ->). split; [done|]. split; [done|].
  exists (o <| orch := s |>). split; [apply lookup_insert_eq|]. split; [done|]. by apply (Hf (orch o) s a).
Qed.

Lemma quiet_local sent (f : LinquOrchestratorState -> outcome LinquOrchestratorState) :
  keeps sent f -> forall s s' (a : unit), alone sent s -> quiet f s = Ok (s', a) -> alone sent s'.
Proof. intros Hf s s' a Hs H. unfold quiet in H. inv_ok. eauto. Qed.

Lemma rt_call_local sent p regs rt c e th th' r :
  local_thread sent p regs th -> rt_call rt c e th = Ok (th', r) -> local_thread sent p regs th'.
Proof.
  intros Hl H. unfold rt_call in H. apply bind_Ok in H as (ot & _ & H).
  destruct (negb (rt_ops ot)); [done|].
  assert (Hq : forall f (a : unit), keeps sent f -> on_hidden (quiet f) th = Ok (th', a) -> local_thread sent p regs th')
    by (intros f a Hf; apply on_hidden_local; [|done]; intros s s' a'; by apply quiet_local).
  assert (Hs : forall f, (forall s, alone sent s -> alone sent (f s)) -> keeps sent (fun s => Ok (f s)))
    by (intros f Hf s s' Hs' [= <-]; auto).
  destruct c; try (injection H as <- <-; exact Hl).
  - eapply Hq; [|exact H]. apply submit_task_keeps.
  - eapply Hq; [|exact H]. apply scope_begin_keeps.
  - eapply Hq; [|exact H]. apply scope_end_keeps.
  - eapply on_hidden_local; [|exact Hl|exact H]. intros. by eapply alloc_tensor_keeps.
  - eapply Hq; [|exact H]. apply Hs; intros s []; split; assumption.
  - eapply Hq; [|exact H]. apply Hs; intros s []; split; assumption.
  - destruct Hl as (Hp & Hr & o & Ho & Hd & Ha). unfold op_query_peers, refresh, deref in H.
    rewrite Hp, Ho in H. cbn [mbind outcome_bind] in H. rewrite Hd in H. cbn [mbind outcome_bind] in H.
    assert (th' = th) as ->.
    { destruct (peer_registry_ o); [|by injection H]. apply bind_Ok in H as (r0 & _ & H). by injection H. }
    repeat split; eauto.
  - eapply on_hidden_local; [|exact Hl|exact H]. by intros s s' a Hs' [= <- _].
  - eapply Hq; [|exact H]. apply wait_all_keeps.
  - eapply Hq; [|exact H]. apply Hs; intros s []; split; assumption.
  - eapply Hq; [|exact H]. apply submit_task_group_keeps.
Qed.

Lemma run_local {A} sent p regs (m : kernel A) rt env : forall n th th' a,
  local_thread sent p regs th -> run m rt env n th = Ok (th', a) -> local_thread sent p regs th'.
Proof.
  induction m as [x|c k IH]; intros n th th' a Hl H; [by injection H as <- <-|]. cbn [run] in H.
  apply bind_Ok in H as ([th1 r] & Hc & H). eapply IH; [|exact H]. by eapply rt_call_local.
Qed.

(** ** Kernels as the entry functions of loaded libraries *)
Section entries.
(** The kernels behind the function pointers. *)
Context (library : Z -> option (list Z -> kernel unit)) (env : nat -> CallEnv).

(** The thread of [handle_call_task] when it calls the kernel: its
    orchestrator is the one initialised last, and points to the registry of
    the daemon. *)
Definition call_thread (reg : PeerRegistry) (s : LinquOrchestratorState) : Thread :=
  mkThread {[0%nat := mkObject s true (Some 0%nat) None]} (Some 0%nat) {[0%nat := reg]}.

Definition call_entry (fn : Z) (args : list Z) (reg : PeerRegistry) (s : LinquOrchestratorState)
    : outcome LinquOrchestratorState :=
  match library fn with
  | None => Fault NullPointer
  | Some k =>
      let! (th, _) := run (k args) 0 env 0 (call_thread reg s) in
      let! o := deref (objects th) 0 in
      Ok (orch o)
  end.

(** The environment [h] with these kernels in its libraries. *)
Definition host_of_kernels (h : Host) : Host := {|
  can_write := can_write; is_directory := is_directory; dlopen := dlopen;
  dlsym_entry := dlsym_entry; dlsym_config := dlsym_config; run_entry := call_entry;
|}.

(** What [handle_call_task] has prepared when it calls the kernel. *)
Definition prepared (level : Level) (coord : LinquCoordinate)
    (params : list MsgTypes.CallTaskPayload.ParamEntry) : outcome LinquOrchestratorState :=
  let! s := init level coord default_config new_state in alloc_tensors params s.

Lemma default_config_small : config_ok default_config.
Proof. constructor; [reflexivity|reflexivity|vm_compute; congruence|split; reflexivity|split; reflexivity|split; reflexivity]. Qed.

Lemma init_fields level coord cfg s s' :
  init level coord cfg s = Ok s' ->
  dispatcher_ s' = dispatcher_ s /\ dispatch_fn_ s' = dispatch_fn_ s /\ dispatched s' = dispatched s /\
  heap_ring_ s' = LinquHeapRing.init (heap_ring_capacity cfg) (heap_ring_ s).
Proof.
  unfold init. intros H. apply bind_Ok in H as (ring & _ & H). apply bind_Ok in H as (pool & _ & H).
  apply bind_Ok in H as (tmap & _ & H). injection H as <-. split_and!; reflexivity.
Qed.

Lemma set_same_dispatcher s : set_dispatcher (dispatcher_ s) s = s.
Proof. by destruct s. Qed.

Lemma prepared_reachable level coord params s :
  prepared level coord params = Ok s -> reachable default_config None s /\ alone [] s.
Proof.
  unfold prepared. intros H. apply bind_Ok in H as (s0 & Hi & H).
  assert (H0 : reachable default_config None s0 /\ alone [] s0 /\ no_wrap (heap_ring_ s0)).
  { destruct (init_fields _ _ _ _ _ Hi) as (E1 & E2 & E3 & E4). split; [|split; [by split|]].
    - exists level, coord, s0. split; [exact Hi|]. change None with (dispatcher_ new_state). rewrite <- E1, set_same_dispatcher.
      apply rtc_refl.
    - rewrite E4. vm_compute. reflexivity. }
  clear Hi. revert s0 H H0. induction params as [|p ps IH]; intros s0 H (Hr & Ha & Hw); cbn [alloc_tensors] in H.
  - injection H as <-. done.
  - destruct (is_tensor p); [|by apply (IH s0)]. apply bind_Ok in H as ([s1 h] & H1 & H).
    apply (IH s1 H). split_and!.
    + apply (reachable_step _ _ (OpAllocTensor 0) s0); [done|split; [done|split; [lia|lia]]|].
      cbn [exec]. by rewrite H1.
    + by eapply alloc_tensor_keeps.
    + unfold alloc_tensor in H1. by injection H1 as <- _.
Qed.

(** C21.  A kernel run by a daemon works on its own.  Whatever kernel is behind
    the entry function, whatever its arguments and whatever peers the daemon
    knows, on the orchestrator that [handle_call_task] prepares: nothing it
    submits is dispatched to another node, and its calls leave the registry of
    the daemon as it is.  When the kernel respects the orchestrator, it returns
    in a reachable state or ends in a failed assertion, an overflow of an [int]
    or a second lock of the scheduler mutex. *)
Theorem daemon_kernel_stays_local level coord params s k fn args reg :
  prepared level coord params = Ok s -> library fn = Some k ->
  (forall s', call_entry fn args reg s = Ok s' -> dispatcher_ s' = None /\ dispatched s' = []) /\
  (forall th a, run (k args) 0 env 0 (call_thread reg s) = Ok (th, a) -> registries th !! 0%nat = Some reg) /\
  (well_behaved (k args) 0 0 env 0 (call_thread reg s) ->
   match call_entry fn args reg s with
   | Ok s' => reachable default_config None s'
   | Fault f => f = AssertFailed \/ f = SignedOverflow \/ f = SelfDeadlock
   end).
Proof.
  intros Hp Hk. destruct (prepared_reachable _ _ _ _ Hp) as [Hr Ha].
  set (o := mkObject s true (Some 0%nat) None).
  assert (Ho : objects (call_thread reg s) !! 0%nat = Some o) by apply lookup_singleton_eq.
  assert (Hl : local_thread [] 0 {[0%nat := reg]} (call_thread reg s))
    by (split; [done|split; [done|by exists o]]).
  unfold call_entry. rewrite Hk. split_and!.
  - intros s' H. apply bind_Ok in H as ([th a] & H1 & H).
    destruct (run_local _ _ _ _ _ _ _ _ _ _ Hl H1) as (_ & _ & o1 & Ho1 & _ & Ha1).
    unfold deref in H. rewrite Ho1 in H. injection H as <-. by destruct Ha1.
  - intros th a H1. destruct (run_local _ _ _ _ _ _ _ _ _ _ Hl H1) as (_ & -> & _). apply lookup_singleton_eq.
  - intros Hw.
    assert (Hlive : live_object default_config None 0 o (call_thread reg s)).
    { split; [done|done|exact Hr|]. intros q [= <-]. exists reg. apply lookup_singleton_eq. }
    pose proof (run_safe default_config None default_config_small (k args) 0 env 0 0 o _ Hlive
      ltac:(by exists o) Hw) as Hs.
    destruct (run (k args) 0 env 0 (call_thread reg s)) as [[th a]|f]; [|exact Hs].
    destruct Hs as [o1 Hl1]. cbn [mbind outcome_bind]. unfold deref. rewrite (lo_here _ _ _ _ _ Hl1).
    apply (lo_reachable _ _ _ _ _ Hl1).
Qed.
End entries.

(** A kernel that submits a task to the first host it knows. *)
Definition ask_and_submit : kernel unit :=
  (peers <~ do_call (CallQueryPeers 3) ;
   match peers with
   | p :: _ => do_call (CallSubmitTask p None [])
   | [] => Ret tt
   end)%kernel.
Definition known_host : PeerRegistry :=
  add (mkPeerInfo (mkCoord 0 1 2 5 0 0 0) 3 "/tmp/daemon_L3.sock" true) [].

Definition ask_library (fn : Z) : option (list Z -> kernel unit) :=
  if fn =? 7 then Some (fun _ => ask_and_submit) else None.

Lemma ask_and_submit_submits :
  (let! s := prepared POD (mkCoord 0 1 2 0 0 0 0) [] in
   let! s' := call_entry ask_library (fun _ => no_events) 7 [] known_host s in
   Ok (tasks_submitted_ s')) = Ok 1.
Proof. vm_compute. reflexivity. Qed.

Lemma daemon_kernel_stays_local_witness : exists s s',
  prepared POD (mkCoord 0 1 2 0 0 0 0) [] = Ok s /\
  call_entry ask_library (fun _ => no_events) 7 [] known_host s = Ok s' /\
  tasks_submitted_ s' = 1 /\ dispatcher_ s' = None /\ dispatched s' = [].
Proof.
  destruct (proj1 (bind_Ok _ _ _) ask_and_submit_submits) as (s & Hp & H).
  destruct (proj1 (bind_Ok _ _ _) H) as (s' & Hc & Hn). exists s, s'.
  destruct (daemon_kernel_stays_local ask_library (fun _ => no_events)
    POD (mkCoord 0 1 2 0 0 0 0) [] s (fun _ => ask_and_submit) 7 [] known_host Hp eq_refl) as [Hl _].
  split; [exact Hp|]. split; [exact Hc|]. split; [by injection Hn|exact (Hl s' Hc)].
Defined.
