(* ===== verification/ExampleKernels.v ===== *)
(** * The example kernels

    The kernels of [src/examples] as the sequences of calls they make of the
    runtime ([KernelRuntime.kernel]): the dispatch kernels of the levels 4 to
    6, which are one program with different names in it, and the L3 stress
    kernel of [ring_stress_test], whose file is in [LeafKernels]. *)

From S2P Require Import Prelude Coordinate StdMap PeerRegistry FilesystemDiscovery OrchestrationApi.
From S2P Require Import LinquHeapRing LinquTaskRing LinquScopeStack RingMetrics.
From S2P Require Import LinquOrchestratorState OrchestratorSafety KernelRuntime.

(** ** The dispatch kernels *)
Open Scope kernel_scope.

(** [for (i = 0; i < peers.count; i++) submit_task(rt, peers.peers[i], so, nullptr, 0)] *)
Fixpoint submit_to (so : string) (peers : list LinquCoordinate_C) : kernel unit :=
  match peers with
  | [] => Ret tt
  | p :: peers => do_call (CallSubmitTask p (Some so) []) ;; submit_to so peers
  end.

Definition dispatch_kernel (child : Z) (so before after : string) : kernel unit :=
  peers <~ do_call (CallQueryPeers child) ;
  do_call CallScopeBegin ;;
  submit_to so peers ;;
  do_call CallScopeEnd ;;
  do_call CallWaitAll ;;
  do_call (CallLog (before +:+ std_to_string (zlength peers) +:+ after)) ;;
  do_call CallDone.

Definition topo_L4_pod : kernel unit :=
  dispatch_kernel 3 "topo_L3_host.so" "L4 POD: dispatched topo_L3_host to " " hosts".
Definition topo_L5_clos1 : kernel unit :=
  dispatch_kernel 4 "topo_L4_pod.so" "L5 CLOS1: dispatched topo_L4_pod to " " pods".
Definition topo_L6_clos2 : kernel unit :=
  dispatch_kernel 5 "topo_L5_clos1.so" "L6 CLOS2: dispatched topo_L5_clos1 to " " supernodes".
Definition dag_L4_dispatch : kernel unit :=
  dispatch_kernel 3 "dag_L3_compute.so" "L4 DAG: dispatched dag_L3_compute to " " hosts".
Definition dag_L5_dispatch : kernel unit :=
  dispatch_kernel 4 "dag_L4_dispatch.so" "L5 DAG: dispatched dag_L4_dispatch to " " pods".
Definition dag_L6_dispatch : kernel unit :=
  dispatch_kernel 5 "dag_L5_dispatch.so" "L6 DAG: dispatched dag_L5_dispatch to " " supernodes".
Definition ring_L4_stress : kernel unit :=
  dispatch_kernel 3 "ring_L3_stress.so" "L4 Ring Stress: dispatched ring_L3_stress to " " hosts".
Definition ring_L5_stress : kernel unit :=
  dispatch_kernel 4 "ring_L4_stress.so" "L5 Ring Stress: dispatched ring_L4_stress to " " pods".

(** ** ring_L3_stress *)
Record RingCounts := mkRingCounts {
  total_allocs : Z; total_frees : Z; scope_enters : Z; scope_exits : Z;
}.

(** [for (i = first; i < first + n; i++)], over a loop variable and a state. *)
Fixpoint for_loop {A} (n : nat) (i : Z) (body : Z -> A -> kernel A) (a : A) : kernel A :=
  match n with
  | O => Ret a
  | S n => a <~ body i a ; for_loop n (i + 1) body a
  end.

Definition ITERATIONS : Z := 10.
Definition TENSORS_PER_SCOPE : Z := 4.
Definition MAX_DEPTH : Z := 3.

(** One inner scope: the tensors, half of them freed early. *)
Definition stress_scope (here : LinquCoordinate_C) (iter d : Z) (c : RingCounts) : kernel RingCounts :=
  do_call CallScopeBegin ;;
  handles <~ for_loop (Z.to_nat TENSORS_PER_SCOPE) 0
    (fun t handles =>
       h <~ do_call (CallAllocTensor here (((iter * MAX_DEPTH + d) * TENSORS_PER_SCOPE + t + 1) * 64)) ;
       Ret (handles ++ [h])) [] ;
  for_loop (Z.to_nat (TENSORS_PER_SCOPE / 2)) 0
    (fun t _ => do_call (CallFreeTensor (nth (Z.to_nat t) handles 0))) tt ;;
  do_call CallScopeEnd ;;
  Ret (mkRingCounts (total_allocs c + TENSORS_PER_SCOPE) (total_frees c + TENSORS_PER_SCOPE / 2)
         (scope_enters c + 1) (scope_exits c + 1)).

Definition stress_iteration (here : LinquCoordinate_C) (iter : Z) (c : RingCounts) : kernel RingCounts :=
  do_call CallScopeBegin ;;
  c <~ for_loop (Z.to_nat MAX_DEPTH) 0 (fun d c => stress_scope here iter d c)
         (mkRingCounts (total_allocs c) (total_frees c) (scope_enters c + 1) (scope_exits c)) ;
  do_call CallScopeEnd ;;
  Ret (mkRingCounts (total_allocs c) (total_frees c) (scope_enters c) (scope_exits c + 1)).

Definition balanced (c : RingCounts) : bool := scope_enters c =? scope_exits c.

Definition ring_L3_stress : kernel RingCounts :=
  self <~ do_call CallSelfCoord ;
  c <~ for_loop (Z.to_nat ITERATIONS) 0 (stress_iteration self) (mkRingCounts 0 0 0 0) ;
  do_call (CallLog ("Ring stress: l3=" +:+ std_to_string (c_l3_idx self)
    +:+ " allocs=" +:+ std_to_string (total_allocs c) +:+ " frees=" +:+ std_to_string (total_frees c)
    +:+ " scopes=" +:+ std_to_string (scope_enters c) +:+ "/" +:+ std_to_string (scope_exits c)
    +:+ " balanced=" +:+ (if balanced c then "yes" else "NO"))) ;;
  do_call CallDone ;;
  Ret c.
Close Scope kernel_scope.

(** ** Running them *)

(** One orchestrator at address 0, with a dispatcher and a registry. *)
Definition one_object (d : option Dispatcher) (reg : PeerRegistry) (s : LinquOrchestratorState) : Thread :=
  mkThread {[0%nat := mkObject (set_dispatcher d s) true (Some 0%nat) None]} (Some 0%nat) {[0%nat := reg]}.
Definition object_of (th : Thread) : option LinquOrchestratorState := orch <$> objects th !! 0%nat.

(** ** What they do *)

(** What is left of a run in the orchestrator. *)
Record Remains := mkRemains {
  finished : bool; open_scope : Z; begins : Z; ends : Z; frees : Z; handles : Z; heap_used : Z;
  sent : list DispatchRecord;
}.
Definition remains (s : LinquOrchestratorState) : Remains :=
  mkRemains (done_ s) (depth (scope_stack_ s)) (scope_begin_count_ s) (scope_end_count_ s)
    (free_tensor_count_ s) (next_tensor_handle_ s - 1) (LinquHeapRing.used (heap_ring_ s)) (dispatched s).

(** A kernel on a fresh orchestrator of the default configuration, with no
    event from outside. *)
Definition run_fresh {A} (level : Level) (coord : LinquCoordinate) (d : option Dispatcher)
    (reg : PeerRegistry) (m : kernel A) : outcome (A * option Remains) :=
  let! s := init level coord default_config new_state in
  let! (th, a) := run m 0 (fun _ => no_events) 0 (one_object d reg s) in
  Ok (a, remains <$> object_of th).

(** The stress kernel balances its books.  On every node, with every
    dispatcher and whatever peers are known, the L3 stress kernel runs to its
    end on the default configuration: 120 tensors allocated and 60 freed, as
    many scopes left as entered, none left open; and since nothing of a heap
    ring retires without a task, its 464640 bytes are all still in use. *)
Theorem ring_stress_completes level coord reg d :
  run_fresh level coord d reg ring_L3_stress =
    Ok (mkRingCounts 120 60 40 40, Some (mkRemains true (-1) 40 40 60 120 464640 [])).
Proof. vm_compute. reflexivity. Qed.

(** The body of a dispatch kernel, once the peers are known. *)
Definition dispatch_body (so before after : string) (peers : list LinquCoordinate_C) : kernel unit :=
  (do_call CallScopeBegin ;;
   submit_to so peers ;;
   do_call CallScopeEnd ;;
   do_call CallWaitAll ;;
   do_call (CallLog (before +:+ std_to_string (zlength peers) +:+ after)) ;;
   do_call CallDone)%kernel.

Definition sent_to (so : string) (i : nat) (p : LinquCoordinate_C) : DispatchRecord :=
  mkDispatchRecord (Z.of_nat i) (coord_of_C p) so [].

Lemma dispatch_body_few level coord reg d so before after peers :
  (length peers <= 64)%nat ->
  run_fresh level coord (Some d) reg (dispatch_body so before after peers) =
    Ok (tt, Some (mkRemains true (-1) 1 1 0 0 0 (imap (sent_to so) peers))).
Proof.
  intros Hlen.
  do 65 (destruct peers as [|? peers]; [destruct d; vm_compute; reflexivity|]).
  simpl in Hlen. lia.
Qed.

(** With no event, the number of the call does not matter. *)
Lemma run_quiet {A} (m : kernel A) rt n k th :
  run m rt (fun _ => no_events) n th = run m rt (fun _ => no_events) k th.
Proof.
  revert n k th. induction m as [a|c f IH]; intros n k th; [done|]. simpl.
  destruct (rt_call rt c no_events th) as [[th1 r]|]; [apply IH|done].
Qed.

Lemma run_bind {A B} (m : kernel A) (f : A -> kernel B) rt n th :
  run (kernel_bind m f) rt (fun _ => no_events) n th =
    (let! (th, a) := run m rt (fun _ => no_events) n th in run (f a) rt (fun _ => no_events) 0 th).
Proof.
  revert n th. induction m as [a|c k IH]; intros n th; [apply run_quiet|]. simpl.
  destruct (rt_call rt c no_events th) as [[th1 r]|]; [apply IH|done].
Qed.

(** A scope guard enters the scope, runs its body and leaves the scope with the
    body's result; a fault in the body is not caught. *)
Lemma linqu_scope_runs {A} (m : kernel A) rt n th :
  run (linqu_scope m) rt (fun _ => no_events) n th =
    (let! (th, _) := rt_call rt CallScopeBegin no_events th in
     let! (th, a) := run m rt (fun _ => no_events) 0 th in
     let! (th, _) := rt_call rt CallScopeEnd no_events th in Ok (th, a)).
Proof.
  unfold linqu_scope. rewrite run_bind. cbn [run do_call mbind outcome_bind].
  destruct (rt_call rt CallScopeBegin no_events th) as [[th1 u]|]; [|done]. cbn [mbind outcome_bind].
  rewrite run_bind. destruct (run m rt _ 0 th1) as [[th2 a]|]; done.
Qed.

Lemma run_submit_app so l1 l2 rt n th :
  run (submit_to so (l1 ++ l2)) rt (fun _ => no_events) n th =
    (let! (th, _) := run (submit_to so l1) rt (fun _ => no_events) n th in
     run (submit_to so l2) rt (fun _ => no_events) 0 th).
Proof.
  revert n th. induction l1 as [|p l1 IH]; intros n th; [apply run_quiet|].
  cbn [app submit_to]. rewrite !run_bind. cbn [run do_call mbind outcome_bind].
  destruct (rt_call rt _ no_events th) as [[th1 r]|]; [apply IH|done].
Qed.

(** The window is full and its oldest task cannot be retired. *)
Definition stuck (s : LinquOrchestratorState) : Prop :=
  has_space (task_ring_ s) = false /\ scheduler_mu_ s = false /\
  match get_desc (LinquTaskRing.last_task_alive_ (task_ring_ s)) s with
  | Ok d => status_eqb (status d) CONSUMED = false
  | Fault _ => False
  end.

Lemma stuck_advance s : stuck s -> try_advance_ring_pointers s = Ok s.
Proof.
  intros (_ & Hmu & Hd). unfold try_advance_ring_pointers, lock. rewrite Hmu. cbn [mbind outcome_bind].
  set (x := s <| scheduler_mu_ := true |>).
  change (task_ring_ x) with (task_ring_ s). change (task_retire_count_ x) with (task_retire_count_ s).
  set (c := LinquTaskRing.last_task_alive_ (task_ring_ s)) in *.
  assert (Hl : forall n, advance_loop n c (task_retire_count_ s) x = Ok (c, task_retire_count_ s)).
  { intros []; [done|]. cbn [advance_loop]. change (get_desc c x) with (get_desc c s).
    destruct (get_desc c s); [|done]. cbn [mbind outcome_bind]. by rewrite Hd. }
  rewrite Hl. cbn [mbind outcome_bind]. change (LinquTaskRing.last_task_alive_ _) with c.
  rewrite Z.ltb_irrefl. f_equal. subst x. destruct s. simpl in Hmu. by subst.
Qed.

Lemma wait_nothing_arrives n s :
  has_space (task_ring_ s) = false -> try_advance_ring_pointers s = Ok s ->
  wait_task_space n [] s = Fault AssertFailed.
Proof.
  intros Hs Ht. induction n as [|n IH]; cbn [wait_task_space]; rewrite Hs, Ht; cbn [mbind outcome_bind];
    rewrite Hs; [done|exact IH].
Qed.

Lemma submit_stuck target k ps s : stuck s -> submit_task target k ps [] s = Fault AssertFailed.
Proof.
  intros Hst. pose proof Hst as (Hs & _). unfold submit_task, reserve_task_slot. rewrite Hs. cbn [negb].
  rewrite wait_nothing_arrives; [done|exact Hs|by apply stuck_advance].
Qed.

(** Inside one scope, 64 tasks fill the window for good. *)
Definition window_filled (level : Level) (coord : LinquCoordinate) (d : Dispatcher) (reg : PeerRegistry)
    (so : string) (peers : list LinquCoordinate_C) : Prop :=
  match init level coord default_config new_state with
  | Ok s =>
      match run (do_call CallScopeBegin ;; submit_to so peers)%kernel 0 (fun _ => no_events) 0
              (one_object (Some d) reg s) with
      | Ok (th, _) =>
          match object_of th with
          | Some s => hidden_state th = Some 0%nat /\ rt_ops <$> objects th !! 0%nat = Some true /\ stuck s
          | None => False
          end
      | Fault _ => False
      end
  | Fault _ => False
  end.

Lemma window_filled_64 level coord d reg so peers :
  length peers = 64%nat -> window_filled level coord d reg so peers.
Proof.
  intros Hlen. do 64 (destruct peers as [|? peers]; [discriminate Hlen|]).
  destruct peers; [|discriminate Hlen]. clear Hlen.
  destruct d; vm_compute; repeat split; reflexivity.
Qed.

Lemma run_query level reg child d s {A} (f : list LinquCoordinate_C -> kernel A) :
  run (kernel_bind (do_call (CallQueryPeers child)) f) 0 (fun _ => no_events) level (one_object d reg s) =
  run (f (coord_to_C ∘ p_coord <$> peers_at_level child reg)) 0 (fun _ => no_events) 0 (one_object d reg s).
Proof.
  rewrite run_bind. cbn [run do_call]. unfold rt_call, op_query_peers, refresh, deref, one_object.
  cbn [objects hidden_state registries]. rewrite !lookup_singleton_eq. cbn [mbind outcome_bind negb rt_ops].
  cbn [fs_discovery_ peer_registry_ mbind outcome_bind registries]. by rewrite lookup_singleton_eq.
Qed.

Lemma submit_to_stuck so p peers th s :
  object_of th = Some s -> hidden_state th = Some 0%nat -> rt_ops <$> objects th !! 0%nat = Some true -> stuck s ->
  run (submit_to so (p :: peers)) 0 (fun _ => no_events) 0 th = Fault AssertFailed.
Proof.
  intros Ho Hh Hops Hst. cbn [submit_to]. rewrite run_bind. cbn [run do_call]. unfold rt_call, deref.
  unfold object_of in Ho. destruct (objects th !! 0%nat) as [o|] eqn:E; [|done].
  injection Ho as <-. injection Hops as Hops. cbn [mbind outcome_bind]. rewrite Hops. cbn [negb].
  unfold on_hidden, deref_opt, deref. rewrite Hh. cbn [mbind outcome_bind]. rewrite E. cbn [mbind outcome_bind].
  unfold quiet. cbn [env_sleeps no_events]. by rewrite submit_stuck.
Qed.

Lemma dispatch_body_many level coord reg d so before after peers :
  (64 < length peers)%nat ->
  run_fresh level coord (Some d) reg (dispatch_body so before after peers) = Fault AssertFailed.
Proof.
  intros Hlen. destruct (drop 64 peers) as [|p rest] eqn:Ed.
  { apply (f_equal length) in Ed. rewrite length_drop in Ed. simpl in Ed. lia. }
  assert (Hp : peers = take 64 peers ++ p :: rest) by (by rewrite <- Ed, take_drop).
  assert (Hlen64 : length (take 64 peers) = 64%nat) by (rewrite length_take; lia).
  pose proof (window_filled_64 level coord d reg so (take 64 peers) Hlen64) as Hf.
  unfold run_fresh, window_filled in *. destruct (init level coord default_config new_state) as [s|]; [|done].
  cbn [mbind outcome_bind]. unfold dispatch_body. rewrite !run_bind in *.
  destruct (run (do_call CallScopeBegin) 0 _ 0 _) as [[th1 []]|]; [|done]. cbn [mbind outcome_bind] in *.
  rewrite Hp, run_bind, run_submit_app. destruct (run (submit_to so (take 64 peers)) 0 _ 0 th1) as [[th2 u]|]; [|done].
  cbn [mbind outcome_bind] in *. destruct (object_of th2) as [s2|] eqn:E; [|done].
  destruct Hf as (Hh & Hops & Hst). by rewrite (submit_to_stuck _ _ _ _ _ E Hh Hops Hst).
Qed.

(** C22.  A dispatch kernel reaches all the nodes below, up to the window.  The
    dispatch kernels of the levels 4 to 6, on a fresh orchestrator with a
    dispatcher and a registry: when the registry knows at most 64 living peers
    of the child level, each of them is sent the child kernel, once and in
    the order of the coordinates, and the kernel leaves no scope open and
    reports that it is done; with more than 64 peers, the size of the window,
    it ends in a failed assertion, since no task retires inside the scope. *)
Theorem dispatch_kernel_covers_peers level coord reg d child so before after :
  let peers := peers_at_level child reg in
  (zlength peers <= 64 ->
   run_fresh level coord (Some d) reg (dispatch_kernel child so before after) =
     Ok (tt, Some (mkRemains true (-1) 1 1 0 0 0
                     (imap (fun i p => mkDispatchRecord (Z.of_nat i) (p_coord p) so []) peers)))) /\
  (64 < zlength peers ->
   run_fresh level coord (Some d) reg (dispatch_kernel child so before after) = Fault AssertFailed).
Proof.
  intros peers. set (cs := coord_to_C ∘ p_coord <$> peers).
  assert (Heq : run_fresh level coord (Some d) reg (dispatch_kernel child so before after) =
    run_fresh level coord (Some d) reg (dispatch_body so before after cs)).
  { unfold run_fresh, dispatch_kernel. destruct (init level coord default_config new_state); [|done].
    cbn [mbind outcome_bind]. by rewrite run_query. }
  rewrite Heq. unfold zlength. assert (Hlen : length cs = length peers) by apply length_fmap. split; intros H.
  - rewrite dispatch_body_few by lia. do 5 f_equal. subst cs. rewrite imap_fmap. apply imap_ext.
    intros i p _. unfold sent_to. simpl. by destruct (p_coord p).
  - apply dispatch_body_many. lia.
Qed.
