(* ===== verification/LeafKernels.v ===== *)
(** * The leaf kernels of the examples

    The kernels of [src/examples] that a host runs: [dag_L3_compute] (tensor
    arithmetic in [float], with its own check), [topo_L3_host] (writes who it
    is) and [dfs_L3_reader] (sums a file of numbers).  A [float] is a binary32
    number of the Standard Library's [SpecFloat]; a file read is its text,
    [None] when it cannot be opened, and a file written is its path and text.
    [getenv], [getpid] and whether a file opens for writing are arguments. *)

From Stdlib Require Import SpecFloat.
From S2P Require Import Prelude Coordinate Bytes Paths RingMetrics Json Scan StdMap PeerRegistry OrchestrationApi.
From S2P Require Import LinquOrchestratorState OrchestratorSafety KernelRuntime ExampleKernels.

(** ** [float] *)
Definition f32 := spec_float.
Definition f32_of_int (i : Z) : f32 := binary_normalize 24 128 i 0 false.
Definition fadd : f32 -> f32 -> f32 := SFadd 24 128.
Definition fsub : f32 -> f32 -> f32 := SFsub 24 128.
Definition fmul : f32 -> f32 -> f32 := SFmul 24 128.

(** The number is the integer [z]. *)
Definition is_int (f : f32) (z : Z) : bool :=
  match f with
  | S754_zero _ => z =? 0
  | S754_finite s m e =>
      let v := if s then Zneg m else Zpos m in
      if 0 <=? e then z =? v * 2 ^ e else z * 2 ^ (- e) =? v
  | _ => false
  end.

(** [%.kf] of [printf]: rounded to [k] digits, ties to even. *)
Definition round_half_even (n d : Z) : Z :=
  let q := n / d in let r := n mod d in
  if (d <? 2 * r) || ((d =? 2 * r) && Z.odd q) then q + 1 else q.
Fixpoint zeros_text (n : nat) : string := match n with O => "" | S n => "0" +:+ zeros_text n end.
Definition fixed_text (k : Z) (f : f32) : string :=
  match f with
  | S754_zero s => (if s then "-" else "") +:+ "0." +:+ zeros_text (Z.to_nat k)
  | S754_finite s m e =>
      let n := if 0 <=? e then Zpos m * 2 ^ e * 10 ^ k else round_half_even (Zpos m * 10 ^ k) (2 ^ (- e)) in
      let frac := std_to_string (n mod 10 ^ k) in
      (if s then "-" else "") +:+ std_to_string (n / 10 ^ k) +:+ "." +:+
      zeros_text (Z.to_nat k - String.length frac) +:+ frac
  | S754_infinity s => (if s then "-" else "") +:+ "inf"
  | S754_nan => "nan"
  end.

(** ** Files *)

(** [snprintf] into a buffer of [size] characters. *)
Definition c_buf (size : nat) (s : string) : string := string_take (size - 1) s.

(** The directories made: all that end before a slash, the first character
    apart, and the whole. *)
Fixpoint dirs_before_slash (cur rest : string) : list string :=
  match rest with
  | EmptyString => []
  | String c rest =>
      let more := dirs_before_slash (cur +:+ String c "") rest in
      if Ascii.eqb c "/" then cur :: more else more
  end.
Definition make_dirs (dir : string) : list string :=
  match dir with
  | EmptyString => [dir]
  | String c rest => dirs_before_slash (String c "") rest ++ [dir]
  end.

Record LeafFile := mkLeafFile { made : list string; wrote : option (string * string) }.

Definition write_file (opens : string -> bool) (dir path text : string) : LeafFile :=
  mkLeafFile (make_dirs dir) (if opens path then Some (path, text) else None).

(** ["  name": value], with the text after it. *)
Definition leaf_line (name value sep : string) : string :=
  "  " +:+ quoted name +:+ ": " +:+ value +:+ sep +:+ nl.

Section kernels.
Context (getenv : string -> option string) (getpid : Z) (opens : string -> bool).

(** ** dag_L3_compute *)
Definition DAG_N : Z := 64.
Definition dag_a : list f32 := f32_of_int <$> seqZ 0 DAG_N.
Definition dag_b : list f32 := (fun i => f32_of_int (i * 2)) <$> seqZ 0 DAG_N.

(** The element-wise loops. *)
Definition loop2 (op : f32 -> f32 -> f32) (x y : list f32) : list f32 := zip_with op x y.
Definition loop1 (op : f32 -> f32) (x : list f32) : list f32 := op <$> x.

Definition dag_expected (i : Z) : f32 :=
  let x := f32_of_int i in
  fadd (fadd (fmul (fmul (f32_of_int 9) x) x) (fmul (f32_of_int 12) x)) (f32_of_int 2).

(** [0.001f] *)
Definition dag_tolerance : f32 := S754_finite false 8589935 (-33).
Definition at_index (x : list f32) (i : Z) : f32 := nth (Z.to_nat i) x S754_nan.

Open Scope kernel_scope.
Definition dag_check (f : list f32) (i errors : Z) : kernel Z :=
  if SFltb dag_tolerance (SFabs (fsub (at_index f i) (dag_expected i))) then
    let errors := errors + 1 in
    if errors <=? 3 then
      do_call (CallLog ("MISMATCH f[" +:+ std_to_string i +:+ "]=" +:+ fixed_text 2 (at_index f i) +:+
                        " expected=" +:+ fixed_text 2 (dag_expected i))) ;; Ret errors
    else Ret errors
  else Ret errors.

Definition dag_text (l3_idx errors : Z) (f : list f32) : string :=
  "{" +:+ nl +:+
  leaf_line "pid" (show_int getpid) "," +:+ leaf_line "l3_idx" (show_int l3_idx) "," +:+
  leaf_line "N" (show_int DAG_N) "," +:+ leaf_line "errors" (show_int errors) "," +:+
  leaf_line "tensors_allocated" "5" "," +:+ leaf_line "tensors_freed" "4" "," +:+
  leaf_line "f_0" (fixed_text 6 (at_index f 0)) "," +:+ leaf_line "f_1" (fixed_text 6 (at_index f 1)) "," +:+
  leaf_line "f_63" (fixed_text 6 (at_index f (DAG_N - 1))) "" +:+ "}" +:+ nl.

Definition dag_dir (l3_idx : Z) : string :=
  c_buf 256 (default "/tmp/linqu_dag_output" (getenv "LINQU_DAG_OUTPUT") +:+ "/L3_" +:+ show_int l3_idx).
Definition dag_path (l3_idx : Z) : string := c_buf 256 (dag_dir l3_idx +:+ "/result.json").

Record DagRun := mkDagRun { dag_f : list f32; dag_errors : Z; dag_file : LeafFile }.

Definition dag_alloc (here : LinquCoordinate_C) : kernel Z := do_call (CallAllocTensor here (DAG_N * 4)).

Definition dag_L3_compute : kernel DagRun :=
  self <~ do_call CallSelfCoord ;
  do_call CallScopeBegin ;;
  h_c <~ dag_alloc self ;
  let c := loop2 fadd dag_a dag_b in
  do_call CallScopeBegin ;;
  h_d <~ dag_alloc self ;
  let d := loop1 (fun x => fadd x (f32_of_int 1)) c in
  h_e <~ dag_alloc self ;
  let e := loop1 (fun x => fadd x (f32_of_int 2)) c in
  h_g <~ dag_alloc self ;
  let g := loop2 fmul d e in
  h_f <~ dag_alloc self ;
  let f := loop2 fadd g c in
  do_call (CallFreeTensor h_d) ;;
  do_call (CallFreeTensor h_e) ;;
  do_call (CallFreeTensor h_g) ;;
  do_call CallScopeEnd ;;
  do_call (CallFreeTensor h_c) ;;
  do_call CallScopeEnd ;;
  errors <~ for_loop (Z.to_nat DAG_N) 0 (dag_check f) 0 ;
  let l3 := c_l3_idx self in
  let file := write_file opens (dag_dir l3) (dag_path l3) (dag_text l3 errors f) in
  do_call (CallLog ("DAG compute: l3=" +:+ show_int l3 +:+ " errors=" +:+ show_int errors +:+
    " f[0]=" +:+ fixed_text 2 (at_index f 0) +:+ " f[1]=" +:+ fixed_text 2 (at_index f 1) +:+
    " f[63]=" +:+ fixed_text 2 (at_index f (DAG_N - 1)))) ;;
  do_call CallDone ;;
  Ret (mkDagRun f errors file).

(** ** ring_L3_stress: its file (its calls are [ExampleKernels.ring_L3_stress]) *)
Definition stress_dir (l3_idx : Z) : string :=
  c_buf 256 (default "/tmp/linqu_ring_output" (getenv "LINQU_RING_OUTPUT") +:+ "/L3_" +:+ show_int l3_idx).

Definition stress_text (l3_idx : Z) (c : RingCounts) : string :=
  "{" +:+ nl +:+ leaf_line "pid" (show_int getpid) "," +:+ leaf_line "l3_idx" (show_int l3_idx) "," +:+
  leaf_line "iterations" (show_int ITERATIONS) "," +:+ leaf_line "max_depth" (show_int MAX_DEPTH) "," +:+
  leaf_line "total_allocs" (show_int (total_allocs c)) "," +:+
  leaf_line "total_frees" (show_int (total_frees c)) "," +:+
  leaf_line "scope_enters" (show_int (scope_enters c)) "," +:+
  leaf_line "scope_exits" (show_int (scope_exits c)) "," +:+
  leaf_line "balanced" (if balanced c then "true" else "false") "" +:+ "}" +:+ nl.

Definition stress_file (l3_idx : Z) (c : RingCounts) : LeafFile :=
  let dir := stress_dir l3_idx in
  write_file opens dir (c_buf 256 (dir +:+ "/ring_result.json")) (stress_text l3_idx c).

(** ** topo_L3_host *)
Definition topo_dir (c : LinquCoordinate_C) : string :=
  c_buf 512 (default "/tmp/linqu_topo_output" (getenv "LINQU_TOPO_OUTPUT") +:+
    "/L6_" +:+ show_int (c_l6_idx c) +:+ "/L5_" +:+ show_int (c_l5_idx c) +:+
    "/L4_" +:+ show_int (c_l4_idx c) +:+ "/L3_" +:+ show_int (c_l3_idx c)).

Definition topo_index (c : LinquCoordinate_C) : Z := c_l5_idx c * 64 + c_l4_idx c * 16 + c_l3_idx c.

Definition topo_text (c : LinquCoordinate_C) : string :=
  "{" +:+ nl +:+ leaf_line "pid" (show_int getpid) "," +:+
  leaf_line "coordinate"
    ("{" +:+ quoted "l6" +:+ ": " +:+ show_int (c_l6_idx c) +:+ ", " +:+
     quoted "l5" +:+ ": " +:+ show_int (c_l5_idx c) +:+ ", " +:+
     quoted "l4" +:+ ": " +:+ show_int (c_l4_idx c) +:+ ", " +:+
     quoted "l3" +:+ ": " +:+ show_int (c_l3_idx c) +:+ "}") "," +:+
  leaf_line "global_index" (show_int (topo_index c)) "" +:+ "}" +:+ nl.

Definition topo_L3_host : kernel LeafFile :=
  self <~ do_call CallSelfCoord ;
  let dir := topo_dir self in
  let file := write_file opens dir (c_buf 512 (dir +:+ "/identity.json")) (topo_text self) in
  do_call (CallLog ("L3 identity: l5=" +:+ show_int (c_l5_idx self) +:+ " l4=" +:+ show_int (c_l4_idx self) +:+
    " l3=" +:+ show_int (c_l3_idx self) +:+ " global=" +:+ show_int (topo_index self) +:+
    " pid=" +:+ show_int getpid)) ;;
  do_call CallDone ;;
  Ret file.

(** ** dfs_L3_reader *)
Definition global_l3 (c : LinquCoordinate_C) : Z :=
  c_l6_idx c * 1024 + c_l5_idx c * 64 + c_l4_idx c * 16 + c_l3_idx c.

(** [while (fscanf(fp, "%d", &v) == 1)], one unit of fuel per character. *)
Fixpoint read_loop (fuel : nat) (text : string) (local_sum count : Z) : outcome (Z * Z) :=
  match fuel with
  | O => Fault OutOfFuel
  | S fuel =>
      let! r := scan_d text in
      match r with
      | None => Ok (local_sum, count)
      | Some (v, rest) =>
          let! n := i32_add count 1 in
          read_loop fuel rest (u64 (local_sum + u64 v)) n
      end
  end.
Definition read_sum (text : string) : outcome (Z * Z) := read_loop (S (String.length text)) text 0 0.

Definition dfs_data_path (g : Z) : string :=
  c_buf 512 (default "/tmp/lingqu_dfs" (getenv "LINQU_DFS_BASE") +:+ "/L3_" +:+ show_int g +:+ "/data.txt").
Definition dfs_dir (g : Z) : string :=
  c_buf 512 (default "/tmp/lingqu_dfs_output" (getenv "LINQU_DFS_OUTPUT") +:+ "/L3_" +:+ show_int g).

Definition dfs_text (c : LinquCoordinate_C) (local_sum count : Z) : string :=
  "{" +:+ nl +:+ leaf_line "global_l3" (show_int (global_l3 c)) "," +:+
  leaf_line "l3_idx" (show_int (c_l3_idx c)) "," +:+ leaf_line "l4_idx" (show_int (c_l4_idx c)) "," +:+
  leaf_line "l5_idx" (show_int (c_l5_idx c)) "," +:+ leaf_line "count" (show_int count) "," +:+
  leaf_line "local_sum" (show_int local_sum) "" +:+ "}" +:+ nl.

(** The file of sums, a fault when reading is undefined. *)
Definition dfs_L3_reader (file : string -> option string) : kernel (outcome LeafFile) :=
  self <~ do_call CallSelfCoord ;
  let g := global_l3 self in
  sum_count <~ match file (dfs_data_path g) with
               | Some text => Ret (read_sum text)
               | None => do_call (CallLog ("dfs_L3_reader: cannot open " +:+ dfs_data_path g)) ;; Ret (Ok (0, 0))
               end ;
  match sum_count with
  | Fault f => Ret (Fault f)
  | Ok (local_sum, count) =>
      let dir := dfs_dir g in
      let out := write_file opens dir (c_buf 512 (dir +:+ "/sum.json")) (dfs_text self local_sum count) in
      do_call (CallLog ("dfs_L3_reader: global_l3=" +:+ show_int g +:+ " count=" +:+ show_int count +:+
                        " local_sum=" +:+ show_int local_sum)) ;;
      do_call CallDone ;;
      Ret (Ok out)
  end.
Close Scope kernel_scope.
End kernels.

(** ** What the dag kernel computes *)
Definition dag_result : list f32 :=
  let c := loop2 fadd dag_a dag_b in
  loop2 fadd (loop2 fmul (loop1 (fun x => fadd x (f32_of_int 1)) c) (loop1 (fun x => fadd x (f32_of_int 2)) c)) c.

Lemma dag_runs getenv pid opens level coord reg d :
  run_fresh level coord d reg (dag_L3_compute getenv pid opens) =
    Ok (mkDagRun dag_result 0
          (write_file opens (dag_dir getenv (l3_idx coord)) (dag_path getenv (l3_idx coord))
             (dag_text pid (l3_idx coord) 0 dag_result)),
        Some (mkRemains true (-1) 2 2 4 5 1280 [])).
Proof. vm_compute. reflexivity. Qed.

(** *** Its file *)
(** The members [l] from here on, and the end of the object. *)
Definition rest_of_object (l : list (string * json)) (s : string) : Prop :=
  exists t, s = t +:+ "}" +:+ nl /\ json_members l t.

Lemma leaf_member name v tv l rest :
  plain name = true -> json_text v tv -> rest_of_object l rest ->
  rest_of_object ((name, v) :: l) (leaf_line name tv "," +:+ rest).
Proof.
  intros Hn Hv (t & -> & Ht). exists ("  " +:+ quoted name +:+ ": " +:+ tv +:+ "," +:+ nl +:+ t).
  split; [unfold leaf_line; rewrite <- !sapp_assoc; reflexivity|by apply member_line].
Qed.
Lemma leaf_last name v tv :
  plain name = true -> json_text v tv -> rest_of_object [(name, v)] (leaf_line name tv "" +:+ "}" +:+ nl).
Proof.
  intros Hn Hv. exists (leaf_line name tv ""). split; [done|exact (member_last "  " name v tv nl eq_refl Hn Hv eq_refl)].
Qed.

Lemma leaf_object l s : rest_of_object l s -> json_text (JObj l) ("{" +:+ nl +:+ s).
Proof.
  intros (t & -> & Ht). replace ("{" +:+ nl +:+ t +:+ "}" +:+ nl) with (("" +:+ "{" +:+ (nl +:+ t) +:+ "}") +:+ nl)
    by (rewrite <- !sapp_assoc; reflexivity).
  apply text_after; [done|]. apply obj_text; [done|]. by apply members_before.
Qed.

Definition dag_value (pid l3 : Z) : json :=
  JObj [("pid", JNum pid); ("l3_idx", JNum l3); ("N", JNum 64); ("errors", JNum 0); ("tensors_allocated", JNum 5);
        ("tensors_freed", JNum 4); ("f_0", JReal "2.000000"); ("f_1", JReal "23.000000"); ("f_63", JReal "36479.000000")].

Lemma real_fixed int frac :
  digits int = true -> leading_zero int = false -> digits frac = true -> real_text (int +:+ "." +:+ frac).
Proof.
  intros Hi Hz Hf. rewrite <- (sapp_nil_r ("." +:+ frac)). apply (real_intro "" int ("." +:+ frac) ""); auto.
  right. by exists frac.
Qed.

Lemma dag_file_is_json pid l3 : json_text (dag_value pid l3) (dag_text pid l3 0 dag_result).
Proof.
  apply leaf_object. do 4 (apply leaf_member; [done|apply text_num|]).
  do 2 (apply leaf_member; [done|exact (text_num _)|]).
  replace (fixed_text 6 (at_index dag_result 0)) with ("2" +:+ "." +:+ "000000") by (vm_compute; reflexivity).
  replace (fixed_text 6 (at_index dag_result 1)) with ("23" +:+ "." +:+ "000000") by (vm_compute; reflexivity).
  replace (fixed_text 6 (at_index dag_result (DAG_N - 1))) with ("36479" +:+ "." +:+ "000000") by (vm_compute; reflexivity).
  do 2 (apply leaf_member; [done|by apply text_real, real_fixed|]). by apply leaf_last; [|apply text_real, real_fixed].
Qed.

Definition stress_value (pid l3 : Z) (c : RingCounts) : json :=
  JObj [("pid", JNum pid); ("l3_idx", JNum l3); ("iterations", JNum 10); ("max_depth", JNum 3);
        ("total_allocs", JNum (total_allocs c)); ("total_frees", JNum (total_frees c));
        ("scope_enters", JNum (scope_enters c)); ("scope_exits", JNum (scope_exits c));
        ("balanced", JLit (if balanced c then "true" else "false"))].

(** The file of the stress kernel is the JSON object of its counts. *)
Lemma stress_file_is_json getenv pid opens l3 c path text :
  wrote (stress_file getenv pid opens l3 c) = Some (path, text) -> json_text (stress_value pid l3 c) text.
Proof.
  cbn [stress_file write_file wrote]. destruct (opens _); [|done]. intros H. injection H as _ <-.
  apply leaf_object. do 8 (apply leaf_member; [done|apply text_num|]).
  apply leaf_last; [done|]. apply text_lit. destruct (balanced c); tauto.
Qed.

(** C38.  The dag kernel is exact, and finds it out.  On every node, with every
    dispatcher and whatever peers are known, it runs to its end on the default
    configuration: its 64 [float] results are exactly the integers
    (3i+1)(3i+2)+3i, so its own check counts no error; five tensors allocated,
    four freed, both scopes left; and when the result file opens, the text
    written is the JSON object of these facts. *)
Theorem dag_kernel_exact getenv pid opens level coord reg d :
  exists r, run_fresh level coord d reg (dag_L3_compute getenv pid opens) =
      Ok (r, Some (mkRemains true (-1) 2 2 4 5 1280 [])) /\
    dag_errors r = 0 /\ zlength (dag_f r) = 64 /\
    (forall i, 0 <= i < 64 -> is_int (at_index (dag_f r) i) ((3 * i + 1) * (3 * i + 2) + 3 * i) = true) /\
    wrote (dag_file r) =
      (if opens (dag_path getenv (l3_idx coord))
       then Some (dag_path getenv (l3_idx coord), dag_text pid (l3_idx coord) 0 (dag_f r)) else None) /\
    json_text (dag_value pid (l3_idx coord)) (dag_text pid (l3_idx coord) 0 (dag_f r)).
Proof.
  eexists. split; [apply dag_runs|]. cbn [dag_errors dag_f dag_file]. split_and!; [done|vm_compute; reflexivity| |done|].
  - intros i Hi. assert (Hall : forallb (fun i => is_int (at_index dag_result i) ((3 * i + 1) * (3 * i + 2) + 3 * i))
      (seqZ 0 64) = true) by (vm_compute; reflexivity).
    apply (forallb_elem _ _ i Hall). apply elem_of_seqZ. lia.
  - apply dag_file_is_json.
Qed.

(** On host 5: entry 63 is 36479, and what the file says. *)
Lemma dag_kernel_exact_witness :
  exists r, run_fresh HOST (mkCoord 0 1 2 5 0 0 0) None [] (dag_L3_compute (fun _ => None) 4711 (fun _ => true)) =
      Ok (r, Some (mkRemains true (-1) 2 2 4 5 1280 [])) /\
    is_int (at_index (dag_f r) 63) 36479 = true /\
    exists text, wrote (dag_file r) = Some ("/tmp/linqu_dag_output/L3_5/result.json", text) /\
      json_text (dag_value 4711 5) text.
Proof.
  destruct (dag_kernel_exact (fun _ => None) 4711 (fun _ => true) HOST (mkCoord 0 1 2 5 0 0 0) [] None)
    as (r & Hr & _ & _ & Hi & Hw & Hj).
  exists r. split; [exact Hr|]. split; [exact (Hi 63 ltac:(lia))|]. eexists. split; [exact Hw|exact Hj].
Defined.

(** ** What the reader sums *)

(** A kernel that asks who it is, logs and finishes. *)
Definition finished_leaf : Remains := mkRemains true (-1) 0 0 0 0 0 [].

Lemma fresh_coord level coord s : init level coord default_config new_state = Ok s -> coord_ s = coord.
Proof. unfold init. intros. inv_ok. done. Qed.

Lemma run_self {A} level coord reg d (k : LinquCoordinate_C -> kernel A) :
  run_fresh level coord d reg (kernel_bind (do_call CallSelfCoord) k) = run_fresh level coord d reg (k (coord_to_C coord)).
Proof.
  unfold run_fresh. destruct (init _ _ _ _) as [s|] eqn:Es; [|done]. cbn [mbind outcome_bind].
  apply fresh_coord in Es. subst coord. by rewrite run_bind.
Qed.
Lemma run_logged {A} level coord reg d text (k : kernel A) :
  run_fresh level coord d reg (kernel_bind (do_call (CallLog text)) (fun _ => k)) = run_fresh level coord d reg k.
Proof.
  unfold run_fresh. destruct (init _ _ _ _) as [s|]; [|done]. cbn [mbind outcome_bind]. by rewrite run_bind.
Qed.
Lemma run_logged_ret {A B} level coord reg d text (a : A) (f : A -> kernel B) :
  run_fresh level coord d reg (kernel_bind (kernel_bind (do_call (CallLog text)) (fun _ => Ret a)) f) =
    run_fresh level coord d reg (f a).
Proof. exact (run_logged level coord reg d text (f a)). Qed.
Lemma run_done {A} level coord reg d (a : A) :
  run_fresh level coord d reg (kernel_bind (do_call CallDone) (fun _ => Ret a)) = Ok (a, Some finished_leaf).
Proof. vm_compute. reflexivity. Qed.

(** Numbers, one per line. *)
Fixpoint data_text (vs : list Z) : string :=
  match vs with [] => "" | v :: vs => show_int v +:+ nl +:+ data_text vs end.

Definition sum_list (vs : list Z) : Z := foldr Z.add 0 vs.

Lemma scan_number v t : in_i32 v -> scan_d (show_int v +:+ nl +:+ t) = Ok (Some (v, nl +:+ t)).
Proof. intros Hv. apply scan_printed; [unfold in_i32 in Hv; lia|reflexivity]. Qed.

Lemma scan_nl t : scan_d (nl +:+ t) = scan_d t.
Proof. reflexivity. Qed.

Lemma read_loop_sum vs : forall fuel pre sum count,
  (pre = "" \/ pre = nl) -> (length vs < fuel)%nat -> Forall in_i32 vs -> 0 <= count -> count + zlength vs < 2 ^ 31 ->
  in_u64 sum -> read_loop fuel (pre +:+ data_text vs) sum count = Ok (u64 (sum + sum_list vs), count + zlength vs).
Proof.
  induction vs as [|v vs IH]; intros [|fuel] pre sum count Hpre Hf Hv Hc Hl Hs; cbn [length] in *; try lia; cbn [read_loop].
  - assert (scan_d (pre +:+ data_text []) = Ok None) as -> by (by destruct Hpre as [-> | ->]). bind_simpl.
    unfold zlength, sum_list. cbn [foldr length]. rewrite Z.add_0_r, u64_id, Z.add_0_r by done. done.
  - apply Forall_cons in Hv as [Hv Hvs]. rewrite zlength_cons in Hl. pose proof (zlength_ge_0 vs).
    assert (scan_d (pre +:+ data_text (v :: vs)) = Ok (Some (v, nl +:+ data_text vs))) as ->
      by (destruct Hpre as [-> | ->]; by rewrite ?scan_nl; apply scan_number).
    bind_simpl. unfold i32_add. rewrite (proj2 (i32_range_spec (count + 1))) by (unfold_ints; lia). bind_simpl.
    rewrite IH; [|by right|lia|done|lia|lia|apply u64_range]. unfold sum_list. cbn [foldr]. rewrite zlength_cons.
    f_equal. f_equal; [|lia]. unfold u64. rewrite Zplus_mod_idemp_l, <- Z.add_assoc, (Z.add_comm (v mod _)), Z.add_assoc, Zplus_mod_idemp_r.
    f_equal. lia.
Qed.

Lemma read_sum_data vs :
  Forall in_i32 vs -> zlength vs < 2 ^ 31 -> read_sum (data_text vs) = Ok (u64 (sum_list vs), zlength vs).
Proof.
  intros Hv Hl. unfold read_sum. rewrite <- (sapp_nil_l (data_text vs)) at 2.
  rewrite read_loop_sum; [done|by left| |done|lia|lia|unfold_ints; lia].
  clear. induction vs as [|v vs IH]; [simpl; lia|]. cbn [data_text length]. rewrite !sapp_length. simpl. lia.
Qed.

(** The indices of a host of the cluster that the launch script makes. *)
Definition cluster_host (c : LinquCoordinate) : Prop :=
  0 <= l6_idx c /\ 0 <= l5_idx c < 16 /\ 0 <= l4_idx c < 4 /\ 0 <= l3_idx c < 16.

Definition dfs_value (c : LinquCoordinate) (sum count : Z) : json :=
  JObj [("global_l3", JNum (global_l3 (coord_to_C c))); ("l3_idx", JNum (l3_idx c)); ("l4_idx", JNum (l4_idx c));
        ("l5_idx", JNum (l5_idx c)); ("count", JNum count); ("local_sum", JNum sum)].

Lemma dfs_file_is_json c sum count : json_text (dfs_value c sum count) (dfs_text (coord_to_C c) sum count).
Proof.
  apply leaf_object. do 5 (apply leaf_member; [done|apply text_num|]). by apply leaf_last; [|apply text_num].
Qed.


(** Three numbers on host 3 of pod 1. *)
Definition dfs_host : LinquCoordinate := mkCoord 0 0 1 3 0 0 0.
Definition dfs_sample (path : string) : option string :=
  if String.eqb path "/tmp/lingqu_dfs/L3_19/data.txt" then Some (data_text [40; -1; 3]) else None.


(** ** Who a host says it is *)
Definition topo_value (pid : Z) (c : LinquCoordinate) : json :=
  JObj [("pid", JNum pid);
        ("coordinate", JObj [("l6", JNum (l6_idx c)); ("l5", JNum (l5_idx c)); ("l4", JNum (l4_idx c)); ("l3", JNum (l3_idx c))]);
        ("global_index", JNum (topo_index (coord_to_C c)))].

Lemma topo_file_is_json pid c : json_text (topo_value pid c) (topo_text pid (coord_to_C c)).
Proof.
  apply leaf_object. apply leaf_member; [done|apply text_num|]. apply leaf_member; [done| |by apply leaf_last; [|apply text_num]].
  unfold coord_to_C. cbn [c_l6_idx c_l5_idx c_l4_idx c_l3_idx].
  match goal with |- json_text _ ?t => replace t with ("{" +:+ ("" +:+ quoted "l6" +:+ ": " +:+ show_int (l6_idx c) +:+
    "," +:+ " " +:+ ("" +:+ quoted "l5" +:+ ": " +:+ show_int (l5_idx c) +:+
    "," +:+ " " +:+ ("" +:+ quoted "l4" +:+ ": " +:+ show_int (l4_idx c) +:+
    "," +:+ " " +:+ ("" +:+ quoted "l3" +:+ ": " +:+ show_int (l3_idx c) +:+ "")))) +:+ "}")
    by (rewrite <- !sapp_assoc; reflexivity) end.
  apply text_obj. do 3 (apply member_line; [done|done|apply text_num| |done]).
  apply member_last; [done|done|apply text_num|done].
Qed.

(** The identity kernel runs to its end on every node, and the file it writes
    says where it runs. *)
Theorem topo_writes_identity getenv pid opens level coord reg d :
  exists out, run_fresh level coord d reg (topo_L3_host getenv pid opens) = Ok (out, Some finished_leaf) /\
    forall path text, wrote out = Some (path, text) -> json_text (topo_value pid coord) text.
Proof.
  unfold topo_L3_host. rewrite run_self, run_logged, run_done. eexists. split; [reflexivity|].
  intros path text H. cbn [write_file wrote] in H. destruct (opens _); [|done]. injection H as _ <-.
  apply topo_file_is_json.
Qed.
