(* ===== verification/KernelAbi.v ===== *)
(** * The binary interface between the runtime and a kernel

    A kernel is compiled on its own: each file of [src/examples/*/kernels]
    repeats the declarations of
    [src/src/runtime/linqu_orchestration_api.h] that it uses, and calls the
    runtime through a table of function pointers at the offsets its own
    declaration gives.  Here: the layout of a struct and what is stored in its
    members; the declarations of the header and those of each kernel file; the
    table as [init] fills it; a call through a kernel's declaration.  The
    layout is the one of the 64-bit ABIs the project is built for: a member is
    aligned to its size, pointers have 8 bytes, integers are little-endian. *)

From S2P Require Import Prelude Bytes Coordinate OrchestrationApi KernelRuntime ExampleKernels LeafKernels.

(** ** Structs *)

Inductive scalar := UInt (size : Z) | SInt (size : Z) | Pointer.
Definition struct := list (string * scalar).

(** A type of an argument or a result; [...] is [Variadic]. *)
Inductive ctype := Void | Scalar (s : scalar) | Struct (fields : struct) | Variadic.
Record Signature := mkSignature { result : ctype; arguments : list ctype }.

#[export] Instance scalar_eq_dec : EqDecision scalar. Proof. solve_decision. Defined.
#[export] Instance ctype_eq_dec : EqDecision ctype. Proof. solve_decision. Defined.
#[export] Instance signature_eq_dec : EqDecision Signature. Proof. solve_decision. Defined.

Definition size_of (t : scalar) : Z := match t with UInt n | SInt n => n | Pointer => 8 end.

Definition align_up (pos a : Z) : Z := (pos + a - 1) / a * a.

(** Where a member is, and its size, in a struct that begins at [pos]. *)
Fixpoint member_from (pos : Z) (m : string) (fs : struct) : option (Z * Z) :=
  match fs with
  | [] => None
  | (n, t) :: fs =>
      let off := align_up pos (size_of t) in
      if String.eqb n m then Some (off, size_of t) else member_from (off + size_of t) m fs
  end.
Definition member (m : string) (fs : struct) : option (Z * Z) := member_from 0 m fs.

Fixpoint end_from (pos : Z) (fs : struct) : Z :=
  match fs with [] => pos | (_, t) :: fs => end_from (align_up pos (size_of t) + size_of t) fs end.
Fixpoint alignment (fs : struct) : Z :=
  match fs with [] => 1 | (_, t) :: fs => Z.max (size_of t) (alignment fs) end.
Definition sizeof (fs : struct) : Z := align_up (end_from 0 fs) (alignment fs).

(** ** What is stored in a struct *)

Definition le (n : nat) (v : Z) : list Z := rev (be n v).
Definition unle (bs : list Z) : Z := unbe (rev bs).

(** The bytes of a struct whose members have the values [vs]; the bytes between
    them are whatever [pad] says. *)
Fixpoint store_from (pad : Z -> Z) (pos : Z) (fs : struct) (vs : list Z) : list Z :=
  match fs, vs with
  | (_, t) :: fs, v :: vs =>
      let off := align_up pos (size_of t) in
      (pad <$> seqZ pos (off - pos)) ++ le (Z.to_nat (size_of t)) v ++
      store_from pad (off + size_of t) fs vs
  | _, _ => []
  end.
Definition store (pad : Z -> Z) (fs : struct) (vs : list Z) : list Z :=
  store_from pad 0 fs vs ++ (pad <$> seqZ (end_from 0 fs) (sizeof fs - end_from 0 fs)).

(** Reading the member [m] of the struct at [base].  A member that is not
    declared does not compile; here it is a fault. *)
Definition load (fs : struct) (img : list Z) (base : Z) (m : string) : outcome Z :=
  match member m fs with
  | None => Fault OutOfBounds
  | Some (off, n) => let! bs := peek img (base + off) n in Ok (unle bs)
  end.

(** ** Every member is read back *)

Definition sized (fs : struct) : Prop := Forall (fun '(_, t) => 0 < size_of t) fs.
Definition fits (f : string * scalar) (v : Z) : Prop := 0 <= v < 2 ^ (8 * size_of f.2).

Lemma align_up_ge pos a : 0 < a -> pos <= align_up pos a.
Proof. intros. unfold align_up. pose proof (Z.div_mod (pos + a - 1) a ltac:(lia)).
  pose proof (Z.mod_pos_bound (pos + a - 1) a). lia. Qed.

Lemma zlength_pad (pad : Z -> Z) pos n : 0 <= n -> zlength (pad <$> seqZ pos n) = n.
Proof. intros. rewrite zlength_fmap. unfold zlength. rewrite length_seqZ. lia. Qed.

Lemma zlength_le n v : zlength (le n v) = Z.of_nat n.
Proof. unfold le, zlength. rewrite length_rev, length_be. done. Qed.

Lemma unle_le n v : 0 <= v < 2 ^ (8 * Z.of_nat n) -> unle (le n v) = v.
Proof. intros. unfold unle, le. rewrite rev_involutive. by apply unbe_be. Qed.

Lemma end_from_ge fs : forall pos, sized fs -> pos <= end_from pos fs.
Proof.
  induction fs as [|[n t] fs IH]; intros pos Hs; simpl; [lia|].
  apply Forall_cons in Hs as [Ht Hs]. pose proof (align_up_ge pos (size_of t) Ht).
  specialize (IH (align_up pos (size_of t) + size_of t) Hs). lia.
Qed.

Lemma zlength_store_from pad fs vs : forall pos,
  sized fs -> Forall2 fits fs vs -> zlength (store_from pad pos fs vs) = end_from pos fs - pos.
Proof.
  intros pos Hs Hf. revert pos Hs. induction Hf as [|[n t] v fs vs _ _ IH]; intros pos Hs; simpl; [rewrite zlength_nil; lia|].
  apply Forall_cons in Hs as [Ht Hs]. pose proof (align_up_ge pos (size_of t) Ht).
  rewrite !zlength_app, zlength_pad, zlength_le, IH, Z2Nat.id by (done || lia). lia.
Qed.

Lemma alignment_pos fs : 0 < alignment fs.
Proof. induction fs as [|[n t] fs IH]; simpl; lia. Qed.

Lemma zlength_store pad fs vs :
  sized fs -> Forall2 fits fs vs -> zlength (store pad fs vs) = sizeof fs.
Proof.
  intros Hs Hf. unfold store. pose proof (align_up_ge (end_from 0 fs) (alignment fs) (alignment_pos fs)).
  rewrite zlength_app, zlength_store_from, zlength_pad by (done || (unfold sizeof; lia)). lia.
Qed.

(** The bytes at the offset of a member are those of its value. *)
Lemma peek_member pad fs vs i n t v : forall pos pre post,
  sized fs -> NoDup fs.*1 -> Forall2 fits fs vs -> fs !! i = Some (n, t) -> vs !! i = Some v ->
  exists off, member_from pos n fs = Some (off, size_of t) /\
    forall base, zlength pre = base + pos ->
      peek (pre ++ store_from pad pos fs vs ++ post) (base + off) (size_of t) =
      Ok (le (Z.to_nat (size_of t)) v).
Proof.
  revert fs vs. induction i as [|i IH]; intros [|[n0 t0] fs] [|v0 vs] pos pre post Hs Hnd Hf Hi Hv;
    try discriminate; apply Forall_cons in Hs as [Ht Hs]; simpl in *;
    pose proof (align_up_ge pos (size_of t0) Ht) as Hup.
  - simplify_eq. rewrite String.eqb_refl. eexists. split; [done|]. intros base Hb.
    rewrite peek_skip by lia. rewrite <- app_assoc, peek_skip by (rewrite zlength_pad; lia).
    rewrite <- app_assoc. apply peek_here; [rewrite zlength_pad; lia|]. rewrite zlength_le. lia.
  - apply NoDup_cons in Hnd as [Hn0 Hnd]. apply Forall2_cons in Hf as [_ Hf].
    assert (n0 <> n) as Hne%String.eqb_neq.
    { intros ->. apply Hn0, list_elem_of_fmap. exists (n, t). split; [done|]. by eapply list_elem_of_lookup_2. }
    rewrite Hne.
    destruct (IH fs vs (align_up pos (size_of t0) + size_of t0)
      (pre ++ (pad <$> seqZ pos (align_up pos (size_of t0) - pos)) ++ le (Z.to_nat (size_of t0)) v0)
      post Hs Hnd Hf Hi Hv) as (off & Hoff & Hpk).
    exists off. split; [done|]. intros base Hb. rewrite <- (Hpk base).
    + by rewrite <- !app_assoc.
    + rewrite !zlength_app, zlength_pad, zlength_le by lia. lia.
Qed.

(** Reading a member of a stored struct, wherever the struct is. *)
Lemma load_store pad fs vs i n t v pre post :
  sized fs -> NoDup fs.*1 -> Forall2 fits fs vs -> fs !! i = Some (n, t) -> vs !! i = Some v ->
  load fs (pre ++ store pad fs vs ++ post) (zlength pre) n = Ok v.
Proof.
  intros Hs Hnd Hf Hi Hv. unfold load, member, store.
  destruct (peek_member pad fs vs i n t v 0 pre
    ((pad <$> seqZ (end_from 0 fs) (sizeof fs - end_from 0 fs)) ++ post) Hs Hnd Hf Hi Hv) as (off & -> & Hpk).
  rewrite <- app_assoc. rewrite Hpk by lia. cbn [mbind outcome_bind]. rewrite unle_le; [done|].
  pose proof (Forall2_lookup_lr _ _ _ _ _ _ Hf Hi Hv) as Hr. unfold fits in Hr. simpl in Hr.
  assert (0 < size_of t) by (eapply Forall_lookup in Hs as Hp; [|exact Hi]; done).
  rewrite Z2Nat.id by lia. done.
Qed.

(** ** The declarations of the header *)

Definition u8_t : ctype := Scalar (UInt 1).
Definition u64_t : ctype := Scalar (UInt 8).
Definition int_t : ctype := Scalar (SInt 4).
Definition ptr_t : ctype := Scalar Pointer.

Definition LinquCoordinate_C_fields : struct :=
  [("l6_idx", UInt 1); ("l5_idx", UInt 1); ("l4_idx", UInt 1); ("l3_idx", UInt 2); ("l2_idx", UInt 2);
   ("l1_idx", UInt 1); ("l0_idx", UInt 2)].
Definition LinquParam_fields : struct :=
  [("type", UInt 4); ("handle", UInt 8); ("scalar_value", UInt 8)].
Definition LinquPeerList_fields : struct := [("peers", Pointer); ("count", SInt 4)].
Definition LinquOrchConfig_fields : struct :=
  [("level", UInt 1); ("expected_arg_count", SInt 4); ("role", UInt 1)].

Definition LINQU_ROLE_ORCHESTRATOR : Z := 0.
Definition LINQU_ROLE_WORKER : Z := 1.

Definition op_table := list (string * Signature).
Definition LinquRuntimeOps : op_table :=
  let coord := Struct LinquCoordinate_C_fields in
  [("submit_task", mkSignature Void [ptr_t; coord; ptr_t; ptr_t; int_t]);
   ("scope_begin", mkSignature Void [ptr_t]);
   ("scope_end", mkSignature Void [ptr_t]);
   ("alloc_tensor", mkSignature u64_t [ptr_t; coord; u64_t]);
   ("free_tensor", mkSignature Void [ptr_t; u64_t]);
   ("orchestration_done", mkSignature Void [ptr_t]);
   ("reg_data", mkSignature u64_t [ptr_t; coord; ptr_t; u64_t]);
   ("query_peers", mkSignature (Struct LinquPeerList_fields) [ptr_t; u8_t]);
   ("self_coord", mkSignature coord [ptr_t]);
   ("wait_all", mkSignature Void [ptr_t]);
   ("dump_ring_snapshot", mkSignature Void [ptr_t; ptr_t]);
   ("log_error", mkSignature Void [ptr_t; ptr_t; Variadic]);
   ("log_warn", mkSignature Void [ptr_t; ptr_t; Variadic]);
   ("log_info", mkSignature Void [ptr_t; ptr_t; Variadic]);
   ("log_debug", mkSignature Void [ptr_t; ptr_t; Variadic]);
   ("get_tensor_pool", mkSignature ptr_t [ptr_t]);
   ("submit_task_group", mkSignature Void [ptr_t; ptr_t; ptr_t; int_t; ptr_t; int_t])].

(** ** The declarations of the kernels *)

Record KernelFile := mkKernelFile {
  so_file : string;
  decl_coordinate : struct;
  decl_param : option struct;
  decl_peer_list : option struct;
  decl_config : struct;
  decl_ops : op_table;
  (** What [linqu_orch_config] returns, member by member. *)
  orch_config : list Z;
}.

(** The table as the kernel files declare it; they differ in the result of
    [query_peers]. *)
Definition kernel_ops (coord query_result : ctype) : op_table :=
  [("submit_task", mkSignature Void [ptr_t; coord; ptr_t; ptr_t; int_t]);
   ("scope_begin", mkSignature Void [ptr_t]);
   ("scope_end", mkSignature Void [ptr_t]);
   ("alloc_tensor", mkSignature u64_t [ptr_t; coord; u64_t]);
   ("free_tensor", mkSignature Void [ptr_t; u64_t]);
   ("orchestration_done", mkSignature Void [ptr_t]);
   ("reg_data", mkSignature u64_t [ptr_t; coord; ptr_t; u64_t]);
   ("query_peers", mkSignature query_result [ptr_t; u8_t]);
   ("self_coord", mkSignature coord [ptr_t]);
   ("wait_all", mkSignature Void [ptr_t]);
   ("dump_ring_snapshot", mkSignature Void [ptr_t; ptr_t]);
   ("log_error", mkSignature Void [ptr_t; ptr_t; Variadic]);
   ("log_warn", mkSignature Void [ptr_t; ptr_t; Variadic]);
   ("log_info", mkSignature Void [ptr_t; ptr_t; Variadic]);
   ("log_debug", mkSignature Void [ptr_t; ptr_t; Variadic]);
   ("get_tensor_pool", mkSignature ptr_t [ptr_t])].

(** The coordinate is declared alike in all of them, apart from the line
    breaks. *)
Definition kernel_coordinate : struct :=
  [("l6_idx", UInt 1); ("l5_idx", UInt 1); ("l4_idx", UInt 1); ("l3_idx", UInt 2); ("l2_idx", UInt 2);
   ("l1_idx", UInt 1); ("l0_idx", UInt 2)].
Definition kernel_config : struct :=
  [("level", UInt 1); ("expected_arg_count", SInt 4); ("role", UInt 1)].

(** The dispatch kernels: one text but for the level. *)
Definition dispatch_file (name : string) (level : Z) : KernelFile :=
  let peer_list := [("peers", Pointer); ("count", SInt 4)] in
  mkKernelFile name kernel_coordinate
    (Some [("type", SInt 4); ("handle", UInt 8); ("scalar_value", UInt 8)]) (Some peer_list) kernel_config
    (kernel_ops (Struct kernel_coordinate) (Struct peer_list)) [level; 0; 0].

(** The kernels of level 3 do not use peers and declare that [query_peers]
    returns a pointer. *)
Definition leaf_file (name : string) (config : list Z) : KernelFile :=
  mkKernelFile name kernel_coordinate None None kernel_config
    (kernel_ops (Struct kernel_coordinate) ptr_t) config.

Definition topo_L4_pod_file : KernelFile := dispatch_file "topo_L4_pod.so" 4.
Definition topo_L5_clos1_file : KernelFile := dispatch_file "topo_L5_clos1.so" 5.
Definition topo_L6_clos2_file : KernelFile := dispatch_file "topo_L6_clos2.so" 6.
Definition dag_L4_dispatch_file : KernelFile := dispatch_file "dag_L4_dispatch.so" 4.
Definition dag_L5_dispatch_file : KernelFile := dispatch_file "dag_L5_dispatch.so" 5.
Definition dag_L6_dispatch_file : KernelFile := dispatch_file "dag_L6_dispatch.so" 6.
Definition ring_L4_stress_file : KernelFile := dispatch_file "ring_L4_stress.so" 4.
Definition ring_L5_stress_file : KernelFile := dispatch_file "ring_L5_stress.so" 5.
Definition topo_L3_host_file : KernelFile := leaf_file "topo_L3_host.so" [3; 0; 0].
Definition dag_L3_compute_file : KernelFile := leaf_file "dag_L3_compute.so" [3; 0; 0].
Definition ring_L3_stress_file : KernelFile := leaf_file "ring_L3_stress.so" [3; 0; 0].
(** [cfg.role = 1] *)
Definition dfs_orch_config : list Z := [3; 0; 1].
Definition dfs_L3_reader_file : KernelFile := leaf_file "dfs_L3_reader.so" dfs_orch_config.

Definition dispatch_files : list KernelFile :=
  [topo_L4_pod_file; topo_L5_clos1_file; topo_L6_clos2_file; dag_L4_dispatch_file; dag_L5_dispatch_file;
   dag_L6_dispatch_file; ring_L4_stress_file; ring_L5_stress_file].
Definition leaf_files : list KernelFile :=
  [topo_L3_host_file; dag_L3_compute_file; ring_L3_stress_file; dfs_L3_reader_file].

(** ** The table in memory *)

(** The functions of [linqu_orchestrator_state.cpp] that the table points to. *)
Inductive OpFn :=
  | fn_submit_task | fn_scope_begin | fn_scope_end | fn_alloc_tensor | fn_free_tensor | fn_done
  | fn_reg_data | fn_query_peers | fn_self_coord | fn_wait_all | fn_dump_snap | fn_log_impl
  | fn_get_pool | fn_submit_task_group.
#[export] Instance op_fn_eq_dec : EqDecision OpFn. Proof. solve_decision. Defined.

Definition fn_signature (f : OpFn) : Signature :=
  let coord := Struct LinquCoordinate_C_fields in
  match f with
  | fn_submit_task => mkSignature Void [ptr_t; coord; ptr_t; ptr_t; int_t]
  | fn_scope_begin | fn_scope_end | fn_done | fn_wait_all => mkSignature Void [ptr_t]
  | fn_alloc_tensor => mkSignature u64_t [ptr_t; coord; u64_t]
  | fn_free_tensor => mkSignature Void [ptr_t; u64_t]
  | fn_reg_data => mkSignature u64_t [ptr_t; coord; ptr_t; u64_t]
  | fn_query_peers => mkSignature (Struct LinquPeerList_fields) [ptr_t; u8_t]
  | fn_self_coord => mkSignature coord [ptr_t]
  | fn_dump_snap => mkSignature Void [ptr_t; ptr_t]
  | fn_log_impl => mkSignature Void [ptr_t; ptr_t; Variadic]
  | fn_get_pool => mkSignature ptr_t [ptr_t]
  | fn_submit_task_group => mkSignature Void [ptr_t; ptr_t; ptr_t; int_t; ptr_t; int_t]
  end.

(** The assignments [ops_.m = f] of [init]. *)
Definition ops_assignments : list (string * OpFn) :=
  [("submit_task", fn_submit_task); ("scope_begin", fn_scope_begin); ("scope_end", fn_scope_end);
   ("alloc_tensor", fn_alloc_tensor); ("free_tensor", fn_free_tensor); ("orchestration_done", fn_done);
   ("reg_data", fn_reg_data); ("query_peers", fn_query_peers); ("self_coord", fn_self_coord);
   ("wait_all", fn_wait_all); ("dump_ring_snapshot", fn_dump_snap); ("log_error", fn_log_impl);
   ("log_warn", fn_log_impl); ("log_info", fn_log_impl); ("log_debug", fn_log_impl);
   ("get_tensor_pool", fn_get_pool); ("submit_task_group", fn_submit_task_group)].

Definition table_struct (ops : op_table) : struct := (fun '(m, _) => (m, Pointer)) <$> ops.

(** The word of the table that a declaration gives to a member. *)
Definition slot (ops : op_table) (m : string) : outcome Z :=
  match member m (table_struct ops) with Some (off, _) => Ok (off / 8) | None => Fault OutOfBounds end.

Definition assign (table : outcome (list (option OpFn))) (a : string * OpFn)
    : outcome (list (option OpFn)) :=
  let! table := table in
  let! i := slot LinquRuntimeOps a.1 in
  vec_set table i (Some a.2).

(** [memset(&ops_, 0, sizeof(ops_))] and the assignments. *)
Definition filled_ops : outcome (list (option OpFn)) :=
  foldl assign (Ok (replicate (Z.to_nat (sizeof (table_struct LinquRuntimeOps) / 8)) None)) ops_assignments.

(** ** A call through a declaration of the table *)

Inductive LogLevel := LOG_ERROR | LOG_WARN | LOG_INFO | LOG_DEBUG.

(** The member a call names; a kernel can log at any level. *)
Definition member_of (log : string -> LogLevel) (c : RtCall) : string :=
  match c with
  | CallSubmitTask _ _ _ => "submit_task"
  | CallScopeBegin => "scope_begin"
  | CallScopeEnd => "scope_end"
  | CallAllocTensor _ _ => "alloc_tensor"
  | CallFreeTensor _ => "free_tensor"
  | CallDone => "orchestration_done"
  | CallRegData _ _ => "reg_data"
  | CallQueryPeers _ => "query_peers"
  | CallSelfCoord => "self_coord"
  | CallWaitAll => "wait_all"
  | CallDumpSnapshot _ => "dump_ring_snapshot"
  | CallLog text => match log text with
                    | LOG_ERROR => "log_error" | LOG_WARN => "log_warn"
                    | LOG_INFO => "log_info" | LOG_DEBUG => "log_debug" end
  | CallGetTensorPool => "get_tensor_pool"
  | CallSubmitTaskGroup _ _ _ => "submit_task_group"
  end.

(** The function whose body [rt_call] gives for a call. *)
Definition op_of (c : RtCall) : OpFn :=
  match c with
  | CallSubmitTask _ _ _ => fn_submit_task
  | CallScopeBegin => fn_scope_begin
  | CallScopeEnd => fn_scope_end
  | CallAllocTensor _ _ => fn_alloc_tensor
  | CallFreeTensor _ => fn_free_tensor
  | CallDone => fn_done
  | CallRegData _ _ => fn_reg_data
  | CallQueryPeers _ => fn_query_peers
  | CallSelfCoord => fn_self_coord
  | CallWaitAll => fn_wait_all
  | CallDumpSnapshot _ => fn_dump_snap
  | CallLog _ => fn_log_impl
  | CallGetTensorPool => fn_get_pool
  | CallSubmitTaskGroup _ _ _ => fn_submit_task_group
  end.

(** Calling the function [f] with the arguments of [c] and the types of [sig];
    a function called with other arguments or types than its own is undefined. *)
Definition run_op (f : OpFn) (sig : Signature) (rt : nat) (c : RtCall) (e : CallEnv) (th : Thread)
    : outcome (Thread * reply c) :=
  if bool_decide (f = op_of c) && bool_decide (sig = fn_signature f) then rt_call rt c e th
  else Fault OutOfBounds.

Fixpoint signature_of (m : string) (ops : op_table) : option Signature :=
  match ops with
  | [] => None
  | (n, sig) :: ops => if String.eqb n m then Some sig else signature_of m ops
  end.

(** [rt->ops->m(rt, ...)], compiled with the declaration [ops] of the table. *)
Definition rt_call_via (ops : op_table) (log : string -> LogLevel) (rt : nat) (c : RtCall) (e : CallEnv)
    (th : Thread) : outcome (Thread * reply c) :=
  let! o := deref (objects th) rt in
  if negb (rt_ops o) then Fault NullPointer else
  let! table := filled_ops in
  let m := member_of log c in
  let! i := slot ops m in
  let! f := vec_get table i in
  match f, signature_of m ops with
  | Some f, Some sig => run_op f sig rt c e th
  | _, _ => Fault NullPointer
  end.

(** A kernel run through its own declaration of the table. *)
Fixpoint run_via {A} (ops : op_table) (log : string -> LogLevel) (m : kernel A) (rt : nat)
    (env : nat -> CallEnv) (n : nat) (th : Thread) : outcome (Thread * A) :=
  match m with
  | Ret a => Ok (th, a)
  | Do c k => let! (th, r) := rt_call_via ops log rt c (env n) th in run_via ops log (k r) rt env (S n) th
  end.

(** ** The list of peers in memory *)

(** The values of the members of a coordinate, in the order of the header. *)
Definition coordinate_values (c : LinquCoordinate_C) : list Z :=
  [c_l6_idx c; c_l5_idx c; c_l4_idx c; c_l3_idx c; c_l2_idx c; c_l1_idx c; c_l0_idx c].

Definition store_coordinate (pad : Z -> Z) (c : LinquCoordinate_C) : list Z :=
  store pad LinquCoordinate_C_fields (coordinate_values c).

(** The end of [op_query_peers]: the result and the block [malloc] returned at
    [p], for the peers it found. *)
Definition peer_list_result (pad : Z -> Z) (p : Z) (cs : list LinquCoordinate_C)
    : list Z * option (list Z) :=
  match cs with
  | [] => (store pad LinquPeerList_fields [0; 0], None)
  | _ => (store pad LinquPeerList_fields [p; u32 (zlength cs)], Some (concat (store_coordinate pad <$> cs)))
  end.

(** A coordinate read through a declaration. *)
Definition load_coordinate (fs : struct) (block : list Z) (base : Z) : outcome LinquCoordinate_C :=
  let! a6 := load fs block base "l6_idx" in
  let! a5 := load fs block base "l5_idx" in
  let! a4 := load fs block base "l4_idx" in
  let! a3 := load fs block base "l3_idx" in
  let! a2 := load fs block base "l2_idx" in
  let! a1 := load fs block base "l1_idx" in
  let! a0 := load fs block base "l0_idx" in
  Ok (mkCoord_C a6 a5 a4 a3 a2 a1 a0).

(** [peers.peers[i]] for [n] indices from [i] on. *)
Fixpoint load_peers (fs : struct) (block : list Z) (n : nat) (i : Z) : outcome (list LinquCoordinate_C) :=
  match n with
  | O => Ok []
  | S n =>
      let! c := load_coordinate fs block (i * sizeof fs) in
      let! cs := load_peers fs block n (i + 1) in
      Ok (c :: cs)
  end.

(** The peers a dispatch kernel submits to, read through its declarations from
    the result of [query_peers]. *)
Definition kernel_peers (coord peer_list : struct) (res : list Z) (heap : Z -> option (list Z))
    : outcome (list LinquCoordinate_C) :=
  let! count := load peer_list res 0 "count" in
  if i32 count <=? 0 then Ok [] else
  let! p := load peer_list res 0 "peers" in
  match heap p with
  | Some block => load_peers coord block (Z.to_nat (i32 count)) 0
  | None => Fault NullPointer
  end.

(** What the daemon would read of [linqu_orch_config] with the header. *)
Definition read_config (k : KernelFile) (pad : Z -> Z) : outcome (Z * Z * Z) :=
  let img := store pad (decl_config k) (orch_config k) in
  let! level := load LinquOrchConfig_fields img 0 "level" in
  let! expected := load LinquOrchConfig_fields img 0 "expected_arg_count" in
  let! role := load LinquOrchConfig_fields img 0 "role" in
  Ok (level, i32 expected, role).

(** ** Calls reach the functions they name *)

(** The calls a kernel file can make with a declaration that is right. *)
Definition callable (k : KernelFile) (c : RtCall) : bool :=
  match c with
  | CallSubmitTaskGroup _ _ _ => false
  | CallQueryPeers _ => bool_decide (is_Some (decl_peer_list k))
  | _ => true
  end.

Definition the_table : list (option OpFn) :=
  Some <$> [fn_submit_task; fn_scope_begin; fn_scope_end; fn_alloc_tensor; fn_free_tensor; fn_done;
    fn_reg_data; fn_query_peers; fn_self_coord; fn_wait_all; fn_dump_snap; fn_log_impl; fn_log_impl;
    fn_log_impl; fn_log_impl; fn_get_pool; fn_submit_task_group].

(** The assignments fill every word of the table. *)
Lemma filled_ops_eq : filled_ops = Ok the_table.
Proof. vm_compute. reflexivity. Qed.

(** What a declaration finds in the table, and the type it gives it. *)
Definition resolves (ops : op_table) (m : string) (f : OpFn) : bool :=
  match slot ops m, signature_of m ops with
  | Ok i, Some sig => bool_decide (vec_get the_table i = Ok (Some f)) && bool_decide (sig = fn_signature f)
  | _, _ => false
  end.

Lemma resolves_all k log c :
  k ∈ dispatch_files ++ leaf_files -> callable k c = true -> resolves (decl_ops k) (member_of log c) (op_of c) = true.
Proof.
  intros Hk Hc. cbn [dispatch_files leaf_files app] in Hk.
  repeat (apply elem_of_cons in Hk as [->|Hk]; [destruct c; simpl member_of;
    try destruct (log _); try discriminate Hc; vm_compute; reflexivity|]).
  by apply elem_of_nil in Hk.
Qed.

Lemma rt_call_via_eq k log rt c e th :
  k ∈ dispatch_files ++ leaf_files -> callable k c = true ->
  rt_call_via (decl_ops k) log rt c e th = rt_call rt c e th.
Proof.
  intros Hk Hc. pose proof (resolves_all k log c Hk Hc) as Hr.
  assert (Hbad : forall f, deref (objects th) rt = Fault f -> rt_call rt c e th = Fault f)
    by (intros f Hf; unfold rt_call; by rewrite Hf).
  assert (Hnull : forall o, deref (objects th) rt = Ok o -> negb (rt_ops o) = true -> rt_call rt c e th = Fault NullPointer)
    by (intros o Ho Hn; unfold rt_call; rewrite Ho; cbn [mbind outcome_bind]; by rewrite Hn).
  unfold rt_call_via. rewrite filled_ops_eq. unfold resolves in Hr.
  destruct (deref (objects th) rt) as [o|f]; [|by rewrite Hbad with f].
  cbn [mbind outcome_bind]. destruct (negb (rt_ops o)) eqn:Ho; [by rewrite Hnull with o|].
  destruct (slot _ _) as [i|]; [|done]. destruct (signature_of _ _) as [sig|]; [|done].
  apply andb_true_iff in Hr as [Hi%bool_decide_eq_true Hs]. cbn [mbind outcome_bind]. rewrite Hi.
  cbn [mbind outcome_bind]. unfold run_op. by rewrite bool_decide_true, Hs.
Qed.

(** ** The calls a kernel can make *)
Inductive uses {A} (P : RtCall -> bool) : kernel A -> Prop :=
  | uses_ret a : uses P (Ret a)
  | uses_do c k : P c = true -> (forall r, uses P (k r)) -> uses P (Do c k).

Lemma uses_bind {A B} P (m : kernel A) (f : A -> kernel B) :
  uses P m -> (forall a, uses P (f a)) -> uses P (kernel_bind m f).
Proof. intros Hm Hf. induction Hm; simpl; [done|]. by constructor. Qed.

Lemma uses_call P c : P c = true -> uses P (do_call c).
Proof. intros. constructor; [done|]. intros. constructor. Qed.

Lemma uses_for_loop {A} P n (body : Z -> A -> kernel A) : forall i a,
  (forall i a, uses P (body i a)) -> uses P (for_loop n i body a).
Proof.
  induction n as [|n IH]; intros i a Hb; [constructor|].
  apply uses_bind; [done|]. intros b. by apply IH.
Qed.

Lemma uses_submit_to P so peers :
  (forall t, P (CallSubmitTask t (Some so) []) = true) -> uses P (submit_to so peers).
Proof.
  intros HP. induction peers; [constructor|]. apply uses_bind; [by apply uses_call|done].
Qed.

(** One step along the text of a kernel. *)
Ltac uses_step :=
  lazymatch goal with
  | |- uses _ (Ret _) => apply uses_ret
  | |- uses ?P (do_call ?c) => exact (uses_call P c eq_refl)
  | |- uses _ (kernel_bind _ _) => apply uses_bind; [|intros ?]
  | |- uses _ (for_loop _ _ _ _) => apply uses_for_loop; intros ? ?
  | |- uses _ (submit_to _ _) => apply uses_submit_to; intros ?; reflexivity
  | |- uses _ (if ?b then _ else _) => destruct b
  | |- uses _ (match ?x with _ => _ end) => destruct x
  end.
Ltac uses := cbv zeta; repeat uses_step.

Lemma run_via_eq {A} k log (m : kernel A) rt env : k ∈ dispatch_files ++ leaf_files ->
  uses (callable k) m -> forall n th, run_via (decl_ops k) log m rt env n th = run m rt env n th.
Proof.
  intros Hk Hm. induction Hm as [a|c kont Hc _ IH]; intros n th; [done|].
  simpl. rewrite rt_call_via_eq by done. destruct (rt_call _ _ _ _) as [[th' r]|]; [|done]. apply IH.
Qed.

Lemma uses_dispatch_kernel k child so before after :
  k ∈ dispatch_files -> uses (callable k) (dispatch_kernel child so before after).
Proof.
  intros Hk. assert (Hp : is_Some (decl_peer_list k)).
  { cbn [dispatch_files] in Hk. repeat (apply elem_of_cons in Hk as [->|Hk]; [by eexists|]).
    by apply elem_of_nil in Hk. }
  unfold dispatch_kernel. apply uses_bind; [apply uses_call; simpl; by apply bool_decide_eq_true|].
  intros peers. uses.
Qed.

(** A leaf kernel asks for its coordinate, allocates, frees, opens and closes
    scopes, logs and ends. *)
Definition leaf_call (c : RtCall) : bool :=
  match c with
  | CallSelfCoord | CallScopeBegin | CallScopeEnd | CallAllocTensor _ _ | CallFreeTensor _ | CallLog _
  | CallDone => true
  | _ => false
  end.

Lemma uses_leaf {A} k (m : kernel A) : uses leaf_call m -> uses (callable k) m.
Proof. induction 1 as [|c kont Hc _ IH]; constructor; [by destruct c|done]. Qed.

Lemma uses_topo getenv pid opens : uses leaf_call (topo_L3_host getenv pid opens).
Proof. unfold topo_L3_host. uses. Qed.

Lemma uses_dag getenv pid opens : uses leaf_call (dag_L3_compute getenv pid opens).
Proof. unfold dag_L3_compute, dag_alloc, dag_check. uses. Qed.

Lemma uses_ring : uses leaf_call ring_L3_stress.
Proof. unfold ring_L3_stress, stress_iteration, stress_scope. uses. Qed.

Lemma uses_dfs getenv opens file : uses leaf_call (dfs_L3_reader getenv opens file).
Proof. unfold dfs_L3_reader. uses. Qed.

(** C23.  The tables agree.  Each of the twelve kernel files was compiled with
    a declaration of the function table of its own; every call it makes of the
    table that [init] fills, at the offset its own declaration gives, calls the
    function of that name with arguments and result of the types it has: run
    through its declarations, the kernel does what it does when each call is
    the operation it names, on whatever thread, environment and object. *)
Theorem example_kernels_run_through_tables log getenv pid opens files rt env n th :
  let via {A} (k : KernelFile) (m : kernel A) := run_via (decl_ops k) log m rt env n th in
  let direct {A} (m : kernel A) := run m rt env n th in
  via topo_L4_pod_file topo_L4_pod = direct topo_L4_pod /\
  via topo_L5_clos1_file topo_L5_clos1 = direct topo_L5_clos1 /\
  via topo_L6_clos2_file topo_L6_clos2 = direct topo_L6_clos2 /\
  via dag_L4_dispatch_file dag_L4_dispatch = direct dag_L4_dispatch /\
  via dag_L5_dispatch_file dag_L5_dispatch = direct dag_L5_dispatch /\
  via dag_L6_dispatch_file dag_L6_dispatch = direct dag_L6_dispatch /\
  via ring_L4_stress_file ring_L4_stress = direct ring_L4_stress /\
  via ring_L5_stress_file ring_L5_stress = direct ring_L5_stress /\
  via topo_L3_host_file (topo_L3_host getenv pid opens) = direct (topo_L3_host getenv pid opens) /\
  via dag_L3_compute_file (dag_L3_compute getenv pid opens) = direct (dag_L3_compute getenv pid opens) /\
  via ring_L3_stress_file ring_L3_stress = direct ring_L3_stress /\
  via dfs_L3_reader_file (dfs_L3_reader getenv opens files) = direct (dfs_L3_reader getenv opens files).
Proof.
  cbv zeta. split_and!;
    (apply run_via_eq; [unfold dispatch_files, leaf_files; set_solver|]);
    try (apply uses_dispatch_kernel; unfold dispatch_files; set_solver);
    apply uses_leaf; auto using uses_topo, uses_dag, uses_ring, uses_dfs.
Qed.

(** The one mismatch: on level 3 [query_peers] is declared to return a pointer
    and returns a struct; no kernel of level 3 calls it, and one that did would
    call a function through a pointer of another type. *)
Lemma leaf_query_peers_undefined k log rt level e th o :
  k ∈ leaf_files -> objects th !! rt = Some o -> rt_ops o = true ->
  rt_call_via (decl_ops k) log rt (CallQueryPeers level) e th = Fault OutOfBounds.
Proof.
  intros Hk Ho Ht. unfold rt_call_via, deref. rewrite Ho, filled_ops_eq. cbn [mbind outcome_bind]. rewrite Ht.
  cbn [leaf_files] in Hk.
  repeat (apply elem_of_cons in Hk as [->|Hk]; [vm_compute; reflexivity|]).
  by apply elem_of_nil in Hk.
Qed.

(** The configuration a kernel returns, read with the header: the level of its
    file name, no arguments, and the role: the kernels of level 3 but one say
    [ORCHESTRATOR]. *)
Lemma kernel_configs pad :
  (fun k => read_config k pad) <$> dispatch_files =
    (fun level => Ok (level, 0, LINQU_ROLE_ORCHESTRATOR)) <$> [4; 5; 6; 4; 5; 6; 4; 5] /\
  (fun k => read_config k pad) <$> leaf_files =
    (fun role => Ok (3, 0, role)) <$>
      [LINQU_ROLE_ORCHESTRATOR; LINQU_ROLE_ORCHESTRATOR; LINQU_ROLE_ORCHESTRATOR; LINQU_ROLE_WORKER].
Proof. split; vm_compute; reflexivity. Qed.

(** ** Peers *)

Lemma coordinate_fields_ok :
  sized LinquCoordinate_C_fields /\ NoDup LinquCoordinate_C_fields.*1 /\ sizeof LinquCoordinate_C_fields = 12.
Proof.
  split_and!; [repeat constructor; simpl; lia| |reflexivity].
  apply (bool_decide_unpack _). vm_compute. exact I.
Qed.

Lemma coordinate_fits c : coord_ok (coord_of_C c) -> Forall2 fits LinquCoordinate_C_fields (coordinate_values c).
Proof.
  intros (H6 & H5 & H4 & H3 & H2 & H1 & H0). unfold_ints. simpl in *.
  repeat constructor; unfold fits; simpl; lia.
Qed.

Lemma load_coordinate_store pad c pre post : coord_ok (coord_of_C c) ->
  load_coordinate LinquCoordinate_C_fields (pre ++ store_coordinate pad c ++ post) (zlength pre) = Ok c.
Proof.
  intros Hc%coordinate_fits. destruct coordinate_fields_ok as (Hs & Hnd & _).
  unfold load_coordinate, store_coordinate.
  rewrite (load_store _ _ _ 0 "l6_idx" (UInt 1) (c_l6_idx c)) by done. cbn [mbind outcome_bind].
  rewrite (load_store _ _ _ 1 "l5_idx" (UInt 1) (c_l5_idx c)) by done. cbn [mbind outcome_bind].
  rewrite (load_store _ _ _ 2 "l4_idx" (UInt 1) (c_l4_idx c)) by done. cbn [mbind outcome_bind].
  rewrite (load_store _ _ _ 3 "l3_idx" (UInt 2) (c_l3_idx c)) by done. cbn [mbind outcome_bind].
  rewrite (load_store _ _ _ 4 "l2_idx" (UInt 2) (c_l2_idx c)) by done. cbn [mbind outcome_bind].
  rewrite (load_store _ _ _ 5 "l1_idx" (UInt 1) (c_l1_idx c)) by done. cbn [mbind outcome_bind].
  rewrite (load_store _ _ _ 6 "l0_idx" (UInt 2) (c_l0_idx c)) by done. by destruct c.
Qed.

Lemma load_peers_store pad cs : forall pre post i,
  Forall (coord_ok ∘ coord_of_C) cs -> zlength pre = i * 12 ->
  load_peers LinquCoordinate_C_fields (pre ++ concat (store_coordinate pad <$> cs) ++ post) (length cs) i = Ok cs.
Proof.
  destruct coordinate_fields_ok as (Hs & Hnd & Hsize).
  induction cs as [|c cs IH]; intros pre post i Hcs Hpre; [done|].
  apply Forall_cons in Hcs as [Hc Hcs]. cbn [length load_peers fmap list_fmap concat].
  rewrite Hsize, <- Hpre, <- app_assoc, load_coordinate_store by done. cbn [mbind outcome_bind].
  rewrite app_assoc, IH; [done|done|]. rewrite zlength_app. unfold store_coordinate.
  rewrite zlength_store by (done || by apply coordinate_fits). rewrite Hsize. lia.
Qed.

(** C24.  A dispatch kernel sees the peers the runtime found.  The list that
    [op_query_peers] builds in a block from [malloc], with the layout of the
    header and anything in its padding, is read by each of the dispatch
    kernels, with the layout of its own declarations, as the same coordinates
    in the same order and without leaving the block. *)
Theorem dispatch_kernels_read_peers k pad p cs heap :
  k ∈ dispatch_files -> Forall (coord_ok ∘ coord_of_C) cs -> zlength cs < 2 ^ 31 -> in_u64 p ->
  let '(res, block) := peer_list_result pad p cs in
  (forall b, block = Some b -> heap p = Some b) ->
  exists peer_list, decl_peer_list k = Some peer_list /\
    kernel_peers (decl_coordinate k) peer_list res heap = Ok cs.
Proof.
  intros Hk Hcs Hn Hp.
  assert (Hd : decl_coordinate k = LinquCoordinate_C_fields /\ decl_peer_list k = Some LinquPeerList_fields).
  { cbn [dispatch_files] in Hk. repeat (apply elem_of_cons in Hk as [->|Hk]; [done|]). by apply elem_of_nil in Hk. }
  destruct Hd as [-> Hpl].
  assert (Hload : forall q n m i t v, 0 <= q < 2 ^ 64 -> 0 <= n < 2 ^ 32 ->
    LinquPeerList_fields !! i = Some (m, t) -> [q; n] !! i = Some v ->
    load LinquPeerList_fields (store pad LinquPeerList_fields [q; n]) 0 m = Ok v).
  { intros q n m i t v Hq Hn' Hi Hv. rewrite <- (app_nil_r (store _ _ _)).
    apply (load_store pad LinquPeerList_fields [q; n] i m t v [] []); try done.
    - repeat constructor; simpl; lia.
    - apply (bool_decide_unpack _). vm_compute. exact I.
    - repeat constructor; unfold fits; simpl; lia. }
  unfold peer_list_result. destruct cs as [|c cs].
  - intros _. exists LinquPeerList_fields. split; [done|]. unfold kernel_peers.
    by rewrite (Hload 0 0 "count" 1%nat (SInt 4) 0) by done.
  - intros Hheap. exists LinquPeerList_fields. split; [done|]. unfold kernel_peers.
    set (all := c :: cs) in *. assert (Hpos : 0 < zlength all) by (unfold all; rewrite zlength_cons; pose proof (zlength_ge_0 cs); lia).
    assert (Hu : u32 (zlength all) = zlength all) by (apply u32_id; unfold_ints; lia).
    rewrite Hu, (Hload p _ "count" 1%nat (SInt 4) (zlength all)) by (done || unfold_ints; lia). cbn [mbind outcome_bind].
    rewrite i32_id by (unfold_ints; lia). rewrite (proj2 (Z.leb_gt _ _)) by lia.
    rewrite (Hload p _ "peers" 0%nat Pointer p) by (done || unfold_ints; lia). cbn [mbind outcome_bind].
    rewrite (Hheap _ eq_refl). rewrite <- (app_nil_r (concat _)).
    unfold zlength at 1. rewrite Nat2Z.id. by apply (load_peers_store pad all [] []).
Qed.

Definition two_hosts : list LinquCoordinate_C := [mkCoord_C 0 1 2 300 0 0 0; mkCoord_C 0 1 2 301 0 0 7].

(** Two hosts, with rubbish in the padding. *)
Lemma dispatch_kernels_read_peers_witness :
  exists block, (peer_list_result (fun _ => 255) 4096 two_hosts).2 = Some block /\ zlength block = 24 /\
  exists peer_list, decl_peer_list topo_L4_pod_file = Some peer_list /\
    kernel_peers (decl_coordinate topo_L4_pod_file) peer_list
      (peer_list_result (fun _ => 255) 4096 two_hosts).1 (fun q => if q =? 4096 then Some block else None) =
    Ok two_hosts.
Proof.
  eexists. split; [reflexivity|]. split; [vm_compute; reflexivity|].
  apply (dispatch_kernels_read_peers topo_L4_pod_file (fun _ => 255) 4096 two_hosts).
  - by left.
  - repeat constructor; simpl; unfold_ints; simpl; lia.
  - reflexivity.
  - unfold in_u64. lia.
  - intros b [= <-]. reflexivity.
Defined.
