(* ===== verification/LevelRuntime.v ===== *)
(** * LevelRuntime: submitting, worker and scheduler threads

    Models [src/src/core/tensor.h], [tensor.cpp] and
    [src/src/runtime/level_runtime.h], [level_runtime.cpp].

    The state shared by the threads is one record with the members of the
    class.  Each thread is a program counter that carries its local variables;
    [exec] runs one action of one thread, and an action is one access to shared
    memory (an atomic operation, a read or write of a descriptor field that
    other threads access) or a block of accesses to data that no other thread
    touches at that point.  A run is any interleaving of actions: memory is
    sequentially consistent.  Spinning on
    a held lock and polling an empty queue are actions that change nothing.

    One thread submits at a time (the code's task ring, heap ring and tensor
    map are not safe for concurrent submission).  [std::shared_ptr] targets are
    addresses: [ready_flags] holds the [atomic<bool>]s and [data_cells] the
    [uint64_t*]s, as offsets into the heap ring.  What a submitted function
    does to tensor data is not modelled; [executed] lists the calls of submitted
    functions, [fulfilled] the tasks whose promise was set.  The tracing calls
    are left out.  [try_advance_ring_pointers] is one action, and so is marking
    the outputs of a task ready. *)

From S2P Require Import Prelude Coordinate LinquHeapRing LinquDepListPool LinquTaskRing.
From S2P Require Import LinquScopeStack LinquTensorMap.

(** ** tensor.h *)
Definition INVALID_HANDLE : Z := 0.

Record LinquTensor := mkTensor {
  tensor_id : Z;             (* [handle] *)
  tensor_count : Z;          (* [count] *)
  data_ref : option Z;
  ready : option Z;
}.

Record LevelRuntimeConfig := mkRuntimeConfig {
  task_ring_window : Z;
  heap_ring_capacity : Z;
  dep_pool_capacity : Z;
  tensormap_buckets : Z;
  tensormap_pool : Z;
  ready_queue_capacity : Z;
}.

Definition default_runtime_config : LevelRuntimeConfig :=
  mkRuntimeConfig 4096 (64 * 1024 * 1024) 8192 4096 8192 4096.

Record LevelRuntime := mkRuntime {
  level_ : Z;
  sched_count_ : Z;
  worker_count_ : Z;
  task_ring_ : LinquTaskRing;
  heap_ring_ : LinquHeapRing;
  dep_pool_ : LinquDepListPool;
  tensor_map_ : LinquTensorMap;
  scope_stack_ : LinquScopeStack;
  rq_buf_ : list Z;
  rq_capacity_ : Z;
  rq_head_ : Z;
  rq_tail_ : Z;
  task_promises_ : list bool;
  task_outputs_ : list (list LinquTensor);
  task_external_inputs_ : list (list Z);
  task_external_ready_ : list (list (option Z));
  task_trace_pids_ : list Z;
  stop_requested_ : bool;
  g_next_handle : Z;
  next_address : Z;
  ready_flags : gmap Z bool;
  data_cells : gmap Z (option Z);
  executed : list Z;
  fulfilled : list Z;
}.

#[export] Instance set_level_ : Setter level_ := fun f s =>
  mkRuntime (f (level_ s)) (sched_count_ s) (worker_count_ s) (task_ring_ s) (heap_ring_ s)
    (dep_pool_ s) (tensor_map_ s) (scope_stack_ s) (rq_buf_ s) (rq_capacity_ s) (rq_head_ s)
    (rq_tail_ s) (task_promises_ s) (task_outputs_ s) (task_external_inputs_ s)
    (task_external_ready_ s) (task_trace_pids_ s) (stop_requested_ s) (g_next_handle s)
    (next_address s) (ready_flags s) (data_cells s) (executed s) (fulfilled s).
#[export] Instance set_sched_count_ : Setter sched_count_ := fun f s =>
  mkRuntime (level_ s) (f (sched_count_ s)) (worker_count_ s) (task_ring_ s) (heap_ring_ s)
    (dep_pool_ s) (tensor_map_ s) (scope_stack_ s) (rq_buf_ s) (rq_capacity_ s) (rq_head_ s)
    (rq_tail_ s) (task_promises_ s) (task_outputs_ s) (task_external_inputs_ s)
    (task_external_ready_ s) (task_trace_pids_ s) (stop_requested_ s) (g_next_handle s)
    (next_address s) (ready_flags s) (data_cells s) (executed s) (fulfilled s).
#[export] Instance set_worker_count_ : Setter worker_count_ := fun f s =>
  mkRuntime (level_ s) (sched_count_ s) (f (worker_count_ s)) (task_ring_ s) (heap_ring_ s)
    (dep_pool_ s) (tensor_map_ s) (scope_stack_ s) (rq_buf_ s) (rq_capacity_ s) (rq_head_ s)
    (rq_tail_ s) (task_promises_ s) (task_outputs_ s) (task_external_inputs_ s)
    (task_external_ready_ s) (task_trace_pids_ s) (stop_requested_ s) (g_next_handle s)
    (next_address s) (ready_flags s) (data_cells s) (executed s) (fulfilled s).
#[export] Instance set_task_ring_ : Setter task_ring_ := fun f s =>
  mkRuntime (level_ s) (sched_count_ s) (worker_count_ s) (f (task_ring_ s)) (heap_ring_ s)
    (dep_pool_ s) (tensor_map_ s) (scope_stack_ s) (rq_buf_ s) (rq_capacity_ s) (rq_head_ s)
    (rq_tail_ s) (task_promises_ s) (task_outputs_ s) (task_external_inputs_ s)
    (task_external_ready_ s) (task_trace_pids_ s) (stop_requested_ s) (g_next_handle s)
    (next_address s) (ready_flags s) (data_cells s) (executed s) (fulfilled s).
#[export] Instance set_heap_ring_ : Setter heap_ring_ := fun f s =>
  mkRuntime (level_ s) (sched_count_ s) (worker_count_ s) (task_ring_ s) (f (heap_ring_ s))
    (dep_pool_ s) (tensor_map_ s) (scope_stack_ s) (rq_buf_ s) (rq_capacity_ s) (rq_head_ s)
    (rq_tail_ s) (task_promises_ s) (task_outputs_ s) (task_external_inputs_ s)
    (task_external_ready_ s) (task_trace_pids_ s) (stop_requested_ s) (g_next_handle s)
    (next_address s) (ready_flags s) (data_cells s) (executed s) (fulfilled s).
#[export] Instance set_dep_pool_ : Setter dep_pool_ := fun f s =>
  mkRuntime (level_ s) (sched_count_ s) (worker_count_ s) (task_ring_ s) (heap_ring_ s)
    (f (dep_pool_ s)) (tensor_map_ s) (scope_stack_ s) (rq_buf_ s) (rq_capacity_ s) (rq_head_ s)
    (rq_tail_ s) (task_promises_ s) (task_outputs_ s) (task_external_inputs_ s)
    (task_external_ready_ s) (task_trace_pids_ s) (stop_requested_ s) (g_next_handle s)
    (next_address s) (ready_flags s) (data_cells s) (executed s) (fulfilled s).
#[export] Instance set_tensor_map_ : Setter tensor_map_ := fun f s =>
  mkRuntime (level_ s) (sched_count_ s) (worker_count_ s) (task_ring_ s) (heap_ring_ s)
    (dep_pool_ s) (f (tensor_map_ s)) (scope_stack_ s) (rq_buf_ s) (rq_capacity_ s) (rq_head_ s)
    (rq_tail_ s) (task_promises_ s) (task_outputs_ s) (task_external_inputs_ s)
    (task_external_ready_ s) (task_trace_pids_ s) (stop_requested_ s) (g_next_handle s)
    (next_address s) (ready_flags s) (data_cells s) (executed s) (fulfilled s).
#[export] Instance set_scope_stack_ : Setter scope_stack_ := fun f s =>
  mkRuntime (level_ s) (sched_count_ s) (worker_count_ s) (task_ring_ s) (heap_ring_ s)
    (dep_pool_ s) (tensor_map_ s) (f (scope_stack_ s)) (rq_buf_ s) (rq_capacity_ s) (rq_head_ s)
    (rq_tail_ s) (task_promises_ s) (task_outputs_ s) (task_external_inputs_ s)
    (task_external_ready_ s) (task_trace_pids_ s) (stop_requested_ s) (g_next_handle s)
    (next_address s) (ready_flags s) (data_cells s) (executed s) (fulfilled s).
#[export] Instance set_rq_buf_ : Setter rq_buf_ := fun f s =>
  mkRuntime (level_ s) (sched_count_ s) (worker_count_ s) (task_ring_ s) (heap_ring_ s)
    (dep_pool_ s) (tensor_map_ s) (scope_stack_ s) (f (rq_buf_ s)) (rq_capacity_ s) (rq_head_ s)
    (rq_tail_ s) (task_promises_ s) (task_outputs_ s) (task_external_inputs_ s)
    (task_external_ready_ s) (task_trace_pids_ s) (stop_requested_ s) (g_next_handle s)
    (next_address s) (ready_flags s) (data_cells s) (executed s) (fulfilled s).
#[export] Instance set_rq_capacity_ : Setter rq_capacity_ := fun f s =>
  mkRuntime (level_ s) (sched_count_ s) (worker_count_ s) (task_ring_ s) (heap_ring_ s)
    (dep_pool_ s) (tensor_map_ s) (scope_stack_ s) (rq_buf_ s) (f (rq_capacity_ s)) (rq_head_ s)
    (rq_tail_ s) (task_promises_ s) (task_outputs_ s) (task_external_inputs_ s)
    (task_external_ready_ s) (task_trace_pids_ s) (stop_requested_ s) (g_next_handle s)
    (next_address s) (ready_flags s) (data_cells s) (executed s) (fulfilled s).
#[export] Instance set_rq_head_ : Setter rq_head_ := fun f s =>
  mkRuntime (level_ s) (sched_count_ s) (worker_count_ s) (task_ring_ s) (heap_ring_ s)
    (dep_pool_ s) (tensor_map_ s) (scope_stack_ s) (rq_buf_ s) (rq_capacity_ s) (f (rq_head_ s))
    (rq_tail_ s) (task_promises_ s) (task_outputs_ s) (task_external_inputs_ s)
    (task_external_ready_ s) (task_trace_pids_ s) (stop_requested_ s) (g_next_handle s)
    (next_address s) (ready_flags s) (data_cells s) (executed s) (fulfilled s).
#[export] Instance set_rq_tail_ : Setter rq_tail_ := fun f s =>
  mkRuntime (level_ s) (sched_count_ s) (worker_count_ s) (task_ring_ s) (heap_ring_ s)
    (dep_pool_ s) (tensor_map_ s) (scope_stack_ s) (rq_buf_ s) (rq_capacity_ s) (rq_head_ s)
    (f (rq_tail_ s)) (task_promises_ s) (task_outputs_ s) (task_external_inputs_ s)
    (task_external_ready_ s) (task_trace_pids_ s) (stop_requested_ s) (g_next_handle s)
    (next_address s) (ready_flags s) (data_cells s) (executed s) (fulfilled s).
#[export] Instance set_task_promises_ : Setter task_promises_ := fun f s =>
  mkRuntime (level_ s) (sched_count_ s) (worker_count_ s) (task_ring_ s) (heap_ring_ s)
    (dep_pool_ s) (tensor_map_ s) (scope_stack_ s) (rq_buf_ s) (rq_capacity_ s) (rq_head_ s)
    (rq_tail_ s) (f (task_promises_ s)) (task_outputs_ s) (task_external_inputs_ s)
    (task_external_ready_ s) (task_trace_pids_ s) (stop_requested_ s) (g_next_handle s)
    (next_address s) (ready_flags s) (data_cells s) (executed s) (fulfilled s).
#[export] Instance set_task_outputs_ : Setter task_outputs_ := fun f s =>
  mkRuntime (level_ s) (sched_count_ s) (worker_count_ s) (task_ring_ s) (heap_ring_ s)
    (dep_pool_ s) (tensor_map_ s) (scope_stack_ s) (rq_buf_ s) (rq_capacity_ s) (rq_head_ s)
    (rq_tail_ s) (task_promises_ s) (f (task_outputs_ s)) (task_external_inputs_ s)
    (task_external_ready_ s) (task_trace_pids_ s) (stop_requested_ s) (g_next_handle s)
    (next_address s) (ready_flags s) (data_cells s) (executed s) (fulfilled s).
#[export] Instance set_task_external_inputs_ : Setter task_external_inputs_ := fun f s =>
  mkRuntime (level_ s) (sched_count_ s) (worker_count_ s) (task_ring_ s) (heap_ring_ s)
    (dep_pool_ s) (tensor_map_ s) (scope_stack_ s) (rq_buf_ s) (rq_capacity_ s) (rq_head_ s)
    (rq_tail_ s) (task_promises_ s) (task_outputs_ s) (f (task_external_inputs_ s))
    (task_external_ready_ s) (task_trace_pids_ s) (stop_requested_ s) (g_next_handle s)
    (next_address s) (ready_flags s) (data_cells s) (executed s) (fulfilled s).
#[export] Instance set_task_external_ready_ : Setter task_external_ready_ := fun f s =>
  mkRuntime (level_ s) (sched_count_ s) (worker_count_ s) (task_ring_ s) (heap_ring_ s)
    (dep_pool_ s) (tensor_map_ s) (scope_stack_ s) (rq_buf_ s) (rq_capacity_ s) (rq_head_ s)
    (rq_tail_ s) (task_promises_ s) (task_outputs_ s) (task_external_inputs_ s)
    (f (task_external_ready_ s)) (task_trace_pids_ s) (stop_requested_ s) (g_next_handle s)
    (next_address s) (ready_flags s) (data_cells s) (executed s) (fulfilled s).
#[export] Instance set_task_trace_pids_ : Setter task_trace_pids_ := fun f s =>
  mkRuntime (level_ s) (sched_count_ s) (worker_count_ s) (task_ring_ s) (heap_ring_ s)
    (dep_pool_ s) (tensor_map_ s) (scope_stack_ s) (rq_buf_ s) (rq_capacity_ s) (rq_head_ s)
    (rq_tail_ s) (task_promises_ s) (task_outputs_ s) (task_external_inputs_ s)
    (task_external_ready_ s) (f (task_trace_pids_ s)) (stop_requested_ s) (g_next_handle s)
    (next_address s) (ready_flags s) (data_cells s) (executed s) (fulfilled s).
#[export] Instance set_stop_requested_ : Setter stop_requested_ := fun f s =>
  mkRuntime (level_ s) (sched_count_ s) (worker_count_ s) (task_ring_ s) (heap_ring_ s)
    (dep_pool_ s) (tensor_map_ s) (scope_stack_ s) (rq_buf_ s) (rq_capacity_ s) (rq_head_ s)
    (rq_tail_ s) (task_promises_ s) (task_outputs_ s) (task_external_inputs_ s)
    (task_external_ready_ s) (task_trace_pids_ s) (f (stop_requested_ s)) (g_next_handle s)
    (next_address s) (ready_flags s) (data_cells s) (executed s) (fulfilled s).
#[export] Instance set_g_next_handle : Setter g_next_handle := fun f s =>
  mkRuntime (level_ s) (sched_count_ s) (worker_count_ s) (task_ring_ s) (heap_ring_ s)
    (dep_pool_ s) (tensor_map_ s) (scope_stack_ s) (rq_buf_ s) (rq_capacity_ s) (rq_head_ s)
    (rq_tail_ s) (task_promises_ s) (task_outputs_ s) (task_external_inputs_ s)
    (task_external_ready_ s) (task_trace_pids_ s) (stop_requested_ s) (f (g_next_handle s))
    (next_address s) (ready_flags s) (data_cells s) (executed s) (fulfilled s).
#[export] Instance set_next_address : Setter next_address := fun f s =>
  mkRuntime (level_ s) (sched_count_ s) (worker_count_ s) (task_ring_ s) (heap_ring_ s)
    (dep_pool_ s) (tensor_map_ s) (scope_stack_ s) (rq_buf_ s) (rq_capacity_ s) (rq_head_ s)
    (rq_tail_ s) (task_promises_ s) (task_outputs_ s) (task_external_inputs_ s)
    (task_external_ready_ s) (task_trace_pids_ s) (stop_requested_ s) (g_next_handle s)
    (f (next_address s)) (ready_flags s) (data_cells s) (executed s) (fulfilled s).
#[export] Instance set_ready_flags : Setter ready_flags := fun f s =>
  mkRuntime (level_ s) (sched_count_ s) (worker_count_ s) (task_ring_ s) (heap_ring_ s)
    (dep_pool_ s) (tensor_map_ s) (scope_stack_ s) (rq_buf_ s) (rq_capacity_ s) (rq_head_ s)
    (rq_tail_ s) (task_promises_ s) (task_outputs_ s) (task_external_inputs_ s)
    (task_external_ready_ s) (task_trace_pids_ s) (stop_requested_ s) (g_next_handle s)
    (next_address s) (f (ready_flags s)) (data_cells s) (executed s) (fulfilled s).
#[export] Instance set_data_cells : Setter data_cells := fun f s =>
  mkRuntime (level_ s) (sched_count_ s) (worker_count_ s) (task_ring_ s) (heap_ring_ s)
    (dep_pool_ s) (tensor_map_ s) (scope_stack_ s) (rq_buf_ s) (rq_capacity_ s) (rq_head_ s)
    (rq_tail_ s) (task_promises_ s) (task_outputs_ s) (task_external_inputs_ s)
    (task_external_ready_ s) (task_trace_pids_ s) (stop_requested_ s) (g_next_handle s)
    (next_address s) (ready_flags s) (f (data_cells s)) (executed s) (fulfilled s).
#[export] Instance set_executed : Setter executed := fun f s =>
  mkRuntime (level_ s) (sched_count_ s) (worker_count_ s) (task_ring_ s) (heap_ring_ s)
    (dep_pool_ s) (tensor_map_ s) (scope_stack_ s) (rq_buf_ s) (rq_capacity_ s) (rq_head_ s)
    (rq_tail_ s) (task_promises_ s) (task_outputs_ s) (task_external_inputs_ s)
    (task_external_ready_ s) (task_trace_pids_ s) (stop_requested_ s) (g_next_handle s)
    (next_address s) (ready_flags s) (data_cells s) (f (executed s)) (fulfilled s).
#[export] Instance set_fulfilled : Setter fulfilled := fun f s =>
  mkRuntime (level_ s) (sched_count_ s) (worker_count_ s) (task_ring_ s) (heap_ring_ s)
    (dep_pool_ s) (tensor_map_ s) (scope_stack_ s) (rq_buf_ s) (rq_capacity_ s) (rq_head_ s)
    (rq_tail_ s) (task_promises_ s) (task_outputs_ s) (task_external_inputs_ s)
    (task_external_ready_ s) (task_trace_pids_ s) (stop_requested_ s) (g_next_handle s)
    (next_address s) (ready_flags s) (data_cells s) (executed s) (f (fulfilled s)).

(** ** Tensors *)
Definition is_valid (t : LinquTensor) : bool := negb (tensor_id t =? INVALID_HANDLE).

Definition load_flag (a : Z) (s : LevelRuntime) : bool := default false (ready_flags s !! a).

Definition is_ready (t : LinquTensor) (s : LevelRuntime) : bool :=
  match ready t with Some a => load_flag a s | None => false end.

Definition mark_ready (t : LinquTensor) (s : LevelRuntime) : LevelRuntime :=
  match ready t with
  | Some a => s <| ready_flags := <[a := true]> (ready_flags s) |>
  | None => s
  end.

(** [data_ref ? *data_ref : nullptr] *)
Definition data_ptr (t : LinquTensor) (s : LevelRuntime) : option Z :=
  match data_ref t with Some a => default None (data_cells s !! a) | None => None end.

(** [g_next_handle] is shared by every runtime of the process; here it is a
    member. *)
Definition alloc_tensor_handle (s : LevelRuntime) : LevelRuntime * Z :=
  (s <| g_next_handle := u64 (g_next_handle s + 1) |>, g_next_handle s).

Definition make_tensor (count : Z) (s : LevelRuntime) : LevelRuntime * LinquTensor :=
  let (s, h) := alloc_tensor_handle s in
  let a := next_address s in
  let s := s <| next_address := a + 1 |>
             <| data_cells := <[a := None]> (data_cells s) |>
             <| ready_flags := <[a := false]> (ready_flags s) |> in
  (s, mkTensor h count (Some a) (Some a)).

(** ** Construction *)
Definition new_runtime (level sched_threads worker_threads : Z) (cfg : LevelRuntimeConfig)
    : outcome LevelRuntime :=
  let! ring := LinquTaskRing.init (task_ring_window cfg) LinquTaskRing.empty_ring in
  let! pool := LinquDepListPool.init (dep_pool_capacity cfg) LinquDepListPool.empty_pool in
  let! tmap := LinquTensorMap.init (tensormap_buckets cfg) (tensormap_pool cfg)
                 LinquTensorMap.empty_map in
  let ws := Z.to_nat (task_ring_window cfg) in
  Ok (mkRuntime level (if 0 <? sched_threads then sched_threads else 1)
        (if 0 <? worker_threads then worker_threads else 1)
        ring (LinquHeapRing.init (heap_ring_capacity cfg) LinquHeapRing.empty_ring) pool tmap
        (LinquScopeStack.init 8 (task_ring_window cfg * 8) LinquScopeStack.empty_stack)
        (replicate (Z.to_nat (ready_queue_capacity cfg)) (-1)) (ready_queue_capacity cfg) 0 0
        (replicate ws false) (replicate ws []) (replicate ws []) (replicate ws [])
        (replicate ws (-1)) false 1 1 ∅ ∅ [] []).

(** ** Descriptors *)
Definition desc_of (tid : Z) (s : LevelRuntime) : outcome LinquTaskDescriptor :=
  LinquTaskRing.get tid (task_ring_ s).
Definition write_desc (tid : Z) (f : LinquTaskDescriptor -> LinquTaskDescriptor)
    (s : LevelRuntime) : outcome LevelRuntime :=
  let! r := LinquTaskRing.upd tid f (task_ring_ s) in
  Ok (s <| task_ring_ := r |>).

Definition write_status (st : Status) (d : LinquTaskDescriptor) : LinquTaskDescriptor :=
  d <| status := st |>.

(** [fetch_add] on the two counters: the new state and the previous value. *)
Definition add_fanin (n : Z) (d : LinquTaskDescriptor) : LinquTaskDescriptor :=
  d <| atomic_fanin_refcount := u32 (atomic_fanin_refcount d + n) |>.
Definition add_fanout (n : Z) (d : LinquTaskDescriptor) : LinquTaskDescriptor :=
  d <| atomic_fanout_refcount := u32 (atomic_fanout_refcount d + n) |>.

(** [__atomic_exchange_n(&desc->fanout_lock, 1)]: [None] while it is held. *)
Definition fanout_lock_acquire (tid : Z) (s : LevelRuntime) : outcome (option LevelRuntime) :=
  let! d := desc_of tid s in
  if fanout_lock d =? 0 then
    let! s := write_desc tid (fun d => d <| fanout_lock := 1 |>) s in
    Ok (Some s)
  else Ok None.
Definition fanout_unlock (tid : Z) (s : LevelRuntime) : outcome LevelRuntime :=
  write_desc tid (fun d => d <| fanout_lock := 0 |>) s.

(** The compare-and-swap from [PENDING] to [READY]. *)
Definition try_set_ready (tid : Z) (s : LevelRuntime) : outcome (LevelRuntime * bool) :=
  let! d := desc_of tid s in
  if status_eqb (status d) PENDING then
    let! s := write_desc tid (write_status READY) s in
    Ok (s, true)
  else Ok (s, false).

(** ** The ready queue, under [worker_mu_] *)
Definition enqueue_ready (tid : Z) (s : LevelRuntime) : outcome LevelRuntime :=
  let tail := rq_tail_ s in
  let! i := i32_rem tail (rq_capacity_ s) in
  let! buf := vec_set (rq_buf_ s) i tid in
  let! t := i32_add tail 1 in
  Ok (s <| rq_buf_ := buf |> <| rq_tail_ := t |>).

Definition dequeue_ready (s : LevelRuntime) : outcome (LevelRuntime * Z) :=
  let head := rq_head_ s in
  let tail := rq_tail_ s in
  if tail <=? head then Ok (s, -1) else
  let! i := i32_rem head (rq_capacity_ s) in
  let! tid := vec_get (rq_buf_ s) i in
  let! h := i32_add head 1 in
  Ok (s <| rq_head_ := h |>, tid).

(** ** Retirement *)
Fixpoint advance_cursor (n : nat) (cursor : Z) (s : LevelRuntime) : outcome Z :=
  match n with
  | O => Ok cursor
  | S n =>
      let! d := desc_of cursor s in
      if negb (status_eqb (status d) CONSUMED) then Ok cursor
      else advance_cursor n (cursor + 1) s
  end.

Definition try_advance_ring_pointers (s : LevelRuntime) : outcome LevelRuntime :=
  let cursor := LinquTaskRing.last_task_alive_ (task_ring_ s) in
  let current := current_index_ (task_ring_ s) in
  let! cursor := advance_cursor (Z.to_nat (current - cursor)) cursor s in
  if LinquTaskRing.last_task_alive_ (task_ring_ s) <? cursor then
    let s := s <| task_ring_ := set_last_task_alive cursor (task_ring_ s) |>
               <| tensor_map_ := invalidate_below cursor (tensor_map_ s) |> in
    if 0 <? cursor then
      let! last_retired := desc_of (cursor - 1) s in
      if tail_ (heap_ring_ s) <? heap_end last_retired
      then Ok (s <| heap_ring_ := retire_to (heap_end last_retired) (heap_ring_ s) |>)
      else Ok s
    else Ok s
  else Ok s.

(** ** submit_worker *)

(** The arguments of a call, and the local variables of its execution. *)
Record Call := mkCall {
  call_name : string;
  call_fn : Z;
  call_inputs : list LinquTensor;
  call_outputs : list LinquTensor;
  call_trace_pid : Z;
}.

Record Frame := mkFrame {
  f_call : Call;
  f_tid : Z;
  f_fanin : Z;
  f_external : bool;
  f_producers : list Z;      (* [within_level_producers] *)
}.

(** Where the submitting thread is; [ps] are the producers still to link. *)
Inductive submit_pc :=
  | SIdle
  | SEnter (c : Call) (spins : Z)
  | SAux (c : Call) (tid : Z)
  | SScan (f : Frame) (ins : list LinquTensor)
  | SProbe (f : Frame) (t : LinquTensor) (ins : list LinquTensor)
  | SPush (f : Frame) (t : LinquTensor) (ins : list LinquTensor)
  | SHeap (f : Frame)
  | SInsert (f : Frame)
  | SRegister (f : Frame)
  | SCount (f : Frame)
  | SSetReady (f : Frame)
  | SSetPending (f : Frame)
  | SLock (f : Frame) (ps : list Z)
  | SPrepend (f : Frame) (p : Z) (ps : list Z)
  | SCountUp (f : Frame) (p : Z) (ps : list Z)
  | SReadStatus (f : Frame) (p : Z) (ps : list Z)
  | SBump (f : Frame) (p : Z) (ps : list Z)
  | SUnlock (f : Frame) (p : Z) (ps : list Z)
  | SFinal (f : Frame)
  | SCas (f : Frame)
  | SEnqueue (f : Frame).

(** Step 3: the packed output buffer, [ptr] bytes into the heap ring. *)
Fixpoint place_outputs (outs : list LinquTensor) (ptr : Z) (s : LevelRuntime)
    : outcome LevelRuntime :=
  match outs with
  | [] => Ok s
  | t :: outs =>
      let! a := of_option OutOfBounds (data_ref t) in
      let n := Z.to_nat (8 * tensor_count t) in
      let st := store_ (heap_ring_ s) in
      do! (if (ptr + 8 * tensor_count t <=? zlength st) then Ok tt else Fault OutOfBounds) in
      let st := take (Z.to_nat ptr) st ++ replicate n 0 ++ drop (Z.to_nat ptr + n) st in
      let h := (heap_ring_ s) <| store_ := st |> in
      let s := s <| data_cells := <[a := Some ptr]> (data_cells s) |> <| heap_ring_ := h |> in
      place_outputs outs (ptr + 8 * tensor_count t) s
  end.

Definition output_bytes (outs : list LinquTensor) : Z :=
  fold_left (fun acc t => u64 (acc + u64 (tensor_count t * 8))) outs 0.

(** Step 4. *)
Fixpoint insert_outputs (outs : list LinquTensor) (tid : Z) (s : LevelRuntime)
    : outcome LevelRuntime :=
  match outs with
  | [] => Ok s
  | t :: outs =>
      let! m := insert (tensor_id t) tid true (tensor_map_ s) in
      insert_outputs outs tid (s <| tensor_map_ := m |>)
  end.

Definition slot (tid : Z) (s : LevelRuntime) : Z := slot_of tid (task_ring_ s).

(** The bound of the spin loop. *)
Definition SPIN_LIMIT : Z := 100000.

(** One action of the submitting thread. *)
Definition submit_step (pc : submit_pc) (s : LevelRuntime) : outcome (LevelRuntime * submit_pc) :=
  match pc with
  | SIdle => Ok (s, SIdle)
  (* Step 0 and 1: wait for a slot, then allocate it *)
  | SEnter c spins =>
      let! s := (if has_space (task_ring_ s) then Ok s else try_advance_ring_pointers s) in
      if has_space (task_ring_ s) then
        let! (ring, tid) := LinquTaskRing.alloc (task_ring_ s) in
        Ok (s <| task_ring_ := ring |>, SAux c tid)
      else if SPIN_LIMIT <? spins + 1 then Fault AssertFailed
      else Ok (s, SEnter c (spins + 1))
  | SAux c tid =>
      let! s := write_desc tid (fun d =>
        d <| key := (key d) <| Coordinate.task_id := u32 tid |> |>
          <| kernel_so := call_name c |> <| fn := Some (call_fn c) |>) s in
      let k := slot tid s in
      let! proms := vec_set (task_promises_ s) k true in
      let! outs := vec_set (task_outputs_ s) k (call_outputs c) in
      let! exts := vec_set (task_external_inputs_ s) k [] in
      let! rdys := vec_set (task_external_ready_ s) k [] in
      let! pids := vec_set (task_trace_pids_ s) k (call_trace_pid c) in
      Ok (s <| task_promises_ := proms |> <| task_outputs_ := outs |>
            <| task_external_inputs_ := exts |> <| task_external_ready_ := rdys |>
            <| task_trace_pids_ := pids |>,
          SScan (mkFrame c tid 0 false []) (call_inputs c))
  (* Step 2: scan the inputs *)
  | SScan f [] => Ok (s, SHeap f)
  | SScan f (t :: ins) =>
      if negb (is_valid t) then Ok (s, SScan f ins) else
      let! r := lookup (tensor_id t) (tensor_map_ s) in
      if found r then
        let! d := desc_of (f_tid f) s in
        let! (pool, head) := prepend (dep_list_head d) (result_producer r) (dep_pool_ s) in
        let! s := write_desc (f_tid f) (fun d => d <| dep_list_head := head |>)
                    (s <| dep_pool_ := pool |>) in
        Ok (s, SScan (mkFrame (f_call f) (f_tid f) (u32 (f_fanin f + 1)) (f_external f)
                        (f_producers f ++ [result_producer r])) ins)
      else Ok (s, SProbe f t ins)
  | SProbe f t ins => Ok (s, if is_ready t s then SScan f ins else SPush f t ins)
  | SPush f t ins =>
      let k := slot (f_tid f) s in
      let! exts := vec_get (task_external_inputs_ s) k in
      let! exts := vec_set (task_external_inputs_ s) k (exts ++ [tensor_id t]) in
      let! rdys := vec_get (task_external_ready_ s) k in
      let! rdys := vec_set (task_external_ready_ s) k (rdys ++ [ready t]) in
      Ok (s <| task_external_inputs_ := exts |> <| task_external_ready_ := rdys |>,
          SScan (mkFrame (f_call f) (f_tid f) (u32 (f_fanin f + 1)) true (f_producers f)) ins)
  (* Steps 3 to 6 *)
  | SHeap f =>
      let outs := call_outputs (f_call f) in
      let total := output_bytes outs in
      if 0 <? total then
        let! (h, ptr) := LinquHeapRing.alloc total (heap_ring_ s) in
        let! s := place_outputs outs ptr (s <| heap_ring_ := h |>) in
        let! outs' := vec_set (task_outputs_ s) (slot (f_tid f) s) outs in
        Ok (s <| task_outputs_ := outs' |>, SInsert f)
      else Ok (s, SInsert f)
  | SInsert f =>
      let! s := insert_outputs (call_outputs (f_call f)) (f_tid f) s in
      Ok (s, SRegister f)
  | SRegister f =>
      let! s :=
        (if 0 <=? depth (scope_stack_ s) then
           let! st := add_task (f_tid f) (scope_stack_ s) in
           Ok (s <| scope_stack_ := st |>)
         else Ok s) in
      let! s := write_desc (f_tid f)
                  (fun d => d <| heap_end := LinquHeapRing.top_ (heap_ring_ s) |>) s in
      Ok (s, SCount f)
  (* Step 7 *)
  | SCount f =>
      let! s := write_desc (f_tid f) (fun d => d <| fanin_count := f_fanin f |>) s in
      Ok (s, if f_fanin f =? 0 then SSetReady f else SSetPending f)
  | SSetReady f =>
      let! s := write_desc (f_tid f) (write_status READY) s in
      Ok (s, SEnqueue f)
  | SSetPending f =>
      let! s := write_desc (f_tid f) (write_status PENDING) s in
      Ok (s, SLock f (f_producers f))
  (* add_consumer_to_producer, for each producer *)
  | SLock f [] => Ok (s, SFinal f)
  | SLock f (p :: ps) =>
      let! l := fanout_lock_acquire p s in
      match l with
      | Some s => Ok (s, SPrepend f p ps)
      | None => Ok (s, SLock f (p :: ps))
      end
  | SPrepend f p ps =>
      let! d := desc_of p s in
      let! (pool, head) := prepend (fanout_list_head d) (f_tid f) (dep_pool_ s) in
      let! s := write_desc p (fun d => d <| fanout_list_head := head |>)
                  (s <| dep_pool_ := pool |>) in
      Ok (s, SCountUp f p ps)
  | SCountUp f p ps =>
      let! s := write_desc p (fun d => d <| fanout_count := u32 (fanout_count d + 1) |>) s in
      Ok (s, SReadStatus f p ps)
  | SReadStatus f p ps =>
      let! d := desc_of p s in
      Ok (s, if status_eqb (status d) COMPLETED || status_eqb (status d) CONSUMED
             then SBump f p ps else SUnlock f p ps)
  | SBump f p ps =>
      let! s := write_desc (f_tid f) (add_fanin 1) s in
      Ok (s, SUnlock f p ps)
  | SUnlock f p ps =>
      let! s := fanout_unlock p s in
      Ok (s, SLock f ps)
  | SFinal f =>
      let! d := desc_of (f_tid f) s in
      Ok (s, if f_fanin f <=? atomic_fanin_refcount d then SCas f else SIdle)
  | SCas f =>
      let! (s, won) := try_set_ready (f_tid f) s in
      Ok (s, if (won : bool) then SEnqueue f else SIdle)
  | SEnqueue f =>
      let! s := enqueue_ready (f_tid f) s in
      Ok (s, SIdle)
  end.

(** ** worker_loop, with on_task_complete and propagate_completion

    [cur] is the list offset of the loops; a list cell is read once, its
    [task_id] and [next] together.  [k] is where [check_task_consumed]
    returns: [Some cur] into the loop over the producers, [None] to the end. *)
Inductive worker_pc :=
  | WIdle
  | WExited
  | WStart (t : Z)
  | WRun (t : Z)
  | WMark (t : Z)
  | WPromise (t : Z)
  | WComplete (t : Z)
  | PLock (t : Z)
  | PHead (t : Z)
  | PWalk (t cur : Z)
  | PCheck (t nxt c prev : Z)
  | PCas (t nxt c : Z)
  | PEnqueue (t nxt c : Z)
  | PUnlock (t : Z)
  | PDepHead (t : Z)
  | PDeps (t cur : Z)
  | CStatus (t x : Z) (k : option Z)
  | CCount (t x : Z) (k : option Z)
  | CRef (t x fc : Z) (k : option Z)
  | CSet (t x : Z) (k : option Z)
  | CAlive (t x : Z) (k : option Z).

(** The return of [check_task_consumed]. *)
Definition consumed_return (t : Z) (k : option Z) : worker_pc :=
  match k with Some cur => PDeps t cur | None => WIdle end.

Definition mark_all (outs : list LinquTensor) (s : LevelRuntime) : LevelRuntime :=
  fold_left (fun s t => mark_ready t s) outs s.

(** One action of a worker. *)
Definition worker_step (pc : worker_pc) (s : LevelRuntime) : outcome (LevelRuntime * worker_pc) :=
  match pc with
  | WExited => Ok (s, WExited)
  | WIdle =>
      if rq_head_ s <? rq_tail_ s then
        let! (s, tid) := dequeue_ready s in
        Ok (s, if tid <? 0 then WIdle else WStart tid)
      else Ok (s, if stop_requested_ s then WExited else WIdle)
  | WStart t =>
      let! s := write_desc t (write_status RUNNING) s in
      Ok (s, WRun t)
  | WRun t =>
      let! d := desc_of t s in
      do! of_option OutOfBounds (fn d) in
      Ok (s <| executed := executed s ++ [t] |>, WMark t)
  | WMark t =>
      let! outs := vec_get (task_outputs_ s) (slot t s) in
      Ok (mark_all outs s, WPromise t)
  | WPromise t =>
      let! p := vec_get (task_promises_ s) (slot t s) in
      if (p : bool) then
        let! proms := vec_set (task_promises_ s) (slot t s) false in
        Ok (s <| task_promises_ := proms |> <| fulfilled := fulfilled s ++ [t] |>, WComplete t)
      else Ok (s, WComplete t)
  | WComplete t =>
      let! s := write_desc t (write_status COMPLETED) s in
      Ok (s, PLock t)
  | PLock t =>
      let! l := fanout_lock_acquire t s in
      match l with
      | Some s => Ok (s, PHead t)
      | None => Ok (s, PLock t)
      end
  | PHead t =>
      let! d := desc_of t s in
      Ok (s, PWalk t (fanout_list_head d))
  | PWalk t cur =>
      if 0 <? cur then
        let! e := LinquDepListPool.get cur (dep_pool_ s) in
        match e with
        | Some e =>
            let c := LinquDepListPool.task_id e in
            let! d := desc_of c s in
            let! s := write_desc c (add_fanin 1) s in
            Ok (s, PCheck t (next e) c (atomic_fanin_refcount d))
        | None => Ok (s, PUnlock t)
        end
      else Ok (s, PUnlock t)
  | PCheck t nxt c prev =>
      let! d := desc_of c s in
      Ok (s, if fanin_count d <=? u32 (prev + 1) then PCas t nxt c else PWalk t nxt)
  | PCas t nxt c =>
      let! (s, won) := try_set_ready c s in
      Ok (s, if (won : bool) then PEnqueue t nxt c else PWalk t nxt)
  | PEnqueue t nxt c =>
      let! s := enqueue_ready c s in
      Ok (s, PWalk t nxt)
  | PUnlock t =>
      let! s := fanout_unlock t s in
      Ok (s, PDepHead t)
  | PDepHead t =>
      let! d := desc_of t s in
      Ok (s, PDeps t (dep_list_head d))
  | PDeps t cur =>
      if 0 <? cur then
        let! e := LinquDepListPool.get cur (dep_pool_ s) in
        match e with
        | Some e =>
            let! s := write_desc (LinquDepListPool.task_id e) (add_fanout 1) s in
            Ok (s, CStatus t (LinquDepListPool.task_id e) (Some (next e)))
        | None => Ok (s, CStatus t t None)
        end
      else Ok (s, CStatus t t None)
  | CStatus t x k =>
      let! d := desc_of x s in
      Ok (s, if status_eqb (status d) COMPLETED then CCount t x k else consumed_return t k)
  | CCount t x k =>
      let! d := desc_of x s in
      Ok (s, CRef t x (fanout_count d) k)
  | CRef t x fc k =>
      let! d := desc_of x s in
      Ok (s, if fc <=? atomic_fanout_refcount d then CSet t x k else consumed_return t k)
  | CSet t x k =>
      let! s := write_desc x (write_status CONSUMED) s in
      Ok (s, CAlive t x k)
  | CAlive t x k =>
      let! s := (if x =? LinquTaskRing.last_task_alive_ (task_ring_ s)
                 then try_advance_ring_pointers s else Ok s) in
      Ok (s, consumed_return t k)
  end.

(** ** scheduler_loop *)
Inductive sched_pc :=
  | KIdle
  | KExited
  | KScan (i cur : Z)
  | KExternal (i cur : Z)
  | KBump (i cur n : Z)
  | KClear (i cur sum : Z)
  | KCheck (i cur sum : Z)
  | KCas (i cur : Z)
  | KEnqueue (i cur : Z).

(** [rp->load()] for each pointer, up to the first [false]. *)
Fixpoint all_ext_ready (flags : list (option Z)) (s : LevelRuntime) : outcome bool :=
  match flags with
  | [] => Ok true
  | rp :: flags =>
      let! a := of_option OutOfBounds rp in
      if load_flag a s then all_ext_ready flags s else Ok false
  end.

(** One action of a scheduler thread. *)
Definition sched_step (pc : sched_pc) (s : LevelRuntime) : outcome (LevelRuntime * sched_pc) :=
  match pc with
  | KExited => Ok (s, KExited)
  | KIdle =>
      Ok (s, if stop_requested_ s then KExited
             else KScan (LinquTaskRing.last_task_alive_ (task_ring_ s))
                    (current_index_ (task_ring_ s)))
  | KScan i cur =>
      if i <? cur then
        let! d := desc_of i s in
        Ok (s, if status_eqb (status d) PENDING then KExternal i cur else KScan (i + 1) cur)
      else Ok (s, KIdle)
  | KExternal i cur =>
      let! flags := vec_get (task_external_ready_ s) (slot i s) in
      let! all := all_ext_ready flags s in
      Ok (s, match flags with
             | [] => KScan (i + 1) cur
             | _ => if (all : bool) then KBump i cur (u32 (zlength flags)) else KScan (i + 1) cur
             end)
  | KBump i cur n =>
      let! d := desc_of i s in
      let! s := write_desc i (add_fanin n) s in
      Ok (s, KClear i cur (u32 (atomic_fanin_refcount d + n)))
  | KClear i cur sum =>
      let! rdys := vec_set (task_external_ready_ s) (slot i s) [] in
      Ok (s <| task_external_ready_ := rdys |>, KCheck i cur sum)
  | KCheck i cur sum =>
      let! d := desc_of i s in
      Ok (s, if fanin_count d <=? sum then KCas i cur else KScan (i + 1) cur)
  | KCas i cur =>
      let! (s, won) := try_set_ready i s in
      Ok (s, if (won : bool) then KEnqueue i cur else KScan (i + 1) cur)
  | KEnqueue i cur =>
      let! s := enqueue_ready i s in
      Ok (s, KScan (i + 1) cur)
  end.

(** ** The threads together *)
Record System := mkSystem {
  shared : LevelRuntime;
  submitter : submit_pc;
  workers : list worker_pc;
  scheds : list sched_pc;
}.

(** [LCall]: the submitting thread calls [submit_worker]; [LReady]: another
    level's worker sets a ready flag; [LTensor]: [make_tensor]; [LStop]:
    [stop] has set [stop_requested_]. *)
Inductive label :=
  | LCall (c : Call)
  | LTensor (count : Z)
  | LSubmit
  | LWorker (i : nat)
  | LSched (i : nat)
  | LReady (a : Z)
  | LStop.

Definition start (level sched_threads worker_threads : Z) (cfg : LevelRuntimeConfig)
    : outcome System :=
  let! s := new_runtime level sched_threads worker_threads cfg in
  Ok (mkSystem s SIdle (replicate (Z.to_nat (worker_count_ s)) WIdle)
        (replicate (Z.to_nat (sched_count_ s)) KIdle)).

Definition exec (l : label) (y : System) : outcome System :=
  match l with
  | LCall c =>
      match submitter y with
      | SIdle => Ok (mkSystem (shared y) (SEnter c 0) (workers y) (scheds y))
      | _ => Ok y
      end
  | LTensor n =>
      match submitter y with
      | SIdle => Ok (mkSystem (fst (make_tensor n (shared y))) SIdle (workers y) (scheds y))
      | _ => Ok y
      end
  | LSubmit =>
      let! (s, pc) := submit_step (submitter y) (shared y) in
      Ok (mkSystem s pc (workers y) (scheds y))
  | LWorker i =>
      match workers y !! i with
      | Some pc =>
          let! (s, pc) := worker_step pc (shared y) in
          Ok (mkSystem s (submitter y) (<[i := pc]> (workers y)) (scheds y))
      | None => Ok y
      end
  | LSched i =>
      match scheds y !! i with
      | Some pc =>
          let! (s, pc) := sched_step pc (shared y) in
          Ok (mkSystem s (submitter y) (workers y) (<[i := pc]> (scheds y)))
      | None => Ok y
      end
  | LReady a =>
      Ok (mkSystem ((shared y) <| ready_flags := <[a := true]> (ready_flags (shared y)) |>)
            (submitter y) (workers y) (scheds y))
  | LStop =>
      Ok (mkSystem ((shared y) <| stop_requested_ := true |>) (submitter y) (workers y) (scheds y))
  end.

Fixpoint run (ls : list label) (y : System) : outcome System :=
  match ls with
  | [] => Ok y
  | l :: ls => let! y := exec l y in run ls y
  end.
