(* ===== verification/LevelRuntimeView.v ===== *)
(** * The accounts behind the threads of LevelRuntime

    An abstract view of [LevelRuntime.System]: for every task its status, its
    lock, the consumers listed at it and the two counts that decide when it
    becomes ready, with the history of the ready queue.  [ok] relates the view
    to what each thread has still to do (its program counter); one lemma per
    kind of action says that the action keeps it, for every interleaving.

    The three accounts.  Tokens: a task is enqueued once, when it leaves
    [PENDING], and is then held by exactly one worker until it is finished.
    Locks: [fanout_lock] counts the threads inside its critical section.
    References: every edge of a task is counted at least once in its
    [atomic_fanin_refcount] or is owed by an unfinished producer or a
    propagation in progress, so that the count reaches [fanin_count] in the
    end, and whoever makes it reach [fanin_count] still has its check ahead.
    An edge is counted only after its producer has finished, and at most twice
    ([ok_half]); at most once ([ok_exact]) in the runs that are [strict], those
    in which no producer finishes between the prepend to its list and the read
    of its status. *)

From S2P Require Import Prelude LinquTaskRing LevelRuntime.

Record view := mkView {
  v_n : Z;                    (* tasks allocated *)
  v_st : Z -> Status;
  v_lk : Z -> Z;
  v_fo : Z -> list Z;         (* consumers listed at a task *)
  v_ch : Z -> list Z;         (* the list at an offset of the pool *)
  v_fc : Z -> Z;
  v_rc : Z -> Z;
  v_log : list Z;             (* all that was enqueued *)
  v_hd : list Z;              (* the part that was dequeued *)
  v_ex : list Z;
  v_ful : list Z;
  v_prom : Z -> bool;
}.

#[export] Instance set_v_n : Setter v_n := fun f v =>
  mkView (f (v_n v)) (v_st v) (v_lk v) (v_fo v) (v_ch v) (v_fc v) (v_rc v) (v_log v)
    (v_hd v) (v_ex v) (v_ful v) (v_prom v).
#[export] Instance set_v_st : Setter v_st := fun f v =>
  mkView (v_n v) (f (v_st v)) (v_lk v) (v_fo v) (v_ch v) (v_fc v) (v_rc v) (v_log v)
    (v_hd v) (v_ex v) (v_ful v) (v_prom v).
#[export] Instance set_v_lk : Setter v_lk := fun f v =>
  mkView (v_n v) (v_st v) (f (v_lk v)) (v_fo v) (v_ch v) (v_fc v) (v_rc v) (v_log v)
    (v_hd v) (v_ex v) (v_ful v) (v_prom v).
#[export] Instance set_v_fo : Setter v_fo := fun f v =>
  mkView (v_n v) (v_st v) (v_lk v) (f (v_fo v)) (v_ch v) (v_fc v) (v_rc v) (v_log v)
    (v_hd v) (v_ex v) (v_ful v) (v_prom v).
#[export] Instance set_v_ch : Setter v_ch := fun f v =>
  mkView (v_n v) (v_st v) (v_lk v) (v_fo v) (f (v_ch v)) (v_fc v) (v_rc v) (v_log v)
    (v_hd v) (v_ex v) (v_ful v) (v_prom v).
#[export] Instance set_v_fc : Setter v_fc := fun f v =>
  mkView (v_n v) (v_st v) (v_lk v) (v_fo v) (v_ch v) (f (v_fc v)) (v_rc v) (v_log v)
    (v_hd v) (v_ex v) (v_ful v) (v_prom v).
#[export] Instance set_v_rc : Setter v_rc := fun f v =>
  mkView (v_n v) (v_st v) (v_lk v) (v_fo v) (v_ch v) (v_fc v) (f (v_rc v)) (v_log v)
    (v_hd v) (v_ex v) (v_ful v) (v_prom v).
#[export] Instance set_v_log : Setter v_log := fun f v =>
  mkView (v_n v) (v_st v) (v_lk v) (v_fo v) (v_ch v) (v_fc v) (v_rc v) (f (v_log v))
    (v_hd v) (v_ex v) (v_ful v) (v_prom v).
#[export] Instance set_v_hd : Setter v_hd := fun f v =>
  mkView (v_n v) (v_st v) (v_lk v) (v_fo v) (v_ch v) (v_fc v) (v_rc v) (v_log v)
    (f (v_hd v)) (v_ex v) (v_ful v) (v_prom v).
#[export] Instance set_v_ex : Setter v_ex := fun f v =>
  mkView (v_n v) (v_st v) (v_lk v) (v_fo v) (v_ch v) (v_fc v) (v_rc v) (v_log v) (v_hd v)
    (f (v_ex v)) (v_ful v) (v_prom v).
#[export] Instance set_v_ful : Setter v_ful := fun f v =>
  mkView (v_n v) (v_st v) (v_lk v) (v_fo v) (v_ch v) (v_fc v) (v_rc v) (v_log v) (v_hd v)
    (v_ex v) (f (v_ful v)) (v_prom v).
#[export] Instance set_v_prom : Setter v_prom := fun f v =>
  mkView (v_n v) (v_st v) (v_lk v) (v_fo v) (v_ch v) (v_fc v) (v_rc v) (v_log v) (v_hd v)
    (v_ex v) (v_ful v) (f (v_prom v)).

Definition known (v : view) (t : Z) : Prop := 0 <= t < v_n v.

#[export] Instance known_dec v t : Decision (known v t).
Proof. unfold known. apply _. Defined.

Definition finished_status (st : Status) : bool :=
  match st with COMPLETED | CONSUMED => true | _ => false end.

Definition delta (t u : Z) : Z := if decide (u = t) then 1 else 0.

(** 1 for a task that has finished, 1 for a task that has left [PENDING]. *)
Definition finz (v : view) (t : Z) : Z :=
  if decide (known v t) then Z.b2z (finished_status (v_st v t)) else 0.
Definition moved (v : view) (t : Z) : Z :=
  if decide (known v t) then Z.b2z (negb (status_eqb (v_st v t) PENDING)) else 0.

(** ** What a worker has in hand *)
Definition w_about (t : Z) (pc : worker_pc) : Z :=
  match pc with PEnqueue _ _ c => delta t c | _ => 0 end.
Definition w_held (t : Z) (pc : worker_pc) : Z :=
  match pc with
  | WStart u | WRun u | WMark u | WPromise u | WComplete u => delta t u | _ => 0 end.
Definition w_ran (t : Z) (pc : worker_pc) : Z :=
  match pc with WMark u | WPromise u | WComplete u => delta t u | _ => 0 end.
Definition w_ful (t : Z) (pc : worker_pc) : Z :=
  match pc with WComplete u => delta t u | _ => 0 end.
Definition w_prop (t : Z) (pc : worker_pc) : Z :=
  match pc with
  | PLock u | PHead u | PWalk u _ | PCheck u _ _ _ | PCas u _ _ | PEnqueue u _ _
  | PUnlock u | PDepHead u | PDeps u _ | CStatus u _ _ | CCount u _ _ | CRef u _ _ _
  | CSet u _ _ | CAlive u _ _ => delta t u
  | _ => 0 end.
Definition w_plock (t : Z) (pc : worker_pc) : Z :=
  match pc with PLock u => delta t u | _ => 0 end.
Definition w_lock (p : Z) (pc : worker_pc) : Z :=
  match pc with
  | PHead u | PWalk u _ | PCheck u _ _ _ | PCas u _ _ | PEnqueue u _ _ | PUnlock u => delta p u
  | _ => 0 end.

(** The consumers a propagation has still to count. *)
Definition w_rem (v : view) (pc : worker_pc) : list Z :=
  match pc with
  | PLock t | PHead t => v_fo v t
  | PWalk _ cur => v_ch v cur
  | PCheck _ nxt _ _ | PCas _ nxt _ | PEnqueue _ nxt _ => v_ch v nxt
  | _ => [] end.

(** The list cell a propagation reads next. *)
Definition w_head (pc : worker_pc) : option Z :=
  match pc with
  | PWalk _ h | PCheck _ h _ _ | PCas _ h _ | PEnqueue _ h _ => Some h
  | _ => None end.

(** The thread will try to make [c] ready, [n] being its [fanin_count]. *)
Definition armed (c n : Z) (pc : worker_pc) : Prop :=
  match pc with
  | PCheck _ _ c' prev => c' = c /\ n <= u32 (prev + 1)
  | PCas _ _ c' => c' = c
  | _ => False end.

Definition all_known (v : view) (l : list Z) : Prop := forall c, c ∈ l -> known v c.

Definition w_ok (v : view) (pc : worker_pc) : Prop :=
  match pc with
  | WIdle | WExited => True
  | WStart t | WRun t | WMark t | WPromise t | WComplete t
  | PLock t | PHead t | PUnlock t | PDepHead t | PDeps t _ => known v t
  | PWalk t cur => known v t /\ all_known v (v_ch v cur)
  | PCheck t nxt c prev =>
      known v t /\ known v c /\ all_known v (v_ch v nxt) /\ 0 < v_rc v c /\ 0 <= prev < v_rc v c
  | PCas t nxt c =>
      known v t /\ known v c /\ all_known v (v_ch v nxt) /\ 0 < v_rc v c /\ v_fc v c <= v_rc v c
  | PEnqueue t nxt c =>
      known v t /\ known v c /\ all_known v (v_ch v nxt) /\ 0 < v_rc v c
  | CStatus t x _ | CAlive t x _ => known v t /\ known v x
  | CCount t x _ | CRef t x _ _ | CSet t x _ =>
      known v t /\ known v x /\ finished_status (v_st v x) = true
  end.

(** ** What the submitter has in hand *)
Definition s_about (t : Z) (sp : submit_pc) : Z :=
  match sp with SEnqueue f => delta t (f_tid f) | _ => 0 end.
Definition s_lock (p : Z) (sp : submit_pc) : Z :=
  match sp with
  | SPrepend _ q _ | SCountUp _ q _ | SReadStatus _ q _ | SBump _ q _ | SUnlock _ q _ => delta p q
  | _ => 0 end.
Definition s_mid (c : Z) (sp : submit_pc) : Z :=
  match sp with
  | SCountUp f _ _ | SReadStatus f _ _ | SBump f _ _ => delta c (f_tid f) | _ => 0 end.

(** The propagation of [p] is over. *)
Definition over (v : view) (ws : list worker_pc) (p : Z) : bool :=
  finished_status (v_st v p) && (zsum (w_plock p) ws =? 0).

(** An edge added to a task whose propagation is over, not yet counted. *)
Definition s_pend (v : view) (ws : list worker_pc) (c : Z) (sp : submit_pc) : Z :=
  match sp with
  | SCountUp f p _ | SReadStatus f p _ | SBump f p _ =>
      if over v ws p then delta c (f_tid f) else 0
  | _ => 0 end.

(** The edge added last, from the producer to the task, while it is open who
    counts it. *)
Definition s_edge (sp : submit_pc) : option (Z * Z) :=
  match sp with
  | SCountUp f p _ | SReadStatus f p _ | SBump f p _ => Some (p, f_tid f)
  | _ => None end.

(** The submitter will count the edge, although its producer's propagation may
    count it as well. *)
Definition s_dup (v : view) (c : Z) (sp : submit_pc) : Z :=
  match sp with
  | SCountUp f p _ | SReadStatus f p _ =>
      if finished_status (v_st v p) then delta c (f_tid f) else 0
  | SBump f _ _ => delta c (f_tid f)
  | _ => 0 end.

(** The submitter will count the edge, and nobody else. *)
Definition s_due (v : view) (ws : list worker_pc) (c : Z) (sp : submit_pc) : Z :=
  match sp with
  | SCountUp f p _ | SReadStatus f p _ => if over v ws p then delta c (f_tid f) else 0
  | SBump f _ _ => delta c (f_tid f)
  | _ => 0 end.

Definition s_fresh (sp : submit_pc) : option Z :=
  match sp with SAux _ t => Some t | _ => None end.

Definition s_task (sp : submit_pc) : option Z :=
  match sp with
  | SIdle | SEnter _ _ => None
  | SAux _ t => Some t
  | SScan f _ | SProbe f _ _ | SPush f _ _ | SHeap f | SInsert f | SRegister f | SCount f
  | SSetReady f | SSetPending f | SLock f _ | SPrepend f _ _ | SCountUp f _ _
  | SReadStatus f _ _ | SBump f _ _ | SUnlock f _ _ | SFinal f | SCas f | SEnqueue f =>
      Some (f_tid f)
  end.

(** The task being built, not yet visible to any propagation. *)
Definition s_building (sp : submit_pc) : option Z :=
  match sp with
  | SAux _ t => Some t
  | SScan f _ | SProbe f _ _ | SPush f _ _ | SHeap f | SInsert f | SRegister f | SCount f
  | SSetReady f | SSetPending f => Some (f_tid f)
  | _ => None
  end.

(** The producers still to link. *)
Definition s_left (sp : submit_pc) : Z :=
  match sp with
  | SLock _ ps | SCountUp _ _ ps | SReadStatus _ _ ps | SBump _ _ ps | SUnlock _ _ ps => zlength ps
  | SPrepend _ _ ps => 1 + zlength ps
  | _ => 0
  end.

(** The edges of [c] that are in the lists. *)
Definition linked (v : view) (sp : submit_pc) (c : Z) : Z :=
  if decide (s_building sp = Some c) then 0
  else if decide (s_task sp = Some c) then v_fc v c - s_left sp
  else v_fc v c.

(** The frame of a task being built. *)
Definition frame_ok (f : Frame) : Prop :=
  f_fanin f = zlength (f_producers f) /\ f_fanin f < 2 ^ 31 /\
  forall p, p ∈ f_producers f -> 0 <= p < f_tid f.

Definition s_ok (v : view) (sp : submit_pc) : Prop :=
  match sp with
  | SIdle | SEnter _ _ | SAux _ _ => True
  | SScan f _ | SProbe f _ _ | SPush f _ _ | SHeap f | SInsert f | SRegister f | SCount f =>
      frame_ok f
  | SSetReady f => frame_ok f /\ v_fc v (f_tid f) = f_fanin f /\ f_fanin f = 0
  | SSetPending f => frame_ok f /\ v_fc v (f_tid f) = f_fanin f
  | SLock f ps => v_fc v (f_tid f) = f_fanin f /\ (forall p, p ∈ ps -> 0 <= p < f_tid f)
  | SPrepend f p ps | SCountUp f p ps | SReadStatus f p ps | SBump f p ps | SUnlock f p ps =>
      v_fc v (f_tid f) = f_fanin f /\ (forall q, q ∈ p :: ps -> 0 <= q < f_tid f)
  | SCas f => v_fc v (f_tid f) = f_fanin f /\ f_fanin f <= v_rc v (f_tid f)
  | SFinal f | SEnqueue f => v_fc v (f_tid f) = f_fanin f
  end.

(** ** The sums over tasks *)
Definition tasks (v : view) : list Z := seqZ 0 (v_n v).
Definition edges (v : view) (c : Z) : Z := zsum (fun p => occ c (v_fo v p)) (tasks v).
Definition unfinished (v : view) (c : Z) : Z :=
  zsum (fun p => if finished_status (v_st v p) then 0 else occ c (v_fo v p)) (tasks v).
Definition walking (v : view) (ws : list worker_pc) (c : Z) : Z :=
  zsum (fun pc => occ c (w_rem v pc)) ws.
Definition owed (v : view) (ws : list worker_pc) (c : Z) : Z := unfinished v c + walking v ws c.

(** Whether only runs are considered in which no edge is counted twice. *)
Class Strict := strict : bool.

Section accounts.
Context {only_strict : Strict}.

Record ok (v : view) (sp : submit_pc) (ws : list worker_pc) : Prop := {
  ok_n : 0 <= v_n v;
  ok_log : forall t, occ t (v_log v) + s_about t sp + zsum (w_about t) ws = moved v t;
  ok_held : forall t, zsum (w_held t) ws + finz v t = occ t (v_hd v);
  ok_hd : forall t, occ t (v_hd v) <= occ t (v_log v);
  ok_ex : forall t, occ t (v_ex v) = finz v t + zsum (w_ran t) ws;
  ok_ful : forall t, occ t (v_ful v) = finz v t + zsum (w_ful t) ws;
  ok_prom : forall t, known v t -> s_fresh sp <> Some t ->
    v_prom v t = (occ t (v_ful v) =? 0);
  ok_prop : forall t, zsum (w_prop t) ws <= finz v t;
  ok_lock : forall p, known v p -> v_lk v p = s_lock p sp + zsum (w_lock p) ws /\ v_lk v p <= 1;
  ok_pc : forall i pc, ws !! i = Some pc -> w_ok v pc;
  ok_task : forall t, s_task sp = Some t -> t = v_n v - 1 /\ known v t;
  ok_build : forall t, s_building sp = Some t -> v_st v t = PENDING /\ v_fo v t = [];
  ok_sub : s_ok v sp;
  ok_up : forall p c, known v p -> c ∈ v_fo v p -> p < c < v_n v;
  ok_fc : forall c, known v c -> 0 <= v_fc v c < 2 ^ 31;
  ok_rc : forall c, known v c -> 0 <= v_rc v c;
  ok_edges : forall c, known v c -> edges v c = linked v sp c;
  ok_low : forall c, known v c -> edges v c <= v_rc v c + owed v ws c + s_pend v ws c sp;
  ok_high : forall c, known v c -> v_rc v c + owed v ws c + s_mid c sp <= 2 * edges v c;
  ok_edge : forall p c, s_edge sp = Some (p, c) -> known v p /\ c ∈ v_fo v p;
  ok_half : forall c, known v c ->
    v_rc v c + walking v ws c + s_dup v c sp + 2 * unfinished v c <= 2 * edges v c;
  ok_exact : strict = true -> forall c, known v c ->
    v_rc v c + owed v ws c + s_due v ws c sp <= edges v c;
  ok_gone : forall c, known v c -> v_st v c <> PENDING -> v_fc v c <= v_rc v c;
  ok_armed : forall c, known v c -> v_st v c = PENDING -> s_task sp <> Some c ->
    v_fc v c <= v_rc v c -> exists i pc, ws !! i = Some pc /\ armed c (v_fc v c) pc;
}.

(** ** Arithmetic of the contributions *)

Lemma delta_eq t : delta t t = 1.
Proof. unfold delta. by rewrite decide_True. Qed.
Lemma delta_ne t u : u <> t -> delta t u = 0.
Proof. intros. unfold delta. by rewrite decide_False. Qed.
Lemma delta_range t u : 0 <= delta t u <= 1.
Proof. unfold delta. case_decide; lia. Qed.
Lemma delta_pos t u : 0 < delta t u -> u = t.
Proof. unfold delta. case_decide; [done|lia]. Qed.
Lemma occ_single x y : occ x [y] = delta x y.
Proof. unfold delta. simpl. lia. Qed.

Lemma moved_range v t : 0 <= moved v t <= 1.
Proof. unfold moved. case_decide; [|lia]. destruct (negb _); simpl; lia. Qed.
Lemma finz_range v t : 0 <= finz v t <= 1.
Proof. unfold finz. case_decide; [|lia]. destruct (finished_status _); simpl; lia. Qed.
Lemma finz_moved v t : finz v t <= moved v t.
Proof.
  unfold finz, moved. case_decide; [|lia]. by destruct (v_st v t).
Qed.
Lemma finz_known v t : 0 < finz v t -> known v t /\ finished_status (v_st v t) = true.
Proof. unfold finz. case_decide; [|lia]. destruct (finished_status _); simpl; [done|lia]. Qed.
Lemma finz_true v t : known v t -> finished_status (v_st v t) = true -> finz v t = 1.
Proof. intros. unfold finz. rewrite decide_True by done. by rewrite H0. Qed.
Lemma finz_zero v t : known v t -> finz v t = 0 -> finished_status (v_st v t) = false.
Proof. intros Hk. unfold finz. rewrite decide_True by done. by destruct (finished_status _). Qed.
Lemma moved_one v t : known v t -> moved v t = 1 -> v_st v t <> PENDING.
Proof. intros Hk. unfold moved. rewrite decide_True by done. intros H Hs. by rewrite Hs in H. Qed.
Lemma moved_pending v t : v_st v t = PENDING -> moved v t = 0.
Proof. intros Hs. unfold moved. rewrite Hs. by case_decide. Qed.

Section contributions.
Context (t : Z) (ws : list worker_pc).

Lemma w_about_range pc : 0 <= w_about t pc <= 1.
Proof. destruct pc; simpl; try lia; apply delta_range. Qed.
Lemma w_held_range pc : 0 <= w_held t pc <= 1.
Proof. destruct pc; simpl; try lia; apply delta_range. Qed.
Lemma w_ran_range pc : 0 <= w_ran t pc <= w_held t pc.
Proof. destruct pc as [| |u|u|u|u|u|u|u|u ?|u ? ? ?|u ? ?|u ? ?|u|u|u ?|u ? ?|u ? ?|u ? ? ?|u ? ?|u ? ?]; simpl; try pose proof (delta_range t u); lia. Qed.
Lemma w_ful_range pc : 0 <= w_ful t pc <= w_held t pc.
Proof. destruct pc as [| |u|u|u|u|u|u|u|u ?|u ? ? ?|u ? ?|u ? ?|u|u|u ?|u ? ?|u ? ?|u ? ? ?|u ? ?|u ? ?]; simpl; try pose proof (delta_range t u); lia. Qed.
Lemma w_prop_range pc : 0 <= w_prop t pc <= 1.
Proof. destruct pc; simpl; try lia; apply delta_range. Qed.
Lemma w_plock_range pc : 0 <= w_plock t pc <= w_prop t pc.
Proof. destruct pc as [| |u|u|u|u|u|u|u|u ?|u ? ? ?|u ? ?|u ? ?|u|u|u ?|u ? ?|u ? ?|u ? ? ?|u ? ?|u ? ?]; simpl; try pose proof (delta_range t u); lia. Qed.
Lemma w_lock_range pc : 0 <= w_lock t pc <= 1.
Proof. destruct pc; simpl; try lia; apply delta_range. Qed.

Lemma sum_elem (f : worker_pc -> Z) i pc :
  (forall pc, 0 <= f pc) -> ws !! i = Some pc -> f pc <= zsum f ws.
Proof. intros Hf Hi. apply zsum_elem; [auto|]. by eapply list_elem_of_lookup_2. Qed.

Lemma sum_nonneg (f : worker_pc -> Z) : (forall pc, 0 <= f pc) -> 0 <= zsum f ws.
Proof. intros. by apply zsum_nonneg. Qed.
End contributions.

Lemma s_about_range t sp : 0 <= s_about t sp <= 1.
Proof. destruct sp; simpl; try lia; apply delta_range. Qed.
Lemma s_lock_range t sp : 0 <= s_lock t sp <= 1.
Proof. destruct sp; simpl; try lia; apply delta_range. Qed.

(** Two views with the same lists have the same sums. *)
Lemma edges_ext v v' c : v_n v' = v_n v -> v_fo v' = v_fo v -> edges v' c = edges v c.
Proof. intros Hn Hf. unfold edges, tasks. by rewrite Hn, Hf. Qed.

Lemma unfinished_ext v v' c :
  v_n v' = v_n v -> v_fo v' = v_fo v ->
  (forall p, known v p -> finished_status (v_st v' p) = finished_status (v_st v p)) ->
  unfinished v' c = unfinished v c.
Proof.
  intros Hn Hf Hs. unfold unfinished, tasks. rewrite Hn, Hf. apply zsum_ext.
  intros p Hp%elem_of_seqZ. rewrite Hs; [done|]. unfold known. lia.
Qed.

Lemma walking_insert v ws i pc pc' c :
  ws !! i = Some pc ->
  walking v (<[i := pc']> ws) c = walking v ws c - occ c (w_rem v pc) + occ c (w_rem v pc').
Proof. intros. unfold walking. by rewrite (zsum_insert _ _ _ pc). Qed.

Lemma w_rem_ext v v' pc : v_fo v' = v_fo v -> v_ch v' = v_ch v -> w_rem v' pc = w_rem v pc.
Proof. intros Hf Hc. destruct pc; simpl; by rewrite ?Hf, ?Hc. Qed.

Lemma walking_ext v v' ws c :
  v_fo v' = v_fo v -> v_ch v' = v_ch v -> walking v' ws c = walking v ws c.
Proof. intros. unfold walking. apply zsum_ext. intros pc _. by rewrite (w_rem_ext v v'). Qed.

(** What a step of a worker may change: never the lists nor a [fanin_count]. *)
Record worker_frame (v v' : view) : Prop := {
  wf_n : v_n v' = v_n v;
  wf_fo : v_fo v' = v_fo v;
  wf_ch : v_ch v' = v_ch v;
  wf_fc : v_fc v' = v_fc v;
  wf_rc : forall c, known v c -> v_rc v c <= v_rc v' c;
  wf_fin : forall t, known v t -> finished_status (v_st v t) = true ->
    finished_status (v_st v' t) = true;
}.

Lemma known_frame v v' t : worker_frame v v' -> known v' t <-> known v t.
Proof. intros Hf. pose proof (wf_n _ _ Hf) as Hn. unfold known. by rewrite Hn. Qed.

Lemma w_ok_frame v v' pc : worker_frame v v' -> w_ok v pc -> w_ok v' pc.
Proof.
  intros Hf. pose proof Hf as [Hn Hfo Hch Hfc Hrc Hfin].
  assert (Hk : forall t, known v t -> known v' t) by (intros; by apply (known_frame v v')).
  assert (Ha : forall l, all_known v l -> all_known v' l) by (unfold all_known; auto).
  destruct pc; simpl; rewrite ?Hch, ?Hfc; intros Hp; try done; destruct_and?; split_and?; auto;
    match goal with Hr : 0 < v_rc v ?c |- _ => specialize (Hrc c ltac:(assumption)); lia end.
Qed.

Lemma s_ok_frame v v' sp :
  v_fc v' = v_fc v -> (forall t, s_task sp = Some t -> v_rc v t <= v_rc v' t) ->
  s_ok v sp -> s_ok v' sp.
Proof.
  intros Hf Hr. destruct sp; simpl in *; rewrite ?Hf; try done.
  intros [? ?]. specialize (Hr _ eq_refl). split; [done|lia].
Qed.

(** Fewer edges wait when more has finished. *)
Lemma unfinished_mono v v' c : worker_frame v v' -> unfinished v' c <= unfinished v c.
Proof.
  intros [Hn Hfo _ _ _ Hfin]. unfold unfinished, tasks. rewrite Hn, Hfo. apply zsum_mono.
  intros p Hp%elem_of_seqZ. pose proof (occ_nonneg c (v_fo v p)).
  destruct (finished_status (v_st v p)) eqn:Hf.
  - rewrite Hfin; [done|unfold known; lia|done].
  - by case_match.
Qed.

(** A producer that finishes leaves its edges to the propagation. *)
Lemma unfinished_drop v v' p c :
  worker_frame v v' -> known v p -> finished_status (v_st v p) = false ->
  finished_status (v_st v' p) = true -> unfinished v' c + occ c (v_fo v p) <= unfinished v c.
Proof.
  intros [Hn Hfo _ _ _ Hfin] Hk Hf Hf'. unfold unfinished, tasks. rewrite Hn, Hfo.
  pose proof (zsum_drop (fun q => if finished_status (v_st v q) then 0 else occ c (v_fo v q))
    (fun q => if finished_status (v_st v' q) then 0 else occ c (v_fo v q)) (seqZ 0 (v_n v)) p) as Hd.
  cbv beta in Hd. rewrite Hf, Hf', Z.sub_0_r in Hd.
  apply Hd; [|apply elem_of_seqZ; unfold known in Hk; lia].
  intros q Hq%elem_of_seqZ. pose proof (occ_nonneg c (v_fo v q)).
  destruct (finished_status (v_st v q)) eqn:Hs.
  - rewrite Hfin; [done|unfold known; lia|done].
  - by case_match.
Qed.

(** What the submitter may count twice is paid by the producer that finishes. *)
Lemma dup_frame v v' sp c :
  worker_frame v v' -> (forall p c, s_edge sp = Some (p, c) -> known v p /\ c ∈ v_fo v p) ->
  unfinished v' c + s_dup v' c sp <= unfinished v c + s_dup v c sp.
Proof.
  intros Hf He. pose proof (unfinished_mono v v' c Hf) as Hm.
  assert (Hp : forall f p, s_edge sp = Some (p, f_tid f) ->
    unfinished v' c + (if finished_status (v_st v' p) then delta c (f_tid f) else 0) <=
    unfinished v c + (if finished_status (v_st v p) then delta c (f_tid f) else 0)).
  { intros f p [Hk Hin]%He. destruct (finished_status (v_st v p)) eqn:Hs.
    - by rewrite (wf_fin _ _ Hf) by done; apply Z.add_le_mono_r.
    - destruct (finished_status (v_st v' p)) eqn:Hs'; [|lia].
      pose proof (unfinished_drop v v' p c Hf Hk Hs Hs'). unfold delta. case_decide as Ht; [|lia].
      rewrite Ht in Hin. apply occ_elem_of in Hin. lia. }
  destruct sp; simpl in *; try lia; by apply Hp.
Qed.

(** One step of worker [i], from [pc] to [pc']. *)
Lemma ok_worker v v' sp ws i pc pc' :
  ok v sp ws -> ws !! i = Some pc -> worker_frame v v' ->
  (forall t, occ t (v_log v') + w_about t pc' - moved v' t =
             occ t (v_log v) + w_about t pc - moved v t) ->
  (forall t, w_held t pc' + finz v' t - occ t (v_hd v') =
             w_held t pc + finz v t - occ t (v_hd v)) ->
  (forall t, occ t (v_hd v') <= occ t (v_log v')) ->
  (forall t, occ t (v_ex v') - finz v' t - w_ran t pc' =
             occ t (v_ex v) - finz v t - w_ran t pc) ->
  (forall t, occ t (v_ful v') - finz v' t - w_ful t pc' =
             occ t (v_ful v) - finz v t - w_ful t pc) ->
  (forall t, known v t -> s_fresh sp <> Some t -> v_prom v' t = (occ t (v_ful v') =? 0)) ->
  (forall t, w_prop t pc' - finz v' t <= w_prop t pc - finz v t) ->
  (forall p, known v p -> v_lk v' p - w_lock p pc' = v_lk v p - w_lock p pc /\ v_lk v' p <= 1) ->
  w_ok v' pc' ->
  (forall t, s_building sp = Some t -> v_st v' t = v_st v t) ->
  (forall c, known v c -> 0 <= v_rc v' c) ->
  (forall c, known v c -> v_st v' c <> PENDING -> v_st v c <> PENDING \/ v_fc v c <= v_rc v c) ->
  (forall c, known v c -> v_rc v' c + unfinished v' c + occ c (w_rem v pc') =
             v_rc v c + unfinished v c + occ c (w_rem v pc)) ->
  (forall p, 0 < s_lock p sp -> over v' (<[i := pc']> ws) p = over v ws p) ->
  (forall c, known v c -> v_st v' c = PENDING -> v_fc v c <= v_rc v' c ->
     armed c (v_fc v c) pc' \/
     (v_st v c = PENDING /\ v_fc v c <= v_rc v c /\
      (armed c (v_fc v c) pc -> armed c (v_fc v c) pc'))) ->
  ok v' sp (<[i := pc']> ws).
Proof.
  intros Hok Hi Hf Hlog Hheld Hhd Hex Hful Hprom Hprop Hlock Hpc Hbuild Hrc Hgone Hsum Hover
    Harm.
  pose proof Hf as [Hn Hfo Hch Hfc Hmono Hfin].
  assert (Hk : forall t, known v' t <-> known v t) by (intros; by apply known_frame).
  assert (Hlink : forall c, linked v' sp c = linked v sp c) by (intros; unfold linked; by rewrite Hfc).
  assert (Hpend : forall c, s_pend v ws c sp = s_pend v' (<[i:=pc']> ws) c sp).
  { intros c. destruct sp; simpl; try done; simpl in Hover; rewrite Hover; try done;
      rewrite delta_eq; lia. }
  assert (Hdue : forall c, s_due v ws c sp = s_due v' (<[i:=pc']> ws) c sp).
  { intros c. destruct sp; simpl; try done; simpl in Hover; rewrite Hover; try done;
      rewrite delta_eq; lia. }
  assert (Hwalk : forall c, walking v' (<[i:=pc']> ws) c =
    walking v ws c - occ c (w_rem v pc) + occ c (w_rem v pc')).
  { intros c. by rewrite (walking_ext v v'), (walking_insert _ _ _ pc) by done. }
  assert (Howed : forall c, known v c -> v_rc v' c + owed v' (<[i:=pc']> ws) c = v_rc v c + owed v ws c).
  { intros c Hc. specialize (Hsum c Hc). unfold owed.
    rewrite Hwalk. lia. }
  destruct Hok; constructor; intros; rewrite ?Hk in *; rewrite ?(edges_ext v v'), ?Hlink by done;
    rewrite ?(zsum_insert _ _ _ pc) by done; auto.
  - by rewrite Hn.
  - specialize (Hlog t). specialize (ok_log0 t). lia.
  - specialize (Hheld t). specialize (ok_held0 t). lia.
  - specialize (Hex t). specialize (ok_ex0 t). lia.
  - specialize (Hful t). specialize (ok_ful0 t). lia.
  - specialize (Hprop t). specialize (ok_prop0 t). lia.
  - destruct (Hlock p); [done|]. destruct (ok_lock0 p); [done|]. lia.
  - match goal with H : <[i:=_]> ws !! ?j = Some _ |- _ =>
      destruct (decide (j = i)) as [->|] end.
    + rewrite list_lookup_insert_eq in * by (by eapply lookup_lt_Some). by simplify_eq.
    + rewrite list_lookup_insert_ne in * by done. eauto using w_ok_frame.
  - rewrite Hn. eauto.
  - rewrite Hfo, Hbuild by done. auto.
  - apply (s_ok_frame v); [done| |done]. intros t Ht. apply Hmono. by apply ok_task0.
  - rewrite Hn. rewrite Hfo in *. auto.
  - rewrite Hfc. auto.
  - rewrite <- Hpend. specialize (ok_low0 c ltac:(done)). specialize (Howed c ltac:(done)). lia.
  - specialize (ok_high0 c ltac:(done)). specialize (Howed c ltac:(done)). lia.
  - rewrite Hfo. eauto.
  - pose proof (dup_frame v v' sp c Hf ok_edge0). specialize (Hsum c ltac:(done)).
    pose proof (unfinished_mono v v' c Hf). rewrite Hwalk.
    specialize (ok_half0 c ltac:(done)). lia.
  - rewrite <- Hdue. specialize (ok_exact0 ltac:(done) c ltac:(done)). specialize (Howed c ltac:(done)). lia.
  - rewrite Hfc. pose proof (Hmono c ltac:(done)).
    destruct (Hgone c) as [?|?]; [done..|specialize (ok_gone0 c ltac:(done) ltac:(done)); lia|lia].
  - rewrite Hfc in *. destruct (Harm c) as [Ha|(Hp & Hle & Ha)]; [done..| |].
    + exists i, pc'. by rewrite list_lookup_insert_eq by (by eapply lookup_lt_Some).
    + destruct (ok_armed0 c) as (j & pcj & Hj & Haj); [done..|].
      destruct (decide (j = i)) as [->|].
      * exists i, pc'. rewrite list_lookup_insert_eq by (by eapply lookup_lt_Some).
        simplify_eq. auto.
      * exists j, pcj. by rewrite list_lookup_insert_ne by done.
Qed.

(** ** Views that agree on the known tasks and on the lists in use *)
Record view_eq (v w : view) (ws : list worker_pc) : Prop := {
  ve_n : v_n v = v_n w;
  ve_log : v_log v = v_log w;
  ve_hd : v_hd v = v_hd w;
  ve_ex : v_ex v = v_ex w;
  ve_ful : v_ful v = v_ful w;
  ve_ch : forall i pc h, ws !! i = Some pc -> w_head pc = Some h -> v_ch v h = v_ch w h;
  ve_st : forall t, known w t -> v_st v t = v_st w t;
  ve_lk : forall t, known w t -> v_lk v t = v_lk w t;
  ve_fo : forall t, known w t -> v_fo v t = v_fo w t;
  ve_fc : forall t, known w t -> v_fc v t = v_fc w t;
  ve_rc : forall t, known w t -> v_rc v t = v_rc w t;
  ve_prom : forall t, known w t -> v_prom v t = v_prom w t;
}.

Section view_eq.
Context (v w : view) (ws : list worker_pc) (He : view_eq v w ws).

Lemma ve_known t : known v t <-> known w t.
Proof. unfold known. by rewrite (ve_n _ _ _ He). Qed.

Lemma ve_finz t : finz v t = finz w t.
Proof.
  unfold finz. destruct (decide (known w t)) as [Hk|Hk].
  - rewrite decide_True by (by apply ve_known). by rewrite (ve_st _ _ _ He).
  - rewrite decide_False; [done|]. by rewrite ve_known.
Qed.

Lemma ve_moved t : moved v t = moved w t.
Proof.
  unfold moved. destruct (decide (known w t)) as [Hk|Hk].
  - rewrite decide_True by (by apply ve_known). by rewrite (ve_st _ _ _ He).
  - rewrite decide_False; [done|]. by rewrite ve_known.
Qed.

Lemma ve_tasks p : p ∈ tasks w -> known w p.
Proof. intros Hp%elem_of_seqZ. unfold known. lia. Qed.

Lemma ve_edges c : edges v c = edges w c.
Proof.
  unfold edges. replace (tasks v) with (tasks w) by (unfold tasks; by rewrite (ve_n _ _ _ He)).
  apply zsum_ext. intros p Hp%ve_tasks. by rewrite (ve_fo _ _ _ He).
Qed.

Lemma ve_unfinished c : unfinished v c = unfinished w c.
Proof.
  unfold unfinished. replace (tasks v) with (tasks w) by (unfold tasks; by rewrite (ve_n _ _ _ He)).
  apply zsum_ext. intros p Hp%ve_tasks. by rewrite (ve_fo _ _ _ He), (ve_st _ _ _ He).
Qed.

Lemma ve_all_known l : all_known w l -> all_known v l.
Proof. intros H c Hc. apply ve_known. auto. Qed.

Lemma ve_w_ok i pc : ws !! i = Some pc -> w_ok w pc -> w_ok v pc.
Proof.
  pose proof ve_known as Hk. pose proof ve_all_known as Ha. intros Hi.
  pose proof (fun h => ve_ch _ _ _ He i pc h Hi) as Hch.
  destruct pc; simpl in *; rewrite ?Hch by done; intros H; try done; destruct_and?;
    rewrite ?Hk, ?(ve_st _ _ _ He), ?(ve_rc _ _ _ He), ?(ve_fc _ _ _ He) by done; split_and?; auto.
Qed.

Lemma ve_w_rem i pc : ws !! i = Some pc -> w_ok w pc -> w_rem v pc = w_rem w pc.
Proof.
  intros Hi. pose proof (fun h => ve_ch _ _ _ He i pc h Hi) as Hch.
  destruct pc; simpl in *; intros; rewrite ?Hch, ?(ve_fo _ _ _ He) by done; done.
Qed.

Lemma ve_walking c :
  (forall i pc, ws !! i = Some pc -> w_ok w pc) -> walking v ws c = walking w ws c.
Proof.
  intros Hws. unfold walking. apply zsum_ext.
  intros pc [i Hi]%list_elem_of_lookup_1. by rewrite (ve_w_rem i) by eauto.
Qed.

Lemma ve_owed c : (forall i pc, ws !! i = Some pc -> w_ok w pc) -> owed v ws c = owed w ws c.
Proof. intros. unfold owed. by rewrite ve_unfinished, ve_walking. Qed.

(** The frame of the submitter reads its own task only. *)
Lemma ve_s_ok sp :
  (forall t, s_task sp = Some t -> known w t) -> s_ok w sp -> s_ok v sp.
Proof.
  intros Ht. destruct sp; simpl in *; intros Hs; rewrite ?(ve_fc _ _ _ He), ?(ve_rc _ _ _ He) by auto; done.
Qed.

Lemma ve_linked sp c : known w c -> linked v sp c = linked w sp c.
Proof. intros. unfold linked. by rewrite (ve_fc _ _ _ He). Qed.

Lemma ve_edge c sp :
  (forall p c, s_edge sp = Some (p, c) -> known w p /\ c ∈ v_fo w p) ->
  s_pend v ws c sp = s_pend w ws c sp /\ s_dup v c sp = s_dup w c sp /\
  s_due v ws c sp = s_due w ws c sp.
Proof.
  intros Hs. destruct sp; simpl in *; try done; unfold over;
    (rewrite (ve_st _ _ _ He); [done|by eapply Hs]).
Qed.

Lemma ok_ext sp : ok w sp ws -> ok v sp ws.
Proof.
  intros Hok. pose proof Hok as []. pose proof ve_known as Hk.
  assert (Ht : forall t, s_task sp = Some t -> known w t) by (intros; by apply ok_task0).
  constructor; intros; rewrite ?Hk in *;
    rewrite ?ve_moved, ?ve_finz, ?(ve_log _ _ _ He), ?(ve_hd _ _ _ He), ?(ve_ex _ _ _ He), ?(ve_ful _ _ _ He),
      ?(ve_n _ _ _ He), ?ve_edges, ?ve_unfinished, ?ve_walking, ?ve_owed, ?ve_linked by eauto;
    eauto using ve_w_ok, ve_s_ok.
  - rewrite (ve_prom _ _ _ He) by done. auto.
  - rewrite (ve_lk _ _ _ He) by done. auto.
  - assert (s_task sp = Some t) by (destruct sp; simpl in *; try done; congruence).
    rewrite (ve_st _ _ _ He), (ve_fo _ _ _ He) by auto. auto.
  - rewrite (ve_fo _ _ _ He) in * by done. eauto.
  - rewrite (ve_fc _ _ _ He) by done. auto.
  - rewrite (ve_rc _ _ _ He) by done. auto.
  - rewrite (ve_rc _ _ _ He), (proj1 (ve_edge c sp ok_edge0)) by done. auto.
  - rewrite (ve_rc _ _ _ He) by done. auto.
  - destruct (ok_edge0 p c) as [? ?]; [done|]. by rewrite (ve_fo _ _ _ He).
  - destruct (ve_edge c sp ok_edge0) as (_ & -> & _). rewrite (ve_rc _ _ _ He) by done. auto.
  - destruct (ve_edge c sp ok_edge0) as (_ & _ & ->). rewrite (ve_rc _ _ _ He) by done. auto.
  - rewrite (ve_st _ _ _ He), (ve_fc _ _ _ He), (ve_rc _ _ _ He) in * by done. auto.
  - rewrite (ve_st _ _ _ He), (ve_fc _ _ _ He), (ve_rc _ _ _ He) in * by done. auto.
Qed.
End view_eq.
End accounts.
