(* ===== verification/LevelRuntimeSteps.v ===== *)
(** * Every action of a worker keeps the accounts of LevelRuntimeView

    One lemma per kind of action, each an instance of [ok_worker] with the
    update that the action makes to the view. *)

From S2P Require Import Prelude LinquTaskRing LevelRuntime LevelRuntimeView.

(** ** Sums against each other *)
Lemma zsum_le (f g : worker_pc -> Z) ws :
  (forall pc, f pc <= g pc) -> zsum f ws <= zsum g ws.
Proof. intros Hfg. induction ws as [|pc ws IH]; simpl; [lia|]. specialize (Hfg pc). lia. Qed.

Lemma zsum_gap (f g : worker_pc -> Z) ws i pc :
  (forall pc, f pc <= g pc) -> ws !! i = Some pc -> g pc - f pc <= zsum g ws - zsum f ws.
Proof.
  intros Hfg. revert i. induction ws as [|x ws IH]; intros [|i] Hi; simplify_eq/=.
  - pose proof (zsum_le f g ws Hfg). lia.
  - specialize (IH i Hi). specialize (Hfg x). lia.
Qed.

(** The status of one task changes. *)
Section status.
Context (v : view) (t : Z) (st : Status) (Hk : known v t).
Let v' := v <| v_st := <[t := st]> (v_st v) |>.

Lemma moved_status u :
  moved v' u = moved v u + delta u t * (Z.b2z (negb (status_eqb st PENDING)) - moved v t).
Proof.
  unfold moved, delta. change (decide (known v' u)) with (decide (known v u)).
  cbn [v_st v' setter set_v_st]. destruct (decide (t = u)) as [->|Hne].
  - rewrite !(decide_True (P := known v u)) by done. rewrite fn_lookup_insert. ring.
  - rewrite fn_lookup_insert_ne by done. ring.
Qed.

Lemma finz_status u :
  finz v' u = finz v u + delta u t * (Z.b2z (finished_status st) - finz v t).
Proof.
  unfold finz, delta. change (decide (known v' u)) with (decide (known v u)).
  cbn [v_st v' setter set_v_st]. destruct (decide (t = u)) as [->|Hne].
  - rewrite !(decide_True (P := known v u)) by done. rewrite fn_lookup_insert. ring.
  - rewrite fn_lookup_insert_ne by done. ring.
Qed.

(** The edges that wait for [t] are freed when [t] finishes. *)
Lemma unfinished_status c :
  finished_status (v_st v t) = false ->
  unfinished v' c = unfinished v c - Z.b2z (finished_status st) * occ c (v_fo v t).
Proof.
  intros Hf. unfold unfinished. change (tasks v') with (tasks v).
  rewrite (zsum_change (fun p => if finished_status (v_st v p) then 0 else occ c (v_fo v p)) _ _ t).
  - cbn [v_st v_fo v' setter set_v_st]. rewrite Hf, fn_lookup_insert.
    destruct (finished_status st); simpl; lia.
  - apply NoDup_seqZ.
  - apply elem_of_seqZ. unfold known in Hk. lia.
  - intros y _ Hy. cbn [v_st v_fo v' setter set_v_st]. by rewrite fn_lookup_insert_ne by done.
Qed.

Lemma unfinished_same c :
  finished_status (v_st v t) = finished_status st -> unfinished v' c = unfinished v c.
Proof.
  intros Hf. apply unfinished_ext; [done..|]. intros p _. cbn [v_st v' setter set_v_st].
  destruct (decide (t = p)) as [->|]; [by rewrite fn_lookup_insert|by rewrite fn_lookup_insert_ne].
Qed.

(** A task that had left [PENDING] is not the one that leaves it. *)
Lemma gone_status c : moved v t = 1 -> v_st v' c <> PENDING -> v_st v c <> PENDING.
Proof.
  cbn [v_st v' setter set_v_st]. intros Hm. destruct (decide (t = c)) as [->|].
  - intros _. by apply moved_one.
  - by rewrite fn_lookup_insert_ne by done.
Qed.

Lemma frame_status :
  (finished_status (v_st v t) = true -> finished_status st = true) -> worker_frame v v'.
Proof.
  intros Hf. constructor; try done. intros u _. cbn [v_st v' setter set_v_st].
  destruct (decide (t = u)) as [->|]; [by rewrite fn_lookup_insert|by rewrite fn_lookup_insert_ne].
Qed.
End status.

Lemma frame_refl v v' :
  v_n v' = v_n v -> v_fo v' = v_fo v -> v_ch v' = v_ch v -> v_fc v' = v_fc v ->
  v_rc v' = v_rc v -> v_st v' = v_st v -> worker_frame v v'.
Proof. intros ? ? ? ? Hr Hs. constructor; try done; intros; by rewrite ?Hr, ?Hs. Qed.

Lemma s_mid_range c sp : 0 <= s_mid c sp.
Proof. destruct sp; simpl; try lia; apply delta_range. Qed.
Lemma s_dup_range v c sp : 0 <= s_dup v c sp <= s_mid c sp.
Proof.
  destruct sp; simpl; try lia; pose proof (delta_range c (f_tid f)); try case_match; lia.
Qed.
Lemma s_due_range v ws c sp : 0 <= s_due v ws c sp <= s_mid c sp.
Proof.
  destruct sp; simpl; try lia; pose proof (delta_range c (f_tid f)); try case_match; lia.
Qed.

Section accounts.
Context {only_strict : Strict}.

(** ** What [ok] says of one worker *)
Section facts.
Context (v : view) (sp : submit_pc) (ws : list worker_pc) (Hok : ok v sp ws).

Lemma ok_held_sum t : zsum (w_held t) ws <= 1 - finz v t.
Proof.
  pose proof (ok_held _ _ _ Hok t). pose proof (ok_hd _ _ _ Hok t).
  pose proof (ok_log _ _ _ Hok t). pose proof (moved_range v t).
  pose proof (s_about_range t sp). pose proof (sum_nonneg ws (w_about t) (fun pc => proj1 (w_about_range t pc))).
  lia.
Qed.

(** A task enqueued is enqueued for the first time. *)
Lemma ok_once t : occ t (v_ex v) <= 1 /\ occ t (v_ful v) <= 1.
Proof.
  pose proof (ok_held_sum t). rewrite (ok_ex _ _ _ Hok), (ok_ful _ _ _ Hok).
  pose proof (zsum_le _ _ ws (fun pc => proj2 (w_ran_range t pc))).
  pose proof (zsum_le _ _ ws (fun pc => proj2 (w_ful_range t pc))). lia.
Qed.

Lemma building_pending t : s_building sp = Some t -> moved v t = 0.
Proof. intros Hb. apply moved_pending. by apply (ok_build _ _ _ Hok). Qed.

Lemma ok_rc_bound c : known v c ->
  v_rc v c + owed v ws c + s_mid c sp <= 2 * v_fc v c /\ edges v c <= v_fc v c < 2 ^ 31.
Proof.
  intros Hc. pose proof (ok_high _ _ _ Hok c Hc) as Hh. pose proof (ok_edges _ _ _ Hok c Hc) as He.
  pose proof (ok_fc _ _ _ Hok c Hc) as Hf. unfold linked in He.
  assert (0 <= s_left sp) by (destruct sp; simpl; try lia; pose proof (zlength_nonneg ps); lia).
  repeat case_decide; lia.
Qed.

Lemma walking_elem i pc c : ws !! i = Some pc -> occ c (w_rem v pc) <= walking v ws c.
Proof. intros. apply (sum_elem ws (fun pc => occ c (w_rem v pc)) i); [|done]. intros. apply occ_nonneg. Qed.

Lemma unfinished_nonneg c : 0 <= unfinished v c.
Proof. apply zsum_nonneg. intros p _. destruct (finished_status _); [done|apply occ_nonneg]. Qed.

Lemma walking_nonneg c : 0 <= walking v ws c.
Proof. apply zsum_nonneg. intros. apply occ_nonneg. Qed.

(** A task being built is in no list and was not counted. *)
Lemma building_uncounted c : s_building sp = Some c -> ~ 0 < v_rc v c.
Proof.
  intros Hb. assert (Hs : s_task sp = Some c) by (destruct sp; simpl in *; congruence).
  destruct (ok_task _ _ _ Hok c Hs) as [_ Hc].
  pose proof (ok_high _ _ _ Hok c Hc) as Hh. rewrite (ok_edges _ _ _ Hok c Hc) in Hh.
  unfold linked in Hh. rewrite decide_True in Hh by done. unfold owed in Hh.
  pose proof (unfinished_nonneg c). pose proof (walking_nonneg c). pose proof (s_mid_range c sp). lia.
Qed.

Context (i : nat) (pc : worker_pc) (Hi : ws !! i = Some pc).

(** The holder of a task is the only one, and the task has not finished. *)
Lemma held_facts t :
  w_held t pc = 1 ->
  finz v t = 0 /\ moved v t = 1 /\ zsum (w_held t) ws = 1 /\ s_building sp <> Some t.
Proof.
  intros Hh. pose proof (sum_elem ws _ i pc (fun pc => proj1 (w_held_range t pc)) Hi).
  pose proof (ok_held_sum t). pose proof (finz_range v t). pose proof (finz_moved v t).
  pose proof (ok_held _ _ _ Hok t). pose proof (ok_hd _ _ _ Hok t).
  pose proof (ok_log _ _ _ Hok t). pose proof (moved_range v t).
  pose proof (s_about_range t sp). pose proof (sum_nonneg ws (w_about t) (fun pc => proj1 (w_about_range t pc))).
  split_and!; try lia. intros Hb%building_pending. lia.
Qed.

Lemma held_unfinished t : w_held t pc = 1 -> known v t -> finished_status (v_st v t) = false.
Proof. intros Hh Hk. apply finz_zero; [done|]. by apply held_facts. Qed.

(** A consumer on the way of a propagation: its count cannot overflow. *)
Lemma rem_bound c : known v c -> 0 < occ c (w_rem v pc) ->
  0 <= v_rc v c /\ v_rc v c + 1 < 2 ^ 32.
Proof.
  intros Hc Hr. pose proof (ok_rc _ _ _ Hok c Hc). pose proof (ok_rc_bound c Hc).
  pose proof (walking_elem i pc c Hi). pose proof (unfinished_nonneg c). unfold owed in *.
  pose proof (s_mid_range c sp). lia.
Qed.

(** The status of a task in progress is not that of a task being built. *)
Lemma moved_not_building t : moved v t = 1 -> s_building sp <> Some t.
Proof. intros Hm Hb%building_pending. lia. Qed.
End facts.

(** The accounts of a task do not read the field that was updated. *)
Ltac same_account v :=
  repeat match goal with
  | |- context[finz ?w ?u] => assert_fails (constr_eq w v); change (finz w u) with (finz v u)
  | |- context[moved ?w ?u] => assert_fails (constr_eq w v); change (moved w u) with (moved v u)
  | |- context[unfinished ?w ?u] =>
      assert_fails (constr_eq w v); change (unfinished w u) with (unfinished v u)
  end.

(** Goals of [ok_worker] that only count. *)
Ltac count v :=
  intros; same_account v; cbn -[occ delta finz moved unfinished known over edges];
  rewrite ?occ_app, ?occ_single; try lia; auto.

Section steps.
Context (v : view) (sp : submit_pc) (ws : list worker_pc) (i : nat).
Implicit Types (pc : worker_pc) (t c x : Z).
Local Notation "ws [ pc ]" := (<[i := pc]> ws) (at level 1, left associativity, format "ws [ pc ]").

(** No lock is taken or dropped: what is over stays over. *)
Lemma over_same v' pc pc' p :
  ws !! i = Some pc -> v_st v' p = v_st v p -> w_plock p pc' = w_plock p pc ->
  over v' ws[pc'] p = over v ws p.
Proof.
  intros Hi Hs Hp. unfold over. rewrite Hs, (zsum_insert _ _ _ pc) by done. rewrite Hp.
  by replace (zsum (w_plock p) ws - w_plock p pc + w_plock p pc) with (zsum (w_plock p) ws) by lia.
Qed.

(** An action that only moves the worker. *)
Lemma ok_move pc pc' :
  ok v sp ws -> ws !! i = Some pc ->
  (forall t, w_about t pc' = w_about t pc) ->
  (forall t, w_held t pc' = w_held t pc) ->
  (forall t, w_ran t pc' = w_ran t pc) ->
  (forall t, w_ful t pc' = w_ful t pc) ->
  (forall t, w_prop t pc' <= w_prop t pc) ->
  (forall t, w_lock t pc' = w_lock t pc) ->
  (forall t, w_plock t pc' = w_plock t pc) ->
  (forall c, known v c -> occ c (w_rem v pc') = occ c (w_rem v pc)) ->
  w_ok v pc' ->
  (forall c, known v c -> v_st v c = PENDING -> v_fc v c <= v_rc v c ->
     armed c (v_fc v c) pc -> armed c (v_fc v c) pc') ->
  ok v sp ws[pc'].
Proof.
  intros Hok Hi Habout Hheld Hran Hful Hprop Hlock Hplock Hrem Hpc Harm.
  apply (ok_worker v v sp ws i pc pc'); try done; try by apply frame_refl.
  all: try (intros; rewrite ?Habout, ?Hheld, ?Hran, ?Hful, ?Hlock; lia).
  - apply Hok.
  - intros. by apply (ok_prom _ _ _ Hok).
  - intros t. specialize (Hprop t). lia.
  - intros p Hp. rewrite Hlock. split; [done|]. by apply (ok_lock _ _ _ Hok).
  - apply Hok.
  - intros c Hc Hs. by left.
  - intros c Hc. by rewrite Hrem.
  - intros p _. by apply (over_same _ pc).
  - intros c Hc Hp Hle. right. split_and!; auto.
Qed.

(** The clauses of [ok] that the update leaves alone, and counting. *)
Ltac step_done Hok :=
  try (by apply frame_refl); try done; try (by count v);
  try (by intros; eapply (ok_prom _ _ _ Hok));
  try (by intros; split; [cbn; lia|]; apply (ok_lock _ _ _ Hok));
  try (by apply (ok_hd _ _ _ Hok));
  try (by apply (ok_rc _ _ _ Hok)); try (by intros; left);
  try (by intros; eapply over_same).

(** [dequeue_ready] *)
Lemma ok_dequeue t :
  ok v sp ws -> ws !! i = Some WIdle ->
  (forall u, occ u (v_hd v ++ [t]) <= occ u (v_log v)) ->
  ok (v <| v_hd := v_hd v ++ [t] |>) sp ws[WStart t].
Proof.
  intros Hok Hi Hhd.
  assert (Hk : known v t).
  { specialize (Hhd t). rewrite occ_app, occ_single, delta_eq in Hhd.
    pose proof (occ_nonneg t (v_hd v)). pose proof (ok_log _ _ _ Hok t).
    pose proof (s_about_range t sp).
    pose proof (sum_nonneg ws (w_about t) (fun pc => proj1 (w_about_range t pc))).
    assert (Hm : 0 < moved v t) by lia. unfold moved in Hm. by case_decide. }
  apply (ok_worker v _ sp ws i WIdle); step_done Hok.
Qed.

(** A status that changes neither what has left [PENDING] nor what has finished:
    [RUNNING] for the holder of a task, [CONSUMED] for a completed task. *)
Lemma ok_restatus pc pc' t st :
  ok v sp ws -> ws !! i = Some pc -> known v t -> moved v t = 1 ->
  status_eqb st PENDING = false -> finished_status (v_st v t) = finished_status st ->
  (forall u, w_about u pc' = w_about u pc) ->
  (forall u, w_held u pc' = w_held u pc) ->
  (forall u, w_ran u pc' = w_ran u pc) ->
  (forall u, w_ful u pc' = w_ful u pc) ->
  (forall u, w_prop u pc' = w_prop u pc) ->
  (forall u, w_lock u pc' = w_lock u pc) ->
  (forall u, w_plock u pc' = w_plock u pc) ->
  w_rem v pc' = w_rem v pc -> (forall c n, ~ armed c n pc) ->
  w_ok v pc' ->
  ok (v <| v_st := <[t := st]> (v_st v) |>) sp ws[pc'].
Proof.
  intros Hok Hi Hk Hm Hst Hfin Habout Hheld Hran Hful Hprop Hlock Hplock Hrem Harm Hpc.
  assert (Hm' : forall u, moved (v <| v_st := <[t := st]> (v_st v) |>) u = moved v u)
    by (intros; rewrite moved_status, Hm, Hst by done; simpl; lia).
  assert (Hf' : forall u, finz (v <| v_st := <[t := st]> (v_st v) |>) u = finz v u).
  { intros u. rewrite finz_status by done. rewrite <- Hfin. unfold finz at 2.
    rewrite decide_True by done. lia. }
  assert (Hfr : worker_frame v (v <| v_st := <[t := st]> (v_st v) |>))
    by (apply frame_status; [done|by rewrite Hfin]).
  apply (ok_worker v _ sp ws i pc); try done;
    try (by intros; rewrite ?Hm', ?Hf', ?Habout, ?Hheld, ?Hran, ?Hful, ?Hprop, ?Hlock; cbn; lia).
  - apply Hok.
  - intros. by apply (ok_prom _ _ _ Hok).
  - intros p Hp. rewrite Hlock. split; [done|]. by apply (ok_lock _ _ _ Hok).
  - by eapply w_ok_frame.
  - intros u Hb. cbn. apply fn_lookup_insert_ne. intros ->.
    by eapply (moved_not_building _ _ _ Hok).
  - apply Hok.
  - intros c Hc Hs. left. by apply (gone_status v t st Hk c).
  - intros c Hc. rewrite unfinished_same, Hrem by done. done.
  - intros p _. unfold over. cbn. rewrite (zsum_insert _ _ _ pc), Hplock by done.
    replace (zsum (w_plock p) ws - w_plock p pc + w_plock p pc) with (zsum (w_plock p) ws) by lia.
    destruct (decide (t = p)) as [->|]; [by rewrite fn_lookup_insert, Hfin|].
    by rewrite fn_lookup_insert_ne.
  - intros c Hc Hp Hle. right. cbn in Hp. destruct (decide (t = c)) as [->|].
    + rewrite fn_lookup_insert in Hp. by subst st.
    + rewrite fn_lookup_insert_ne in Hp by done. split_and!; [done..|]. by intros ?%Harm.
Qed.

(** [status = RUNNING] *)
Lemma ok_start t :
  ok v sp ws -> ws !! i = Some (WStart t) ->
  ok (v <| v_st := <[t := RUNNING]> (v_st v) |>) sp ws[WRun t].
Proof.
  intros Hok Hi. pose proof (ok_pc _ _ _ Hok _ _ Hi) as Hk. simpl in Hk.
  destruct (held_facts _ _ _ Hok _ _ Hi t (delta_eq t)) as (Hf & Hm & _ & Hb).
  apply (ok_restatus (WStart t)); try done; [by apply finz_zero|by intros ? ? ?].
Qed.

(** [status = CONSUMED] *)
Lemma ok_consumed t x k :
  ok v sp ws -> ws !! i = Some (CSet t x k) ->
  ok (v <| v_st := <[x := CONSUMED]> (v_st v) |>) sp ws[CAlive t x k].
Proof.
  intros Hok Hi. pose proof (ok_pc _ _ _ Hok _ _ Hi) as (Ht & Hk & Hf).
  apply (ok_restatus (CSet t x k)); try done; [|by intros ? ? ?].
  pose proof (finz_true _ _ Hk Hf). pose proof (finz_moved v x). pose proof (moved_range v x). lia.
Qed.

(** [desc->fn()] *)
Lemma ok_call t :
  ok v sp ws -> ws !! i = Some (WRun t) -> ok (v <| v_ex := v_ex v ++ [t] |>) sp ws[WMark t].
Proof.
  intros Hok Hi. pose proof (ok_pc _ _ _ Hok _ _ Hi) as Hk. simpl in Hk.
  apply (ok_worker v _ sp ws i (WRun t)); step_done Hok.
Qed.

(** The holder of a task that has run finds its promise there. *)
Lemma promise_there t :
  ok v sp ws -> ws !! i = Some (WPromise t) -> v_prom v t = true.
Proof.
  intros Hok Hi. pose proof (ok_pc _ _ _ Hok _ _ Hi) as Hk. simpl in Hk.
  destruct (held_facts _ _ _ Hok _ _ Hi t (delta_eq t)) as (Hf & Hm & Hs & Hb).
  rewrite (ok_prom _ _ _ Hok) by (done || (intros Hfr; apply Hb; by destruct sp; simplify_eq/=)).
  rewrite (ok_ful _ _ _ Hok), Hf.
  pose proof (zsum_gap _ _ _ _ _ (fun pc => proj2 (w_ful_range t pc)) Hi) as Hg.
  pose proof (sum_nonneg ws (w_ful t) (fun pc => proj1 (w_ful_range t pc))).
  simpl in Hg. rewrite delta_eq in Hg. by replace (0 + zsum (w_ful t) ws) with 0 by lia.
Qed.

(** [set_value], [reset] *)
Lemma ok_promise t :
  ok v sp ws -> ws !! i = Some (WPromise t) ->
  ok (v <| v_ful := v_ful v ++ [t] |> <| v_prom := <[t := false]> (v_prom v) |>) sp
     ws[WComplete t].
Proof.
  intros Hok Hi. pose proof (ok_pc _ _ _ Hok _ _ Hi) as Hk. simpl in Hk.
  apply (ok_worker v _ sp ws i (WPromise t)); step_done Hok.
  intros u Hu Hfr. cbn. rewrite occ_app, occ_single.
  pose proof (occ_nonneg u (v_ful v)). unfold delta.
  destruct (decide (t = u)) as [->|].
  - rewrite fn_lookup_insert. symmetry. apply Z.eqb_neq. lia.
  - rewrite fn_lookup_insert_ne by done. rewrite Z.add_0_r. by apply (ok_prom _ _ _ Hok).
Qed.
(** [status = COMPLETED] *)
Lemma ok_complete t :
  ok v sp ws -> ws !! i = Some (WComplete t) ->
  ok (v <| v_st := <[t := COMPLETED]> (v_st v) |>) sp ws[PLock t].
Proof.
  intros Hok Hi. pose proof (ok_pc _ _ _ Hok _ _ Hi) as Hk. simpl in Hk.
  destruct (held_facts _ _ _ Hok _ _ Hi t (delta_eq t)) as (Hf & Hm & _ & Hb).
  pose proof (finz_zero _ _ Hk Hf) as Hfs.
  apply (ok_worker v _ sp ws i (WComplete t)); step_done Hok;
    try (by intros u; rewrite ?moved_status, ?finz_status, ?Hm, ?Hf by done; simpl; lia).
  - by apply frame_status; rewrite ?Hfs.
  - intros u Hu. cbn. apply fn_lookup_insert_ne. congruence.
  - intros c Hc Hs. left. by apply (gone_status v t COMPLETED Hk c).
  - intros c Hc. rewrite unfinished_status by done. simpl. lia.
  - intros p _. unfold over. cbn. rewrite (zsum_insert _ _ _ (WComplete t)) by done. simpl.
    destruct (decide (t = p)) as [->|].
    + rewrite fn_lookup_insert, Hfs, delta_eq.
      pose proof (sum_nonneg ws (w_plock p) (fun pc => proj1 (w_plock_range p pc))).
      simpl. apply Z.eqb_neq. lia.
    + rewrite fn_lookup_insert_ne, delta_ne by done. f_equal. f_equal. lia.
  - intros c Hc Hp Hle. right. cbn in Hp. destruct (decide (t = c)) as [->|].
    + by rewrite fn_lookup_insert in Hp.
    + rewrite fn_lookup_insert_ne in Hp by done. by split_and!.
Qed.

(** The exchange of [fanout_lock] succeeds. *)
Lemma ok_acquire t :
  ok v sp ws -> ws !! i = Some (PLock t) -> v_lk v t = 0 ->
  ok (v <| v_lk := <[t := 1]> (v_lk v) |>) sp ws[PHead t].
Proof.
  intros Hok Hi Hl. pose proof (ok_pc _ _ _ Hok _ _ Hi) as Hk. simpl in Hk.
  apply (ok_worker v _ sp ws i (PLock t)); step_done Hok.
  - intros p Hp. cbn. destruct (ok_lock _ _ _ Hok p Hp) as [_ ?]. destruct (decide (t = p)) as [->|].
    + rewrite fn_lookup_insert, delta_eq. lia.
    + rewrite fn_lookup_insert_ne, delta_ne by done. lia.
  - intros p Hp. unfold over. cbn. rewrite (zsum_insert _ _ _ (PLock t)) by done. simpl.
    rewrite delta_ne; [by rewrite Z.sub_0_r, Z.add_0_r|]. intros ->.
    destruct (ok_lock _ _ _ Hok p Hk) as [He _].
    pose proof (sum_nonneg ws (w_lock p) (fun pc => proj1 (w_lock_range p pc))). lia.
Qed.

(** [fanout_lock = 0] *)
Lemma ok_release t :
  ok v sp ws -> ws !! i = Some (PUnlock t) ->
  ok (v <| v_lk := <[t := 0]> (v_lk v) |>) sp ws[PDepHead t].
Proof.
  intros Hok Hi. pose proof (ok_pc _ _ _ Hok _ _ Hi) as Hk. simpl in Hk.
  apply (ok_worker v _ sp ws i (PUnlock t)); step_done Hok.
  intros p Hp. cbn. destruct (ok_lock _ _ _ Hok p Hp) as [He Hle]. destruct (decide (t = p)) as [->|].
  - pose proof (sum_elem ws _ i _ (fun pc => proj1 (w_lock_range p pc)) Hi) as Hs.
    pose proof (s_lock_range p sp). rewrite fn_lookup_insert. simpl in Hs.
    rewrite delta_eq in *. lia.
  - rewrite fn_lookup_insert_ne, delta_ne by done. lia.
Qed.

(** [atomic_fanin_refcount.fetch_add(1)] for the next consumer of the list. *)
Lemma ok_count t cur nxt c :
  ok v sp ws -> ws !! i = Some (PWalk t cur) -> v_ch v cur = c :: v_ch v nxt ->
  ok (v <| v_rc := <[c := v_rc v c + 1]> (v_rc v) |>) sp ws[PCheck t nxt c (v_rc v c)] /\
  known v c /\ 0 <= v_rc v c /\ v_rc v c + 1 < 2 ^ 32.
Proof.
  intros Hok Hi Hch. pose proof (ok_pc _ _ _ Hok _ _ Hi) as [Hk Ha]. rewrite Hch in Ha.
  assert (Hc : known v c) by (apply Ha; set_solver).
  assert (Hb : 0 <= v_rc v c /\ v_rc v c + 1 < 2 ^ 32).
  { apply (rem_bound _ _ _ Hok _ _ Hi c Hc). simpl. rewrite Hch. simpl.
    rewrite decide_True by done. pose proof (occ_nonneg c (v_ch v nxt)). lia. }
  split; [|done].
  assert (Hrc : forall u, (<[c := v_rc v c + 1]> (v_rc v)) u = v_rc v u + delta u c).
  { intros u. unfold delta. destruct (decide (c = u)) as [->|].
    - by rewrite fn_lookup_insert.
    - rewrite fn_lookup_insert_ne by done. lia. }
  apply (ok_worker v _ sp ws i (PWalk t cur)); step_done Hok.
  - constructor; try done. intros u _. cbn. rewrite Hrc. pose proof (delta_range u c). lia.
  - cbn. split_and!; [done|done|intros x Hx; apply Ha; set_solver|..]; rewrite ?Hrc, ?delta_eq; lia.
  - intros u Hu. cbn. rewrite Hrc. pose proof (delta_range u c). pose proof (ok_rc _ _ _ Hok u Hu). lia.
  - intros u Hu. same_account v. cbn -[unfinished occ]. rewrite Hrc, Hch. simpl. unfold delta. lia.
  - intros u Hu Hp Hle. cbn in *. rewrite Hrc in Hle. unfold delta in Hle.
    destruct (decide (c = u)) as [->|]; [left|right].
    + split; [done|]. rewrite u32_id; [done|]. unfold in_u32. lia.
    + split_and!; [done|lia|done].
Qed.

(** The compare-and-swap from [PENDING] to [READY] succeeds. *)
Lemma ok_ready t nxt c :
  ok v sp ws -> ws !! i = Some (PCas t nxt c) -> v_st v c = PENDING ->
  ok (v <| v_st := <[c := READY]> (v_st v) |>) sp ws[PEnqueue t nxt c].
Proof.
  intros Hok Hi Hst. pose proof (ok_pc _ _ _ Hok _ _ Hi) as (Hk & Hc & Ha & Hr & Hfull).
  assert (Hb : s_building sp <> Some c).
  { intros Hb. by apply (building_uncounted _ _ _ Hok) in Hb. }
  pose proof (moved_pending _ _ Hst) as Hm.
  assert (Hf : finz v c = 0) by (pose proof (finz_moved v c); pose proof (finz_range v c); lia).
  assert (Hfs : finished_status (v_st v c) = finished_status READY) by (by rewrite Hst).
  apply (ok_worker v _ sp ws i (PCas t nxt c)); step_done Hok;
    try (by intros u; rewrite ?moved_status, ?finz_status, ?Hm, ?Hf by done; simpl; lia).
  - apply frame_status; [done|]. by rewrite Hfs.
  - intros u Hu. cbn. apply fn_lookup_insert_ne. congruence.
  - intros u Hu. cbn. destruct (decide (c = u)) as [->|]; [by right|left].
    by rewrite fn_lookup_insert_ne in * by done.
  - intros u Hu. by rewrite unfinished_same.
  - intros p _. unfold over. cbn. rewrite (zsum_insert _ _ _ (PCas t nxt c)) by done. simpl.
    rewrite Z.sub_0_r, Z.add_0_r. destruct (decide (c = p)) as [->|].
    + by rewrite fn_lookup_insert, Hfs.
    + by rewrite fn_lookup_insert_ne.
  - intros u Hu Hp Hle. right. cbn in Hp. destruct (decide (c = u)) as [->|Hne].
    + by rewrite fn_lookup_insert in Hp.
    + rewrite fn_lookup_insert_ne in Hp by done. by split_and!.
Qed.

(** [enqueue_ready] by a propagation. *)
Lemma ok_enqueue t nxt c :
  ok v sp ws -> ws !! i = Some (PEnqueue t nxt c) ->
  ok (v <| v_log := v_log v ++ [c] |>) sp ws[PWalk t nxt].
Proof.
  intros Hok Hi. pose proof (ok_pc _ _ _ Hok _ _ Hi) as (Hk & Hc & Ha & Hr).
  apply (ok_worker v _ sp ws i (PEnqueue t nxt c)); step_done Hok.
  intros u. cbn. rewrite occ_app, occ_single. pose proof (ok_hd _ _ _ Hok u).
  pose proof (delta_range u c). lia.
Qed.
End steps.
End accounts.
