(* ===== verification/LevelRuntimeSubmit.v ===== *)
(** * Every action of the submitting thread keeps the accounts

    [ok_submit] covers the actions that leave the lists alone; allocating a
    task ([ok_alloc]) and linking a consumer to a producer ([ok_link]) are
    separate. *)

From S2P Require Import Prelude LinquTaskRing LevelRuntime LevelRuntimeView LevelRuntimeSteps.

Section accounts.
Context {only_strict : Strict}.

Section submit.
Context (v v' : view) (sp sp' : submit_pc) (ws : list worker_pc).

Lemma ok_submit :
  ok v sp ws ->
  v_n v' = v_n v -> v_fo v' = v_fo v -> v_ch v' = v_ch v ->
  v_hd v' = v_hd v -> v_ex v' = v_ex v -> v_ful v' = v_ful v ->
  (forall t, known v t -> finished_status (v_st v' t) = finished_status (v_st v t)) ->
  (forall t, s_about t sp' + occ t (v_log v') - moved v' t =
             s_about t sp + occ t (v_log v) - moved v t) ->
  (forall t, occ t (v_log v) <= occ t (v_log v')) ->
  (forall t, known v t -> s_fresh sp' <> Some t -> v_prom v' t = (occ t (v_ful v) =? 0)) ->
  (forall p, known v p -> v_lk v' p - s_lock p sp' = v_lk v p - s_lock p sp /\ v_lk v' p <= 1) ->
  (forall t, s_task sp' = Some t -> t = v_n v - 1 /\ known v t) ->
  (forall t, s_building sp' = Some t -> v_st v' t = PENDING /\ v_fo v t = []) ->
  s_ok v' sp' ->
  (forall c, known v c -> 0 <= v_fc v' c < 2 ^ 31) ->
  (forall c, known v c -> v_rc v c <= v_rc v' c) ->
  (forall c, known v c -> linked v' sp' c = linked v sp c) ->
  (forall c, known v c -> v_rc v c + s_pend v ws c sp <= v_rc v' c + s_pend v' ws c sp') ->
  (forall c, known v c -> v_rc v' c + s_mid c sp' <= v_rc v c + s_mid c sp) ->
  (forall p c, s_edge sp' = Some (p, c) -> s_edge sp = Some (p, c)) ->
  (forall c, known v c -> v_rc v' c + s_dup v' c sp' <= v_rc v c + s_dup v c sp) ->
  (strict = true -> forall c, known v c ->
     v_rc v' c + s_due v' ws c sp' <= v_rc v c + s_due v ws c sp) ->
  (forall c, known v c -> s_building sp <> Some c -> v_fc v' c = v_fc v c) ->
  (forall c, known v c -> v_st v' c <> PENDING -> v_st v c <> PENDING \/ v_fc v' c <= v_rc v' c) ->
  (forall c, known v c -> v_st v' c = PENDING -> s_task sp' <> Some c -> v_fc v' c <= v_rc v' c ->
     v_st v c = PENDING /\ s_task sp <> Some c /\ v_fc v c <= v_rc v c /\ v_fc v' c = v_fc v c) ->
  ok v' sp' ws.
Proof.
  intros Hok Hn Hfo Hch Hhd Hex Hful Hfin Hlog Hgrow Hprom Hlock Htask Hbuild Hsub Hfc Hrc Hlink
    Hlow Hhigh Hedge Hdup Hdue Hfcs Hgone Harm.
  assert (Hk : forall t, known v' t <-> known v t) by (intros; unfold known; by rewrite Hn).
  assert (Hkd : forall t, known v t -> known v' t) by (intros; by apply Hk).
  assert (Hfz : forall t, finz v' t = finz v t).
  { intros t. unfold finz. destruct (decide (known v t)) as [Ht|Ht].
    - rewrite decide_True by auto. by rewrite Hfin.
    - rewrite decide_False; [done|]. by rewrite Hk. }
  assert (Hunf : forall c, unfinished v' c = unfinished v c) by (intros; by apply unfinished_ext).
  assert (Hwalk : forall c, walking v' ws c = walking v ws c) by (intros; by apply walking_ext).
  assert (Howed : forall c, owed v' ws c = owed v ws c) by (intros c; unfold owed; by rewrite Hunf, Hwalk).
  assert (Hnb : forall c, known v c -> 0 < v_rc v c -> v_fc v' c = v_fc v c).
  { intros c Hc Hr. apply Hfcs; [done|]. intros Hb. by apply (building_uncounted v sp ws Hok c Hb) in Hr. }
  assert (Hall : forall l, all_known v l -> all_known v' l) by (unfold all_known; auto).
  constructor; intros; rewrite ?Hk in *;
    rewrite ?Hfz, ?Howed, ?Hwalk, ?Hunf, ?(edges_ext v v'), ?Hhd, ?Hex, ?Hful, ?Hn by done;
    try (by eapply Hok); auto.
  - specialize (Hlog t). pose proof (ok_log _ _ _ Hok t). lia.
  - specialize (Hgrow t). pose proof (ok_hd _ _ _ Hok t). lia.
  - pose proof (Hlock p ltac:(done)). pose proof (ok_lock _ _ _ Hok p ltac:(done)). lia.
  - pose proof (ok_pc _ _ _ Hok _ _ H) as Hp. destruct pc; simpl in *; rewrite ?Hch; destruct_and?;
      split_and?; rewrite ?Hfin, ?Hnb by done; auto;
      match goal with Hr : 0 < v_rc v ?c |- _ => specialize (Hrc c ltac:(assumption)); lia end.
  - rewrite Hfo. auto.
  - rewrite Hfo in *. by eapply (ok_up _ _ _ Hok).
  - pose proof (Hrc c H). pose proof (ok_rc _ _ _ Hok c H). lia.
  - rewrite Hlink by done. by apply (ok_edges _ _ _ Hok).
  - pose proof (Hlow c H). pose proof (ok_low _ _ _ Hok c H). lia.
  - pose proof (Hhigh c H). pose proof (ok_high _ _ _ Hok c H). lia.
  - rewrite Hfo. by apply (ok_edge _ _ _ Hok), Hedge.
  - pose proof (Hdup c H). pose proof (ok_half _ _ _ Hok c H). lia.
  - pose proof (Hdue H c H0). pose proof (ok_exact _ _ _ Hok H c H0). lia.
  - pose proof (Hrc c H). destruct (Hgone c) as [Hs|?]; [done..| |done].
    rewrite Hfcs; [|done|].
    + pose proof (ok_gone _ _ _ Hok c H Hs). lia.
    + intros Hb. by apply Hs, (ok_build _ _ _ Hok).
  - destruct (Harm c) as (? & ? & ? & He); try done. rewrite He in *.
    by eapply (ok_armed _ _ _ Hok).
Qed.
End submit.

Section submit_steps.
Context (v : view) (sp : submit_pc) (ws : list worker_pc).

(** An action that only moves the submitter. *)
Lemma ok_smove sp' :
  ok v sp ws ->
  (forall t, s_about t sp' = s_about t sp) -> (forall p, s_lock p sp' = s_lock p sp) ->
  s_fresh sp' = s_fresh sp -> s_task sp' = s_task sp -> s_building sp' = s_building sp ->
  s_left sp' = s_left sp -> (forall c, s_pend v ws c sp <= s_pend v ws c sp') ->
  (forall c, s_mid c sp' <= s_mid c sp) ->
  (forall p c, s_edge sp' = Some (p, c) -> s_edge sp = Some (p, c)) ->
  (forall c, s_dup v c sp' <= s_dup v c sp) ->
  (strict = true -> forall c, s_due v ws c sp' <= s_due v ws c sp) -> s_ok v sp' ->
  ok v sp' ws.
Proof.
  intros Hok Ha Hl Hf Ht Hb Hle Hp Hm He Hd Hdue Hs.
  apply (ok_submit v v sp sp' ws); try done; rewrite ?Ht, ?Hb, ?Hf; intros; rewrite ?Ha, ?Hl; try lia.
  - by apply (ok_prom _ _ _ Hok).
  - split; [lia|]. by apply (ok_lock _ _ _ Hok).
  - by apply (ok_task _ _ _ Hok).
  - by apply (ok_build _ _ _ Hok).
  - by apply (ok_fc _ _ _ Hok).
  - unfold linked. by rewrite Ht, Hb, Hle.
  - specialize (Hp c). lia.
  - specialize (Hm c). lia.
  - specialize (Hd c). lia.
  - specialize (Hdue ltac:(done) c). lia.
  - by left.
  - by split_and!.
Qed.

(** The end of [submit_worker] for a task that is out of [PENDING], or whose
    count is not complete. *)
Lemma ok_sfinish f :
  ok v sp ws -> s_task sp = Some (f_tid f) -> s_building sp = None -> s_left sp = 0 ->
  s_fresh sp = None -> (forall t, s_about t sp = 0) -> (forall p, s_lock p sp = 0) ->
  (forall c, s_pend v ws c sp = 0) ->
  v_st v (f_tid f) <> PENDING \/ v_rc v (f_tid f) < v_fc v (f_tid f) ->
  ok v SIdle ws.
Proof.
  intros Hok Ht Hb Hle Hfr Ha Hl Hp Hdone.
  apply (ok_submit v v sp SIdle ws); try done; intros; rewrite ?Ha, ?Hl; try done; try (simpl; lia).
  - apply (ok_prom _ _ _ Hok); [done|]. by rewrite Hfr.
  - split; [done|]. by apply (ok_lock _ _ _ Hok).
  - by apply (ok_fc _ _ _ Hok).
  - unfold linked. rewrite Ht, Hb, Hle. simpl. repeat case_decide; simplify_eq; lia.
  - rewrite Hp. simpl. lia.
  - simpl. pose proof (s_mid_range c sp). lia.
  - simpl. pose proof (s_dup_range v c sp). lia.
  - simpl. pose proof (s_due_range v ws c sp). lia.
  - by left.
  - split_and!; try done. rewrite Ht. intros [= <-]. destruct Hdone; [done|lia].
Qed.
End submit_steps.

Section submit_updates.
Context (v : view) (ws : list worker_pc).

Lemma task_status_same t st :
  finished_status (v_st v t) = false -> finished_status st = false ->
  forall u, known v u ->
  finished_status ((<[t := st]> (v_st v)) u) = finished_status (v_st v u).
Proof.
  intros Hv Hs u _. destruct (decide (t = u)) as [->|].
  - by rewrite fn_lookup_insert, Hv, Hs.
  - by rewrite fn_lookup_insert_ne.
Qed.

(** The per-slot data of the task: its promise. *)
Lemma ok_aux c t ins :
  ok v (SAux c t) ws ->
  ok (v <| v_prom := <[t := true]> (v_prom v) |>) (SScan (mkFrame c t 0 false []) ins) ws.
Proof.
  intros Hok. destruct (ok_task _ _ _ Hok t eq_refl) as [Hn Hk].
  destruct (ok_build _ _ _ Hok t eq_refl) as [Hst Hfo].
  apply (ok_submit v _ (SAux c t) _ ws); try done; intros; cbn in *; try lia; try (by left).
  - destruct (decide (t = t0)) as [->|].
    + rewrite fn_lookup_insert. rewrite (ok_ful _ _ _ Hok).
      pose proof (moved_pending _ _ Hst). pose proof (finz_moved v t0). pose proof (finz_range v t0).
      pose proof (ok_held _ _ _ Hok t0). pose proof (ok_log _ _ _ Hok t0).
      pose proof (ok_hd _ _ _ Hok t0).
      pose proof (sum_nonneg ws (w_ful t0) (fun pc => proj1 (w_ful_range t0 pc))).
      pose proof (zsum_le _ _ ws (fun pc => proj2 (w_ful_range t0 pc))).
      pose proof (sum_nonneg ws (w_about t0) (fun pc => proj1 (w_about_range t0 pc))).
      simpl in *. symmetry. apply Z.eqb_eq. lia.
    + rewrite fn_lookup_insert_ne by done. apply (ok_prom _ _ _ Hok); [done|]. simpl. congruence.
  - split; [lia|]. by apply (ok_lock _ _ _ Hok).
  - by simplify_eq.
  - simplify_eq. done.
  - split_and!; [done|done|]. intros p Hp. by apply not_elem_of_nil in Hp.
  - by apply (ok_fc _ _ _ Hok).
Qed.

(** [desc->fanin_count = fanin] *)
Lemma ok_fanin f :
  ok v (SCount f) ws ->
  ok (v <| v_fc := <[f_tid f := f_fanin f]> (v_fc v) |>)
     (if f_fanin f =? 0 then SSetReady f else SSetPending f) ws.
Proof.
  intros Hok. destruct (ok_task _ _ _ Hok _ eq_refl) as [Hn Hk].
  pose proof (ok_sub _ _ _ Hok) as Hfr. simpl in Hfr. pose proof Hfr as (Hlen & Hmax & _).
  pose proof (zlength_nonneg (f_producers f)).
  set (sp' := if f_fanin f =? 0 then SSetReady f else SSetPending f).
  assert (Ht : s_task sp' = Some (f_tid f)) by (unfold sp'; by case_match).
  assert (Hb : s_building sp' = Some (f_tid f)) by (unfold sp'; by case_match).
  assert (Hz : forall u, s_about u sp' = 0 /\ s_lock u sp' = 0 /\ s_mid u sp' = 0)
    by (intros; unfold sp'; by case_match).
  assert (Hp : forall w u, s_pend w ws u sp' = 0) by (intros; unfold sp'; by case_match).
  apply (ok_submit v _ (SCount f) _ ws); try done; intros; rewrite ?Hp;
    try (destruct (Hz t) as (-> & _ & _)); try (destruct (Hz p) as (_ & -> & _));
    try (destruct (Hz c) as (_ & _ & ->)); cbn in *; try lia; try done; try (by left).
  - by apply (ok_prom _ _ _ Hok).
  - split; [lia|]. by apply (ok_lock _ _ _ Hok).
  - rewrite Ht in *. by simplify_eq.
  - rewrite Hb in *. simplify_eq. by apply (ok_build _ _ _ Hok).
  - unfold sp'. destruct (Z.eqb_spec (f_fanin f) 0); simpl; rewrite fn_lookup_insert; by split_and?.
  - destruct (decide (f_tid f = c)) as [<-|].
    + rewrite fn_lookup_insert. lia.
    + rewrite fn_lookup_insert_ne by done. by apply (ok_fc _ _ _ Hok).
  - unfold linked. rewrite Ht, Hb. simpl. repeat case_decide; simplify_eq; [done|].
    by apply fn_lookup_insert_ne; congruence.
  - unfold sp' in *. by case_match.
  - unfold sp'. case_match; simpl; lia.
  - unfold sp'. case_match; simpl; lia.
  - apply fn_lookup_insert_ne. congruence.
  - rewrite Ht in *. rewrite fn_lookup_insert_ne in * by congruence. split_and!; done.
Qed.

(** [status = READY] for a task without inputs to wait for. *)
Lemma ok_set_ready f :
  ok v (SSetReady f) ws ->
  ok (v <| v_st := <[f_tid f := READY]> (v_st v) |>) (SEnqueue f) ws.
Proof.
  intros Hok. destruct (ok_task _ _ _ Hok _ eq_refl) as [Hn Hk].
  pose proof (ok_sub _ _ _ Hok) as (Hfr & Hfc & Hz). 
  destruct (ok_build _ _ _ Hok _ eq_refl) as [Hst Hfo].
  apply (ok_submit v _ (SSetReady f) _ ws); try done; intros; try (by left).
  - cbn. apply task_status_same; [by rewrite Hst|done..].
  - rewrite moved_status, (moved_pending v (f_tid f)) by done. simpl. lia.
  - by apply (ok_prom _ _ _ Hok).
  - split; [done|]. by apply (ok_lock _ _ _ Hok).
  - by apply (ok_task _ _ _ Hok).
  - by apply (ok_fc _ _ _ Hok).
  - unfold linked. simpl. repeat case_decide; simplify_eq; lia.
  - cbn in *. destruct (decide (f_tid f = c)) as [<-|]; [right|left; by rewrite fn_lookup_insert_ne in *].
    pose proof (ok_rc _ _ _ Hok _ Hk). lia.
  - simpl in *. rewrite fn_lookup_insert_ne in * by congruence. done.
Qed.

(** [status = PENDING], before the task is linked to its producers. *)
Lemma ok_set_pending f :
  ok v (SSetPending f) ws ->
  ok (v <| v_st := <[f_tid f := PENDING]> (v_st v) |>) (SLock f (f_producers f)) ws.
Proof.
  intros Hok. destruct (ok_task _ _ _ Hok _ eq_refl) as [Hn Hk].
  pose proof (ok_sub _ _ _ Hok) as ((Hlen & Hmax & Hps) & Hfc). 
  destruct (ok_build _ _ _ Hok _ eq_refl) as [Hst Hfo].
  apply (ok_submit v _ (SSetPending f) _ ws); try done; intros; try (by left).
  - cbn. apply task_status_same; [by rewrite Hst|done..].
  - rewrite moved_status, (moved_pending v (f_tid f)) by done. simpl. lia.
  - by apply (ok_prom _ _ _ Hok).
  - split; [done|]. by apply (ok_lock _ _ _ Hok).
  - by apply (ok_task _ _ _ Hok).
  - by apply (ok_fc _ _ _ Hok).
  - unfold linked. simpl. repeat case_decide; simplify_eq; lia.
  - cbn in *. left. destruct (decide (f_tid f = c)) as [<-|]; [by rewrite fn_lookup_insert in *|].
    by rewrite fn_lookup_insert_ne in *.
  - simpl in *. rewrite fn_lookup_insert_ne in * by congruence. done.
Qed.
End submit_updates.

(** ** Linking the task to its producers *)
Section links.
Context (v : view) (ws : list worker_pc) (f : Frame) (p : Z) (ps : list Z).

(** [fanout_lock] is taken. *)
Lemma ok_slock :
  ok v (SLock f (p :: ps)) ws -> v_lk v p = 0 ->
  ok (v <| v_lk := <[p := 1]> (v_lk v) |>) (SPrepend f p ps) ws.
Proof.
  intros Hok Hl. destruct (ok_task _ _ _ Hok _ eq_refl) as [Hn Hk].
  pose proof (ok_sub _ _ _ Hok) as (Hfc & Hps).
  apply (ok_submit v _ (SLock f (p :: ps)) _ ws); try done; intros; try (simpl; lia); try (by left).
  - by apply (ok_prom _ _ _ Hok).
  - destruct (ok_lock _ _ _ Hok p0) as [_ ?]; [done|]. cbn. destruct (decide (p = p0)) as [->|].
    + rewrite fn_lookup_insert, delta_eq. lia.
    + rewrite fn_lookup_insert_ne, delta_ne by done. lia.
  - by apply (ok_task _ _ _ Hok).
  - by apply (ok_fc _ _ _ Hok).
  - unfold linked. simpl. unfold zlength. simpl. repeat case_decide; simplify_eq; lia.
Qed.

(** [fanout_lock] is dropped. *)
Lemma ok_sunlock :
  ok v (SUnlock f p ps) ws ->
  ok (v <| v_lk := <[p := 0]> (v_lk v) |>) (SLock f ps) ws.
Proof.
  intros Hok. destruct (ok_task _ _ _ Hok _ eq_refl) as [Hn Hk].
  pose proof (ok_sub _ _ _ Hok) as (Hfc & Hps).
  apply (ok_submit v _ (SUnlock f p ps) _ ws); try done; intros; try (simpl; lia); try (by left).
  - by apply (ok_prom _ _ _ Hok).
  - destruct (ok_lock _ _ _ Hok p0) as [He ?]; [done|]. cbn. destruct (decide (p = p0)) as [->|].
    + pose proof (sum_nonneg ws (w_lock p0) (fun pc => proj1 (w_lock_range p0 pc))).
      simpl in He. rewrite fn_lookup_insert. rewrite delta_eq in *. lia.
    + rewrite fn_lookup_insert_ne, delta_ne by done. lia.
  - by apply (ok_task _ _ _ Hok).
  - split; [done|]. intros q Hq. apply Hps. set_solver.
  - by apply (ok_fc _ _ _ Hok).
Qed.

(** The producer had finished: the consumer's count is raised here. *)
Lemma ok_bump :
  ok v (SBump f p ps) ws ->
  ok (v <| v_rc := <[f_tid f := v_rc v (f_tid f) + 1]> (v_rc v) |>) (SUnlock f p ps) ws /\
  0 <= v_rc v (f_tid f) /\ v_rc v (f_tid f) + 1 < 2 ^ 32.
Proof.
  intros Hok. destruct (ok_task _ _ _ Hok _ eq_refl) as [Hn Hk].
  pose proof (ok_sub _ _ _ Hok) as (Hfc & Hps).
  set (t := f_tid f) in *.
  assert (Hrc : forall u, (<[t := v_rc v t + 1]> (v_rc v)) u = v_rc v u + delta u t).
  { intros u. unfold delta. destruct (decide (t = u)) as [->|].
    - by rewrite fn_lookup_insert.
    - rewrite fn_lookup_insert_ne by done. lia. }
  assert (Hb : 0 <= v_rc v t /\ v_rc v t + 1 < 2 ^ 32).
  { pose proof (ok_rc _ _ _ Hok t Hk). destruct (ok_rc_bound _ _ _ Hok t Hk) as [Hh He].
    pose proof (unfinished_nonneg v t). pose proof (walking_nonneg v ws t). unfold owed in Hh.
    simpl in Hh. fold t in Hh. rewrite delta_eq in Hh. lia. }
  split; [|done].
  apply (ok_submit v _ (SBump f p ps) _ ws); try done; intros; try (simpl; lia); try (by left).
  - by apply (ok_prom _ _ _ Hok).
  - split; [done|]. by apply (ok_lock _ _ _ Hok).
  - by apply (ok_task _ _ _ Hok).
  - by apply (ok_fc _ _ _ Hok).
  - cbn. rewrite Hrc. pose proof (delta_range c t). lia.
  - cbn. rewrite Hrc. fold t. pose proof (delta_range c t). destruct (over v ws p); lia.
  - cbn. rewrite Hrc. fold t. lia.
  - cbn. rewrite Hrc. fold t. lia.
  - cbn. rewrite Hrc. fold t. lia.
  - cbn in *. pose proof (Hrc c) as Hc. rewrite delta_ne in Hc by (intros <-; auto).
    split_and!; [done..|lia|done].
Qed.

(** The status read in the lock decides who counts the edge.  A producer that
    is seen finished while its propagation waits for the lock is counted twice. *)
Lemma ok_read_status :
  ok v (SReadStatus f p ps) ws ->
  (strict = true -> finished_status (v_st v p) = true -> over v ws p = true) ->
  ok v (if finished_status (v_st v p) then SBump f p ps else SUnlock f p ps) ws.
Proof.
  intros Hok Hov. pose proof (ok_sub _ _ _ Hok) as Hs.
  destruct (finished_status (v_st v p)) eqn:Hf; apply (ok_smove v (SReadStatus f p ps)); try done.
  - intros c. simpl. by rewrite Hf.
  - intros Hstr c. simpl. by rewrite Hov.
  - intros c. simpl. unfold over. by rewrite Hf.
  - intros c. simpl. apply delta_range.
  - intros c. simpl. by rewrite Hf.
  - intros _ c. simpl. unfold over. by rewrite Hf.
Qed.
End links.

(** [try_set_ready] by the submitter. *)
Lemma ok_scas v ws f :
  ok v (SCas f) ws -> v_st v (f_tid f) = PENDING ->
  ok (v <| v_st := <[f_tid f := READY]> (v_st v) |>) (SEnqueue f) ws.
Proof.
  intros Hok Hst. destruct (ok_task _ _ _ Hok _ eq_refl) as [Hn Hk].
  apply (ok_submit v _ (SCas f) _ ws); try done; intros; try (by left).
  - cbn. apply task_status_same; [by rewrite Hst|done..].
  - rewrite moved_status, (moved_pending v (f_tid f)) by done. simpl. lia.
  - by apply (ok_prom _ _ _ Hok).
  - split; [done|]. by apply (ok_lock _ _ _ Hok).
  - by apply (ok_task _ _ _ Hok).
  - apply (ok_sub _ _ _ Hok).
  - by apply (ok_fc _ _ _ Hok).
  - cbn in *. destruct (decide (f_tid f = c)) as [<-|]; [right|left; by rewrite fn_lookup_insert_ne in *].
    destruct (ok_sub _ _ _ Hok) as [-> ?]. done.
  - simpl in *. rewrite fn_lookup_insert_ne in * by congruence. done.
Qed.

(** [enqueue_ready] by the submitter, which then returns. *)
Lemma ok_senqueue v ws f :
  ok v (SEnqueue f) ws -> ok (v <| v_log := v_log v ++ [f_tid f] |>) SIdle ws.
Proof.
  intros Hok. destruct (ok_task _ _ _ Hok _ eq_refl) as [Hn Hk].
  assert (Hm : v_st v (f_tid f) <> PENDING).
  { apply moved_one; [done|]. pose proof (ok_log _ _ _ Hok (f_tid f)) as Hl. simpl in Hl.
    rewrite delta_eq in Hl. pose proof (moved_range v (f_tid f)).
    pose proof (occ_nonneg (f_tid f) (v_log v)).
    pose proof (sum_nonneg ws (w_about (f_tid f)) (fun pc => proj1 (w_about_range (f_tid f) pc))). lia. }
  apply (ok_submit v _ (SEnqueue f) _ ws); try done; intros; try (by left).
  - change (moved (v <| v_log := v_log v ++ [f_tid f] |>) t) with (moved v t). cbn -[occ moved].
    rewrite occ_app, occ_single. lia.
  - cbn. rewrite occ_app. pose proof (occ_nonneg t [f_tid f]). lia.
  - by apply (ok_prom _ _ _ Hok).
  - split; [done|]. by apply (ok_lock _ _ _ Hok).
  - by apply (ok_fc _ _ _ Hok).
  - unfold linked. simpl. repeat case_decide; simplify_eq; lia.
  - split_and!; try done. simpl. intros [= <-]. done.
Qed.

(** ** A new task *)
Section alloc.
Context (v : view) (ws : list worker_pc) (c : Call) (k : Z).
Local Abbreviation n := (v_n v).
Let v' := v <| v_n := n + 1 |> <| v_st := <[n := PENDING]> (v_st v) |>
            <| v_lk := <[n := 0]> (v_lk v) |> <| v_fo := <[n := []]> (v_fo v) |>
            <| v_fc := <[n := 0]> (v_fc v) |> <| v_rc := <[n := 0]> (v_rc v) |>.
Context (Hok : ok v (SEnter c k) ws).

Lemma alloc_known t : known v' t <-> known v t \/ t = n.
Proof. pose proof (ok_n _ _ _ Hok). unfold known, v' in *. cbn. lia. Qed.

Lemma alloc_old t : known v t -> t <> n.
Proof. unfold known. lia. Qed.

Lemma alloc_tasks : tasks v' = tasks v ++ [n].
Proof.
  pose proof (ok_n _ _ _ Hok). unfold tasks, v'. cbn. by rewrite seqZ_app.
Qed.

Lemma alloc_finz t : finz v' t = finz v t.
Proof.
  unfold finz. destruct (decide (known v t)) as [Ht|Ht].
  - rewrite decide_True by (apply alloc_known; auto). cbn.
    rewrite fn_lookup_insert_ne; [done|]. intros <-. by apply (alloc_old n).
  - case_decide as Ht'; [|done]. apply alloc_known in Ht' as [?| ->]; [done|]. cbn.
    by rewrite fn_lookup_insert.
Qed.

Lemma alloc_moved t : moved v' t = moved v t.
Proof.
  unfold moved. destruct (decide (known v t)) as [Ht|Ht].
  - rewrite decide_True by (apply alloc_known; auto). cbn.
    rewrite fn_lookup_insert_ne; [done|]. intros <-. by apply (alloc_old n).
  - case_decide as Ht'; [|done]. apply alloc_known in Ht' as [?| ->]; [done|]. cbn.
    by rewrite fn_lookup_insert.
Qed.

(** No list mentions the new task yet. *)
Lemma alloc_sum (g : Z -> bool) x :
  zsum (fun p => if g p then 0 else occ x ((<[n := []]> (v_fo v)) p)) (tasks v') =
  zsum (fun p => if g p then 0 else occ x (v_fo v p)) (tasks v).
Proof.
  rewrite alloc_tasks, zsum_app. simpl. rewrite fn_lookup_insert.
  replace (if g n then 0 else occ x []) with 0 by (by destruct (g n)). rewrite !Z.add_0_r.
  apply zsum_ext. intros p Hp%elem_of_seqZ. rewrite fn_lookup_insert_ne; [done|]. lia.
Qed.

Lemma alloc_edges x : edges v' x = edges v x.
Proof. apply (alloc_sum (fun _ => false)). Qed.

Lemma alloc_unfinished x : unfinished v' x = unfinished v x.
Proof.
  unfold unfinished. rewrite <- (alloc_sum (fun p => finished_status (v_st v p))).
  apply zsum_ext. intros p Hp. rewrite alloc_tasks in Hp. cbn.
  destruct (decide (n = p)) as [<-|]; [|by rewrite (fn_lookup_insert_ne (v_st v))].
  rewrite !fn_lookup_insert. simpl. by case_match.
Qed.

Lemma alloc_rem i pc : ws !! i = Some pc -> w_rem v' pc = w_rem v pc.
Proof.
  intros Hi%(ok_pc _ _ _ Hok). destruct pc; simpl in *; try done;
    (rewrite fn_lookup_insert_ne; [done|]); pose proof (alloc_old t Hi); congruence.
Qed.

Lemma alloc_walking x : walking v' ws x = walking v ws x.
Proof.
  unfold walking. apply zsum_ext.
  intros pc [i Hi]%list_elem_of_lookup_1. by rewrite (alloc_rem i).
Qed.

Lemma alloc_owed x : owed v' ws x = owed v ws x.
Proof. unfold owed. by rewrite alloc_unfinished, alloc_walking. Qed.

Lemma alloc_new_edges : edges v n = 0 /\ unfinished v n = 0 /\ walking v ws n = 0.
Proof.
  assert (Hno : forall p, known v p -> n ∉ v_fo v p).
  { intros p Hp Hin. pose proof (ok_up _ _ _ Hok p n Hp Hin). lia. }
  split_and!; apply zsum_zero.
  - intros p Hp%elem_of_seqZ. apply occ_notin, Hno. unfold known. lia.
  - intros p Hp%elem_of_seqZ. rewrite occ_notin; [by case_match|]. apply Hno. unfold known. lia.
  - intros pc [i Hi]%list_elem_of_lookup_1. pose proof (ok_pc _ _ _ Hok _ _ Hi) as Hp.
    assert (Ha : forall l, all_known v l -> n ∉ l).
    { intros l Hl Hin%Hl. by apply (alloc_old n). }
    destruct pc; simpl in *; try done; apply occ_notin; destruct_and?; auto.
Qed.

Lemma alloc_w_ok pc : w_ok v pc -> w_ok v' pc.
Proof.
  assert (Hkd : forall t, known v t -> known v' t) by (intros; apply alloc_known; auto).
  assert (Hall : forall l, all_known v l -> all_known v' l) by (unfold all_known; auto).
  assert (Hne : forall t, known v t -> n <> t) by (intros t Ht Heq; by apply (alloc_old t)).
  destruct pc; simpl; intros; destruct_and?; split_and?; auto;
    by rewrite !fn_lookup_insert_ne by auto.
Qed.

(** [task_ring_.alloc] *)
Lemma ok_alloc : ok v' (SAux c n) ws.
Proof.
  pose proof (ok_n _ _ _ Hok) as Hn.
  assert (Hne : forall t, known v t -> n <> t) by (intros t Ht Heq; by apply (alloc_old t)).
  assert (Hnew : v_st v' n = PENDING /\ v_fo v' n = []) by (cbn; by rewrite !fn_lookup_insert).
  constructor; intros; rewrite ?alloc_known in *;
    rewrite ?alloc_finz, ?alloc_moved, ?alloc_edges, ?alloc_owed, ?alloc_walking, ?alloc_unfinished;
    cbn -[occ]; try (by eapply Hok).
  - lia.
  - destruct H as [H| ->]; [by apply (ok_prom _ _ _ Hok)|]. by destruct H0.
  - destruct H as [H| ->].
    + rewrite fn_lookup_insert_ne by auto. by apply (ok_lock _ _ _ Hok).
    + rewrite fn_lookup_insert. replace (zsum (w_lock n) ws) with 0; [lia|].
      symmetry. apply zsum_zero. intros pc [i Hi]%list_elem_of_lookup_1.
      pose proof (ok_pc _ _ _ Hok _ _ Hi) as Hp. destruct pc; simpl in *; try done; destruct_and?;
        apply delta_ne; by apply alloc_old.
  - apply alloc_w_ok. by eapply (ok_pc _ _ _ Hok).
  - simplify_eq/=. split; [lia|auto].
  - by simplify_eq/=.
  - destruct H as [H| ->]; cbn in H0.
    + rewrite fn_lookup_insert_ne in H0 by auto. pose proof (ok_up _ _ _ Hok _ _ H H0). lia.
    + rewrite fn_lookup_insert in H0. by apply not_elem_of_nil in H0.
  - destruct H as [H| ->].
    + rewrite fn_lookup_insert_ne by auto. by apply (ok_fc _ _ _ Hok).
    + rewrite fn_lookup_insert. lia.
  - destruct H as [H| ->].
    + rewrite fn_lookup_insert_ne by auto. by apply (ok_rc _ _ _ Hok).
    + by rewrite fn_lookup_insert.
  - unfold linked. cbn. destruct H as [H| ->].
    + pose proof (Hne _ H). rewrite !decide_False by congruence. rewrite fn_lookup_insert_ne by auto.
      by apply (ok_edges _ _ _ Hok).
    + rewrite decide_True by done. by apply alloc_new_edges.
  - destruct H as [H| ->].
    + rewrite fn_lookup_insert_ne by auto. by apply (ok_low _ _ _ Hok).
    + unfold owed. destruct alloc_new_edges as (-> & -> & ->). by rewrite fn_lookup_insert.
  - destruct H as [H| ->].
    + rewrite fn_lookup_insert_ne by auto. by apply (ok_high _ _ _ Hok).
    + unfold owed. destruct alloc_new_edges as (-> & -> & ->). by rewrite fn_lookup_insert.
  - done.
  - destruct H as [H| ->].
    + rewrite fn_lookup_insert_ne by auto. by apply (ok_half _ _ _ Hok).
    + destruct alloc_new_edges as (-> & -> & ->). by rewrite fn_lookup_insert.
  - destruct H0 as [H0| ->].
    + rewrite fn_lookup_insert_ne by auto. by apply (ok_exact _ _ _ Hok).
    + unfold owed. destruct alloc_new_edges as (-> & -> & ->). by rewrite fn_lookup_insert.
  - cbn in *. destruct H as [H| ->].
    + rewrite !fn_lookup_insert_ne in * by auto. by apply (ok_gone _ _ _ Hok).
    + by rewrite !fn_lookup_insert.
  - destruct H as [H| ->]; [|by destruct H1]. cbn in *.
    rewrite !fn_lookup_insert_ne in * by auto. by apply (ok_armed _ _ _ Hok).
Qed.
End alloc.

(** ** A new edge *)
Section link.
Context (v : view) (ws : list worker_pc) (f : Frame) (p : Z) (ps : list Z).
Local Abbreviation t := (f_tid f).
Let v' := v <| v_fo := <[p := t :: v_fo v p]> (v_fo v) |>.
Context (Hok : ok v (SPrepend f p ps) ws).

Lemma link_facts : known v t /\ known v p /\ p < t /\ t = v_n v - 1 /\ v_fc v t = f_fanin f.
Proof.
  destruct (ok_task _ _ _ Hok _ eq_refl) as [Hn Hk].
  pose proof (ok_sub _ _ _ Hok) as (Hfc & Hps). specialize (Hps p ltac:(set_solver)).
  unfold known in *. split_and!; try done; lia.
Qed.

Lemma link_sum (g : Z -> bool) x :
  zsum (fun q => if g q then 0 else occ x (v_fo v' q)) (tasks v) =
  zsum (fun q => if g q then 0 else occ x (v_fo v q)) (tasks v) + (if g p then 0 else delta x t).
Proof.
  destruct link_facts as (_ & Hp & _). unfold known in Hp.
  rewrite (zsum_change (fun q => if g q then 0 else occ x (v_fo v q)) _ _ p).
  - cbn. rewrite fn_lookup_insert. cbn. unfold delta. destruct (g p); lia.
  - apply NoDup_seqZ.
  - apply elem_of_seqZ. lia.
  - intros q _ Hq. cbn. by rewrite fn_lookup_insert_ne.
Qed.

Lemma link_edges x : edges v' x = edges v x + delta x t.
Proof. apply (link_sum (fun _ => false)). Qed.

Lemma link_unfinished x :
  unfinished v' x = unfinished v x + (if finished_status (v_st v p) then 0 else delta x t).
Proof. apply (link_sum (fun q => finished_status (v_st v q))). Qed.

(** Nobody else is in the critical section of the producer. *)
Lemma link_alone pc : pc ∈ ws -> w_lock p pc = 0.
Proof.
  intros Hpc. destruct link_facts as (_ & Hp & _).
  destruct (ok_lock _ _ _ Hok p Hp) as [He Hle]. simpl in He. rewrite delta_eq in He.
  pose proof (zsum_elem (w_lock p) ws pc (fun x _ => proj1 (w_lock_range p x)) Hpc).
  pose proof (w_lock_range p pc). lia.
Qed.

(** A propagation that waits for the lock will see the new consumer. *)
Lemma link_walking x : walking v' ws x = walking v ws x + zsum (w_plock p) ws * delta x t.
Proof.
  apply zsum_affine. intros pc Hpc%link_alone.
  destruct pc as [| |u|u|u|u|u|u|u|u ?|u ? ? ?|u ? ?|u ? ?|u|u|u ?|u ? ?|u ? ?|u ? ? ?|u ? ?|u ? ?];
    simpl in *; try lia; destruct (decide (p = u)) as [<-|Hne]; rewrite ?delta_eq in Hpc; try done.
  - rewrite fn_lookup_insert, delta_eq. cbn. unfold delta. lia.
  - rewrite fn_lookup_insert_ne, delta_ne by congruence. lia.
  - rewrite fn_lookup_insert_ne by congruence. lia.
Qed.

(** One propagation at most, and only of a finished producer. *)
Lemma link_plock : 0 <= zsum (w_plock p) ws <= Z.b2z (finished_status (v_st v p)).
Proof.
  destruct link_facts as (_ & Hp & _). pose proof (ok_prop _ _ _ Hok p) as Hq.
  unfold finz in Hq. rewrite decide_True in Hq by done.
  pose proof (zsum_le _ _ ws (fun pc => proj2 (w_plock_range p pc))).
  pose proof (sum_nonneg ws _ (fun pc => proj1 (w_plock_range p pc))). lia.
Qed.

(** The edge is owed by the producer or its propagation, or both are over. *)
Lemma link_owed x :
  owed v' ws x + (if over v ws p then delta x t else 0) = owed v ws x + delta x t.
Proof.
  unfold owed. rewrite link_unfinished, link_walking. pose proof link_plock as Hp. unfold over.
  destruct (finished_status (v_st v p)); simpl in *.
  - destruct (Z.eqb_spec (zsum (w_plock p) ws) 0) as [->|]; [lia|].
    replace (zsum (w_plock p) ws) with 1 by lia. lia.
  - replace (zsum (w_plock p) ws) with 0 by lia. lia.
Qed.

(** [prepend] to the fanout list, in the lock. *)
Lemma ok_link : ok v' (SCountUp f p ps) ws.
Proof.
  destruct link_facts as (Ht & Hp & Hlt & Hn & Hfc).
  pose proof (ok_sub _ _ _ Hok) as (_ & Hps).
  constructor; intros; try (by eapply Hok); try done; rewrite ?link_edges.
  - cbn in H0. destruct (decide (p = p0)) as [<-|].
    + rewrite fn_lookup_insert in H0. apply elem_of_cons in H0 as [->|H0]; [cbn; lia|].
      by apply (ok_up _ _ _ Hok).
    + rewrite fn_lookup_insert_ne in H0 by done. by apply (ok_up _ _ _ Hok).
  - by apply (ok_rc _ _ _ Hok).
  - rewrite (ok_edges _ _ _ Hok c H). unfold linked, delta. simpl.
    repeat case_decide; simplify_eq; lia.
  - pose proof (ok_low _ _ _ Hok c H) as Hl. pose proof (link_owed c). simpl in *.
    change (over v' ws p) with (over v ws p). lia.
  - pose proof (ok_high _ _ _ Hok c H) as Hh. pose proof (link_owed c). simpl in *.
    pose proof (delta_range c t). destruct (over v ws p); lia.
  - cbn in *. simplify_eq. rewrite fn_lookup_insert. split; [done|by left].
  - pose proof (ok_half _ _ _ Hok c H). rewrite link_unfinished, link_walking.
    pose proof link_plock as Hl. pose proof (delta_range c t). simpl in *.
    destruct (finished_status (v_st v p)); simpl in *; [nia|].
    replace (zsum (w_plock p) ws) with 0 by lia. lia.
  - pose proof (ok_exact _ _ _ Hok H c H0). pose proof (link_owed c). simpl in *.
    change (over v' ws p) with (over v ws p). lia.
Qed.
End link.
End accounts.
