(* ===== verification/LevelRuntimeState.v ===== *)
(** * The memory of LevelRuntime behind the accounts

    [view_of] reads the accounts off the shared state; [mem] is the
    well-formedness of the memory the threads share (ring, list pool, ready
    queue, per-slot vectors), [local_ok] that of the list offsets a worker
    carries.  A write to a descriptor field becomes the update of one field of
    the view, up to [view_eq]. *)

From S2P Require Import Prelude LinquTaskRing LinquDepListPool LinquTensorMap LevelRuntime.
From S2P Require Import LevelRuntimeView.

Definition dsc (s : LevelRuntime) (t : Z) : LinquTaskDescriptor := desc t (task_ring_ s).

Definition view_of (s : LevelRuntime) : view :=
  mkView (current_index_ (task_ring_ s))
    (fun t => status (dsc s t)) (fun t => fanout_lock (dsc s t))
    (fun t => chain (dep_pool_ s) (fanout_list_head (dsc s t)))
    (fun h => chain (dep_pool_ s) h)
    (fun t => fanin_count (dsc s t)) (fun t => atomic_fanin_refcount (dsc s t))
    (take (Z.to_nat (rq_tail_ s)) (rq_buf_ s)) (take (Z.to_nat (rq_head_ s)) (rq_buf_ s))
    (executed s) (fulfilled s)
    (fun t => default false (zlookup (task_promises_ s) (slot t s))).

Definition here (s : LevelRuntime) (t : Z) : Prop := 0 <= t < current_index_ (task_ring_ s).

(** A list offset with the tasks behind it. *)
Definition cursor_ok (s : LevelRuntime) (h : Z) : Prop :=
  valid_head (dep_pool_ s) h /\ forall x, x ∈ chain (dep_pool_ s) h -> here s x.

(** Every valid cell of the tensor map names a producer below [b]. *)
Definition producers_below (b : Z) (m : LinquTensorMap) : Prop :=
  forall i e, zlookup (LinquTensorMap.pool_ m) i = Some e -> valid e = true ->
    0 <= producer_task_id e < b.

(** Until its outputs are inserted, the task being submitted is no producer. *)
Definition producer_bound (s : LevelRuntime) (sp : submit_pc) : Z :=
  match sp with
  | SAux _ _ | SScan _ _ | SProbe _ _ _ | SPush _ _ _ | SHeap _ | SInsert _ =>
      current_index_ (task_ring_ s) - 1
  | _ => current_index_ (task_ring_ s)
  end.

Record mem (s : LevelRuntime) (sp : submit_pc) : Prop := {
  mem_ring : LinquTaskRing.wf (task_ring_ s);
  mem_window : current_index_ (task_ring_ s) <= window_size_ (task_ring_ s) < 2 ^ 31;
  mem_pool : LinquDepListPool.wf (dep_pool_ s);
  mem_fanout : forall t, here s t -> valid_head (dep_pool_ s) (fanout_list_head (dsc s t));
  mem_deps : forall t, here s t -> cursor_ok s (dep_list_head (dsc s t));
  mem_fn : forall t, here s t -> s_fresh sp <> Some t -> is_Some (fn (dsc s t));
  mem_promises : zlength (task_promises_ s) = window_size_ (task_ring_ s);
  mem_outputs : zlength (task_outputs_ s) = window_size_ (task_ring_ s);
  mem_external : zlength (task_external_ready_ s) = window_size_ (task_ring_ s);
  mem_quiet : forall k l, zlookup (task_external_ready_ s) k = Some l -> l = [];
  mem_buf : zlength (rq_buf_ s) = rq_capacity_ s;
  mem_capacity : window_size_ (task_ring_ s) <= rq_capacity_ s < 2 ^ 31;
  mem_queue : 0 <= rq_head_ s <= rq_tail_ s /\ rq_tail_ s <= rq_capacity_ s;
  mem_producers : producers_below (producer_bound s sp) (tensor_map_ s);
}.

(** The list offsets in the hands of a worker. *)
Definition local_ok (s : LevelRuntime) (pc : worker_pc) : Prop :=
  match pc with
  | PWalk _ h | PCheck _ h _ _ | PCas _ h _ | PEnqueue _ h _ => valid_head (dep_pool_ s) h
  | PDeps _ h | CStatus _ _ (Some h) | CCount _ _ (Some h) | CRef _ _ _ (Some h)
  | CSet _ _ (Some h) | CAlive _ _ (Some h) => cursor_ok s h
  | _ => True
  end.

Section slots.
Context (s : LevelRuntime) (sp : submit_pc) (Hm : mem s sp).

(** While no slot was used twice, a task's slot is its id. *)
Lemma slot_here t : here s t -> slot t s = t.
Proof.
  intros Ht. unfold slot. rewrite slot_mod by apply Hm. apply Z.mod_small.
  pose proof (mem_window _ _ Hm). unfold here in Ht. lia.
Qed.

Lemma dsc_updated t u f :
  here s t -> here s u ->
  desc u (updated t f (task_ring_ s)) = if decide (t = u) then f (dsc s t) else dsc s u.
Proof.
  intros Ht Hu. rewrite desc_updated by apply Hm.
  pose proof (slot_here t Ht) as Hst. pose proof (slot_here u Hu) as Hsu. unfold slot in *.
  rewrite Hst, Hsu. done.
Qed.

Lemma desc_of_ok t : desc_of t s = Ok (dsc s t).
Proof. apply get_desc, Hm. Qed.

Lemma write_desc_ok t f :
  write_desc t f s = Ok (s <| task_ring_ := updated t f (task_ring_ s) |>).
Proof. unfold write_desc. by rewrite upd_updated by apply Hm. Qed.

Lemma slot_range_promises t : 0 <= slot t s < zlength (task_promises_ s).
Proof. rewrite (mem_promises _ _ Hm), <- (wf_len _ (mem_ring _ _ Hm)). apply slot_range, Hm. Qed.
Lemma slot_range_outputs t : 0 <= slot t s < zlength (task_outputs_ s).
Proof. rewrite (mem_outputs _ _ Hm), <- (wf_len _ (mem_ring _ _ Hm)). apply slot_range, Hm. Qed.
Lemma slot_range_external t : 0 <= slot t s < zlength (task_external_ready_ s).
Proof. rewrite (mem_external _ _ Hm), <- (wf_len _ (mem_ring _ _ Hm)). apply slot_range, Hm. Qed.
End slots.

(** ** A write to one descriptor *)

(** The write leaves the list heads and the function. *)
Definition keeps_links (f : LinquTaskDescriptor -> LinquTaskDescriptor) : Prop :=
  forall d, fanout_list_head (f d) = fanout_list_head d /\ dep_list_head (f d) = dep_list_head d /\
    fn (f d) = fn d.

Definition written (t : Z) (f : LinquTaskDescriptor -> LinquTaskDescriptor) (s : LevelRuntime)
    : LevelRuntime :=
  s <| task_ring_ := updated t f (task_ring_ s) |>.

Lemma mem_written_heads s sp t f :
  mem s sp -> here s t -> fn (f (dsc s t)) = fn (dsc s t) ->
  valid_head (dep_pool_ s) (fanout_list_head (f (dsc s t))) ->
  cursor_ok s (dep_list_head (f (dsc s t))) -> mem (written t f s) sp.
Proof.
  intros Hm Ht Hfn Hfo Hdep.
  assert (Hd : forall u, here s u -> dsc (written t f s) u = if decide (t = u) then f (dsc s t) else dsc s u)
    by (intros; by apply (dsc_updated s sp)).
  constructor; try apply Hm; cbn.
  - by apply wf_updated, Hm.
  - intros u Hu. rewrite Hd by done. case_decide; [done|by apply (mem_fanout _ _ Hm)].
  - intros u Hu. rewrite Hd by done. case_decide; [done|by apply (mem_deps _ _ Hm)].
  - intros u Hu Hf. rewrite Hd by done. case_decide as He; [rewrite Hfn; subst u|]; by apply (mem_fn _ _ Hm).
Qed.

Lemma mem_written s sp t f :
  mem s sp -> here s t -> keeps_links f -> mem (written t f s) sp.
Proof.
  intros Hm Ht Hf. destruct (Hf (dsc s t)) as (Hfo & Hdep & Hfn).
  apply mem_written_heads; rewrite ?Hfo, ?Hdep; try done.
  - by apply (mem_fanout _ _ Hm).
  - by apply (mem_deps _ _ Hm).
Qed.

(** The pool after a [prepend]: more cells, the old lists as they were. *)
Record extends (p p' : LinquDepListPool) : Prop := {
  ext_wf : LinquDepListPool.wf p';
  ext_old : forall h, valid_head p h -> valid_head p' h /\ chain p' h = chain p h;
}.

Lemma mem_pool_extends s sp p :
  mem s sp -> extends (dep_pool_ s) p -> mem (s <| dep_pool_ := p |>) sp.
Proof.
  intros Hm [Hwf Hold]. constructor; try apply Hm; cbn; [done| |].
  - intros t Ht. apply Hold. by apply (mem_fanout _ _ Hm).
  - intros t Ht. destruct (mem_deps _ _ Hm t Ht) as [Hv Hc]. destruct (Hold _ Hv) as [Hv' Hch].
    split; [exact Hv'|]. intros x Hx. apply Hc. rewrite <- Hch. exact Hx.
Qed.

Lemma view_pool_extends s sp p ws :
  mem s sp -> (forall i pc, ws !! i = Some pc -> local_ok s pc) -> extends (dep_pool_ s) p ->
  view_eq (view_of (s <| dep_pool_ := p |>)) (view_of s) ws.
Proof.
  intros Hm Hl [Hwf Hold]. constructor; try done.
  - intros i pc h Hi Hh. apply Hl in Hi. destruct pc; simplify_eq/=; by apply Hold.
  - intros t Ht. apply Hold. by apply (mem_fanout _ _ Hm).
Qed.

Lemma view_eq_trans u v w ws : view_eq u v ws -> view_eq v w ws -> view_eq u w ws.
Proof.
  intros Huv Hvw. assert (Hk : forall t, known w t -> known v t) by (intros; by eapply ve_known).
  constructor; intros; try (by etrans; [apply Huv|apply Hvw]);
    (etrans; [eapply Huv|eapply Hvw]; eauto).
Qed.

Section written.
Context (s : LevelRuntime) (sp : submit_pc) (ws : list worker_pc) (Hm : mem s sp).
Context (t : Z) (Ht : here s t).

(** The field [g] of the view after a write that sets it to [x]. *)
Lemma field_written {A} (g : LinquTaskDescriptor -> A) f x u :
  here s u -> g (f (dsc s t)) = x ->
  g (dsc (written t f s) u) = (<[t := x]> (fun u => g (dsc s u))) u.
Proof.
  intros Hu Hx. unfold written, dsc at 1. cbn. rewrite (dsc_updated s sp Hm) by done.
  destruct (decide (t = u)) as [<-|]; [by rewrite fn_lookup_insert|by rewrite fn_lookup_insert_ne].
Qed.

Lemma field_kept {A} (g : LinquTaskDescriptor -> A) f u :
  here s u -> (forall d, g (f d) = g d) -> g (dsc (written t f s) u) = g (dsc s u).
Proof.
  intros Hu Hg. unfold written, dsc at 1. cbn. rewrite (dsc_updated s sp Hm) by done.
  case_decide as He; [subst u; apply Hg|done].
Qed.

Ltac written_fields :=
  constructor; try done; intros u Hu; cbn [view_of v_st v_lk v_fo v_fc v_rc v_prom setter
    set_v_st set_v_lk set_v_fc set_v_rc];
  solve [by apply field_written | by rewrite field_kept | done
        | f_equal; by apply (field_kept fanout_list_head)].

Lemma view_status st :
  view_eq (view_of (written t (write_status st) s))
    ((view_of s) <| v_st := <[t := st]> (v_st (view_of s)) |>) ws.
Proof. written_fields. Qed.

Lemma view_lock l :
  view_eq (view_of (written t (fun d => d <| fanout_lock := l |>) s))
    ((view_of s) <| v_lk := <[t := l]> (v_lk (view_of s)) |>) ws.
Proof. written_fields. Qed.

Lemma view_fanin n :
  view_eq (view_of (written t (fun d => d <| fanin_count := n |>) s))
    ((view_of s) <| v_fc := <[t := n]> (v_fc (view_of s)) |>) ws.
Proof. written_fields. Qed.

Lemma view_bump r :
  u32 (atomic_fanin_refcount (dsc s t) + 1) = r ->
  view_eq (view_of (written t (add_fanin 1) s))
    ((view_of s) <| v_rc := <[t := r]> (v_rc (view_of s)) |>) ws.
Proof. intros Hr. written_fields. Qed.

(** A write to a field the accounts do not read. *)
Lemma view_silent f :
  (forall d, status (f d) = status d /\ fanout_lock (f d) = fanout_lock d /\
     fanin_count (f d) = fanin_count d /\ atomic_fanin_refcount (f d) = atomic_fanin_refcount d /\
     fanout_list_head (f d) = fanout_list_head d) ->
  view_eq (view_of (written t f s)) (view_of s) ws.
Proof.
  intros Hf. constructor; try done; intros u Hu; cbn; try apply field_kept; try done;
    try apply Hf. f_equal. apply field_kept; [done|apply Hf].
Qed.
End written.

(** ** The ready queue *)

Lemma take_snoc (l : list Z) k x :
  zlookup l k = Some x -> take (Z.to_nat (k + 1)) l = take (Z.to_nat k) l ++ [x].
Proof.
  intros Hx. pose proof (zlookup_Some_range _ _ _ Hx). unfold zlookup in Hx.
  rewrite (proj2 (Z.leb_le 0 k)) in Hx by lia. rewrite Z2Nat.inj_add by lia.
  replace (Z.to_nat k + Z.to_nat 1)%nat with (S (Z.to_nat k)) by lia. by apply take_S_r.
Qed.

Lemma take_zinsert (l : list Z) k x n :
  (n <= Z.to_nat k)%nat -> take n (zinsert k x l) = take n l.
Proof. intros. unfold zinsert. destruct (0 <=? k); [|done]. by apply take_insert_ge. Qed.

Definition enqueued (t : Z) (s : LevelRuntime) : LevelRuntime :=
  s <| rq_buf_ := zinsert (rq_tail_ s) t (rq_buf_ s) |> <| rq_tail_ := rq_tail_ s + 1 |>.

Section queue.
Context (s : LevelRuntime) (sp : submit_pc) (ws : list worker_pc) (Hm : mem s sp).
Context {only_strict : Strict} (Hok : ok (view_of s) sp ws).

(** What was enqueued is a duplicate-free list of tasks. *)
Lemma log_tasks : NoDup (v_log (view_of s)) /\ forall t, t ∈ v_log (view_of s) -> here s t.
Proof.
  assert (H : forall t, occ t (v_log (view_of s)) <= moved (view_of s) t).
  { intros t. pose proof (ok_log _ _ _ Hok t). pose proof (s_about_range t sp).
    pose proof (sum_nonneg ws (w_about t) (fun pc => proj1 (w_about_range t pc))). lia. }
  split.
  - apply occ_NoDup. intros t. specialize (H t). pose proof (moved_range (view_of s) t). lia.
  - intros t Ht%occ_elem_of. specialize (H t). unfold moved in H. case_decide as Hk; [exact Hk|lia].
Qed.

Lemma log_length : zlength (v_log (view_of s)) = rq_tail_ s.
Proof.
  destruct (mem_queue _ _ Hm) as [Hh Ht]. pose proof (mem_buf _ _ Hm) as Hb. cbn. unfold zlength in *.
  rewrite length_take. lia.
Qed.

(** Room for a task that was not enqueued yet. *)
Lemma queue_room t : here s t -> t ∉ v_log (view_of s) -> rq_tail_ s < current_index_ (task_ring_ s).
Proof.
  intros Ht Hn. destruct log_tasks as [Hnd Hin]. rewrite <- log_length. unfold zlength.
  assert (Hs : t :: v_log (view_of s) ⊆ seqZ 0 (current_index_ (task_ring_ s))).
  { intros u [->|Hu]%elem_of_cons; apply elem_of_seqZ; [|apply Hin in Hu]; unfold here in *; lia. }
  assert (Hd : NoDup (t :: v_log (view_of s))) by (by constructor).
  pose proof (submseteq_length _ _ (NoDup_submseteq _ _ Hd Hs)) as Hl.
  rewrite length_seqZ in Hl. simpl in Hl. unfold here in Ht. cbn in *. lia.
Qed.

Lemma enqueue_ok t :
  here s t -> t ∉ v_log (view_of s) ->
  enqueue_ready t s = Ok (enqueued t s) /\ mem (enqueued t s) sp /\
  forall ws', view_eq (view_of (enqueued t s)) ((view_of s) <| v_log := v_log (view_of s) ++ [t] |>) ws'.
Proof.
  intros Ht Hn. pose proof (queue_room t Ht Hn) as Hroom.
  destruct (mem_queue _ _ Hm) as [Hh Htl]. pose proof (mem_capacity _ _ Hm) as Hc.
  pose proof (mem_window _ _ Hm) as Hw. pose proof (mem_buf _ _ Hm) as Hb.
  split; [|split].
  - unfold enqueue_ready. rewrite i32_rem_ok by lia. bind_simpl.
    rewrite Z.rem_small by lia.
    rewrite (proj2 (vec_set_Ok (rq_buf_ s) (zinsert (rq_tail_ s) t (rq_buf_ s)) _ _)) by (split; [lia|done]).
    bind_simpl. unfold i32_add. rewrite (proj2 (i32_range_spec _)) by (unfold_ints; lia). done.
  - constructor; try apply Hm; cbn; rewrite ?zlength_zinsert; try done; lia.
  - constructor; try done; cbn.
    + rewrite (take_snoc _ _ t) by (apply zlookup_zinsert_eq; lia). by rewrite take_zinsert by lia.
    + by rewrite take_zinsert by lia.
Qed.

Definition dequeued (s : LevelRuntime) : LevelRuntime := s <| rq_head_ := rq_head_ s + 1 |>.

Lemma dequeue_ok :
  rq_head_ s < rq_tail_ s ->
  exists t, dequeue_ready s = Ok (dequeued s, t) /\ 0 <= t /\ mem (dequeued s) sp /\
    (forall ws', view_eq (view_of (dequeued s)) ((view_of s) <| v_hd := v_hd (view_of s) ++ [t] |>) ws') /\
    (forall u, occ u (v_hd (view_of s) ++ [t]) <= occ u (v_log (view_of s))).
Proof.
  intros Hlt. destruct (mem_queue _ _ Hm) as [Hh Htl]. pose proof (mem_capacity _ _ Hm) as Hc.
  pose proof (mem_buf _ _ Hm) as Hb. destruct (zlookup_is_Some (rq_buf_ s) (rq_head_ s)) as [t Ht]; [lia|].
  assert (Hs : take (Z.to_nat (rq_head_ s + 1)) (rq_buf_ s) = v_hd (view_of s) ++ [t])
    by (by apply take_snoc).
  assert (Hp : forall u, occ u (v_hd (view_of s) ++ [t]) <= occ u (v_log (view_of s))).
  { intros u. rewrite <- Hs. cbn.
    rewrite <- (take_drop (Z.to_nat (rq_head_ s + 1)) (take (Z.to_nat (rq_tail_ s)) (rq_buf_ s))).
    rewrite take_take, Nat.min_l by lia. rewrite occ_app. 
    pose proof (occ_nonneg u (drop (Z.to_nat (rq_head_ s + 1)) (take (Z.to_nat (rq_tail_ s)) (rq_buf_ s)))). lia. }
  exists t. split_and!; try done.
  - unfold dequeue_ready. rewrite (proj2 (Z.leb_gt _ _)) by lia. rewrite i32_rem_ok by lia. bind_simpl.
    rewrite Z.rem_small by lia. unfold vec_get. rewrite Ht. bind_simpl.
    unfold i32_add. rewrite (proj2 (i32_range_spec _)) by (unfold_ints; lia). done.
  - assert (Hin : t ∈ v_log (view_of s)).
    { apply occ_elem_of. specialize (Hp t). rewrite occ_app, occ_single, delta_eq in Hp.
      pose proof (occ_nonneg t (v_hd (view_of s))). lia. }
    apply log_tasks in Hin. by apply Hin.
  - constructor; try apply Hm; cbn; lia.
Qed.
End queue.

(** ** Retirement *)
Lemma advance_cursor_ok s sp n cursor :
  mem s sp -> exists c, advance_cursor n cursor s = Ok c /\ cursor <= c <= cursor + Z.of_nat n.
Proof.
  intros Hm. revert cursor. induction n as [|n IH]; intros cursor; cbn [advance_cursor].
  - exists cursor. split; [done|lia].
  - rewrite (desc_of_ok s sp Hm). bind_simpl. destruct (negb _).
    + exists cursor. split; [done|lia].
    + destruct (IH (cursor + 1)) as (c & -> & Hc). exists c. split; [done|lia].
Qed.

Lemma rings_try_advance_ok s sp :
  mem s sp -> exists s', try_advance_ring_pointers s = Ok s' /\ mem s' sp /\
    view_of s' = view_of s /\ dep_pool_ s' = dep_pool_ s /\
    current_index_ (task_ring_ s') = current_index_ (task_ring_ s).
Proof.
  intros Hm. unfold try_advance_ring_pointers. pose proof (mem_ring _ _ Hm) as Hr.
  pose proof (wf_alive _ Hr). pose proof (wf_window _ Hr).
  destruct (advance_cursor_ok s sp (Z.to_nat (current_index_ (task_ring_ s) -
    LinquTaskRing.last_task_alive_ (task_ring_ s))) (LinquTaskRing.last_task_alive_ (task_ring_ s)) Hm)
    as (c & -> & Hc). bind_simpl.
  destruct (Z.ltb_spec (LinquTaskRing.last_task_alive_ (task_ring_ s)) c); [|by exists s].
  set (s' := s <| task_ring_ := set_last_task_alive c (task_ring_ s) |>
    <| tensor_map_ := invalidate_below c (tensor_map_ s) |>).
  assert (Hm' : mem s' sp).
  { constructor; try apply Hm. destruct Hr. constructor; cbn; try done; lia. }
  destruct (0 <? c); [|by exists s'].
  rewrite (desc_of_ok s' sp Hm'). bind_simpl.
  destruct (_ <? _); [|by exists s'].
  eexists. split; [reflexivity|]. split_and!; try done.
  constructor; apply Hm'.
Qed.

(** Setting ready flags does not touch the rest. *)
Lemma mark_all_flags outs s :
  exists fl, mark_all outs s = s <| ready_flags := fl |>.
Proof.
  unfold mark_all. revert s. induction outs as [|t outs IH]; intros s; simpl.
  - exists (ready_flags s). by destruct s.
  - destruct (IH (mark_ready t s)) as [fl ->]. unfold mark_ready. destruct (ready t); by exists fl.
Qed.

Lemma mem_flags s sp fl : mem s sp -> mem (s <| ready_flags := fl |>) sp.
Proof. intros Hm. constructor; apply Hm. Qed.

(** ** The producers the tensor map names *)
Section producers.
Context (b : Z).

Lemma below_set m k e :
  producers_below b m -> (valid e = true -> 0 <= producer_task_id e < b) ->
  producers_below b (m <| LinquTensorMap.pool_ := zinsert k e (LinquTensorMap.pool_ m) |>).
Proof.
  intros Hb He i f. cbn. intros Hi Hv. destruct (decide (k = i)) as [->|].
  - destruct (decide (0 <= i < zlength (LinquTensorMap.pool_ m))) as [Hr|Hr].
    + rewrite zlookup_zinsert_eq in Hi by done. by simplify_eq; apply He.
    + exfalso. apply Hr. rewrite <- (zlength_zinsert (LinquTensorMap.pool_ m) i e).
      by eapply zlookup_Some_range.
  - rewrite zlookup_zinsert_ne in Hi by done. by apply (Hb i).
Qed.

(** A cell rewritten with the same producer, or invalid. *)
Lemma below_keep m m' k e f cells :
  producers_below b m -> vec_get (LinquTensorMap.pool_ m) k = Ok e ->
  vec_set (LinquTensorMap.pool_ m) k f = Ok cells ->
  (valid f = true -> valid e = true /\ producer_task_id f = producer_task_id e) ->
  LinquTensorMap.pool_ m' = cells -> producers_below b m'.
Proof.
  intros Hb He%vec_get_Ok [_ ->]%vec_set_Ok Hf Hp i g Hi Hv.
  assert (Hs : producers_below b (m <| LinquTensorMap.pool_ := zinsert k f (LinquTensorMap.pool_ m) |>)).
  { apply below_set; [done|]. intros [Hve ->]%Hf. exact (Hb k e He Hve). }
  apply (Hs i g); [|done]. cbn. by rewrite <- Hp.
Qed.

Lemma below_same m m' :
  producers_below b m -> LinquTensorMap.pool_ m' = LinquTensorMap.pool_ m -> producers_below b m'.
Proof. unfold producers_below. by intros Hb ->. Qed.

Lemma remove_stale_below fuel h t cur m m' :
  producers_below b m -> remove_stale_loop fuel h t cur m = Ok m' -> producers_below b m'.
Proof.
  revert cur m. induction fuel as [|fuel IH]; intros cur m Hb; [done|]. cbn [remove_stale_loop].
  destruct (0 <=? cur); [|intros; by simplify_eq/=]. intros H. apply bind_Ok in H as (e & He & H).
  apply bind_Ok in H as (m1 & Hm1 & H). eapply IH; [|exact H].
  destruct (stale _ _ _ _); [|by simplify_eq/=].
  apply bind_Ok in Hm1 as (cells & Hc & Hm1). simplify_eq/=. by eapply below_keep.
Qed.

Lemma write_link_below l x m m' :
  producers_below b m -> write_link l x m = Ok m' -> producers_below b m'.
Proof.
  intros Hb H. destruct l; cbn [write_link] in H; apply bind_Ok in H as (e & He & H).
  - simplify_eq/=. by eapply below_same.
  - apply bind_Ok in H as (cells & Hc & H). simplify_eq/=. by eapply below_keep.
Qed.

Lemma unlink_below fuel idx l m m' :
  producers_below b m -> unlink_loop fuel idx l m = Ok m' -> producers_below b m'.
Proof.
  revert l. induction fuel as [|fuel IH]; intros l Hb; [done|]. cbn [unlink_loop].
  intros H. apply bind_Ok in H as (p & Hp & H). destruct (0 <=? p); [|by simplify_eq/=].
  destruct (p =? idx); [|by eapply IH]. apply bind_Ok in H as (e & He & H).
  by eapply write_link_below.
Qed.

Lemma reclaim_below idx m m' :
  producers_below b m -> reclaim idx m = Ok m' -> producers_below b m'.
Proof.
  unfold reclaim. intros Hb H. apply bind_Ok in H as (old & Ho & H).
  destruct (valid old); [|by simplify_eq/=]. apply bind_Ok in H as (m1 & Hm1 & H). apply unlink_below in Hm1; [|done].
  apply bind_Ok in H as (e & He & H). apply bind_Ok in H as (cells & Hc & H). simplify_eq/=.
  eapply (below_keep m1); [exact Hm1|exact He|exact Hc|done|done].
Qed.

Lemma insert_below h t out m m' :
  producers_below b m -> 0 <= t < b -> LinquTensorMap.insert h t out m = Ok m' ->
  producers_below b m'.
Proof.
  unfold LinquTensorMap.insert. intros Hb Ht H. apply bind_Ok in H as (m1 & Hm1 & H).
  apply bind_Ok in H as (idx & _ & H). apply bind_Ok in H as (m2 & Hm2 & H).
  assert (Hb2 : producers_below b m2).
  { eapply reclaim_below; [|exact Hm2]. unfold remove_stale_for_handle in Hm1.
    apply bind_Ok in Hm1 as (cur & _ & Hm1). by eapply remove_stale_below. }
  apply bind_Ok in H as (n & _ & H). apply bind_Ok in H as (head & _ & H).
  apply bind_Ok in H as (ts & _ & H). apply bind_Ok in H as (th & _ & H).
  apply bind_Ok in H as (cells & Hc & H). apply bind_Ok in H as (heads & _ & H).
  apply bind_Ok in H as (bs & _ & H). simplify_eq/=. apply vec_set_Ok in Hc as [_ ->].
  eapply below_same; [apply below_set; [exact Hb2|]|reflexivity]. intros _. done.
Qed.

Lemma lookup_below h m r :
  producers_below b m -> lookup h m = Ok r -> found r = true -> 0 <= result_producer r < b.
Proof.
  assert (Hloop : forall fuel cur best x, producers_below b m ->
    (best = -1 \/ 0 <= best < b) -> lookup_loop fuel h cur best m = Ok x -> x = -1 \/ 0 <= x < b).
  { induction fuel as [|fuel IH]; intros cur best x Hb Hbest; [done|]. cbn [lookup_loop].
    destruct (0 <=? cur); [|intros; by simplify_eq/=]. intros H. apply bind_Ok in H as (e & He & H).
    eapply IH; [done| |exact H]. unfold matches. destruct (valid e) eqn:Hv; [|done]. simpl.
    match goal with |- context[if ?c then _ else _] => destruct c end; [|done]. right. apply vec_get_Ok in He. by apply (Hb cur). }
  unfold lookup. intros Hb H Hf. apply bind_Ok in H as (cur & _ & H).
  apply bind_Ok in H as (x & Hx & H). apply Hloop in Hx as [->|Hx]; [| |done|by left].
  - by simplify_eq/=.
  - destruct (Z.leb_spec 0 x); by simplify_eq/=.
Qed.
End producers.

Lemma below_mono b b' m : b <= b' -> producers_below b m -> producers_below b' m.
Proof. intros Hle Hb i e Hi Hv. specialize (Hb i e Hi Hv). lia. Qed.

(** ** The steps of the submitter on private data *)
Lemma place_outputs_frame outs ptr s s' :
  place_outputs outs ptr s = Ok s' ->
  exists dc h, s' = s <| data_cells := dc |> <| heap_ring_ := h |>.
Proof.
  revert ptr s. induction outs as [|t outs IH]; intros ptr s; cbn [place_outputs].
  - intros [= <-]. exists (data_cells s), (heap_ring_ s). by destruct s.
  - intros H. apply bind_Ok in H as (a & _ & H). apply bind_Ok in H as (_ & _ & H).
    apply IH in H as (dc & h & ->). by exists dc, h.
Qed.

Lemma insert_outputs_frame b outs t s s' :
  insert_outputs outs t s = Ok s' -> producers_below b (tensor_map_ s) -> 0 <= t < b ->
  exists m, s' = s <| tensor_map_ := m |> /\ producers_below b m.
Proof.
  revert s. induction outs as [|o outs IH]; intros s; cbn [insert_outputs].
  - intros [= <-] Hb Ht. exists (tensor_map_ s). split; [by destruct s|done].
  - intros H Hb Ht. apply bind_Ok in H as (m & Hm & H). apply IH in H as (m' & -> & Hb'); [|cbn..|done].
    + by exists m'.
    + by eapply insert_below.
Qed.
