(* ===== verification/LevelRuntimeSafety.v ===== *)
(** * LevelRuntime: what holds in every interleaving

    [inv] joins the memory ([LevelRuntimeState]) and the accounts
    ([LevelRuntimeView]).  [worker_inv], [submit_inv] and [sched_inv] say that
    every action keeps it; the theorems at the end are about every run from
    [start] in which no submission has to wait for an external tensor and no
    slot of the ring is used twice ([calm_run]) and, with the strict account,
    about those of them without a race ([race_free_run]). *)

From S2P Require Import Prelude Coordinate LinquHeapRing LinquTaskRing LinquDepListPool.
From S2P Require Import LinquScopeStack LinquTensorMap LevelRuntime.
From S2P Require Import LevelRuntimeView LevelRuntimeSteps LevelRuntimeSubmit LevelRuntimeState.

(** The producers counted in a frame have a cell each in the pool; no external
    input was pushed. *)
Definition frame_room (s : LevelRuntime) (sp : submit_pc) : Prop :=
  match sp with
  | SScan f _ | SProbe f _ _ => zlength (f_producers f) < top_ (dep_pool_ s)
  | SPush _ _ _ => False
  | _ => True
  end.

(** Without external inputs a scheduler thread only reads. *)
Definition sched_quiet (k : sched_pc) : Prop :=
  match k with KIdle | KExited | KScan _ _ | KExternal _ _ => True | _ => False end.

(** A producer finishes while a consumer is being linked to it: its status is
    about to be read in its lock, and its propagation waits for that lock. *)
Definition racing (y : System) : bool :=
  match submitter y with
  | SReadStatus _ p _ =>
      finished_status (status (dsc (shared y) p)) && negb (zsum (w_plock p) (workers y) =? 0)
  | _ => false
  end.

Section accounts.
Context {only_strict : Strict}.

Record inv (y : System) : Prop := {
  inv_mem : mem (shared y) (submitter y);
  inv_ok : ok (view_of (shared y)) (submitter y) (workers y);
  inv_local : forall i pc, workers y !! i = Some pc -> local_ok (shared y) pc;
  inv_room : frame_room (shared y) (submitter y);
  inv_sched : forall i k, scheds y !! i = Some k -> sched_quiet k;
}.

(** What other threads' actions do to the lists a worker holds. *)
Record grows (s s' : LevelRuntime) : Prop := {
  gr_pool : forall h, valid_head (dep_pool_ s) h ->
    valid_head (dep_pool_ s') h /\ chain (dep_pool_ s') h = chain (dep_pool_ s) h;
  gr_n : current_index_ (task_ring_ s) <= current_index_ (task_ring_ s');
}.

Lemma cursor_grows s s' h : grows s s' -> cursor_ok s h -> cursor_ok s' h.
Proof.
  intros [Hp Hn] [Hv Hc]. destruct (Hp h Hv) as [Hv' Hch]. split; [done|].
  rewrite Hch. intros x Hx%Hc. unfold here in *. lia.
Qed.

Lemma local_grows s s' pc : grows s s' -> local_ok s pc -> local_ok s' pc.
Proof.
  intros Hs. pose proof Hs as [Hp Hn].
  destruct pc; simpl; auto; try destruct k; eauto using cursor_grows; intros H; by apply Hp.
Qed.

Record same_lists (s s' : LevelRuntime) : Prop := {
  sl_pool : dep_pool_ s' = dep_pool_ s;
  sl_n : current_index_ (task_ring_ s') = current_index_ (task_ring_ s);
}.

Lemma same_grows s s' : same_lists s s' -> grows s s'.
Proof. intros [Hp Hn]. constructor; [by rewrite Hp|lia]. Qed.

Lemma inv_worker y i pc s' pc' :
  inv y -> workers y !! i = Some pc -> same_lists (shared y) s' ->
  mem s' (submitter y) -> local_ok s' pc' ->
  ok (view_of s') (submitter y) (<[i := pc']> (workers y)) ->
  inv (mkSystem s' (submitter y) (<[i := pc']> (workers y)) (scheds y)).
Proof.
  intros Hy Hi Hs Hm Hl Hok. constructor; cbn; try done; try apply Hy.
  - intros j q Hj. destruct (decide (j = i)) as [->|].
    + rewrite list_lookup_insert_eq in Hj by (by eapply lookup_lt_Some). by simplify_eq.
    + rewrite list_lookup_insert_ne in Hj by done. eapply local_grows; [by apply same_grows|]. by eapply inv_local.
  - pose proof (inv_room _ Hy) as Hr. destruct Hs as [Hp _].
    destruct (submitter y); simpl in *; rewrite ?Hp; done.
Qed.

Lemma fresh_building sp t : s_fresh sp = Some t -> s_building sp = Some t.
Proof. by destruct sp. Qed.

(** ** The actions of a worker *)
Section worker.
Context (y : System) (i : nat).
Local Abbreviation s := (shared y).
Local Abbreviation sp := (submitter y).
Local Abbreviation ws := (workers y).
Context (Hy : inv y).

(** An action that leaves the accounts where they are. *)
Lemma inv_move pc pc' s' :
  ws !! i = Some pc -> same_lists s s' -> mem s' sp -> local_ok s' pc' ->
  view_eq (view_of s') (view_of s) (<[i := pc']> ws) ->
  (forall t, w_about t pc' = w_about t pc) ->
  (forall t, w_held t pc' = w_held t pc) ->
  (forall t, w_ran t pc' = w_ran t pc) ->
  (forall t, w_ful t pc' = w_ful t pc) ->
  (forall t, w_prop t pc' <= w_prop t pc) ->
  (forall t, w_lock t pc' = w_lock t pc) ->
  (forall t, w_plock t pc' = w_plock t pc) ->
  w_rem (view_of s) pc' = w_rem (view_of s) pc ->
  w_ok (view_of s) pc' ->
  (forall c, v_st (view_of s) c = PENDING -> v_fc (view_of s) c <= v_rc (view_of s) c ->
     armed c (v_fc (view_of s) c) pc -> armed c (v_fc (view_of s) c) pc') ->
  inv (mkSystem s' sp (<[i := pc']> ws) (scheds y)).
Proof.
  intros Hi Hs Hm Hl He ? ? ? ? ? ? ? Hr ? ?. eapply inv_worker; try done.
  eapply ok_ext; [exact He|]. apply (ok_move _ _ _ _ pc); try done; try apply Hy; auto.
  intros. by rewrite Hr.
Qed.

(** A write to the descriptor of [t] and the update [v'] it makes. *)
Lemma inv_write pc pc' t f v' :
  ws !! i = Some pc -> here s t -> keeps_links f -> local_ok s pc' ->
  view_eq (view_of (written t f s)) v' (<[i := pc']> ws) -> ok v' sp (<[i := pc']> ws) ->
  inv (mkSystem (written t f s) sp (<[i := pc']> ws) (scheds y)).
Proof.
  intros Hi Ht Hf Hl He Hok. eapply inv_worker; try done.
  - apply mem_written; [apply Hy|done..].
  - by eapply ok_ext.
Qed.

Lemma pc_ok pc : ws !! i = Some pc -> w_ok (view_of s) pc.
Proof. apply (ok_pc _ _ _ (inv_ok _ Hy)). Qed.

Lemma view_refl v ws' : view_eq v v ws'.
Proof. by constructor. Qed.

Lemma pc_here pc t : ws !! i = Some pc -> w_held t pc = 1 \/ w_prop t pc = 1 -> here s t.
Proof.
  intros Hi%pc_ok H. destruct pc; simpl in *; destruct H as [H|H]; try done;
    unfold delta in H; case_decide; try done; subst; by destruct_and?.
Qed.

Ltac quiet_move := eapply inv_move; try done; try apply Hy; try apply view_refl.

(** [worker_loop] *)
Lemma inv_idle :
  ws !! i = Some WIdle ->
  wp no_fault (worker_step WIdle s)
    (fun r => inv (mkSystem (fst r) sp (<[i := snd r]> ws) (scheds y))).
Proof.
  intros Hi. cbn [worker_step]. destruct (Z.ltb_spec (rq_head_ s) (rq_tail_ s)).
  - destruct (dequeue_ok s sp ws (inv_mem _ Hy) (inv_ok _ Hy)) as (t & -> & Ht & Hm & He & Hp); [done|].
    bind_simpl. rewrite (proj2 (Z.ltb_ge t 0)) by done. simpl. eapply inv_worker; try done.
    eapply ok_ext; [apply He|]. apply ok_dequeue; [apply Hy|done|exact Hp].
  - destruct (stop_requested_ s); simpl; quiet_move.
Qed.

Abbreviation after pc :=
  (wp no_fault (worker_step pc s)
    (fun r => inv (mkSystem (fst r) sp (<[i := snd r]> ws) (scheds y)))).

Let Hm : mem s sp := inv_mem _ Hy.

Lemma write_ok t f : write_desc t f s = Ok (written t f s).
Proof. by apply (write_desc_ok s sp). Qed.
Lemma read_ok t : desc_of t s = Ok (dsc s t).
Proof. by apply (desc_of_ok s sp). Qed.

Lemma inv_start t : ws !! i = Some (WStart t) -> after (WStart t).
Proof.
  intros Hi. pose proof (pc_here _ t Hi ltac:(left; apply delta_eq)) as Ht.
  cbn [worker_step]. rewrite write_ok. simpl. eapply inv_write; [exact Hi|done|done|done|by eapply view_status|].
  apply ok_start; [apply Hy|done].
Qed.

Lemma inv_call t : ws !! i = Some (WRun t) -> after (WRun t).
Proof.
  intros Hi. pose proof (pc_here _ t Hi ltac:(left; apply delta_eq)) as Ht.
  cbn [worker_step]. rewrite read_ok. bind_simpl.
  destruct (held_facts _ _ _ (inv_ok _ Hy) _ _ Hi t (delta_eq t)) as (_ & _ & _ & Hb).
  destruct (mem_fn _ _ Hm t Ht) as [g ->].
  { by intros Hf%fresh_building. }
  simpl. eapply inv_worker; try done; [constructor; apply Hm|].
  exact (ok_call _ _ _ _ t (inv_ok _ Hy) Hi).
Qed.

Lemma inv_mark t : ws !! i = Some (WMark t) -> after (WMark t).
Proof.
  intros Hi. pose proof (pc_here _ t Hi ltac:(left; apply delta_eq)) as Ht.
  cbn [worker_step]. unfold vec_get.
  destruct (zlookup_is_Some (task_outputs_ s) (slot t s)) as [outs ->].
  { by apply (slot_range_outputs _ sp). }
  bind_simpl. destruct (mark_all_flags outs s) as [fl ->]. simpl.
  quiet_move. by apply mem_flags.
Qed.

Lemma inv_promise t : ws !! i = Some (WPromise t) -> after (WPromise t).
Proof.
  intros Hi. pose proof (pc_here _ t Hi ltac:(left; apply delta_eq)) as Ht.
  pose proof (slot_range_promises _ _ Hm t) as Hr. pose proof (slot_here _ _ Hm t Ht) as Hst.
  pose proof (promise_there _ _ _ _ _ (inv_ok _ Hy) Hi) as Hp. cbn in Hp.
  cbn [worker_step]. unfold vec_get, vec_set.
  destruct (zlookup_is_Some (task_promises_ s) (slot t s) Hr) as [b Hb]. rewrite Hb in *.
  simpl in Hp. subst b. bind_simpl. simpl. eapply inv_worker; try done.
  { constructor; try apply Hm. cbn. rewrite zlength_zinsert. apply Hm. }
  eapply ok_ext; [|exact (ok_promise _ _ _ _ t (inv_ok _ Hy) Hi)].
  constructor; try done. intros u Hu. cbn.
  change (slot u _) with (slot u s) at 1. rewrite (slot_here _ _ Hm u Hu), Hst, zlookup_zinsert by lia.
  destruct (decide (t = u)) as [->|]; [by rewrite fn_lookup_insert|].
  rewrite fn_lookup_insert_ne by done. by rewrite (slot_here _ _ Hm u Hu).
Qed.

Lemma inv_complete t : ws !! i = Some (WComplete t) -> after (WComplete t).
Proof.
  intros Hi. pose proof (pc_here _ t Hi ltac:(left; apply delta_eq)) as Ht.
  cbn [worker_step]. rewrite write_ok. simpl. eapply inv_write; [exact Hi|done|done|done|by eapply view_status|].
  apply ok_complete; [apply Hy|done].
Qed.

(** [propagate_completion], the list of consumers *)
Lemma inv_plock t : ws !! i = Some (PLock t) -> after (PLock t).
Proof.
  intros Hi. pose proof (pc_here _ t Hi ltac:(right; apply delta_eq)) as Ht.
  cbn [worker_step]. unfold fanout_lock_acquire. rewrite read_ok, write_ok. bind_simpl.
  destruct (Z.eqb_spec (fanout_lock (dsc s t)) 0) as [Hl|]; bind_simpl; simpl.
  - eapply inv_write; [exact Hi|done|done|done|by eapply view_lock|].
    apply ok_acquire; [apply Hy|done|exact Hl].
  - quiet_move.
Qed.

Lemma inv_phead t : ws !! i = Some (PHead t) -> after (PHead t).
Proof.
  intros Hi. pose proof (pc_here _ t Hi ltac:(right; apply delta_eq)) as Ht.
  cbn [worker_step]. rewrite read_ok. simpl. quiet_move.
  - exact Ht.
  - split; [exact Ht|]. intros c Hc. pose proof (ok_up _ _ _ (inv_ok _ Hy) t c Ht Hc) as Hu.
    unfold known, here in *. cbn in *. lia.
Qed.

Lemma inv_unlock t : ws !! i = Some (PUnlock t) -> after (PUnlock t).
Proof.
  intros Hi. pose proof (pc_here _ t Hi ltac:(right; apply delta_eq)) as Ht.
  cbn [worker_step]. unfold fanout_unlock. rewrite write_ok. simpl. eapply inv_write; [exact Hi|done|done|done|by eapply view_lock|].
  apply ok_release; [apply Hy|done].
Qed.

Lemma inv_walk t cur : ws !! i = Some (PWalk t cur) -> after (PWalk t cur).
Proof.
  intros Hi. pose proof (pc_here _ t Hi ltac:(right; apply delta_eq)) as Ht.
  pose proof (inv_local _ Hy _ _ Hi) as Hv. cbn in Hv. pose proof (mem_pool _ _ Hm) as Hpool.
  cbn [worker_step]. destruct (Z.ltb_spec 0 cur).
  - destruct (cell_lookup _ Hpool cur) as [e He]; [unfold valid_head in Hv; lia|].
    rewrite (get_cell _ cur e) by done. bind_simpl. rewrite read_ok, write_ok. simpl.
    pose proof (chain_cons _ Hpool cur e ltac:(unfold valid_head in Hv; lia) He) as Hch.
    destruct (ok_count _ _ _ _ t cur (next e) (LinquDepListPool.task_id e) (inv_ok _ Hy) Hi Hch)
      as (Hok & Hk & Hb).
    eapply inv_write; [exact Hi|exact Hk|done| | |exact Hok].
    + apply (next_valid _ Hpool cur); [unfold valid_head in Hv; lia|done].
    + apply (view_bump s sp); [done..|]. apply u32_id. unfold in_u32. cbn in Hb. cbn. lia.
  - simpl. quiet_move.
    + cbn. by rewrite chain_nil by lia.
Qed.

Lemma inv_check t nxt c prev : ws !! i = Some (PCheck t nxt c prev) -> after (PCheck t nxt c prev).
Proof.
  intros Hi. pose proof (pc_ok _ Hi) as (Ht & Hc & Ha & Hr & Hp). pose proof (inv_local _ Hy _ _ Hi) as Hv.
  cbn [worker_step]. rewrite read_ok. simpl.
  destruct (Z.leb_spec (fanin_count (dsc s c)) (u32 (prev + 1))) as [Hle|Hgt]; quiet_move.
  - split_and!; try done. destruct (ok_rc_bound _ _ _ (inv_ok _ Hy) c Hc).
    pose proof (ok_edges _ _ _ (inv_ok _ Hy) c Hc). cbn in *. rewrite u32_id in Hle; [lia|].
    unfold in_u32. pose proof (unfinished_nonneg (view_of s) c).
    pose proof (walking_nonneg (view_of s) ws c). pose proof (s_mid_range c sp). unfold owed in *. lia.
  - intros u _ _ [<- _]. done.
  - intros u _ _ [<- Hle]. cbn in Hle. lia.
Qed.

(** The consumer that a propagation wants to make ready. *)
Lemma inv_cas t nxt c : ws !! i = Some (PCas t nxt c) -> after (PCas t nxt c).
Proof.
  intros Hi. pose proof (pc_ok _ Hi) as (Ht & Hc & Ha & Hr & Hfull). pose proof (inv_local _ Hy _ _ Hi) as Hv.
  cbn [worker_step]. unfold try_set_ready. rewrite read_ok, write_ok. bind_simpl.
  unfold status_eqb. case_bool_decide as Hst; simpl.
  - eapply inv_write; [exact Hi|done|done|done|by eapply view_status|].
    apply ok_ready; [apply Hy|done|exact Hst].
  - quiet_move. intros u Hp _ ->. by destruct Hst.
Qed.

Lemma about_not_logged c pc : ws !! i = Some pc -> w_about c pc = 1 -> c ∉ v_log (view_of s).
Proof.
  intros Hi Ha Hin%occ_elem_of. pose proof (ok_log _ _ _ (inv_ok _ Hy) c).
  pose proof (moved_range (view_of s) c). pose proof (s_about_range c sp).
  pose proof (sum_elem ws _ i _ (fun pc => proj1 (w_about_range c pc)) Hi). lia.
Qed.

Lemma inv_enqueue t nxt c : ws !! i = Some (PEnqueue t nxt c) -> after (PEnqueue t nxt c).
Proof.
  intros Hi. pose proof (pc_ok _ Hi) as (Ht & Hc & Ha & Hr). pose proof (inv_local _ Hy _ _ Hi) as Hv.
  pose proof (about_not_logged c _ Hi (delta_eq c)) as Hn.
  destruct (enqueue_ok s sp ws Hm (inv_ok _ Hy) c Hc Hn) as (He & Hm' & Hve).
  cbn [worker_step]. rewrite He. simpl. eapply inv_worker; try done.
  eapply ok_ext; [apply Hve|]. exact (ok_enqueue _ _ _ _ t nxt c (inv_ok _ Hy) Hi).
Qed.

(** [propagate_completion], the list of producers *)
Lemma inv_dephead t : ws !! i = Some (PDepHead t) -> after (PDepHead t).
Proof.
  intros Hi. pose proof (pc_here _ t Hi ltac:(right; apply delta_eq)) as Ht.
  cbn [worker_step]. rewrite read_ok. simpl. quiet_move. exact Ht.
Qed.

Lemma cursor_next cur e :
  0 < cur -> cursor_ok s cur -> zlookup (LinquDepListPool.pool_ (dep_pool_ s)) cur = Some e ->
  here s (LinquDepListPool.task_id e) /\ cursor_ok s (next e).
Proof.
  intros Hc [Hv Hall] He. pose proof (mem_pool _ _ Hm) as Hpool. unfold valid_head in Hv.
  rewrite (chain_cons _ Hpool cur e) in Hall by (done || lia). split; [apply Hall; set_solver|].
  split; [apply (next_valid _ Hpool cur); [lia|done]|]. intros x Hx. apply Hall. set_solver.
Qed.

Lemma inv_deps t cur : ws !! i = Some (PDeps t cur) -> after (PDeps t cur).
Proof.
  intros Hi. pose proof (pc_ok _ Hi) as Ht. pose proof (inv_local _ Hy _ _ Hi) as Hcur.
  cbn [worker_step]. destruct (Z.ltb_spec 0 cur).
  - destruct (cell_lookup _ (mem_pool _ _ Hm) cur) as [e He]; [destruct Hcur as [Hv _]; unfold valid_head in Hv; lia|].
    destruct (cursor_next cur e) as [Hx Hn]; [done..|].
    rewrite (get_cell _ cur e) by done. bind_simpl. rewrite write_ok. simpl.
    eapply inv_move; try done; [by apply mem_written|by eapply view_silent].
  - simpl. quiet_move.
Qed.

(** [check_task_consumed] *)
Lemma inv_return pc t x k s' :
  ws !! i = Some pc -> same_lists s s' -> mem s' sp -> view_of s' = view_of s ->
  pc = CStatus t x k \/ (exists fc, pc = CRef t x fc k) \/ pc = CAlive t x k ->
  inv (mkSystem s' sp (<[i := consumed_return t k]> ws) (scheds y)).
Proof.
  intros Hi Hs Hm' He Hpc. pose proof (pc_ok _ Hi) as Hok. pose proof (inv_local _ Hy _ _ Hi) as Hl.
  assert (Hk : known (view_of s) t) by (destruct Hpc as [-> |[[fc ->]| ->]]; by destruct Hok).
  assert (Hcur : forall h, k = Some h -> cursor_ok s' h).
  { intros h ->. apply (cursor_grows s); [by apply same_grows|]. destruct Hpc as [-> |[[fc ->]| ->]]; exact Hl. }
  assert (Hd : forall u, w_prop u pc = delta u t) by (destruct Hpc as [-> |[[fc ->]| ->]]; done).
  eapply inv_move; [exact Hi|done|done|..]; destruct k as [h|]; simpl; auto;
    try (by rewrite He; apply view_refl);
    intros; rewrite ?Hd; try (destruct Hpc as [-> |[[fc ->]| ->]]; done); try apply delta_range.
Qed.

Lemma inv_cstatus t x k : ws !! i = Some (CStatus t x k) -> after (CStatus t x k).
Proof.
  intros Hi. pose proof (pc_ok _ Hi) as (Ht & Hx). pose proof (inv_local _ Hy _ _ Hi) as Hl.
  cbn [worker_step]. rewrite read_ok. simpl. unfold status_eqb. case_bool_decide as Hst.
  - quiet_move. split_and!; [done..|]. cbn. by rewrite Hst.
  - eapply inv_return; try done. by left.
Qed.

Lemma inv_ccount t x k : ws !! i = Some (CCount t x k) -> after (CCount t x k).
Proof.
  intros Hi. pose proof (pc_ok _ Hi) as Hok. pose proof (inv_local _ Hy _ _ Hi) as Hl.
  cbn [worker_step]. rewrite read_ok. simpl. quiet_move.
Qed.

Lemma inv_cref t x fc k : ws !! i = Some (CRef t x fc k) -> after (CRef t x fc k).
Proof.
  intros Hi. pose proof (pc_ok _ Hi) as Hok. pose proof (inv_local _ Hy _ _ Hi) as Hl.
  cbn [worker_step]. rewrite read_ok. simpl. case_match.
  - quiet_move.
  - eapply inv_return; try done. eauto.
Qed.

Lemma inv_cset t x k : ws !! i = Some (CSet t x k) -> after (CSet t x k).
Proof.
  intros Hi. pose proof (pc_ok _ Hi) as (Ht & Hx & _). pose proof (inv_local _ Hy _ _ Hi) as Hl.
  cbn [worker_step]. rewrite write_ok. simpl.
  eapply inv_write; [exact Hi|exact Hx|done|done|by eapply view_status|].
  apply ok_consumed; [apply Hy|done].
Qed.

Lemma inv_calive t x k : ws !! i = Some (CAlive t x k) -> after (CAlive t x k).
Proof.
  intros Hi. cbn [worker_step]. destruct (x =? _).
  - destruct (rings_try_advance_ok s sp Hm) as (s' & -> & Hm' & He & Hp & Hn). simpl.
    eapply inv_return; try done. eauto.
  - simpl. eapply inv_return; try done. eauto.
Qed.

(** Every action of a worker returns and keeps the invariant. *)
Lemma worker_inv pc : ws !! i = Some pc -> after pc.
Proof.
  intros Hi. destruct pc; eauto using inv_idle, inv_start, inv_call, inv_mark, inv_promise,
    inv_complete, inv_plock, inv_phead, inv_walk, inv_check, inv_cas, inv_enqueue, inv_unlock,
    inv_dephead, inv_deps, inv_cstatus, inv_ccount, inv_cref, inv_cset, inv_calive.
  simpl. quiet_move.
Qed.
End worker.

(** ** The actions of the submitting thread

    They can run out of a fixed capacity (list pool, heap, tensor map, scope
    array): when they return, the invariant holds again. *)
Definition some_fault : fault -> Prop := fun _ => True.

(** No external tensor is waited for, and no slot of the ring is used twice. *)
Definition calm (s : LevelRuntime) (sp : submit_pc) : Prop :=
  match sp with SPush _ _ _ => False | _ => True end /\
  current_index_ (task_ring_ s) <= window_size_ (task_ring_ s).

Lemma inv_submit y s' sp' :
  inv y -> grows (shared y) s' -> mem s' sp' -> ok (view_of s') sp' (workers y) ->
  frame_room s' sp' -> inv (mkSystem s' sp' (workers y) (scheds y)).
Proof.
  intros Hy Hs Hm Hok Hr. constructor; cbn; try done; try apply Hy.
  intros j q Hj. eapply local_grows; [done|]. by eapply inv_local.
Qed.

(** [mem] looks at the submitter for the new task's function and outputs. *)
Lemma mem_sp s sp sp' :
  mem s sp -> producer_bound s sp <= producer_bound s sp' -> s_fresh sp = None ->
  mem s sp'.
Proof.
  intros Hm Hb Hf. constructor; try apply Hm.
  - intros t Ht _. apply (mem_fn _ _ Hm t Ht). by rewrite Hf.
  - eapply below_mono; [exact Hb|]. apply Hm.
Qed.

(** A new task takes a slot that no task uses. *)
Lemma alloc_dsc s sp t :
  mem s sp -> has_space (task_ring_ s) = true ->
  current_index_ (task_ring_ s) < window_size_ (task_ring_ s) -> here s t ->
  dsc (s <| task_ring_ := allocated (task_ring_ s) |>) t = dsc s t.
Proof.
  intros Hm Hspace Hlt Ht. pose proof (mem_ring _ _ Hm) as Hr. pose proof (mem_window _ _ Hm) as Hw.
  pose proof (wf_alive _ Hr). unfold here in Ht. unfold dsc. cbn. unfold allocated.
  rewrite desc_updated by (apply wf_bump; done || lia). rewrite decide_False; [done|].
  change (slot_of (current_index_ (task_ring_ s)) (task_ring_ s) <> slot_of t (task_ring_ s)).
  rewrite !slot_mod by done. rewrite !Z.mod_small by lia. lia.
Qed.

Section submitter.
Context (y : System).
Local Abbreviation s := (shared y).
Local Abbreviation ws := (workers y).
Local Abbreviation sc := (scheds y).
Context (Hy : inv y).

Abbreviation submits sp :=
  (wp some_fault (submit_step sp s) (fun r => calm (fst r) (snd r) ->
    inv (mkSystem (fst r) (snd r) ws sc))).

Lemma mem_at sp : submitter y = sp -> mem s sp.
Proof. intros <-. apply Hy. Qed.
Lemma ok_at sp : submitter y = sp -> ok (view_of s) sp ws.
Proof. intros <-. apply Hy. Qed.
Lemma write_at sp t f : submitter y = sp -> write_desc t f s = Ok (written t f s).
Proof. intros H. by apply (write_desc_ok s sp), mem_at. Qed.
Lemma read_at sp t : submitter y = sp -> desc_of t s = Ok (dsc s t).
Proof. intros H. by apply (desc_of_ok s sp), mem_at. Qed.

Lemma grows_refl s0 : grows s0 s0.
Proof. constructor; [done|lia]. Qed.

(** The submitter goes on, nothing the accounts read has changed. *)
Lemma inv_smove sp sp' s' :
  submitter y = sp -> same_lists s s' -> mem s' sp' -> view_eq (view_of s') (view_of s) ws ->
  ok (view_of s) sp' ws -> frame_room s' sp' -> inv (mkSystem s' sp' ws sc).
Proof.
  intros Hsp Hs Hm He Hok Hr. apply inv_submit; try done; [by apply same_grows|by eapply ok_ext].
Qed.

(** A write to the descriptor of [t] by the submitter. *)
Lemma inv_swrite sp sp' t f v' :
  submitter y = sp -> here s t -> keeps_links f ->
  s_fresh sp = None -> producer_bound s sp <= producer_bound s sp' ->
  view_eq (view_of (written t f s)) v' ws -> ok v' sp' ws ->
  frame_room s sp' -> inv (mkSystem (written t f s) sp' ws sc).
Proof.
  intros Hsp Ht Hf Hfr Hb He Hok Hr. apply inv_submit; try done.
  - apply mem_written; [|done..]. apply (mem_sp _ sp); [by apply mem_at|done..].
  - by eapply ok_ext.
Qed.

(** [task_ring_.alloc] *)
Lemma inv_alloc c spins :
  submitter y = SEnter c spins -> has_space (task_ring_ s) = true ->
  current_index_ (task_ring_ s) < window_size_ (task_ring_ s) ->
  inv (mkSystem (s <| task_ring_ := allocated (task_ring_ s) |>)
         (SAux c (current_index_ (task_ring_ s))) ws sc).
Proof.
  intros Hsp Hspace Hlt. pose proof (mem_at _ Hsp) as Hm. pose proof (ok_at _ Hsp) as Hok.
  pose proof (mem_ring _ _ Hm) as Hr. pose proof (mem_window _ _ Hm) as Hw.
  set (n := current_index_ (task_ring_ s)) in *. pose proof (wf_alive _ Hr) as Ha. fold n in Ha.
  set (s' := s <| task_ring_ := allocated (task_ring_ s) |>).
  assert (Hnew : dsc s' n = new_descriptor) by (apply desc_allocated_new; unfold n in *; done || lia).
  assert (Hold : forall t, here s t -> dsc s' t = dsc s t) by (intros; by apply (alloc_dsc s (SEnter c spins))).
  assert (Hcase : forall t, here s' t -> here s t \/ t = n) by (unfold here; cbn; fold n; lia).
  assert (Hg : grows s s') by (constructor; [done|cbn; fold n; lia]).
  apply inv_submit; try done.
  - constructor; try apply Hm.
    + apply wf_allocated; unfold n in *; done || lia.
    + cbn. fold n. lia.
    + intros t [Ht| ->]%Hcase; [rewrite Hold by done; by apply (mem_fanout _ _ Hm)|].
      rewrite Hnew. unfold valid_head. cbn. pose proof (wf_top _ (mem_pool _ _ Hm)). lia.
    + intros t [Ht| ->]%Hcase; [rewrite Hold by done; apply (cursor_grows s); [done|by apply (mem_deps _ _ Hm)]|].
      rewrite Hnew. split; [unfold valid_head; cbn; pose proof (wf_top _ (mem_pool _ _ Hm)); lia|].
      cbn. intros x Hx. by apply not_elem_of_nil in Hx.
    + intros t [Ht| ->]%Hcase Hf; [|by destruct Hf]. rewrite Hold by done. by apply (mem_fn _ _ Hm).
    + pose proof (mem_producers _ _ Hm) as Hp. cbn in *. fold n. by replace (n + 1 - 1) with n by lia.
  - eapply ok_ext; [|exact (ok_alloc _ _ _ _ Hok)]. constructor; try done; intros t Ht; cbn;
      apply Hcase in Ht as [Ht| ->]; fold n; rewrite ?fn_lookup_insert, ?Hnew, ?Hold by done; try done;
      rewrite fn_lookup_insert_ne by (unfold here in Ht; fold n in Ht; lia); done.
Qed.
End submitter.

Lemma inv_enter y c spins :
  inv y -> submitter y = SEnter c spins ->
  wp some_fault (submit_step (SEnter c spins) (shared y)) (fun r => calm (fst r) (snd r) ->
    inv (mkSystem (fst r) (snd r) (workers y) (scheds y))).
Proof.
  intros Hy Hsp. pose proof (mem_at _ Hy _ Hsp) as Hm. pose proof (ok_at _ Hy _ Hsp) as Hok.
  cbn [submit_step].
  assert (H : exists s1, (if has_space (task_ring_ (shared y)) then Ok (shared y)
      else try_advance_ring_pointers (shared y)) = Ok s1 /\
     mem s1 (SEnter c spins) /\ view_of s1 = view_of (shared y) /\ same_lists (shared y) s1).
  { destruct (has_space (task_ring_ (shared y))); [by exists (shared y)|].
    destruct (rings_try_advance_ok _ _ Hm) as (s1 & ? & ? & ? & ? & ?). by exists s1. }
  destruct H as (s1 & -> & Hm1 & Hv1 & Hs1). bind_simpl.
  assert (Hy1 : forall k, inv (mkSystem s1 (SEnter c k) (workers y) (scheds y))).
  { intros k. apply (inv_smove y Hy (SEnter c spins)); try done.
    - by apply (mem_sp _ (SEnter c spins)).
    - rewrite Hv1. apply view_refl.
    - by apply (ok_smove _ (SEnter c spins)). }
  destruct (has_space (task_ring_ s1)) eqn:Hspace.
  - apply wp_bind. apply wp_alloc; [apply Hm1|done|done|]. intros _ Hlt. simpl.
    intros [_ Hcalm]. cbn in Hcalm.
    apply (inv_alloc (mkSystem s1 (SEnter c spins) (workers y) (scheds y)) (Hy1 spins) c spins);
      [done..|]. cbn. lia.
  - destruct (_ <? _); simpl; [done|]. intros _. apply Hy1.
Qed.

Section submitter_steps.
Context (y : System).
Local Abbreviation s := (shared y).
Local Abbreviation ws := (workers y).
Local Abbreviation sc := (scheds y).
Context (Hy : inv y).

Abbreviation submits sp :=
  (wp some_fault (submit_step sp s) (fun r => calm (fst r) (snd r) ->
    inv (mkSystem (fst r) (snd r) ws sc))).

Lemma task_here sp t : submitter y = sp -> s_task sp = Some t -> here s t.
Proof. intros <- Ht. by apply (ok_task _ _ _ (inv_ok _ Hy)). Qed.

Lemma quiet_set k v :
  mem s (submitter y) ->
  forall i l, zlookup (zinsert k v (task_external_ready_ s)) i = Some l -> v = [] -> l = [].
Proof.
  intros Hm i l Hl ->. destruct (decide (k = i)) as [->|].
  - destruct (decide (0 <= i < zlength (task_external_ready_ s))).
    + rewrite zlookup_zinsert_eq in Hl by done. by simplify_eq.
    + exfalso. apply zlookup_Some_range in Hl. by rewrite zlength_zinsert in Hl.
  - rewrite zlookup_zinsert_ne in Hl by done. by eapply (mem_quiet _ _ Hm).
Qed.

Lemma inv_aux c t : submitter y = SAux c t -> submits (SAux c t).
Proof.
  intros Hsp. pose proof (mem_at _ Hy _ Hsp) as Hm. pose proof (ok_at _ Hy _ Hsp) as Hok.
  pose proof (task_here _ t Hsp eq_refl) as Ht. cbn [submit_step].
  set (f := fun d => d <| key := (key d) <| Coordinate.task_id := u32 t |> |>
          <| kernel_so := call_name c |> <| fn := Some (call_fn c) |>).
  rewrite (write_at _ Hy _ _ _ Hsp). bind_simpl. unfold vec_set.
  repeat (match goal with |- wp _ (match zlookup ?v ?k with _ => _ end ≫= _) _ =>
    destruct (zlookup v k) as [?|]; bind_simpl; [|done] end).
  cbn [wp fst snd]. intros _. apply inv_submit; [done|by apply same_grows| | |].
  - pose proof (mem_producers _ _ Hm).
    constructor; cbn; rewrite ?zlength_zinsert; try apply Hm; try done.
    + by apply wf_updated, Hm.
    + intros u Hu. unfold dsc. cbn. rewrite (dsc_updated s (SAux c t) Hm) by done.
      case_decide as He; [subst u|]; by apply (mem_fanout _ _ Hm).
    + intros u Hu. unfold dsc. cbn. rewrite (dsc_updated s (SAux c t) Hm) by done.
      case_decide as He; [subst u|]; by apply (mem_deps _ _ Hm).
    + intros u Hu _. unfold dsc. cbn. rewrite (dsc_updated s (SAux c t) Hm) by done.
      case_decide as He; [by eexists|]. apply (mem_fn _ _ Hm); [done|]. by intros [= ->].
    + intros k' l' Hl. rewrite <- Hsp in Hm. by eapply (quiet_set _ [] Hm).
  - eapply ok_ext; [|exact (ok_aux _ _ _ _ (call_inputs c) Hok)].
    pose proof (view_silent s (SAux c t) ws Hm t Ht f ltac:(done)) as He.
    constructor; try apply He; try done. intros u Hu. cbn.
    change (slot u _) with (slot u s) at 1. change (slot t (written t f s)) with (slot t s).
    rewrite (slot_here _ _ Hm u Hu), (slot_here _ _ Hm t Ht), zlookup_zinsert
      by (rewrite <- (slot_here _ _ Hm t Ht) at 1 2; by apply (slot_range_promises _ (SAux c t))).
    destruct (decide (t = u)) as [->|]; [by rewrite fn_lookup_insert|].
    rewrite fn_lookup_insert_ne by done. by rewrite (slot_here _ _ Hm u Hu).
  - simpl. pose proof (wf_top _ (mem_pool _ _ Hm)). cbn. unfold zlength. simpl. lia.
Qed.

(** A move of the submitter inside the scan of the inputs. *)
Lemma inv_scan_move sp sp' :
  submitter y = sp -> producer_bound s sp <= producer_bound s sp' -> s_fresh sp = None ->
  ok (view_of s) sp' ws -> frame_room s sp' -> inv (mkSystem s sp' ws sc).
Proof.
  intros Hsp Hb Hf Hok Hr. apply (inv_smove y Hy sp); [done|done| |apply view_refl|done|done].
  apply (mem_sp _ sp); [by apply mem_at|done..].
Qed.

Lemma inv_scan f ins : submitter y = SScan f ins -> submits (SScan f ins).
Proof.
  intros Hsp. pose proof (mem_at _ Hy _ Hsp) as Hm. pose proof (ok_at _ Hy _ Hsp) as Hok.
  pose proof (task_here _ _ Hsp eq_refl) as Ht. pose proof (ok_sub _ _ _ Hok) as (Hfan & Hmax & Hps).
  pose proof (inv_room _ Hy) as Hroom. rewrite Hsp in Hroom. cbn in Hroom.
  destruct (ok_task _ _ _ Hok _ eq_refl) as [Hn _]. cbn in Hn.
  assert (Hmove : forall sp', s_ok (view_of s) sp' -> frame_room s sp' ->
    sp' = SHeap f \/ (exists t, sp' = SProbe f t (tail ins)) \/ sp' = SScan f (tail ins) ->
    inv (mkSystem s sp' ws sc)).
  { intros sp' Hs' Hr' Hsp'. apply (inv_scan_move (SScan f ins)); [done| |done| |done];
      destruct Hsp' as [-> |[[t ->]| ->]]; try done; by apply (ok_smove _ (SScan f ins)). }
  destruct ins as [|t ins]; cbn [submit_step].
  { cbn [wp fst snd]. intros _. apply Hmove; [done|done|by left]. }
  destruct (is_valid t); cbn [negb]; [|cbn [wp fst snd]; intros _; apply Hmove; [done|done|by eauto]].
  destruct (lookup (tensor_id t) (tensor_map_ s)) as [r|] eqn:Hl; bind_simpl; [|done].
  destruct (found r) eqn:Hf; [|cbn [wp fst snd]; intros _; apply Hmove; [done|done|by eauto]].
  pose proof (lookup_below _ _ _ _ (mem_producers _ _ Hm) Hl Hf) as Hr. cbn in Hr. rewrite <- Hn in Hr.
  rewrite (read_at _ Hy _ _ Hsp). bind_simpl. pose proof (mem_deps _ _ Hm _ Ht) as [Hv Hc].
  apply wp_bind. apply wp_prepend; [apply Hm|exact Hv|done|].
  intros p' idx Hcap Hwf' Hcp Htop Hidx Hv' Hnew Hold.
  assert (Hext : extends (dep_pool_ s) p') by done.
  pose proof (mem_pool_extends _ _ _ Hm Hext) as Hm1. set (s1 := s <| dep_pool_ := p' |>) in *.
  set (g := fun d : LinquTaskDescriptor => d <| dep_list_head := idx |>).
  cbn [fst snd]. rewrite (write_desc_ok s1 _ Hm1). bind_simpl. cbn [wp fst snd]. intros _.
  assert (Hlen : zlength (f_producers f ++ [result_producer r]) = zlength (f_producers f) + 1)
    by (unfold zlength; rewrite length_app; simpl; lia).
  pose proof (wf_cap _ (mem_pool _ _ Hm)). pose proof (zlength_nonneg (f_producers f)).
  apply inv_submit; [done| | | |].
  - constructor; [exact Hold|done].
  - apply (mem_sp _ (SScan f (t :: ins))); [|done..]. apply mem_written_heads; [done..| |].
    + by apply (mem_fanout _ _ Hm1).
    + split; [exact Hv'|]. intros x Hx. change (x ∈ chain p' idx) in Hx. rewrite Hnew in Hx.
      apply elem_of_cons in Hx as [->|Hx]; [unfold here in *; cbn; lia|by apply Hc].
  - eapply ok_ext.
    + eapply view_eq_trans; [by apply (view_silent s1 (SScan f (t :: ins)))|].
      apply (view_pool_extends _ (SScan f (t :: ins))); [done| |done]. apply Hy.
    + apply (ok_smove _ (SScan f (t :: ins))); try done.
      unfold s_ok, frame_ok. cbn [f_fanin f_producers f_tid]. rewrite Hlen.
      rewrite u32_id by (unfold in_u32; lia). split_and!; [lia|lia|].
      intros q Hq%elem_of_app. destruct Hq as [Hq|Hq]; [by apply Hps|].
      apply list_elem_of_singleton in Hq as ->. lia.
  - unfold frame_room. cbn [f_producers]. rewrite Hlen. change (zlength (f_producers f) + 1 < top_ p'). lia.
Qed.

Lemma inv_probe f t ins : submitter y = SProbe f t ins -> submits (SProbe f t ins).
Proof.
  intros Hsp. pose proof (ok_at _ Hy _ Hsp) as Hok.
  pose proof (inv_room _ Hy) as Hroom. rewrite Hsp in Hroom.
  cbn [submit_step wp fst snd]. destruct (is_ready t s); intros [Hc _]; [|done].
  apply (inv_scan_move (SProbe f t ins)); try done. apply (ok_smove _ (SProbe f t ins)); try done.
  apply (ok_sub _ _ _ Hok).
Qed.

Lemma inv_heap f : submitter y = SHeap f -> submits (SHeap f).
Proof.
  intros Hsp. pose proof (mem_at _ Hy _ Hsp) as Hm. pose proof (ok_at _ Hy _ Hsp) as Hok.
  assert (Hok' : ok (view_of s) (SInsert f) ws)
    by (apply (ok_smove _ (SHeap f)); try done; apply (ok_sub _ _ _ Hok)).
  cbn [submit_step]. destruct (0 <? output_bytes _).
  - destruct (LinquHeapRing.alloc _ _) as [[h ptr]|]; bind_simpl; [|done].
    destruct (place_outputs _ _ _) as [s1|] eqn:Hp; bind_simpl; [|done].
    apply place_outputs_frame in Hp as (dc & h' & ->).
    destruct (vec_set _ _ _) as [outs|] eqn:Hv; bind_simpl; [|done].
    apply vec_set_Ok in Hv as [_ ->]. cbn [wp fst snd]. intros _.
    apply (inv_smove y Hy (SHeap f)); try done.
    apply (mem_sp _ (SHeap f)); [|done..]. constructor; try apply Hm. cbn.
    rewrite zlength_zinsert. apply Hm.
  - cbn [wp fst snd]. intros _. by apply (inv_scan_move (SHeap f)).
Qed.

Lemma inv_insert f : submitter y = SInsert f -> submits (SInsert f).
Proof.
  intros Hsp. pose proof (mem_at _ Hy _ Hsp) as Hm. pose proof (ok_at _ Hy _ Hsp) as Hok.
  pose proof (task_here _ _ Hsp eq_refl) as Ht.
  cbn [submit_step]. destruct (insert_outputs _ _ _) as [s1|] eqn:Hi; bind_simpl; [|done].
  apply (insert_outputs_frame (current_index_ (task_ring_ s))) in Hi as (m & -> & Hb); [| |exact Ht].
  2: { eapply below_mono; [|apply (mem_producers _ _ Hm)]. cbn. lia. }
  cbn [wp fst snd]. intros _. apply (inv_smove y Hy (SInsert f)); try done.
  - constructor; try apply Hm. exact Hb.
  - apply (ok_smove _ (SInsert f)); try done; apply (ok_sub _ _ _ Hok).
Qed.

Lemma inv_register f : submitter y = SRegister f -> submits (SRegister f).
Proof.
  intros Hsp. pose proof (mem_at _ Hy _ Hsp) as Hm. pose proof (ok_at _ Hy _ Hsp) as Hok.
  pose proof (task_here _ _ Hsp eq_refl) as Ht. cbn [submit_step].
  assert (H : forall s1, (exists st, s1 = s <| scope_stack_ := st |>) ->
    wp some_fault (let! s2 := write_desc (f_tid f)
      (fun d => d <| heap_end := LinquHeapRing.top_ (heap_ring_ s1) |>) s1 in Ok (s2, SCount f))
      (fun r => calm (fst r) (snd r) -> inv (mkSystem (fst r) (snd r) ws sc))).
  { intros s1 [st ->]. assert (Hm1 : mem (s <| scope_stack_ := st |>) (SRegister f)) by (constructor; apply Hm).
    rewrite (write_desc_ok _ _ Hm1). cbn [wp mbind outcome_bind fst snd]. intros _.
    apply (inv_smove y Hy (SRegister f)); try done.
    - apply (mem_sp _ (SRegister f)); [|done..]. by apply mem_written.
    - refine (view_silent _ _ ws Hm1 (f_tid f) Ht _ _); done.
    - apply (ok_smove _ (SRegister f)); try done. apply (ok_sub _ _ _ Hok). }
  destruct (0 <=? depth _).
  - destruct (add_task _ _) as [st|]; bind_simpl; [|done]. apply H. by exists st.
  - bind_simpl. apply H. exists (scope_stack_ s). by destruct (shared y).
Qed.

Lemma inv_count f : submitter y = SCount f -> submits (SCount f).
Proof.
  intros Hsp. pose proof (mem_at _ Hy _ Hsp) as Hm. pose proof (ok_at _ Hy _ Hsp) as Hok.
  pose proof (task_here _ _ Hsp eq_refl) as Ht.
  cbn [submit_step]. rewrite (write_at _ Hy _ _ _ Hsp). cbn [wp mbind outcome_bind fst snd]. intros _.
  eapply (inv_swrite y Hy (SCount f)); [done|done|done|done| |by eapply view_fanin|by apply ok_fanin|];
    by destruct (f_fanin f =? 0).
Qed.

Lemma inv_set_ready f : submitter y = SSetReady f -> submits (SSetReady f).
Proof.
  intros Hsp. pose proof (mem_at _ Hy _ Hsp) as Hm. pose proof (ok_at _ Hy _ Hsp) as Hok.
  pose proof (task_here _ _ Hsp eq_refl) as Ht.
  cbn [submit_step]. rewrite (write_at _ Hy _ _ _ Hsp). cbn [wp mbind outcome_bind fst snd]. intros _.
  eapply (inv_swrite y Hy (SSetReady f)); [done|done|done|done|done|by eapply view_status|by apply ok_set_ready|done].
Qed.

Lemma inv_set_pending f : submitter y = SSetPending f -> submits (SSetPending f).
Proof.
  intros Hsp. pose proof (mem_at _ Hy _ Hsp) as Hm. pose proof (ok_at _ Hy _ Hsp) as Hok.
  pose proof (task_here _ _ Hsp eq_refl) as Ht.
  cbn [submit_step]. rewrite (write_at _ Hy _ _ _ Hsp). cbn [wp mbind outcome_bind fst snd]. intros _.
  eapply (inv_swrite y Hy (SSetPending f)); [done|done|done|done|done|by eapply view_status|by apply ok_set_pending|done].
Qed.

(** [add_consumer_to_producer] *)
Lemma producer_here sp f p ps :
  submitter y = sp -> s_task sp = Some (f_tid f) ->
  (forall q, q ∈ p :: ps -> 0 <= q < f_tid f) -> here s p.
Proof.
  intros Hsp Ht Hps. pose proof (task_here _ _ Hsp Ht). specialize (Hps p ltac:(set_solver)).
  unfold here in *. lia.
Qed.

Lemma inv_same sp : submitter y = sp -> inv (mkSystem s sp ws sc).
Proof. intros <-. clear -Hy. by destruct y. Qed.

Lemma inv_slock f ps : submitter y = SLock f ps -> submits (SLock f ps).
Proof.
  intros Hsp. pose proof (mem_at _ Hy _ Hsp) as Hm. pose proof (ok_at _ Hy _ Hsp) as Hok.
  pose proof (ok_sub _ _ _ Hok) as (Hfc & Hps). cbn [submit_step].
  destruct ps as [|p ps].
  - cbn [wp fst snd]. intros _. apply (inv_scan_move (SLock f [])); try done.
    apply (ok_smove _ (SLock f [])); try done.
  - pose proof (producer_here _ f p ps Hsp eq_refl Hps) as Hp.
    unfold fanout_lock_acquire. rewrite (read_at _ Hy _ _ Hsp). bind_simpl.
    destruct (Z.eqb_spec (fanout_lock (dsc s p)) 0) as [Hl|]; bind_simpl.
    2: { cbn [wp fst snd]. intros _. by apply inv_same. }
    rewrite (write_at _ Hy _ _ _ Hsp). cbn [wp mbind outcome_bind fst snd]. intros _.
    eapply (inv_swrite y Hy (SLock f (p :: ps)));
      [done|done|done|done|done|by eapply view_lock|by apply ok_slock|done].
Qed.

Lemma inv_sprepend f p ps : submitter y = SPrepend f p ps -> submits (SPrepend f p ps).
Proof.
  intros Hsp. pose proof (mem_at _ Hy _ Hsp) as Hm. pose proof (ok_at _ Hy _ Hsp) as Hok.
  pose proof (task_here _ _ Hsp eq_refl) as Ht. pose proof (ok_sub _ _ _ Hok) as (Hfc & Hps).
  pose proof (producer_here _ f p ps Hsp eq_refl Hps) as Hp. cbn [submit_step].
  rewrite (read_at _ Hy _ _ Hsp). bind_simpl.
  apply wp_bind. apply wp_prepend; [apply Hm|by apply (mem_fanout _ _ Hm)|done|].
  intros p' idx Hcap Hwf' Hcp Htop Hidx Hv' Hnew Hold.
  assert (Hext : extends (dep_pool_ s) p') by done.
  pose proof (mem_pool_extends _ _ _ Hm Hext) as Hm1. set (s1 := s <| dep_pool_ := p' |>) in *.
  cbn [fst snd]. rewrite (write_desc_ok s1 _ Hm1). cbn [wp mbind outcome_bind fst snd]. intros _.
  apply inv_submit; [done|by constructor; [exact Hold|]| | |done].
  - apply (mem_sp _ (SPrepend f p ps)); [|done..]. apply mem_written_heads; [done..|exact Hv'|].
    by apply (mem_deps _ _ Hm1).
  - eapply ok_ext; [|exact (ok_link _ _ _ _ _ Hok)].
    pose proof (view_pool_extends s _ p' ws Hm ltac:(apply Hy) Hext) as He.
    constructor; try done; try (intros u Hu; cbn; apply (field_kept s1 (SPrepend f p ps)); done).
    + intros i pc h Hi Hh. by apply (ve_ch _ _ _ He i pc).
    + intros u Hu. cbn. unfold dsc at 1, written. cbn. rewrite (dsc_updated s1 _ Hm1) by done. destruct (decide (p = u)) as [->|].
      * rewrite fn_lookup_insert. exact Hnew.
      * rewrite fn_lookup_insert_ne by done. apply Hold. by apply (mem_fanout _ _ Hm).
Qed.

Lemma inv_count_up f p ps : submitter y = SCountUp f p ps -> submits (SCountUp f p ps).
Proof.
  intros Hsp. pose proof (mem_at _ Hy _ Hsp) as Hm. pose proof (ok_at _ Hy _ Hsp) as Hok.
  pose proof (ok_sub _ _ _ Hok) as (Hfc & Hps).
  pose proof (producer_here _ f p ps Hsp eq_refl Hps) as Hp. cbn [submit_step].
  rewrite (write_at _ Hy _ _ _ Hsp). cbn [wp mbind outcome_bind fst snd]. intros _.
  apply (inv_smove y Hy (SCountUp f p ps)); try done.
  - apply (mem_sp _ (SCountUp f p ps)); [|done..]. by apply mem_written.
  - by eapply view_silent.
  - by apply (ok_smove _ (SCountUp f p ps)).
Qed.

Lemma finished_eqb st : status_eqb st COMPLETED || status_eqb st CONSUMED = finished_status st.
Proof. by destruct st. Qed.

Lemma inv_read_status f p ps :
  (strict = true -> racing y = false) ->
  submitter y = SReadStatus f p ps -> submits (SReadStatus f p ps).
Proof.
  intros Hrace Hsp. pose proof (ok_at _ Hy _ Hsp) as Hok. cbn [submit_step].
  rewrite (read_at _ Hy _ _ Hsp). cbn [wp mbind outcome_bind fst snd]. intros _.
  rewrite finished_eqb. pose proof (ok_read_status _ _ _ _ _ Hok) as Hok'. cbn in Hok'.
  unfold racing in Hrace. rewrite Hsp in Hrace.
  specialize (Hok' ltac:(intros Hs Hf; specialize (Hrace Hs); unfold over; cbn;
    rewrite Hf in *; by destruct (_ =? 0))).
  destruct (finished_status _); by apply (inv_scan_move (SReadStatus f p ps)).
Qed.

Lemma inv_sbump f p ps : submitter y = SBump f p ps -> submits (SBump f p ps).
Proof.
  intros Hsp. pose proof (mem_at _ Hy _ Hsp) as Hm. pose proof (ok_at _ Hy _ Hsp) as Hok.
  pose proof (task_here _ _ Hsp eq_refl) as Ht. destruct (ok_bump _ _ _ _ _ Hok) as (Hok' & Hb).
  cbn [submit_step]. rewrite (write_at _ Hy _ _ _ Hsp). cbn [wp mbind outcome_bind fst snd]. intros _.
  eapply (inv_swrite y Hy (SBump f p ps)); [done|done|done|done|done| |exact Hok'|done].
  apply (view_bump s (SBump f p ps)); [done..|]. apply u32_id. unfold in_u32. cbn in Hb. cbn. lia.
Qed.

Lemma inv_sunlock f p ps : submitter y = SUnlock f p ps -> submits (SUnlock f p ps).
Proof.
  intros Hsp. pose proof (mem_at _ Hy _ Hsp) as Hm. pose proof (ok_at _ Hy _ Hsp) as Hok.
  pose proof (ok_sub _ _ _ Hok) as (Hfc & Hps).
  pose proof (producer_here _ f p ps Hsp eq_refl Hps) as Hp. cbn [submit_step]. unfold fanout_unlock.
  rewrite (write_at _ Hy _ _ _ Hsp). cbn [wp mbind outcome_bind fst snd]. intros _.
  eapply (inv_swrite y Hy (SUnlock f p ps));
    [done|done|done|done|done|by eapply view_lock|by apply ok_sunlock|done].
Qed.

(** The end of step 7 *)
Lemma inv_final f : submitter y = SFinal f -> submits (SFinal f).
Proof.
  intros Hsp. pose proof (ok_at _ Hy _ Hsp) as Hok. pose proof (ok_sub _ _ _ Hok) as Hfc.
  cbn [submit_step]. rewrite (read_at _ Hy _ _ Hsp). cbn [wp mbind outcome_bind fst snd]. intros _.
  destruct (Z.leb_spec (f_fanin f) (atomic_fanin_refcount (dsc s (f_tid f))));
    apply (inv_scan_move (SFinal f)); try done.
  - apply (ok_smove _ (SFinal f)); try done.
  - apply (ok_sfinish _ (SFinal f) _ f); try done. right. cbn in Hfc. cbn. lia.
Qed.

Lemma inv_scas f : submitter y = SCas f -> submits (SCas f).
Proof.
  intros Hsp. pose proof (mem_at _ Hy _ Hsp) as Hm. pose proof (ok_at _ Hy _ Hsp) as Hok.
  pose proof (task_here _ _ Hsp eq_refl) as Ht. cbn [submit_step]. unfold try_set_ready.
  rewrite (read_at _ Hy _ _ Hsp). bind_simpl. unfold status_eqb. case_bool_decide as Hst.
  - rewrite (write_at _ Hy _ _ _ Hsp). cbn [wp mbind outcome_bind fst snd]. intros _.
    eapply (inv_swrite y Hy (SCas f)); [done|done|done|done|done|by eapply view_status|by apply ok_scas|done].
  - cbn [wp mbind outcome_bind fst snd]. intros _. apply (inv_scan_move (SCas f)); try done.
    apply (ok_sfinish _ (SCas f) _ f); try done. by left.
Qed.

Lemma inv_senqueue f : submitter y = SEnqueue f -> submits (SEnqueue f).
Proof.
  intros Hsp. pose proof (mem_at _ Hy _ Hsp) as Hm. pose proof (ok_at _ Hy _ Hsp) as Hok.
  pose proof (task_here _ _ Hsp eq_refl) as Ht.
  assert (Hn : f_tid f ∉ v_log (view_of s)).
  { intros Hin%occ_elem_of. pose proof (ok_log _ _ _ Hok (f_tid f)) as Hl. simpl in Hl.
    rewrite delta_eq in Hl. pose proof (moved_range (view_of s) (f_tid f)).
    pose proof (sum_nonneg ws (w_about (f_tid f)) (fun pc => proj1 (w_about_range (f_tid f) pc))).
    cbn in Hin. lia. }
  destruct (enqueue_ok s _ ws Hm Hok _ Ht Hn) as (He & Hm' & Hve).
  cbn [submit_step]. rewrite He. cbn [wp mbind outcome_bind fst snd]. intros _.
  apply inv_submit; [done|done|by apply (mem_sp _ (SEnqueue f))| |done].
  eapply ok_ext; [apply Hve|exact (ok_senqueue _ _ _ Hok)].
Qed.
End submitter_steps.

Lemma submit_inv y :
  inv y -> (strict = true -> racing y = false) ->
  wp some_fault (submit_step (submitter y) (shared y)) (fun r => calm (fst r) (snd r) ->
    inv (mkSystem (fst r) (snd r) (workers y) (scheds y))).
Proof.
  intros Hy Hrace. pose proof (inv_room _ Hy) as Hroom. destruct (submitter y) eqn:Hsp;
    eauto using inv_enter, inv_aux, inv_scan, inv_probe, inv_heap, inv_insert, inv_register,
      inv_count, inv_set_ready, inv_set_pending, inv_slock, inv_sprepend, inv_count_up.
  - cbn. intros _. by apply inv_same.
  - done.
  - by apply inv_read_status.
  - by apply inv_sbump.
  - by apply inv_sunlock.
  - by apply inv_final.
  - by apply inv_scas.
  - by apply inv_senqueue.
Qed.

(** ** The scheduler threads, and every action *)
Lemma sched_inv y i k :
  inv y -> scheds y !! i = Some k ->
  exists k', sched_step k (shared y) = Ok (shared y, k') /\ sched_quiet k'.
Proof.
  intros Hy Hk. pose proof (inv_sched _ Hy _ _ Hk) as Hq. pose proof (inv_mem _ Hy) as Hm.
  destruct k as [| |j cur|j cur| | | | |]; cbn [sched_step]; try done.
  - eexists. split; [done|]. by destruct (stop_requested_ (shared y)).
  - by eexists.
  - destruct (j <? cur); [|by eexists]. rewrite (desc_of_ok _ _ Hm). bind_simpl. eexists. split; [done|].
    by destruct (status_eqb _ _).
  - unfold vec_get. destruct (zlookup_is_Some (task_external_ready_ (shared y)) (slot j (shared y))) as [l Hl].
    { by apply (slot_range_external _ (submitter y)). }
    rewrite Hl, (mem_quiet _ _ Hm _ _ Hl). cbn [of_option mbind outcome_bind all_ext_ready]. by eexists.
Qed.

(** An update of fields that neither the memory nor the accounts mention. *)
Lemma inv_other y s' :
  inv y -> mem s' (submitter y) -> view_of s' = view_of (shared y) ->
  dep_pool_ s' = dep_pool_ (shared y) ->
  inv (mkSystem s' (submitter y) (workers y) (scheds y)).
Proof.
  intros Hy Hm He Hp. constructor; cbn; try apply Hy; [done| | |].
  - rewrite He. apply Hy.
  - intros i pc Hi. apply (local_grows (shared y)); [|by apply (inv_local _ Hy i)].
    apply same_grows. constructor; [done|]. by apply (f_equal v_n) in He.
  - pose proof (inv_room _ Hy) as Hr. destruct (submitter y); simpl in *; rewrite ?Hp; done.
Qed.

Lemma system_exec_inv l y :
  inv y -> (strict = true -> racing y = false) ->
  wp some_fault (exec l y) (fun y' => calm (shared y') (submitter y') -> inv y').
Proof.
  intros Hy Hrace. pose proof (inv_mem _ Hy) as Hm.
  assert (Hstay : wp some_fault (Ok y) (fun y' => calm (shared y') (submitter y') -> inv y')) by (by intros _).
  destruct l as [c|n| |i|i|a|]; cbn [exec].
  - destruct (submitter y) eqn:Hsp; try exact Hstay; cbn [wp]; intros _.
    apply (inv_smove y Hy SIdle); [done|done| |apply view_refl| |done].
    + by apply (mem_sp _ SIdle).
    + apply (ok_smove _ SIdle); try done. rewrite <- Hsp. apply Hy.
  - destruct (submitter y) eqn:Hsp; try exact Hstay; cbn [wp]; intros _.
    rewrite <- Hsp. apply inv_other; [done| |done|done]. rewrite Hsp. constructor; apply Hm.
  - eapply wp_step; [by apply submit_inv|]. intros [s' sp'] H. exact H.
  - destruct (workers y !! i) as [pc|] eqn:Hi; [|done].
    eapply wp_step; [eapply wp_faults; [by apply worker_inv|done]|]. intros [s' pc'] H _. exact H.
  - destruct (scheds y !! i) as [k|] eqn:Hi; [|done].
    destruct (sched_inv y i k Hy Hi) as (k' & -> & Hk'). cbn. intros _.
    constructor; cbn; try apply Hy. intros j q Hj. destruct (decide (j = i)) as [->|].
    + rewrite list_lookup_insert_eq in Hj by (by eapply lookup_lt_Some). by simplify_eq.
    + rewrite list_lookup_insert_ne in Hj by done. by eapply inv_sched.
  - cbn. intros _. apply inv_other; [done| |done|done]. by apply mem_flags.
  - cbn. intros _. apply inv_other; [done| |done|done]. constructor; apply Hm.
Qed.

(** ** Runs *)

(** The sizes a runtime is started with: the default ones qualify. *)
Definition config_ok (cfg : LevelRuntimeConfig) : Prop :=
  task_ring_window cfg <= ready_queue_capacity cfg < 2 ^ 31 /\
  0 < dep_pool_capacity cfg < 2 ^ 31 - 1.

Lemma default_config_ok : config_ok default_runtime_config.
Proof. unfold config_ok. cbn. lia. Qed.

Definition calmb (y : System) : bool :=
  match submitter y with SPush _ _ _ => false | _ => true end &&
  (current_index_ (task_ring_ (shared y)) <=? window_size_ (task_ring_ (shared y))).

Lemma calmb_calm y : calmb y = true <-> calm (shared y) (submitter y).
Proof.
  unfold calmb, calm. rewrite andb_true_iff, Z.leb_le. destruct (submitter y); naive_solver.
Qed.

(** [run] while every state on the way is calm. *)
Fixpoint calm_run (ls : list label) (y : System) : option System :=
  match ls with
  | [] => Some y
  | l :: ls =>
      match exec l y with
      | Ok y => if calmb y then calm_run ls y else None
      | Fault _ => None
      end
  end.

Lemma calm_run_run ls y y' : calm_run ls y = Some y' -> run ls y = Ok y'.
Proof.
  revert y. induction ls as [|l ls IH]; intros y; cbn; [by intros [= ->]|].
  destruct (exec l y) as [y1|]; [|done]. bind_simpl. destruct (calmb y1); [|done]. auto.
Qed.

(** [calm_run] while no state on the way is racing. *)
Fixpoint race_free_run (ls : list label) (y : System) : option System :=
  match ls with
  | [] => Some y
  | l :: ls =>
      if racing y then None else
      match exec l y with
      | Ok y => if calmb y then race_free_run ls y else None
      | Fault _ => None
      end
  end.

Lemma race_free_run_calm ls y y' : race_free_run ls y = Some y' -> calm_run ls y = Some y'.
Proof.
  revert y. induction ls as [|l ls IH]; intros y; cbn; [done|]. destruct (racing y); [done|].
  destruct (exec l y) as [y1|]; [|done]. destruct (calmb y1); [|done]. auto.
Qed.

Lemma calm_run_inv ls y y' : strict = false -> inv y -> calm_run ls y = Some y' -> inv y'.
Proof.
  intros Hs. revert y. induction ls as [|l ls IH]; intros y Hy; cbn; [by intros [= <-]|].
  pose proof (system_exec_inv l y Hy ltac:(by rewrite Hs)) as He.
  destruct (exec l y) as [y1|]; [|done].
  destruct (calmb y1) eqn:Hc; [|done]. apply IH, He. by apply calmb_calm.
Qed.

Lemma race_free_run_inv ls y y' : inv y -> race_free_run ls y = Some y' -> inv y'.
Proof.
  revert y. induction ls as [|l ls IH]; intros y Hy; cbn; [by intros [= <-]|].
  destruct (racing y) eqn:Hr; [done|]. pose proof (system_exec_inv l y Hy ltac:(done)) as He.
  destruct (exec l y) as [y1|]; [|done].
  destruct (calmb y1) eqn:Hc; [|done]. apply IH, He. by apply calmb_calm.
Qed.

Lemma start_mem level st wt cfg y :
  config_ok cfg -> start level st wt cfg = Ok y ->
  mem (shared y) (submitter y) /\ current_index_ (task_ring_ (shared y)) = 0 /\ rq_tail_ (shared y) = 0 /\
  rq_head_ (shared y) = 0 /\ executed (shared y) = [] /\ fulfilled (shared y) = [] /\
  submitter y = SIdle /\ (forall i pc, workers y !! i = Some pc -> pc = WIdle) /\
  (forall i k, scheds y !! i = Some k -> k = KIdle).
Proof.
  intros [Hrq Hdep] H. unfold start in H. apply bind_Ok in H as (s & Hs & H). simplify_eq/=.
  unfold new_runtime in Hs. apply bind_Ok in Hs as (ring & Hr & Hs).
  apply bind_Ok in Hs as (pool & Hp & Hs). apply bind_Ok in Hs as (tm & Ht & Hs). simplify_eq/=.
  destruct (is_pow2 (task_ring_window cfg)) eqn:Hpow; [|by rewrite LinquTaskRing.init_fails in Hr].
  destruct (init_ok _ LinquTaskRing.empty_ring Hpow) as (r' & Hr' & Hwf & Hws & Hci & Hla & Hdesc).
  rewrite Hr in Hr'. injection Hr' as <-. pose proof (is_pow2_pos _ Hpow) as Hpos.
  destruct (wf_init_pool _ LinquDepListPool.empty_pool Hdep) as (p' & Hp' & Hwfp & Htop & Hcap).
  rewrite Hp in Hp'. injection Hp' as <-.
  split_and!; try done; try (by intros i q [-> _]%lookup_replicate).
  constructor; cbn; try done; rewrite ?Hws, ?Hci; try (rewrite zlength_replicate; lia); try lia.
  - apply Hwf. lia.
  - unfold here. cbn. lia.
  - unfold here. cbn. lia.
  - unfold here. cbn. lia.
  - intros k l Hl. unfold zlookup in Hl. destruct (0 <=? k); [|done].
    by apply lookup_replicate in Hl as [-> _].
  - unfold LinquTensorMap.init in Ht. apply bind_Ok in Ht as (u & _ & Ht). simplify_eq/=.
    intros i e He Hv. cbn in He. unfold zlookup in He. destruct (0 <=? i); [|done].
    rewrite resize_nil in He. apply lookup_replicate in He as [-> _]. done.
Qed.

Lemma zsum_idle (f : worker_pc -> Z) ws :
  (forall i pc, ws !! i = Some pc -> pc = WIdle) -> f WIdle = 0 -> zsum f ws = 0.
Proof.
  intros Hi Hf. apply zsum_zero. intros pc [i Hpc]%list_elem_of_lookup_1. by rewrite (Hi i pc).
Qed.

Lemma start_inv level st wt cfg y :
  config_ok cfg -> start level st wt cfg = Ok y -> inv y.
Proof.
  intros Hc Hs. destruct (start_mem _ _ _ _ _ Hc Hs) as
    (Hm & Hn & Htl & Hhd & Hex & Hful & Hsp & Hws & Hsc).
  constructor; [exact Hm| |..].
  - rewrite Hsp. assert (Hk : forall t, ~ known (view_of (shared y)) t) by (intros t; unfold known; cbn; lia).
    assert (Hf : forall t, finz (view_of (shared y)) t = 0) by (intros; unfold finz; by rewrite decide_False).
    assert (Hmv : forall t, moved (view_of (shared y)) t = 0) by (intros; unfold moved; by rewrite decide_False).
    constructor; intros; rewrite ?Hf, ?Hmv; rewrite ?zsum_idle by done;
      try (match goal with H : known _ ?u |- _ => by destruct (Hk u H) end); cbn; rewrite ?Hn, ?Htl, ?Hhd, ?Hex, ?Hful; try done.
    rewrite (Hws _ _ H). done.
  - intros i pc Hi. by rewrite (Hws i pc Hi).
  - by rewrite Hsp.
  - intros i k Hi. by rewrite (Hsc i k Hi).
Qed.

Lemma system_reachable_inv level st wt cfg y0 ls y :
  strict = false -> config_ok cfg -> start level st wt cfg = Ok y0 -> calm_run ls y0 = Some y -> inv y.
Proof. intros Hn Hc Hs Hr. eapply calm_run_inv; [done| |exact Hr]. by eapply start_inv. Qed.

(** Nothing left to do: no submission, no worker busy, nothing queued. *)
Definition quiescent (y : System) : Prop :=
  submitter y = SIdle /\ rq_head_ (shared y) = rq_tail_ (shared y) /\
  forall i pc, workers y !! i = Some pc -> pc = WIdle \/ pc = WExited.

Lemma quiet_zero (f : worker_pc -> Z) y :
  quiescent y -> f WIdle = 0 -> f WExited = 0 -> zsum f (workers y) = 0.
Proof.
  intros (_ & _ & Hi) H0 H1. apply zsum_zero. intros pc [i Hpc]%list_elem_of_lookup_1.
  by destruct (Hi i pc Hpc) as [-> | ->].
Qed.

(** At rest whatever was made ready has finished. *)
Lemma quiet_moved_finished y t :
  inv y -> quiescent y -> moved (view_of (shared y)) t = finz (view_of (shared y)) t.
Proof.
  intros Hy Hq. pose proof (inv_ok _ Hy) as Hok. pose proof Hq as (Hsp & Hht & _).
  pose proof (ok_log _ _ _ Hok t) as Hl. pose proof (ok_held _ _ _ Hok t) as Hh.
  rewrite Hsp, !quiet_zero in * by done.
  assert (He : v_hd (view_of (shared y)) = v_log (view_of (shared y))) by (cbn; by rewrite Hht).
  rewrite He in Hh. cbn [s_about] in Hl. lia.
Qed.

(** No wake-up is lost: at rest every task has finished. *)
Lemma quiet_finished y t :
  inv y -> quiescent y -> here (shared y) t -> finz (view_of (shared y)) t = 1.
Proof.
  intros Hy Hq. pose proof (inv_ok _ Hy) as Hok. pose proof Hq as (Hsp & _ & Hidle).
  set (v := view_of (shared y)) in *.
  intros Ht. assert (H0 : 0 <= t) by apply Ht. revert Ht.
  induction t as [t IH] using (well_founded_induction (Z.lt_wf 0)).
  change (forall u, 0 <= u < t -> 0 <= u -> here (shared y) u -> finz v u = 1) in IH.
  intros Ht. pose proof (quiet_moved_finished y t Hy Hq) as Hmf. fold v in Hmf.
  destruct (decide (v_st v t = PENDING)) as [Hst|Hst].
  2: { rewrite <- Hmf. unfold moved. rewrite decide_True by exact Ht.
       by destruct (v_st v t). }
  exfalso.
  assert (Hun : unfinished v t = 0).
  { apply zsum_zero. intros p Hp%elem_of_seqZ. destruct (finished_status (v_st v p)) eqn:Hf; [done|].
    destruct (decide (t ∈ v_fo v p)) as [Hin|Hin]; [|by apply occ_notin].
    assert (Hpk : here (shared y) p) by (unfold here; cbn in *; lia).
    pose proof (ok_up _ _ _ Hok p t Hpk Hin).
    pose proof (IH p ltac:(lia) ltac:(lia) Hpk) as Hfp. unfold finz in Hfp.
    rewrite decide_True in Hfp by exact Hpk. by rewrite Hf in Hfp. }
  assert (Hwk : walking v (workers y) t = 0) by (by apply (quiet_zero _ y)).
  pose proof (ok_low _ _ _ Hok t Ht) as Hlow. pose proof (ok_edges _ _ _ Hok t Ht) as He.
  rewrite Hsp in *. unfold linked, owed in *.
  cbn [s_building s_task s_pend] in He, Hlow. rewrite Hun, Hwk in Hlow.
  rewrite !decide_False in He by done.
  destruct (ok_armed _ _ _ Hok t Ht Hst ltac:(done)) as (i & pc & Hi & Ha).
  { lia. }
  by destruct (Hidle i pc Hi) as [-> | ->].
Qed.
End accounts.
