(* ===== verification/LevelRuntimeDrain.v ===== *)
(** * LevelRuntime: the workers drain the queue

    Once the submitting thread has returned, a worker that has started a task
    needs a bounded number of its own actions to get back to waiting
    ([todo]), whatever the other workers do: no lock it needs is held by
    anybody.  From there every queued task can be worked off. *)

From S2P Require Import Prelude Coordinate LinquTaskRing LinquDepListPool LevelRuntime.
From S2P Require Import LevelRuntimeView LevelRuntimeSteps LevelRuntimeState LevelRuntimeSafety.

Section accounts.
Context {only_strict : Strict}.

(** ** The actions left in a task *)
Definition cells (s : LevelRuntime) (h : Z) : Z := zlength (chain (dep_pool_ s) h).

(** From the list of producers at [h] on. *)
Definition todo_deps (s : LevelRuntime) (h : Z) : Z := 6 * cells s h + 6.
Definition todo_return (s : LevelRuntime) (k : option Z) : Z :=
  match k with Some h => todo_deps s h | None => 0 end.

Definition todo (s : LevelRuntime) (pc : worker_pc) : Z :=
  let deps t := todo_deps s (dep_list_head (dsc s t)) + 3 in
  match pc with
  | WIdle | WExited => 0
  | CAlive _ _ k => todo_return s k + 1
  | CSet _ _ k => todo_return s k + 2
  | CRef _ _ _ k => todo_return s k + 3
  | CCount _ _ k => todo_return s k + 4
  | CStatus _ _ k => todo_return s k + 5
  | PDeps _ h => todo_deps s h
  | PDepHead t => deps t - 2
  | PUnlock t => deps t - 1
  | PWalk t h => 4 * cells s h + deps t
  | PEnqueue t h _ => 4 * cells s h + deps t + 1
  | PCas t h _ => 4 * cells s h + deps t + 2
  | PCheck t h _ _ => 4 * cells s h + deps t + 3
  | PHead t => 4 * cells s (fanout_list_head (dsc s t)) + deps t + 1
  | PLock t => 4 * cells s (fanout_list_head (dsc s t)) + deps t + 2
  | WComplete t => 4 * cells s (fanout_list_head (dsc s t)) + deps t + 3
  | WPromise t => 4 * cells s (fanout_list_head (dsc s t)) + deps t + 4
  | WMark t => 4 * cells s (fanout_list_head (dsc s t)) + deps t + 5
  | WRun t => 4 * cells s (fanout_list_head (dsc s t)) + deps t + 6
  | WStart t => 4 * cells s (fanout_list_head (dsc s t)) + deps t + 7
  end.

Lemma todo_nonneg s pc : 0 <= todo s pc.
Proof.
  assert (Hc : forall h, 0 <= cells s h) by (intros; apply zlength_nonneg).
  assert (Hd : forall h, 6 <= todo_deps s h) by (intros h; unfold todo_deps; specialize (Hc h); lia).
  assert (Hr : forall k, 0 <= todo_return s k) by (intros []; simpl; [specialize (Hd z)|]; lia).
  destruct pc; simpl;
    repeat match goal with
    | |- context[cells s ?h] => pose proof (Hc h); generalize dependent (cells s h); intros
    | |- context[todo_deps s ?h] => pose proof (Hd h); generalize dependent (todo_deps s h); intros
    | |- context[todo_return s ?k] => pose proof (Hr k); generalize dependent (todo_return s k); intros
    end; lia.
Qed.

(** What a worker's action keeps: the lists and their heads. *)
Record same_heads (s s' : LevelRuntime) : Prop := {
  sh_pool : dep_pool_ s' = dep_pool_ s;
  sh_n : current_index_ (task_ring_ s') = current_index_ (task_ring_ s);
  sh_window : window_size_ (task_ring_ s') = window_size_ (task_ring_ s);
  sh_tail : rq_head_ s <= rq_head_ s';
  sh_fanout : forall t, fanout_list_head (dsc s' t) = fanout_list_head (dsc s t);
  sh_deps : forall t, dep_list_head (dsc s' t) = dep_list_head (dsc s t);
}.

Lemma todo_same s s' pc : same_heads s s' -> todo s' pc = todo s pc.
Proof.
  intros [Hp Hn Hw Ht Hf Hd]. destruct pc; simpl; unfold todo_return, todo_deps, cells;
    rewrite ?Hp, ?Hf, ?Hd; done.
Qed.

(** ** A worker keeps the lists *)
Lemma heads_refl s s' :
  dep_pool_ s' = dep_pool_ s -> descriptors_ (task_ring_ s') = descriptors_ (task_ring_ s) ->
  window_size_ (task_ring_ s') = window_size_ (task_ring_ s) ->
  current_index_ (task_ring_ s') = current_index_ (task_ring_ s) -> rq_head_ s <= rq_head_ s' ->
  same_heads s s'.
Proof.
  intros Hp Hd Hw Hn Ht. assert (He : forall t, dsc s' t = dsc s t).
  { intros t. unfold dsc, desc, slot_of. by rewrite Hd, Hw. }
  constructor; try done; intros; by rewrite He.
Qed.

Lemma heads_written s sp t f : mem s sp -> keeps_links f -> same_heads s (written t f s).
Proof.
  intros Hm Hf.
  assert (Hd : forall u, dsc (written t f s) u = f (dsc s u) \/ dsc (written t f s) u = dsc s u).
  { intros u. unfold dsc, written. cbn. rewrite desc_updated by apply Hm. case_decide as Hs; [left|by right].
    unfold desc. by rewrite Hs. }
  constructor; try done; intros u; destruct (Hd u) as [-> | ->]; try done; apply Hf.
Qed.

Lemma worker_keeps s sp pc s' pc' :
  mem s sp -> worker_step pc s = Ok (s', pc') -> same_heads s s'.
Proof.
  intros Hm H. assert (Hr : same_heads s s) by (by apply heads_refl).
  assert (Hw : forall t f s', write_desc t f s = Ok s' -> keeps_links f -> same_heads s s').
  { intros t f s1. rewrite (write_desc_ok s sp Hm). intros [= <-] Hf. by eapply heads_written. }
  assert (Ha : forall s', try_advance_ring_pointers s = Ok s' -> same_heads s s').
  { intros s1 H1. unfold try_advance_ring_pointers in H1. apply bind_Ok in H1 as (c & _ & H1).
    destruct (_ <? _); [|by simplify_eq]. destruct (_ <? _); [|simplify_eq; by apply heads_refl].
    apply bind_Ok in H1 as (d & _ & H1). destruct (_ <? _); simplify_eq; by apply heads_refl. }
  destruct pc; cbn [worker_step] in H;
    unfold fanout_lock_acquire, fanout_unlock, try_set_ready, enqueue_ready, dequeue_ready in *;
    repeat match goal with
    | E : mbind _ _ = Ok _ |- _ => apply bind_Ok in E as (? & ? & E)
    | E : (if ?b then _ else _) = Ok _ |- _ => destruct b
    | E : match ?o with Some _ => _ | None => _ end = Ok _ |- _ => destruct o
    | E : (let (_, _) := ?p in _) = Ok _ |- _ => destruct p
    end; simplify_eq; try done; eauto.
  all: try (by apply heads_refl); try (by eapply Hw).
  - unfold i32_add in *. destruct (i32_range _); simplify_eq. apply heads_refl; simpl; done || lia.
  - destruct (mark_all_flags x s) as [fl ->]. by apply heads_refl.
Qed.

(** ** A busy worker moves on *)
Section busy.
Context (y : System) (i : nat) (pc : worker_pc).
Local Abbreviation s := (shared y).
Context (Hy : inv y) (Hi : workers y !! i = Some pc) (Hidle : submitter y = SIdle).

Let Hm : mem s (submitter y) := inv_mem _ Hy.

Lemma cells_cons h e :
  0 < h -> valid_head (dep_pool_ s) h -> zlookup (LinquDepListPool.pool_ (dep_pool_ s)) h = Some e ->
  cells s h = 1 + cells s (next e).
Proof.
  intros Hh Hv He. unfold cells. unfold valid_head in Hv.
  rewrite (chain_cons _ (mem_pool _ _ Hm) h e) by (done || lia). unfold zlength. simpl. lia.
Qed.

(** Nobody holds the lock of a task whose propagation waits for it. *)
Lemma lock_free t : pc = PLock t -> fanout_lock (dsc s t) = 0.
Proof.
  intros ->. pose proof (ok_pc _ _ _ (inv_ok _ Hy) _ _ Hi) as Ht.
  destruct (ok_lock _ _ _ (inv_ok _ Hy) t Ht) as [He _]. rewrite Hidle in He. cbn in He.
  assert (Hle : forall q, w_lock t q <= w_prop t q).
  { intros []; simpl; try lia; match goal with |- context[delta ?a ?b] => pose proof (delta_range a b) end; lia. }
  pose proof (zsum_gap _ _ _ _ _ Hle Hi) as Hg. simpl in Hg. rewrite delta_eq in Hg.
  pose proof (ok_prop _ _ _ (inv_ok _ Hy) t). pose proof (finz_range (view_of s) t).
  pose proof (sum_nonneg (workers y) (w_lock t) (fun q => proj1 (w_lock_range t q))). lia.
Qed.

Lemma busy_step s' pc' :
  worker_step pc s = Ok (s', pc') -> pc <> WIdle -> pc <> WExited -> todo s pc' < todo s pc.
Proof.
  intros H Hn Hx. pose proof (inv_local _ Hy _ _ Hi) as Hl. pose proof lock_free as Hlk.
  assert (Hd : forall t, desc_of t s = Ok (dsc s t)) by (intros; by apply (desc_of_ok s (submitter y))).
  assert (Hcell : forall h e, 0 < h -> LinquDepListPool.get h (dep_pool_ s) = Ok (Some e) ->
    zlookup (LinquDepListPool.pool_ (dep_pool_ s)) h = Some e).
  { intros h e Hh. unfold LinquDepListPool.get. rewrite (proj2 (Z.leb_gt h 0)) by done.
    intros He. apply bind_Ok in He as (e' & He & [= <-]). by apply vec_get_Ok. }
  assert (Hret : forall t k, todo s (consumed_return t k) = todo_return s k) by (intros ? []; done).
  destruct pc; cbn [worker_step] in H; unfold fanout_lock_acquire, fanout_unlock, try_set_ready in *;
    rewrite ?Hd in H; cbn [mbind outcome_bind] in H; try done;
    repeat match goal with
    | E : mbind _ _ = Ok _ |- _ => apply bind_Ok in E as (? & ? & E)
    | E : (if ?b then _ else _) = Ok _ |- _ => destruct b eqn:?
    | E : match ?o with Some _ => _ | None => _ end = Ok _ |- _ => destruct o eqn:?
    | E : (let (_, _) := ?p in _) = Ok _ |- _ => destruct p
    end; simplify_eq/=; rewrite ?Hret; try lia; repeat case_match; simpl; try lia.
  all: assert (Hc : forall h, 0 <= cells s h) by (intros; apply zlength_nonneg);
    repeat match goal with E : (0 <? _) = true |- _ => apply Z.ltb_lt in E end.
  - by rewrite Hlk in *.
  - rewrite (cells_cons cur l) by auto. lia.
  - specialize (Hc cur). lia.
  - specialize (Hc cur). lia.
  - unfold todo_deps. rewrite (cells_cons cur l); [lia|done|apply Hl|auto].
  - unfold todo_deps. specialize (Hc cur). lia.
  - unfold todo_deps. specialize (Hc cur). lia.
Qed.
End busy.

#[export] Instance worker_pc_eq_dec : EqDecision worker_pc.
Proof. solve_decision. Defined.

(** A busy worker does not exit. *)
Lemma busy_stays pc s s' pc' :
  worker_step pc s = Ok (s', pc') -> pc <> WIdle -> pc <> WExited -> pc' <> WExited.
Proof.
  intros H Hn Hx. assert (Hret : forall t k, consumed_return t k <> WExited) by (by intros ? []).
  destruct pc; cbn [worker_step] in H; try done;
    repeat match goal with
    | E : mbind _ _ = Ok _ |- _ => apply bind_Ok in E as (? & ? & E)
    | E : match ?o with Some _ => _ | None => _ end = Ok _ |- _ => destruct o
    | E : (if ?b then _ else _) = Ok _ |- _ => destruct b
    | E : (let (_, _) := ?p in _) = Ok _ |- _ => destruct p
    end; simplify_eq; try done; by case_match.
Qed.

(** ** Draining *)

(** What a phase of worker actions keeps for the next one. *)
Record drained (y y' : System) : Prop := {
  dr_inv : inv y';
  dr_calm : calmb y' = true;
  dr_submitter : submitter y' = SIdle;
  dr_scheds : scheds y' = scheds y;
  dr_heads : same_heads (shared y) (shared y');
}.

Lemma heads_trans s1 s2 s3 : same_heads s1 s2 -> same_heads s2 s3 -> same_heads s1 s3.
Proof. intros [] []. constructor; intros; try congruence; try lia. Qed.

Lemma drained_refl y : inv y -> calmb y = true -> submitter y = SIdle -> drained y y.
Proof. intros. by constructor. Qed.

Lemma drained_trans y1 y2 y3 : drained y1 y2 -> drained y2 y3 -> drained y1 y3.
Proof. intros [] []. constructor; try done; [congruence|by eapply heads_trans]. Qed.

Lemma calm_run_app ls1 ls2 y :
  calm_run (ls1 ++ ls2) y = match calm_run ls1 y with Some y' => calm_run ls2 y' | None => None end.
Proof.
  revert y. induction ls1 as [|l ls1 IH]; intros y; cbn; [done|].
  destruct (exec l y) as [y1|]; [|done]. by destruct (calmb y1).
Qed.

(** One action of worker [i]. *)
Lemma worker_acts y i pc :
  drained y y -> workers y !! i = Some pc ->
  exists s' pc', worker_step pc (shared y) = Ok (s', pc') /\
    calm_run [LWorker i] y = Some (mkSystem s' SIdle (<[i := pc']> (workers y)) (scheds y)) /\
    drained y (mkSystem s' SIdle (<[i := pc']> (workers y)) (scheds y)).
Proof.
  intros [Hy Hcalm Hsp _ _] Hi. pose proof (worker_inv y i Hy pc Hi) as Hw.
  destruct (worker_step pc (shared y)) as [[s' pc']|] eqn:Hstep; [|done]. cbn in Hw. rewrite Hsp in Hw.
  pose proof (worker_keeps _ _ _ _ _ (inv_mem _ Hy) Hstep) as Hk.
  assert (Hc : calmb (mkSystem s' SIdle (<[i := pc']> (workers y)) (scheds y)) = true).
  { apply calmb_calm. apply calmb_calm in Hcalm as [_ Hc]. split; [done|]. cbn.
    by rewrite (sh_n _ _ Hk), (sh_window _ _ Hk). }
  exists s', pc'. split_and!; [done| |by constructor].
  cbn [calm_run exec]. rewrite Hi, Hstep. bind_simpl. by rewrite Hsp, Hc.
Qed.

(** Worker [i] alone, until it waits again. *)
Lemma worker_finishes y i pc :
  drained y y -> workers y !! i = Some pc -> pc <> WExited ->
  exists n y', calm_run (replicate n (LWorker i)) y = Some y' /\ drained y y' /\
    workers y' = <[i := WIdle]> (workers y).
Proof.
  remember (Z.to_nat (todo (shared y) pc)) as m eqn:Hmeas. revert y pc Hmeas.
  induction m as [m IH] using lt_wf_ind. intros y pc -> Hy Hi Hx.
  destruct (decide (pc = WIdle)) as [->|Hn].
  { exists O, y. split_and!; try done. by rewrite list_insert_id. }
  destruct (worker_acts y i pc Hy Hi) as (s1 & pc1 & Hstep & Hrun & Hd).
  set (y1 := mkSystem s1 SIdle (<[i := pc1]> (workers y)) (scheds y)) in *.
  pose proof (busy_step y i pc (dr_inv _ _ Hy) Hi (dr_submitter _ _ Hy) _ _ Hstep Hn Hx) as Hlt.
  rewrite <- (todo_same _ s1) in Hlt by apply (dr_heads _ _ Hd).
  assert (Hi1 : workers y1 !! i = Some pc1) by (apply list_lookup_insert_eq; by eapply lookup_lt_Some).
  pose proof (todo_nonneg s1 pc1).
  destruct (IH (Z.to_nat (todo s1 pc1)) ltac:(lia) y1 pc1) as (n & y' & Hr & Hd' & Hws).
  { done. }
  { apply drained_refl; apply Hd. }
  { done. }
  { by eapply busy_stays. }
  exists (S n), y'. split_and!.
  - change (replicate (S n) (LWorker i)) with ([LWorker i] ++ replicate n (LWorker i)).
    by rewrite calm_run_app, Hrun.
  - by eapply drained_trans.
  - rewrite Hws. cbn. by rewrite list_insert_insert_eq.
Qed.

Definition waiting (pc : worker_pc) : Prop := pc = WIdle \/ pc = WExited.

(** Every worker goes back to waiting. *)
Lemma workers_finish y k :
  drained y y ->
  exists ls y', calm_run ls y = Some y' /\ drained y y' /\
    (forall l, l ∈ ls -> exists i, l = LWorker i) /\
    (forall i pc, (i < k)%nat -> workers y' !! i = Some pc -> waiting pc) /\
    (forall i, workers y' !! i = Some WExited <-> workers y !! i = Some WExited) /\
    length (workers y') = length (workers y).
Proof.
  intros Hy. induction k as [|k IH].
  { exists [], y. split_and!; try done; [by intros l Hl%not_elem_of_nil|lia]. }
  destruct IH as (ls & y1 & Hr & Hd & Hls & Hw & Hx & Hlen).
  assert (Hd1 : drained y1 y1) by (apply drained_refl; apply Hd).
  destruct (workers y1 !! k) as [pc|] eqn:Hk.
  2: { exists ls, y1. split_and!; try done. intros i pc Hi Hpc.
       destruct (decide (i = k)) as [->|]; [congruence|]. apply (Hw i); [lia|done]. }
  destruct (decide (pc = WExited)) as [->|Hne].
  { exists ls, y1. split_and!; try done. intros i pc Hi Hpc.
    destruct (decide (i = k)) as [->|]; [right; congruence|]. apply (Hw i); [lia|done]. }
  destruct (worker_finishes y1 k pc Hd1 Hk Hne) as (n & y2 & Hr2 & Hd2 & Hws).
  pose proof (lookup_lt_Some _ _ _ Hk).
  exists (ls ++ replicate n (LWorker k)), y2. split_and!.
  - by rewrite calm_run_app, Hr.
  - by eapply drained_trans.
  - intros l [Hl|Hl]%elem_of_app; [by apply Hls|]. apply elem_of_replicate in Hl as [-> _]. by exists k.
  - intros i q Hi Hq. rewrite Hws in Hq. destruct (decide (i = k)) as [->|].
    + rewrite list_lookup_insert_eq in Hq by done. left. congruence.
    + rewrite list_lookup_insert_ne in Hq by done. apply (Hw i); [lia|done].
  - intros i. rewrite Hws, <- Hx. destruct (decide (i = k)) as [->|].
    + rewrite list_lookup_insert_eq by done. split; congruence.
    + by rewrite list_lookup_insert_ne by done.
  - by rewrite Hws, length_insert.
Qed.

Lemma inv_calm y : inv y -> calmb y = true.
Proof.
  intros Hy. apply calmb_calm. split; [|apply (mem_window _ _ (inv_mem _ Hy))].
  pose proof (inv_room _ Hy) as Hr. by destruct (submitter y).
Qed.

Definition only_workers (ls : list label) : Prop := forall l, l ∈ ls -> exists i, l = LWorker i.

(** While one worker is there to take them, the queued tasks are worked off. *)
Lemma drain y i pc :
  drained y y -> workers y !! i = Some pc -> pc <> WExited ->
  exists ls y', only_workers ls /\ calm_run ls y = Some y' /\ drained y y' /\ quiescent y'.
Proof.
  remember (Z.to_nat (current_index_ (task_ring_ (shared y)) - rq_head_ (shared y))) as m eqn:Hm.
  revert y pc Hm. induction m as [m IH] using lt_wf_ind. intros y pc -> Hy Hi Hx.
  destruct (workers_finish y (length (workers y)) Hy) as (ls & y1 & Hr & Hd & Hls & Hw & Hex & Hlen).
  assert (Hwait : forall j q, workers y1 !! j = Some q -> waiting q).
  { intros j q Hq. apply (Hw j); [|done]. rewrite <- Hlen. by eapply lookup_lt_Some. }
  pose proof (dr_inv _ _ Hd) as Hy1.
  destruct (decide (rq_head_ (shared y1) = rq_tail_ (shared y1))) as [He|Hne].
  { exists ls, y1. split_and!; try done. split_and!; [apply Hd|done|exact Hwait]. }
  assert (Hi1 : workers y1 !! i = Some WIdle).
  { destruct (lookup_lt_is_Some_2 (workers y1) i) as [q Hq].
    { rewrite Hlen. by eapply lookup_lt_Some. }
    destruct (Hwait i q Hq) as [-> | ->]; [done|]. apply Hex in Hq. congruence. }
  pose proof (mem_queue _ _ (inv_mem _ Hy1)) as [Hq _].
  assert (Hd1 : drained y1 y1) by (apply drained_refl; apply Hd).
  destruct (worker_acts y1 i WIdle Hd1 Hi1) as (s2 & pc2 & Hstep & Hrun & Hd2).
  set (y2 := mkSystem s2 SIdle (<[i := pc2]> (workers y1)) (scheds y1)) in *.
  cbn [worker_step] in Hstep. rewrite (proj2 (Z.ltb_lt _ _)) in Hstep by lia.
  destruct (dequeue_ok _ _ _ (inv_mem _ Hy1) (inv_ok _ Hy1) ltac:(lia)) as (t & Ht & Ht0 & _ & _ & Hlog).
  rewrite Ht in Hstep. cbn in Hstep. rewrite (proj2 (Z.ltb_ge t 0)) in Hstep by done. simplify_eq.
  assert (Hi2 : workers y2 !! i = Some (WStart t)) by (apply list_lookup_insert_eq; by eapply lookup_lt_Some).
  assert (Hlt : rq_tail_ (shared y1) <= current_index_ (task_ring_ (shared y1))).
  { destruct (log_tasks _ _ _ (inv_ok _ Hy1)) as [Hnd Hin]. rewrite <- (log_length _ _ (inv_mem _ Hy1)).
    assert (Hs : v_log (view_of (shared y1)) ⊆ seqZ 0 (current_index_ (task_ring_ (shared y1)))).
    { intros u Hu%Hin. apply elem_of_seqZ. unfold here in Hu. lia. }
    pose proof (submseteq_length _ _ (NoDup_submseteq _ _ Hnd Hs)) as Hl.
    rewrite length_seqZ in Hl. pose proof (wf_alive _ (mem_ring _ _ (inv_mem _ Hy1))).
    unfold zlength. lia. }
  pose proof (dr_heads _ _ Hd) as Hh.
  destruct (IH (Z.to_nat (current_index_ (task_ring_ (shared y2)) - rq_head_ (shared y2)))
    ltac:(cbn; rewrite (sh_n _ _ Hh) in *; pose proof (sh_tail _ _ Hh); lia) y2 (WStart t))
    as (ls3 & y3 & Hls3 & Hr3 & Hd3 & Hq3); try done.
  { apply drained_refl; apply Hd2. }
  exists (ls ++ LWorker i :: ls3), y3. split_and!; try done.
  - intros l [Hl|Hl]%elem_of_app; [by apply Hls|].
    apply elem_of_cons in Hl as [->|Hl]; [by exists i|by apply Hls3].
  - change (LWorker i :: ls3) with ([LWorker i] ++ ls3). by rewrite calm_run_app, Hr, calm_run_app, Hrun.
  - eapply drained_trans; [exact Hd|]. by eapply drained_trans.
Qed.
End accounts.
