(* ===== verification/LevelRuntimeTheorems.v ===== *)
(** * LevelRuntime: the theorems

    About every run from [start] in which no submission has to wait for an
    external tensor and the window is not exceeded ([calm_run]), whatever the
    number of workers and the interleaving; then three closed runs that show
    what happens outside these bounds or that a comment of the source denies. *)

From S2P Require Import Prelude Coordinate LinquHeapRing LinquTensorMap LinquScopeStack.
From S2P Require Import LinquTaskRing LinquDepListPool LevelRuntime.
From S2P Require Import LevelRuntimeView LevelRuntimeSteps LevelRuntimeState LevelRuntimeSafety.
From S2P Require Import LevelRuntimeDrain.

Section accounts.
Context {only_strict : Strict}.

Lemma fulfilled_le_executed y t :
  inv y -> occ t (fulfilled (shared y)) <= occ t (executed (shared y)).
Proof.
  intros Hy. pose proof (ok_ex _ _ _ (inv_ok _ Hy) t) as He. pose proof (ok_ful _ _ _ (inv_ok _ Hy) t) as Hf.
  cbn [view_of v_ex v_ful] in *. rewrite He, Hf.
  pose proof (zsum_le (w_ful t) (w_ran t) (workers y)) as Hle.
  assert (forall pc, w_ful t pc <= w_ran t pc) by (intros []; simpl; try lia; pose proof (delta_range t t0); lia).
  specialize (Hle H). lia.
Qed.

Lemma executed_here y t : inv y -> t ∈ executed (shared y) -> here (shared y) t.
Proof.
  intros Hy Ht%occ_elem_of. pose proof (ok_ex _ _ _ (inv_ok _ Hy) t) as He.
  pose proof (ok_held _ _ _ (inv_ok _ Hy) t). pose proof (ok_hd _ _ _ (inv_ok _ Hy) t).
  pose proof (zsum_le _ _ (workers y) (fun pc => proj2 (w_ran_range t pc))).
  assert (Hin : t ∈ v_log (view_of (shared y))) by (apply occ_elem_of; cbn [view_of v_ex] in He; lia).
  by apply (log_tasks _ _ _ (inv_ok _ Hy)).
Qed.
End accounts.

(** Producers may finish at any time. *)
Definition lax : Strict := false.
#[local] Existing Instance lax.

Section runs.
Context (level sched_threads worker_threads : Z) (cfg : LevelRuntimeConfig) (y0 : System).
Context (Hcfg : config_ok cfg) (Hstart : start level sched_threads worker_threads cfg = Ok y0).

Lemma run_inv ls y : calm_run ls y0 = Some y -> inv y.
Proof. by apply (system_reachable_inv level sched_threads worker_threads cfg y0 ls y eq_refl). Qed.


Lemma quiescent_all_done y :
  inv y -> quiescent y ->
  executed (shared y) ≡ₚ seqZ 0 (current_index_ (task_ring_ (shared y))) /\
  fulfilled (shared y) ≡ₚ seqZ 0 (current_index_ (task_ring_ (shared y))).
Proof.
  intros Hy Hq. pose proof (inv_ok _ Hy) as Hok.
  assert (Hall : forall t, here (shared y) t -> occ t (executed (shared y)) = 1 /\ occ t (fulfilled (shared y)) = 1).
  { intros t Ht. pose proof (quiet_finished y t Hy Hq Ht) as Hf.
    pose proof (ok_ex _ _ _ Hok t) as He. pose proof (ok_ful _ _ _ Hok t) as Hl.
    rewrite Hf, quiet_zero in * by done. cbn [view_of v_ex v_ful] in *. lia. }
  assert (Hperm : forall l, (forall t, occ t l <= 1) -> (forall t, here (shared y) t -> occ t l = 1) ->
    (forall t, t ∈ l -> here (shared y) t) -> l ≡ₚ seqZ 0 (current_index_ (task_ring_ (shared y)))).
  { intros l Hle H1 Hin. apply NoDup_Permutation; [by apply occ_NoDup|apply NoDup_seqZ|].
    intros t. rewrite elem_of_seqZ. split; [intros Ht%Hin; unfold here in Ht; lia|].
    intros Ht. apply occ_elem_of. rewrite H1; [lia|unfold here; lia]. }
  split; apply Hperm.
  - intros t. apply (ok_once _ _ _ Hok t).
  - intros t Ht. by apply Hall.
  - intros t Ht. by apply executed_here.
  - intros t. apply (ok_once _ _ _ Hok t).
  - intros t Ht. by apply Hall.
  - intros t Ht. apply executed_here; [done|]. apply occ_elem_of. apply occ_elem_of in Ht.
    pose proof (fulfilled_le_executed y t Hy). lia.
Qed.


Lemma threads_no_fault y i :
  inv y -> (exists y', exec (LWorker i) y = Ok y') /\ (exists y', exec (LSched i) y = Ok y').
Proof.
  intros Hy. cbn [exec]. split.
  - destruct (workers y !! i) as [pc|] eqn:Hi; [|eauto].
    pose proof (worker_inv y i Hy pc Hi) as Hw. destruct (worker_step _ _) as [[s pc']|]; [|done].
    bind_simpl. eauto.
  - destruct (scheds y !! i) as [k|] eqn:Hi; [|eauto].
    destruct (sched_inv y i k Hy Hi) as (k' & -> & _). bind_simpl. eauto.
Qed.

(** Worker and scheduler threads never fault: no index of theirs leaves
    its vector (the ready queue cannot overflow its buffer), no counter
    overflows, no empty function is called, and nothing they do depends on a
    capacity that can run out. *)
Theorem runtime_threads_never_fault ls y i :
  calm_run ls y0 = Some y ->
  (exists y', exec (LWorker i) y = Ok y') /\ (exists y', exec (LSched i) y = Ok y').
Proof. intros Hr. apply threads_no_fault. by eapply run_inv. Qed.

(** The spin lock excludes: at any time at most one thread, the submitter
    or one worker, is between [fanout_lock] and [fanout_unlock] of a task, and
    the lock word says whether there is one. *)
Theorem runtime_fanout_lock_exclusive ls y t :
  calm_run ls y0 = Some y -> 0 <= t < current_index_ (task_ring_ (shared y)) ->
  s_lock t (submitter y) + zsum (w_lock t) (workers y) <= 1 /\
  fanout_lock (desc t (task_ring_ (shared y))) =
    s_lock t (submitter y) + zsum (w_lock t) (workers y).
Proof.
  intros Hr Ht. pose proof (run_inv _ _ Hr) as Hy.
  destruct (ok_lock _ _ _ (inv_ok _ Hy) t Ht) as [He Hle]. cbn [view_of v_lk] in *. unfold dsc in *. lia.
Qed.

End runs.

(** ** Concrete runs *)

Definition small_config (window : Z) : LevelRuntimeConfig := mkRuntimeConfig window 256 16 4 8 4.

Lemma runtime_config_ok : config_ok (small_config 4).
Proof. unfold config_ok. cbn. lia. Qed.

Definition started (window ws : Z) : System :=
  match start 3 1 ws (small_config window) with
  | Ok y => y
  | Fault _ => mkSystem (mkRuntime 0 0 0 LinquTaskRing.empty_ring LinquHeapRing.empty_ring
      LinquDepListPool.empty_pool LinquTensorMap.empty_map LinquScopeStack.empty_stack [] 0 0 0
      [] [] [] [] [] false 0 0 ∅ ∅ [] []) SIdle [] []
  end.

(** The [k]-th tensor made, and a call with inputs and outputs given so. *)
Definition tensor (k : Z) : LinquTensor := mkTensor k 1 (Some k) (Some k).
Definition task_call (name : string) (ins outs : list Z) : Call :=
  mkCall name 7 (map tensor ins) (map tensor outs) (-1).
Definition submitted (name : string) (ins outs : list Z) : list label :=
  LCall (task_call name ins outs) :: replicate 40 LSubmit.
Definition acts (i n : nat) : list label := replicate n (LWorker i).

(** Three tasks on two workers, the second and third reading what the tasks
    before them write. *)
Definition chain_plan : list label :=
  replicate 3 (LTensor 1) ++ submitted "a" [] [1] ++ acts 0 6 ++ submitted "b" [1] [2] ++
  submitted "c" [1; 2] [3] ++ acts 1 5 ++ acts 0 60 ++ acts 1 60 ++ acts 0 60.

Definition chain_end : System := default (started 4 2) (calm_run chain_plan (started 4 2)).

Lemma start_small : start 3 1 2 (small_config 4) = Ok (started 4 2).
Proof. vm_compute. reflexivity. Qed.

Lemma chain_end_reached : calm_run chain_plan (started 4 2) = Some chain_end.
Proof. vm_compute. reflexivity. Qed.


Lemma chain_end_quiescent : quiescent chain_end.
Proof.
  split_and!; [vm_compute; reflexivity..|]. intros [|[|i]] pc Hi; vm_compute in Hi; simplify_eq; by left.
Qed.


Lemma runtime_threads_never_fault_witness : exists y', exec (LWorker 1) chain_end = Ok y'.
Proof.
  exact (proj1 (runtime_threads_never_fault 3 1 2 (small_config 4) (started 4 2) runtime_config_ok
    start_small chain_plan chain_end 1%nat chain_end_reached)).
Defined.

(** Worker 0 is about to walk the consumers of task 0, in its lock. *)
Definition locked_plan : list label :=
  replicate 2 (LTensor 1) ++ submitted "a" [] [1] ++ submitted "b" [1] [2] ++ acts 0 7.
Definition locked_state : System := default (started 4 2) (calm_run locked_plan (started 4 2)).

Lemma locked_state_reached : calm_run locked_plan (started 4 2) = Some locked_state.
Proof. vm_compute. reflexivity. Qed.

Lemma runtime_fanout_lock_exclusive_witness :
  fanout_lock (desc 0 (task_ring_ (shared locked_state))) = 1 /\
  fanout_lock (desc 0 (task_ring_ (shared locked_state))) =
    s_lock 0 (submitter locked_state) + zsum (w_lock 0) (workers locked_state).
Proof.
  split; [vm_compute; reflexivity|].
  refine (proj2 (runtime_fanout_lock_exclusive 3 1 2 (small_config 4) (started 4 2) runtime_config_ok
    start_small locked_plan locked_state 0 locked_state_reached _)).
  vm_compute. split; congruence.
Defined.


(** ** What the source does not intend *)

(** Task 0 gets as far as [status = COMPLETED]; task 2 is submitted and sees
    that; then task 0 walks its consumers. *)
Definition race_plan : list label :=
  replicate 3 (LTensor 1) ++ submitted "a" [] [1] ++ submitted "b" [] [2] ++ acts 0 6 ++ acts 1 1 ++
  submitted "c" [1; 2] [3] ++ acts 0 40.

(** A consumer can run before its producer: [on_task_complete] sets
    [COMPLETED] before it takes [fanout_lock], so [add_consumer_to_producer]
    and the walk over the consumers can both count the same edge.  In this run
    task 2 reads the outputs of the tasks 0 and 1, is counted twice for task 0
    and runs although task 1 has only been started. *)
Theorem runtime_consumer_before_producer :
  exists ls y, calm_run ls (started 4 2) = Some y /\
    executed (shared y) = [0; 2] /\
    chain (dep_pool_ (shared y)) (dep_list_head (desc 2 (task_ring_ (shared y)))) = [1; 0] /\
    workers y !! 1%nat = Some (WStart 1).
Proof.
  exists race_plan. eexists. split; [vm_compute; reflexivity|]. split_and!; vm_compute; reflexivity.
Qed.

(** The external tensor becomes ready between the probe and the end of the
    submission, and a scheduler thread scans in between. *)
Definition external_plan : list label :=
  [LTensor 1; LTensor 1; LCall (task_call "x" [1] [2])] ++ replicate 5 LSubmit ++ [LReady 1] ++
  replicate 8 (LSched 0) ++ acts 0 20 ++ replicate 30 LSubmit ++ acts 0 20.

(** A task with an external input can run twice: a scheduler thread that
    scans while the task is being submitted compares with a [fanin_count] that
    is still 0 and enqueues the task; step 7 of [submit_worker] then sets the
    status back to [PENDING] and enqueues it again. *)
Theorem runtime_external_task_runs_twice :
  exists ls y, run ls (started 4 1) = Ok y /\ executed (shared y) = [0; 0].
Proof. exists external_plan. eexists. split; vm_compute; reflexivity. Qed.

(** A submission to a full window that cannot move spins to its limit. *)
Lemma spin_aborts n s c k ws sc :
  has_space (task_ring_ s) = false -> try_advance_ring_pointers s = Ok s ->
  k + Z.of_nat n = SPIN_LIMIT ->
  run (replicate (S n) LSubmit) (mkSystem s (SEnter c k) ws sc) = Fault AssertFailed.
Proof.
  intros Hs Ha. revert k. induction n as [|n IH]; intros k Hk.
  - cbn [replicate run exec submitter shared submit_step]. rewrite Hs, Ha. bind_simpl.
    rewrite Hs. by rewrite (proj2 (Z.ltb_lt _ _)) by lia.
  - change (replicate (S (S n)) LSubmit) with (LSubmit :: replicate (S n) LSubmit).
    cbn [run exec submitter shared submit_step]. rewrite Hs, Ha. bind_simpl.
    rewrite Hs, (proj2 (Z.ltb_ge _ _)) by lia. bind_simpl. apply IH. lia.
Qed.

Definition full_plan : list label :=
  replicate 3 (LTensor 1) ++ submitted "a" [] [1] ++ acts 0 30 ++ submitted "b" [1] [2] ++ acts 0 30.

(** The window never reopens: [fanout_count] starts at 1 for a scope, but
    no scope is ever opened and nothing releases that reference.  In this run
    every task of a window of two has run and the workers are waiting; the next
    submission spins to its limit and aborts. *)
Theorem runtime_window_never_reopens :
  exists ls y, calm_run ls (started 2 1) = Some y /\ quiescent y /\
    executed (shared y) = [0; 1] /\
    run (LCall (task_call "c" [] [3]) :: replicate (S (Z.to_nat SPIN_LIMIT)) LSubmit) y =
      Fault AssertFailed.
Proof.
  exists full_plan. eexists. split; [vm_compute; reflexivity|]. split; [|split; [vm_compute; reflexivity|]].
  - split_and!; [vm_compute; reflexivity..|]. intros [|i] pc Hi; vm_compute in Hi; simplify_eq; by left.
  - cbn [run exec submitter]. bind_simpl. apply spin_aborts; vm_compute; reflexivity.
Qed.
