(* ===== verification/LevelRuntimeOrder.v ===== *)
(** * LevelRuntime: when a task may run

    A task is made ready when [fanin_count] producers have been counted.  An
    edge is counted once or, in a race between a submission and a completion,
    twice, and never before its producer has finished; so when a task runs, at
    least half of its edges come from producers that are done, and in a run
    without such a race all of them. *)

From S2P Require Import Prelude LinquTaskRing LinquDepListPool LevelRuntime.
From S2P Require Import LevelRuntimeView LevelRuntimeSteps LevelRuntimeState LevelRuntimeSafety.
From S2P Require Import LevelRuntimeTheorems.

(** The consumers listed at a task. *)
Definition consumers (s : LevelRuntime) (p : Z) : list Z :=
  chain (dep_pool_ s) (fanout_list_head (dsc s p)).

(** The edges to [t] from the tasks of a list. *)
Definition edges_from (s : LevelRuntime) (ps : list Z) (t : Z) : Z :=
  zsum (fun p => occ t (consumers s p)) ps.

Section accounts.
Context {only_strict : Strict} (y : System) (Hy : inv y).
Local Abbreviation v := (view_of (shared y)).

Lemma finished_executed p :
  here (shared y) p -> finished_status (status (dsc (shared y) p)) = true ->
  p ∈ executed (shared y) /\ p ∈ fulfilled (shared y).
Proof.
  intros Hp Hf. pose proof (finz_true v p Hp Hf) as Hz. pose proof (inv_ok _ Hy) as Hok.
  pose proof (ok_ex _ _ _ Hok p) as He. pose proof (ok_ful _ _ _ Hok p) as Hl.
  pose proof (sum_nonneg (workers y) (w_ran p)). pose proof (sum_nonneg (workers y) (w_ful p)).
  split; apply occ_elem_of; cbn in He, Hl.
  - assert (0 <= zsum (w_ran p) (workers y)) by (apply sum_nonneg; intros; apply w_ran_range). lia.
  - assert (0 <= zsum (w_ful p) (workers y)) by (apply sum_nonneg; intros; apply w_ful_range). lia.
Qed.

(** The edges of a task that its producers have finished with. *)
Lemma done_edges t :
  edges v t - unfinished v t =
  edges_from (shared y) (filter (fun p => finished_status (status (dsc (shared y) p)) = true) (tasks v)) t.
Proof.
  unfold edges, unfinished, edges_from. induction (tasks v) as [|p ps IH]; [done|].
  rewrite filter_cons. cbn [zsum]. cbn [view_of v_st v_fo]. fold (consumers (shared y) p).
  destruct (finished_status (status (dsc (shared y) p)));
    [rewrite decide_True by done|rewrite decide_False by done]; cbn [view_of v_st v_fo zsum] in *; lia.
Qed.

Lemma done_edges_fulfilled t :
  edges v t - unfinished v t <= edges_from (shared y) (fulfilled (shared y)) t.
Proof.
  rewrite done_edges. apply zsum_submseteq; [intros; apply occ_nonneg|]. apply NoDup_submseteq.
  - apply NoDup_filter, NoDup_seqZ.
  - intros p [Hf Hp]%list_elem_of_filter. apply finished_executed; [|done].
    apply elem_of_seqZ in Hp. unfold here. cbn in *. lia.
Qed.

(** Whoever is held by a worker has left [PENDING]. *)
Lemma held_gone i pc t :
  workers y !! i = Some pc -> w_held t pc = 1 ->
  here (shared y) t /\ v_st v t <> PENDING /\ v_fc v t <= v_rc v t /\ s_building (submitter y) <> Some t.
Proof.
  intros Hi Hh. destruct (held_facts _ _ _ (inv_ok _ Hy) _ _ Hi t Hh) as (_ & Hm & _ & Hb).
  pose proof (pc_here y i Hy pc t Hi ltac:(by left)) as Ht. split_and!; try done.
  - by apply moved_one.
  - apply (ok_gone _ _ _ (inv_ok _ Hy)); [done|]. by apply moved_one.
Qed.

Lemma held_half i pc t :
  workers y !! i = Some pc -> w_held t pc = 1 ->
  fanin_count (dsc (shared y) t) <= 2 * edges_from (shared y) (fulfilled (shared y)) t.
Proof.
  intros Hi Hh. destruct (held_gone _ _ _ Hi Hh) as (Ht & _ & Hfc & _).
  pose proof (ok_half _ _ _ (inv_ok _ Hy) t Ht) as Ha. pose proof (done_edges_fulfilled t).
  pose proof (walking_nonneg v (workers y) t). pose proof (s_dup_range v t (submitter y)).
  cbn [view_of v_fc v_rc] in *. lia.
Qed.

(** In a strict run every edge has been added and its producer is done. *)
Lemma held_all i pc t :
  strict = true -> workers y !! i = Some pc -> w_held t pc = 1 ->
  (s_task (submitter y) = Some t -> s_left (submitter y) = 0) /\
  forall p, here (shared y) p -> t ∈ consumers (shared y) p ->
    finished_status (status (dsc (shared y) p)) = true.
Proof.
  intros Hs Hi Hh. destruct (held_gone _ _ _ Hi Hh) as (Ht & _ & Hfc & Hb).
  pose proof (ok_exact _ _ _ (inv_ok _ Hy) Hs t Ht) as Ha. pose proof (ok_edges _ _ _ (inv_ok _ Hy) t Ht) as He.
  pose proof (walking_nonneg v (workers y) t). pose proof (s_due_range v (workers y) t (submitter y)).
  pose proof (unfinished_nonneg v t). unfold owed, linked in *. rewrite decide_False in He by done.
  assert (0 <= s_left (submitter y))
    by (destruct (submitter y); simpl; try lia; pose proof (zlength_nonneg ps); lia).
  assert (Hu : unfinished v t = 0) by (case_decide; lia).
  split; [intros Htask; rewrite decide_True in He by done; lia|].
  intros p Hp Hin. destruct (finished_status _) eqn:Hf; [done|].
  pose proof (zsum_elem (fun p => if finished_status (v_st v p) then 0 else occ t (v_fo v p)) (tasks v) p) as Hz.
  cbn beta in Hz. cbn [view_of v_st v_fo] in Hz. rewrite Hf in Hz. fold (consumers (shared y) p) in Hz.
  apply occ_elem_of in Hin. unfold unfinished in Hu. cbn [view_of v_st v_fo] in Hu. rewrite Hu in Hz.
  assert (occ t (consumers (shared y) p) <= 0); [apply Hz|lia].
  - intros q _. destruct (finished_status (status (dsc (shared y) q))); [lia|apply occ_nonneg].
  - apply elem_of_seqZ. unfold here in Hp. cbn. lia.
Qed.
End accounts.

(** No task runs before half of its producers: whenever a worker is about to
    call the function of a task, in any interleaving, at least half of the
    [fanin_count] of the task is covered by edges from tasks that have run and
    set their promise; in particular a task with inputs never overtakes all of
    its producers, and a task with a single producer never overtakes it. *)
Theorem runtime_half_before_run level sched_threads worker_threads cfg y0 ls y i t :
  config_ok cfg -> start level sched_threads worker_threads cfg = Ok y0 ->
  calm_run ls y0 = Some y -> workers y !! i = Some (WRun t) ->
  fanin_count (dsc (shared y) t) <= 2 * edges_from (shared y) (fulfilled (shared y)) t /\
  (0 < fanin_count (dsc (shared y) t) ->
   exists p, p ∈ fulfilled (shared y) /\ t ∈ consumers (shared y) p).
Proof.
  intros Hc Hs Hr Hi. pose proof (run_inv _ _ _ _ _ Hc Hs _ _ Hr) as Hy.
  pose proof (held_half y Hy i (WRun t) t Hi (delta_eq t)) as Hh. split; [done|]. intros Hf.
  destruct (zsum_pos (fun p => occ t (consumers (shared y) p)) (fulfilled (shared y))) as (p & Hp & Ho).
  - unfold edges_from in Hh. lia.
  - exists p. split; [done|]. by apply occ_elem_of.
Qed.

(** Worker 0 has run the first task and is about to call the second. *)
Definition second_plan : list label := locked_plan ++ acts 0 14.
Definition second_state : System := default (started 4 2) (calm_run second_plan (started 4 2)).

Lemma second_state_reached : calm_run second_plan (started 4 2) = Some second_state.
Proof. vm_compute. reflexivity. Qed.

Lemma runtime_half_before_run_witness :
  workers second_state !! 0%nat = Some (WRun 1) /\
  exists p, p ∈ fulfilled (shared second_state) /\ 1 ∈ consumers (shared second_state) p.
Proof.
  split; [vm_compute; reflexivity|].
  refine (proj2 (runtime_half_before_run 3 1 2 (small_config 4) (started 4 2) second_plan second_state 0%nat 1
    runtime_config_ok start_small second_state_reached _) _); vm_compute; reflexivity.
Defined.
