(* ===== verification/LevelRuntimeWriters.v ===== *)
(** * LevelRuntime: who writes a tensor

    The calls accepted by a runtime as a list, call [t] being task [t]; and the
    tensor map against that list: a lookup finds the newest call that writes the
    tensor ([map_ok], [map_lookup]), and step 4 of [submit_worker] keeps it so
    ([map_step4]) as long as the pool of the map has room. *)

From S2P Require Import Prelude Bytes LinquTensorMap LevelRuntime LevelRuntimeState.

(** ** Who writes a tensor *)

Definition writes (cs : list Call) (t h : Z) : Prop :=
  exists c, zlookup cs t = Some c /\ h ∈ tensor_id <$> call_outputs c.

(** [p] is the newest of the calls below [k] that write [h]. *)
Definition newest_writer (cs : list Call) (k h p : Z) : Prop :=
  0 <= p < k /\ writes cs p h /\ forall q, p < q < k -> ~ writes cs q h.

Lemma writes_app cs c t h : t < zlength cs -> writes (cs ++ [c]) t h <-> writes cs t h.
Proof. intros Ht. unfold writes. by rewrite zlookup_app_l. Qed.

Lemma newest_writer_app cs c k h p :
  k <= zlength cs -> newest_writer (cs ++ [c]) k h p <-> newest_writer cs k h p.
Proof.
  intros Hk. unfold newest_writer. split; intros (Hp & Hw & Hq); (split; [done|]);
    (split; [rewrite writes_app in * by lia; done|]); intros q Hr Hc; apply (Hq q Hr);
    rewrite writes_app in * by lia; done.
Qed.

Lemma newest_writer_unique cs k h p q :
  newest_writer cs k h p -> newest_writer cs k h q -> p = q.
Proof.
  intros (Hp & Hwp & Hnp) (Hq & Hwq & Hnq). destruct (Z.lt_trichotomy p q) as [?|[?|?]]; [|done|].
  - by destruct (Hnp q ltac:(lia)).
  - by destruct (Hnq p ltac:(lia)).
Qed.

#[export] Instance writes_dec cs t h : Decision (writes cs t h).
Proof.
  destruct (zlookup cs t) as [c|] eqn:Hc.
  - destruct (decide (h ∈ tensor_id <$> call_outputs c)) as [Hi|Hi]; [left|right].
    + by exists c.
    + intros (c' & ? & ?). congruence.
  - right. intros (c' & ? & ?). congruence.
Defined.

Lemma newest_exists cs k h q :
  0 <= q < k -> writes cs q h -> exists p, q <= p /\ newest_writer cs k h p.
Proof.
  remember (Z.to_nat (k - q)) as n eqn:Hn. revert q Hn.
  induction n as [n IH] using lt_wf_ind. intros q -> Hq Hw.
  destruct (decide (Exists (fun r => writes cs r h) (seqZ (q + 1) (k - q - 1)))) as [He|He].
  - apply Exists_exists in He as (r & Hr%elem_of_seqZ & Hwr).
    destruct (IH (Z.to_nat (k - r)) ltac:(lia) r eq_refl ltac:(lia) Hwr) as (p & Hp & Hnw).
    exists p. split; [lia|done].
  - exists q. split; [done|]. split_and!; try lia; [done|]. intros r Hr Hwr. apply He, Exists_exists.
    exists r. split; [apply elem_of_seqZ; lia|done].
Qed.

Lemma newest_writer_S cs k h p :
  newest_writer cs (k + 1) h p <->
  (0 <= k /\ p = k /\ writes cs k h) \/ (~ writes cs k h /\ newest_writer cs k h p).
Proof.
  unfold newest_writer. split.
  - intros (Hp & Hw & Hq). destruct (decide (p = k)) as [->|Hne]; [left; by split_and!; [lia|..]|right].
    split; [apply Hq; lia|]. split_and!; [lia|lia|done|]. intros q Hr. apply Hq. lia.
  - intros [(Hk & -> & Hw)|(Hn & Hp & Hw & Hq)].
    + split_and!; [lia|lia|done|lia].
    + split_and!; [lia|lia|done|]. intros q Hr. destruct (decide (q = k)) as [->|]; [done|]. apply Hq. lia.
Qed.

(** ** The tensor map against the calls *)

(** The cells the first [k] calls take. *)
Definition outputs_before (cs : list Call) (k : Z) : Z :=
  zsum (fun c => zlength (call_outputs c)) (take (Z.to_nat k) cs).

Section tensor_map.
Context (cap : Z).

Record map_ok (cs : list Call) (k : Z) (m : LinquTensorMap) : Prop := {
  mo_wf : LinquTensorMap.wf m;
  mo_un : unwrapped m;
  mo_size : pool_size_ m = cap;
  mo_next : next_entry_ m = outputs_before cs k;
  mo_sound : forall h t, live_binding m h t -> 0 <= t < k /\ writes cs t h;
  mo_newest : forall h t, newest_writer cs k h t ->
    live_binding m h t \/ t < LinquTensorMap.last_task_alive_ m;
}.

(** A lookup finds the newest writer, unless it has retired. *)
Lemma map_lookup cs k m h r :
  map_ok cs k m -> lookup h m = Ok r ->
  if found r then newest_writer cs k h (result_producer r)
  else forall p, newest_writer cs k h p -> p < LinquTensorMap.last_task_alive_ m.
Proof.
  intros Hm Hl. destruct (lookup_ok h m (mo_wf _ _ _ Hm)) as (r' & Hr' & Hn).
  rewrite Hl in Hr'. injection Hr' as <-. unfold newest in Hn. destruct (found r).
  - destruct Hn as [Hlive Hmax]. destruct (mo_sound _ _ _ Hm _ _ Hlive) as [Hr Hw].
    split_and!; try lia; [done|]. intros q Hq Hwq.
    destruct (newest_exists cs k h q ltac:(lia) Hwq) as (p & Hp & Hnp).
    destruct (mo_newest _ _ _ Hm _ _ Hnp) as [Hpl|Hpl]; [apply Hmax in Hpl; lia|].
    destruct Hlive as (_ & i & e & _ & _ & _ & _ & Hal). lia.
  - destruct Hn as [_ Hn]. intros p Hp. by destruct (mo_newest _ _ _ Hm _ _ Hp) as [Hpl%Hn|].
Qed.

Lemma outputs_before_app cs c k : k <= zlength cs -> outputs_before (cs ++ [c]) k = outputs_before cs k.
Proof. intros Hk. unfold outputs_before. rewrite take_app_le; [done|]. unfold zlength in Hk. lia. Qed.

Lemma map_ok_app cs c k m : k <= zlength cs -> map_ok cs k m -> map_ok (cs ++ [c]) k m.
Proof.
  intros Hk []. constructor; try done.
  - by rewrite outputs_before_app.
  - intros h t Hl. destruct (mo_sound0 h t Hl) as [Ht Hw]. split; [done|]. apply writes_app; [lia|done].
  - intros h t Hn. apply mo_newest0. by apply (newest_writer_app _ c).
Qed.

Lemma map_ok_retire cs k m la :
  LinquTensorMap.last_task_alive_ m <= la -> map_ok cs k m -> map_ok cs k (invalidate_below la m).
Proof.
  intros Hla []. constructor; try done.
  - by apply wf_invalidate_below.
  - by apply unwrapped_invalidate_below.
  - intros h t (Ht & i & e & He & Hv & Hh & Hp & Hl). apply mo_sound0. split; [done|].
    exists i, e. split_and!; try done. simpl in Hl. lia.
  - intros h t Hn. destruct (mo_newest0 h t Hn) as [(Ht & i & e & He & Hv & Hh & Hp & Hl)|]; simpl.
    + destruct (decide (t < la)); [by right|left]. split; [done|]. exists i, e. split_and!; try done.
      simpl. lia.
    + right. lia.
Qed.

(** In the middle of step 4: task [k] has recorded the outputs [pre]. *)
Record map_mid (cs : list Call) (k : Z) (pre : list Z) (m : LinquTensorMap) : Prop := {
  mm_wf : LinquTensorMap.wf m;
  mm_un : unwrapped m;
  mm_size : pool_size_ m = cap;
  mm_next : next_entry_ m = outputs_before cs k + zlength pre;
  mm_sound : forall h t, live_binding m h t -> 0 <= t < k /\ writes cs t h \/ t = k /\ h ∈ pre;
  mm_new : forall h, h ∈ pre -> live_binding m h k;
  mm_old : forall h t, h ∉ pre -> newest_writer cs k h t ->
    live_binding m h t \/ t < LinquTensorMap.last_task_alive_ m;
}.

Lemma map_insert cs k pre m h m' :
  map_mid cs k pre m -> 0 <= k -> LinquTensorMap.last_task_alive_ m <= k -> next_entry_ m < cap ->
  LinquTensorMap.insert h k true m = Ok m' ->
  map_mid cs k (pre ++ [h]) m' /\
  LinquTensorMap.last_task_alive_ m' = LinquTensorMap.last_task_alive_ m.
Proof.
  intros Hm Hk Hla Hroom Hi. pose proof (mm_wf _ _ _ _ Hm) as Hwf. pose proof (mm_un _ _ _ _ Hm) as Hun.
  pose proof (wf_size _ Hwf) as Hsz. pose proof (wf_next _ Hwf) as Hnx. rewrite <- (mm_size _ _ _ _ Hm) in Hroom.
  destruct (insert_unwrapped h k true m Hwf Hun Hk Hroom) as (m1 & Hi1 & Hwf' & Hun' & Hne & Hps & Hal & Haft).
  rewrite Hi in Hi1. injection Hi1 as <-.
  assert (Hnc : next_cell m = next_entry_ m) by (unfold next_cell; apply Z.rem_small; lia).
  assert (Hr : reusable h k m) by (right; rewrite Hnc; by apply (un_fresh _ Hun)).
  assert (Hb : next_entry_ m < 2 ^ 31 - 1) by lia.
  destruct (live_binding_same h k true m m' Hwf Hk Hla Hb Hr Hi) as [Hnew Hsame].
  assert (Hother : forall h' t, h' <> h -> live_binding m h' t <-> live_binding m' h' t).
  { intros h' t Hne'. apply (live_binding_other h k true); try done. intros e He Hv.
    assert (valid e = false) by (apply (un_invalid _ Hun (next_cell m)); [lia|done]). congruence. }
  split; [|done]. constructor; try done.
  - by rewrite Hps, (mm_size _ _ _ _ Hm).
  - rewrite Hne, (mm_next _ _ _ _ Hm). unfold zlength. rewrite length_app. simpl. lia.
  - intros h' t Hl. destruct (decide (h' = h)) as [->|Hne'].
    + apply Hsame in Hl as [->|Hl]; [right; set_solver|].
      destruct (mm_sound _ _ _ _ Hm _ _ Hl) as [?|[-> ?]]; [by left|right; set_solver].
    + apply Hother in Hl; [|done].
      destruct (mm_sound _ _ _ _ Hm _ _ Hl) as [?|[-> ?]]; [by left|right; set_solver].
  - intros h' [Hin|Hin]%elem_of_app; [|by apply list_elem_of_singleton in Hin as ->].
    destruct (decide (h' = h)) as [->|Hne']; [done|]. apply Hother; [done|]. by apply (mm_new _ _ _ _ Hm).
  - intros h' t Hn Hw. rewrite Hal. destruct (mm_old _ _ _ _ Hm h' t) as [Hl|Hl]; [set_solver|done| |by right].
    left. apply Hother; [|done]. intros ->. set_solver.
Qed.

(** The whole of step 4. *)
Lemma map_insert_all cs k outs : forall pre s s',
  map_mid cs k pre (tensor_map_ s) -> 0 <= k ->
  LinquTensorMap.last_task_alive_ (tensor_map_ s) <= k ->
  next_entry_ (tensor_map_ s) + zlength outs <= cap -> insert_outputs outs k s = Ok s' ->
  map_mid cs k (pre ++ (tensor_id <$> outs)) (tensor_map_ s') /\
  LinquTensorMap.last_task_alive_ (tensor_map_ s') = LinquTensorMap.last_task_alive_ (tensor_map_ s).
Proof.
  induction outs as [|o outs IH]; intros pre s s' Hm Hk Hla Hroom; cbn [insert_outputs].
  - intros [= <-]. by rewrite app_nil_r.
  - intros H. apply bind_Ok in H as (m & Hi & H). rewrite zlength_cons in Hroom.
    pose proof (zlength_ge_0 outs).
    destruct (map_insert _ _ _ _ _ _ Hm Hk Hla ltac:(lia) Hi) as [Hm1 Hal].
    apply (IH (pre ++ [tensor_id o])) in H as [H1 H2]; simpl in *; try done; try lia.
    + split; [|lia]. by rewrite <- app_assoc in H1.
    + rewrite (mm_next _ _ _ _ Hm1), (mm_next _ _ _ _ Hm) in *. rewrite zlength_app.
      unfold zlength at 2. simpl. lia.
Qed.

Lemma outputs_before_S cs k c :
  zlookup cs k = Some c -> outputs_before cs (k + 1) = outputs_before cs k + zlength (call_outputs c).
Proof.
  intros Hc. pose proof (zlookup_Some_range _ _ _ Hc). unfold zlookup in Hc.
  rewrite (proj2 (Z.leb_le 0 k)) in Hc by lia. unfold outputs_before.
  replace (Z.to_nat (k + 1)) with (S (Z.to_nat k)) by lia.
  rewrite (take_S_r _ _ _ Hc), zsum_app. simpl. lia.
Qed.

Lemma outputs_before_le cs k : outputs_before cs k <= outputs_before cs (zlength cs).
Proof.
  unfold outputs_before. apply zsum_submseteq; [intros; apply zlength_ge_0|].
  unfold zlength. rewrite Nat2Z.id, firstn_all. apply sublist_submseteq, sublist_take.
Qed.

Lemma outputs_before_prefix cs cs' :
  outputs_before cs (zlength cs) <= outputs_before (cs ++ cs') (zlength (cs ++ cs')).
Proof.
  assert (Hall : forall l : list Call, take (Z.to_nat (zlength l)) l = l)
    by (intros; unfold zlength; by rewrite Nat2Z.id, firstn_all).
  unfold outputs_before. rewrite !Hall, zsum_app.
  pose proof (zsum_nonneg (fun c => zlength (call_outputs c)) cs' (fun c _ => zlength_ge_0 _)). lia.
Qed.

Lemma map_step4 cs k c s s' :
  map_ok cs k (tensor_map_ s) -> 0 <= k -> zlookup cs k = Some c ->
  LinquTensorMap.last_task_alive_ (tensor_map_ s) <= k -> outputs_before cs (zlength cs) <= cap ->
  insert_outputs (call_outputs c) k s = Ok s' -> map_ok cs (k + 1) (tensor_map_ s') /\
  LinquTensorMap.last_task_alive_ (tensor_map_ s') = LinquTensorMap.last_task_alive_ (tensor_map_ s).
Proof.
  intros Hm Hk Hc Hla Hcap Hi. pose proof (outputs_before_S cs k c Hc) as HS.
  pose proof (outputs_before_le cs (k + 1)) as Hle.
  assert (Hm0 : map_mid cs k [] (tensor_map_ s)).
  { destruct Hm. constructor; try done.
    - rewrite mo_next0. unfold zlength. simpl. lia.
    - intros h t Hl. left. by apply mo_sound0.
    - intros h Hh. by apply not_elem_of_nil in Hh.
    - intros h t _ Hn. by apply mo_newest0. }
  apply (map_insert_all cs k _ []) in Hi as [Hm' Hal]; try done.
  2: { rewrite (mo_next _ _ _ Hm). lia. }
  split; [|done]. destruct Hm'. constructor; try done.
  - rewrite mm_next0, HS. simpl. by rewrite zlength_fmap.
  - intros h t Hl. destruct (mm_sound0 h t Hl) as [[? ?]|[-> Hin]]; [split; [lia|done]|].
    split; [lia|]. by exists c.
  - intros h t [(_ & -> & (c' & Hc' & Hin))|(Hno & Hn)]%newest_writer_S.
    + left. apply mm_new0. by simplify_eq.
    + apply mm_old0; [|done]. intros Hin. apply Hno. by exists c.
Qed.
End tensor_map.
