(* ===== verification/LevelRuntimeFlow.v ===== *)
(** * LevelRuntime: the calls behind the tasks

    Follows the actions of the threads with the list of the calls accepted so
    far.  [flow] says that the tensor map answers with the newest call that
    writes a tensor, and that a task whose inputs have been scanned is linked to
    each of their producers, has it still to link, or saw it done; [exec_flow]
    that every action keeps it. *)

From S2P Require Import Prelude Bytes Coordinate LinquTaskRing LinquDepListPool LinquTensorMap LevelRuntime.
From S2P Require Import LevelRuntimeView LevelRuntimeSteps LevelRuntimeState LevelRuntimeSafety.
From S2P Require Import LevelRuntimeDrain LevelRuntimeOrder LevelRuntimeWriters.

(** ** What an action keeps *)

(** Finished tasks stay finished, lists grow, the tensor map is as it was. *)
Record quiet (s s' : LevelRuntime) : Prop := {
  qt_n : current_index_ (task_ring_ s') = current_index_ (task_ring_ s);
  qt_alive : LinquTaskRing.last_task_alive_ (task_ring_ s') = LinquTaskRing.last_task_alive_ (task_ring_ s);
  qt_map : tensor_map_ s' = tensor_map_ s;
  qt_fin : forall t, here s t -> finished_status (status (dsc s t)) = true ->
    finished_status (status (dsc s' t)) = true;
  qt_cons : forall p c, here s p -> c ∈ consumers s p -> c ∈ consumers s' p;
}.

Lemma quiet_same s s' :
  task_ring_ s' = task_ring_ s -> tensor_map_ s' = tensor_map_ s -> dep_pool_ s' = dep_pool_ s ->
  quiet s s'.
Proof.
  intros Hr Hm Hp. assert (Hd : forall t, dsc s' t = dsc s t) by (intros; unfold dsc; by rewrite Hr).
  constructor; rewrite ?Hr; try done; intros; unfold consumers in *; by rewrite ?Hp, Hd.
Qed.

Lemma quiet_trans s1 s2 s3 : quiet s1 s2 -> quiet s2 s3 -> quiet s1 s3.
Proof.
  intros H1 H2. assert (Hh : forall t, here s1 t -> here s2 t)
    by (intros t; unfold here; by rewrite (qt_n _ _ H1)).
  constructor.
  - by rewrite (qt_n _ _ H2), (qt_n _ _ H1).
  - by rewrite (qt_alive _ _ H2), (qt_alive _ _ H1).
  - by rewrite (qt_map _ _ H2), (qt_map _ _ H1).
  - intros t Ht Hf. apply (qt_fin _ _ H2); [auto|]. by apply (qt_fin _ _ H1).
  - intros p c Ht Hc. apply (qt_cons _ _ H2); [auto|]. by apply (qt_cons _ _ H1).
Qed.

(** A write to one descriptor that leaves the status and the list of consumers. *)
Definition keeps_status (f : LinquTaskDescriptor -> LinquTaskDescriptor) : Prop :=
  forall d, status (f d) = status d /\ fanout_list_head (f d) = fanout_list_head d.

Lemma quiet_written s sp t f :
  mem s sp -> keeps_status f -> quiet s (written t f s).
Proof.
  intros Hm Hs.
  assert (Hd : forall u, dsc (written t f s) u = f (dsc s u) \/ dsc (written t f s) u = dsc s u).
  { intros u. unfold dsc, written. cbn. rewrite desc_updated by apply Hm. case_decide as He; [left|by right].
    unfold desc. by rewrite He. }
  constructor; try done.
  - intros u _ Hf. destruct (Hd u) as [-> | ->]; [by rewrite (proj1 (Hs _))|done].
  - intros p c _. unfold consumers. destruct (Hd p) as [-> | ->]; [|done].
    by rewrite (proj2 (Hs _)).
Qed.

(** A status is written, but not over a final one. *)
Lemma quiet_status s sp t st :
  mem s sp -> here s t ->
  (finished_status (status (dsc s t)) = true -> finished_status st = true) ->
  quiet s (written t (write_status st) s).
Proof.
  intros Hm Ht Hf. constructor; try done.
  - intros u Hu. unfold dsc at 2, written. cbn. rewrite (dsc_updated s sp Hm) by done.
    case_decide as He; [subst u; exact Hf|done].
  - intros p c Hp. unfold consumers, dsc at 2, written. cbn. rewrite (dsc_updated s sp Hm) by done.
    case_decide as He; [by subst p|done].
Qed.

(** [try_advance_ring_pointers] moves the mark over tasks that are done. *)
Record retired (s s' : LevelRuntime) : Prop := {
  rt_n : current_index_ (task_ring_ s') = current_index_ (task_ring_ s);
  rt_alive : LinquTaskRing.last_task_alive_ (task_ring_ s) <=
    LinquTaskRing.last_task_alive_ (task_ring_ s');
  rt_map : tensor_map_ s' =
    invalidate_below (LinquTaskRing.last_task_alive_ (task_ring_ s')) (tensor_map_ s);
  rt_dsc : forall t, dsc s' t = dsc s t;
  rt_pool : dep_pool_ s' = dep_pool_ s;
  rt_fin : forall t, LinquTaskRing.last_task_alive_ (task_ring_ s) <= t <
    LinquTaskRing.last_task_alive_ (task_ring_ s') -> finished_status (status (dsc s t)) = true;
}.

Lemma advance_cursor_consumed s sp n cursor c :
  mem s sp -> advance_cursor n cursor s = Ok c ->
  forall t, cursor <= t < c -> finished_status (status (dsc s t)) = true.
Proof.
  intros Hm. revert cursor. induction n as [|n IH]; intros cursor; cbn [advance_cursor].
  - intros [= <-] t Ht. lia.
  - rewrite (desc_of_ok s sp Hm). bind_simpl. unfold status_eqb. case_bool_decide as Hst; simpl.
    + intros Ha t Ht. destruct (decide (t = cursor)) as [->|]; [by rewrite Hst|].
      apply (IH _ Ha). lia.
    + intros [= <-] t Ht. lia.
Qed.

Lemma try_advance_flow s sp s' :
  mem s sp -> try_advance_ring_pointers s = Ok s' ->
  (quiet s s' \/ retired s s') /\ executed s' = executed s.
Proof.
  intros Hm H. unfold try_advance_ring_pointers in H. apply bind_Ok in H as (c & Hc & H).
  pose proof (advance_cursor_consumed _ _ _ _ _ Hm Hc) as Hf.
  destruct (Z.ltb_spec (LinquTaskRing.last_task_alive_ (task_ring_ s)) c) as [Hlt|].
  2: { simplify_eq. split; [left; by apply quiet_same|done]. }
  set (s1 := s <| task_ring_ := set_last_task_alive c (task_ring_ s) |>
    <| tensor_map_ := invalidate_below c (tensor_map_ s) |>) in *.
  assert (H1 : retired s s1) by (constructor; try done; simpl; lia).
  destruct (0 <? c); [|simplify_eq; auto]. apply bind_Ok in H as (d & _ & H).
  destruct (_ <? _); simplify_eq; [|auto]. split; [right|done]. by destruct H1.
Qed.

Section worker_flow.
Context {only_strict : Strict} (y : System) (Hy : inv y) (i : nat).
Local Abbreviation s := (shared y).

Lemma worker_flow pc s' pc' :
  workers y !! i = Some pc -> worker_step pc s = Ok (s', pc') ->
  (quiet s s' \/ retired s s') /\
  (executed s' = executed s \/ exists t, pc = WRun t /\ executed s' = executed s ++ [t]).
Proof.
  intros Hi H. pose proof (inv_mem _ Hy) as Hm. pose proof (inv_ok _ Hy) as Hok.
  assert (Hsame : forall s', task_ring_ s' = task_ring_ s -> tensor_map_ s' = tensor_map_ s ->
    dep_pool_ s' = dep_pool_ s -> quiet s s' \/ retired s s') by (left; by apply quiet_same).
  assert (Hw : forall t f s1, write_desc t f s = Ok s1 -> keeps_status f ->
    (quiet s s1 \/ retired s s1) /\ (executed s1 = executed s \/
      exists t, pc = WRun t /\ executed s1 = executed s ++ [t])).
  { intros t f s1. rewrite (write_desc_ok s _ Hm). intros [= <-] Hs.
    split; [left; by eapply quiet_written|by left]. }
  assert (Hst : forall t st s1, write_desc t (write_status st) s = Ok s1 -> here s t ->
    (finished_status (status (dsc s t)) = true -> finished_status st = true) ->
    (quiet s s1 \/ retired s s1) /\ (executed s1 = executed s \/
      exists t, pc = WRun t /\ executed s1 = executed s ++ [t])).
  { intros t st s1. rewrite (write_desc_ok s _ Hm). intros [= <-] Ht Hf.
    split; [left; by eapply quiet_status|by left]. }
  assert (Hheld : forall t, w_held t pc = 1 -> here s t /\ finished_status (status (dsc s t)) = false).
  { intros t Ht. pose proof (pc_here y i Hy pc t Hi ltac:(by left)) as Hh. split; [done|].
    by apply (held_unfinished _ _ _ Hok _ _ Hi t Ht Hh). }
  destruct pc; cbn [worker_step] in H;
    unfold fanout_lock_acquire, fanout_unlock, try_set_ready, enqueue_ready, dequeue_ready in *;
    rewrite ?(desc_of_ok s _ Hm) in H;
    repeat match goal with
    | E : mbind _ _ = Ok _ |- _ => apply bind_Ok in E as (? & ? & E)
    | E : (if ?b then _ else _) = Ok _ |- _ => destruct b eqn:?
    | E : match ?o with Some _ => _ | None => _ end = Ok _ |- _ => destruct o
    | E : (let (_, _) := ?p in _) = Ok _ |- _ => destruct p
    end; simplify_eq; eauto.
  all: try (by eapply Hw).
  - destruct (Hheld t (delta_eq t)) as [Ht Hf]. eapply Hst; [eassumption|done|by rewrite Hf].
  - split; [auto|right; eauto].
  - destruct (mark_all_flags x s) as [fl ->]. split; [auto|by left].
  - destruct (Hheld t (delta_eq t)) as [Ht Hf]. eapply Hst; [eassumption|done|by rewrite Hf].
  - destruct (ok_pc _ _ _ Hok _ _ Hi) as (_ & Hc & _). eapply Hst; [eassumption|exact Hc|].
    match goal with E : status_eqb _ PENDING = true |- _ =>
      apply bool_decide_eq_true in E; by rewrite E end.
  - destruct (ok_pc _ _ _ Hok _ _ Hi) as (_ & Hx & _). eapply Hst; [eassumption|exact Hx|done].
  - match goal with E : try_advance_ring_pointers _ = Ok _ |- _ =>
      destruct (try_advance_flow _ _ _ Hm E) as [? ->] end. auto.
Qed.
End worker_flow.

(** ** The calls behind the tasks *)

(** The task the submitter is at, with its call. *)
Definition s_call (sp : submit_pc) : option (Z * Call) :=
  match sp with
  | SIdle | SEnter _ _ => None
  | SAux c t => Some (t, c)
  | SScan f _ | SProbe f _ _ | SPush f _ _ | SHeap f | SInsert f | SRegister f | SCount f
  | SSetReady f | SSetPending f | SLock f _ | SPrepend f _ _ | SCountUp f _ _
  | SReadStatus f _ _ | SBump f _ _ | SUnlock f _ _ | SFinal f | SCas f | SEnqueue f =>
      Some (f_tid f, f_call f)
  end.

(** The inputs still to scan, and the producers still to link. *)
Definition s_unscanned (sp : submit_pc) : list LinquTensor :=
  match sp with SAux c _ => call_inputs c | SScan _ ins | SProbe _ _ ins | SPush _ _ ins => ins | _ => [] end.
Definition s_unlinked (sp : submit_pc) : list Z :=
  match sp with
  | SScan f _ | SProbe f _ _ | SPush f _ _ | SHeap f | SInsert f | SRegister f | SCount f
  | SSetReady f | SSetPending f => f_producers f
  | SLock _ ps | SCountUp _ _ ps | SReadStatus _ _ ps | SBump _ _ ps | SUnlock _ _ ps => ps
  | SPrepend _ p ps => p :: ps
  | _ => []
  end.

(** The submitter has still to deal with input [x] of task [t], made by [p]. *)
Definition s_owes (sp : submit_pc) (t : Z) (x : LinquTensor) (p : Z) : Prop :=
  s_task sp = Some t /\ (x ∈ s_unscanned sp \/ p ∈ s_unlinked sp).

(** Task [t] waits for [p], or need not. *)
Definition tied (s : LevelRuntime) (t p : Z) : Prop :=
  finished_status (status (dsc s p)) = true \/ t ∈ consumers s p.

(** Input [x] of task [t], made by [p]. *)
Definition input_from (cs : list Call) (t : Z) (x : LinquTensor) (p : Z) : Prop :=
  exists c, zlookup cs t = Some c /\ x ∈ call_inputs c /\ is_valid x = true /\
    newest_writer cs t (tensor_id x) p.

Lemma zlookup_snoc {A} (l : list A) x : zlookup (l ++ [x]) (zlength l) = Some x.
Proof.
  unfold zlookup, zlength. rewrite (proj2 (Z.leb_le 0 _)) by lia. rewrite Nat2Z.id.
  by apply list_lookup_middle.
Qed.

Definition entering (sp : submit_pc) : Z := match sp with SEnter _ _ => 1 | _ => 0 end.

Lemma building_task sp t : s_building sp = Some t -> s_task sp = Some t.
Proof. by destruct sp. Qed.

Section flow.
Context (cap : Z).

Record flow_at (cs : list Call) (s : LevelRuntime) (sp : submit_pc) : Prop := {
  fl_count : zlength cs = current_index_ (task_ring_ s) + entering sp;
  fl_enter : forall c k, sp = SEnter c k -> zlookup cs (current_index_ (task_ring_ s)) = Some c;
  fl_call : forall t c, s_call sp = Some (t, c) -> zlookup cs t = Some c;
  fl_map : map_ok cap cs (producer_bound s sp) (tensor_map_ s);
  fl_same : LinquTensorMap.last_task_alive_ (tensor_map_ s) =
    LinquTaskRing.last_task_alive_ (task_ring_ s);
  fl_alive : forall t, 0 <= t < LinquTaskRing.last_task_alive_ (task_ring_ s) ->
    finished_status (status (dsc s t)) = true;
  fl_tied : forall t x p, here s t -> input_from cs t x p -> s_owes sp t x p \/ tied s t p;
}.

Definition flow (cs : list Call) (y : System) : Prop := flow_at cs (shared y) (submitter y).

Lemma producer_bound_n s s' sp :
  current_index_ (task_ring_ s') = current_index_ (task_ring_ s) ->
  producer_bound s' sp = producer_bound s sp.
Proof. intros Hn. destruct sp; simpl; by rewrite Hn. Qed.

Lemma tied_quiet s s' t p : here s p -> quiet s s' -> tied s t p -> tied s' t p.
Proof.
  intros Hp Hq [Hf|Hc]; [left; by apply (qt_fin _ _ Hq)|right; by apply (qt_cons _ _ Hq)].
Qed.

Lemma input_from_here s cs t x p : here s t -> input_from cs t x p -> here s p.
Proof. intros Ht (c & _ & _ & _ & Hp & _). unfold here in *. lia. Qed.

(** The submitter goes on from [sp] to [sp'] and forgets no input. *)
Lemma flow_move cs s s' sp sp' :
  LinquTaskRing.wf (task_ring_ s) -> flow_at cs s sp -> quiet s s' ->
  entering sp' = entering sp -> (forall c k, sp' = SEnter c k -> exists k', sp = SEnter c k') ->
  (forall t c, s_call sp' = Some (t, c) -> s_call sp = Some (t, c)) ->
  producer_bound s sp' = producer_bound s sp ->
  (forall t x p, here s t -> input_from cs t x p -> s_owes sp t x p -> s_owes sp' t x p \/ tied s' t p) ->
  flow_at cs s' sp'.
Proof.
  intros Hwf Hfl Hq He Hent Hcall Hb Ho. pose proof (qt_n _ _ Hq) as Hn.
  assert (Hh : forall t, here s' t <-> here s t) by (intros; unfold here; by rewrite Hn).
  constructor.
  - rewrite Hn, He. apply Hfl.
  - intros c k [k' ->]%Hent. rewrite Hn. by eapply (fl_enter _ _ _ Hfl).
  - intros t c Hc. by apply (fl_call _ _ _ Hfl), Hcall.
  - rewrite (producer_bound_n s s'), Hb, (qt_map _ _ Hq) by done. apply Hfl.
  - rewrite (qt_map _ _ Hq), (qt_alive _ _ Hq). apply Hfl.
  - rewrite (qt_alive _ _ Hq). intros t Ht. apply (qt_fin _ _ Hq); [|by apply (fl_alive _ _ _ Hfl)].
    pose proof (wf_alive _ Hwf). unfold here. lia.
  - intros t x p Ht%Hh Hin. destruct (fl_tied _ _ _ Hfl t x p Ht Hin) as [Hs|Ht']; [by apply Ho|right].
    eapply tied_quiet; [|done..]. by eapply input_from_here.
Qed.

(** Another thread acts. *)
Lemma flow_quiet cs s s' sp :
  LinquTaskRing.wf (task_ring_ s) -> flow_at cs s sp -> quiet s s' -> flow_at cs s' sp.
Proof. intros Hwf Hfl Hq. apply (flow_move cs s s' sp sp); try done; eauto. Qed.

Lemma flow_retired cs s s' sp : flow_at cs s sp -> retired s s' -> flow_at cs s' sp.
Proof.
  intros Hfl Hr. pose proof (rt_n _ _ Hr) as Hn.
  assert (Hc : forall t, consumers s' t = consumers s t)
    by (intros; unfold consumers; by rewrite (rt_pool _ _ Hr), (rt_dsc _ _ Hr)).
  constructor; rewrite ?Hn; try apply Hfl.
  - rewrite (producer_bound_n s s') by done. rewrite (rt_map _ _ Hr). apply map_ok_retire; [|apply Hfl].
    rewrite (fl_same _ _ _ Hfl). apply Hr.
  - by rewrite (rt_map _ _ Hr).
  - intros t Ht. rewrite (rt_dsc _ _ Hr).
    destruct (decide (t < LinquTaskRing.last_task_alive_ (task_ring_ s))).
    + apply (fl_alive _ _ _ Hfl). lia.
    + apply (rt_fin _ _ Hr). lia.
  - intros t x p Ht Hin. unfold tied. rewrite Hc, (rt_dsc _ _ Hr). apply (fl_tied _ _ _ Hfl); [|done].
    unfold here in *. by rewrite <- Hn.
Qed.

(** A call is accepted. *)
Lemma flow_accept cs s c :
  LinquTaskRing.wf (task_ring_ s) -> flow_at cs s SIdle -> flow_at (cs ++ [c]) s (SEnter c 0).
Proof.
  intros Hwf Hfl. pose proof (fl_count _ _ _ Hfl) as Hn. simpl in Hn.
  constructor; try apply Hfl; try done.
  - rewrite zlength_app. unfold zlength at 2. simpl. lia.
  - intros c' k [= <- <-]. replace (current_index_ (task_ring_ s)) with (zlength cs) by lia.
    apply zlookup_snoc.
  - apply map_ok_app; [simpl; lia|]. apply Hfl.
  - intros t x p Ht (c' & Hc' & Hx & Hv & Hw). unfold here in Ht. rewrite zlookup_app_l in Hc' by lia.
    apply (newest_writer_app cs c) in Hw; [|lia].
    destruct (fl_tied _ _ _ Hfl t x p Ht) as [[? _]|Ht']; [by exists c'|done|by right].
Qed.

(** ** The actions of the submitting thread *)
Section submitter.
Context {only_strict : Strict} (y : System) (Hy : inv y) (cs : list Call).
Context (Hfl : flow cs y) (Hcap : outputs_before cs (zlength cs) <= cap).
Local Abbreviation s := (shared y).

Abbreviation flows sp s' sp' := (submitter y = sp -> submit_step sp s = Ok (s', sp') ->
  calm s' sp' -> flow_at cs s' sp' /\ executed s' = executed s).

Lemma ring_wf : LinquTaskRing.wf (task_ring_ s).
Proof. apply (mem_ring _ (submitter y)), Hy. Qed.

(** Nothing to scan or link is dropped. *)
Lemma flow_smove sp s' sp' :
  submitter y = sp -> quiet s s' ->
  entering sp' = 0 -> entering sp = 0 ->
  s_call sp' = s_call sp \/ s_call sp' = None ->
  producer_bound s sp' = producer_bound s sp ->
  (forall t x p, here s t -> input_from cs t x p -> s_owes sp t x p -> s_owes sp' t x p \/ tied s' t p) ->
  flow_at cs s' sp'.
Proof.
  intros Hsp Hq He He' Hc Hb Ho. unfold flow in Hfl. rewrite Hsp in Hfl.
  apply (flow_move cs s s' sp sp'); try done.
  - apply ring_wf.
  - by rewrite He, He'.
  - by intros c k ->.
  - intros t c Ht. destruct Hc as [<-|Hc]; [done|congruence].
Qed.

(** The task of the submitter is known to be unfinished while it is built. *)
Lemma building_unfinished t :
  s_building (submitter y) = Some t -> here s t /\ finished_status (status (dsc s t)) = false.
Proof.
  intros Hb. destruct (ok_build _ _ _ (inv_ok _ Hy) t Hb) as [Hst _]. cbn in Hst. split; [|by rewrite Hst].
  apply (ok_task _ _ _ (inv_ok _ Hy)). by apply building_task.
Qed.

Lemma task_is_last t : s_task (submitter y) = Some t -> here s t /\ t = current_index_ (task_ring_ s) - 1.
Proof. intros Ht. by destruct (ok_task _ _ _ (inv_ok _ Hy) t Ht). Qed.

Lemma quiet_write t f : keeps_status f -> quiet s (written t f s).
Proof. apply quiet_written with (sp := submitter y), Hy. Qed.

Lemma read_here t : desc_of t s = Ok (dsc s t).
Proof. apply (desc_of_ok s (submitter y)), Hy. Qed.
Lemma write_here t f : write_desc t f s = Ok (written t f s).
Proof. apply (write_desc_ok s (submitter y)), Hy. Qed.

Ltac step_of Hstep :=
  cbn [submit_step] in Hstep;
  unfold fanout_lock_acquire, fanout_unlock, try_set_ready, enqueue_ready in Hstep;
  rewrite ?read_here, ?write_here in Hstep;
  repeat match goal with
  | E : mbind _ _ = Ok _ |- _ => apply bind_Ok in E as (? & ? & E)
  | E : (if ?b then _ else _) = Ok _ |- _ => destruct b eqn:?
  | E : Ok (_, if ?b then _ else _) = Ok _ |- _ => destruct b eqn:?
  | E : match ?o with Some _ => _ | None => _ end = Ok _ |- _ => destruct o
  | E : (let (_, _) := ?p in _) = Ok _ |- _ => destruct p
  end; simplify_eq/=.

(** The list of obligations is the same, or shorter by what is of no concern. *)
Ltac same_owes := intros ? ? ? _ _ [? ?]; left; split; [assumption|tauto].
Ltac no_owes := intros ? ? ? _ _ [? [?%not_elem_of_nil|?%not_elem_of_nil]]; done.

Ltac smove Hsp :=
  eapply flow_smove; [exact Hsp|..]; try done; try (by left); try (by right);
  try (by apply quiet_same); try (by apply quiet_write); try same_owes; try no_owes.

Lemma flow_aux c t s' sp' : flows (SAux c t) s' sp'.
Proof.
  intros Hsp H _. step_of H. split; [|done]. smove Hsp.
  match goal with |- context[written t ?g s] => apply (quiet_trans _ (written t g s)) end;
    [by apply quiet_write|by apply quiet_same].
Qed.

Lemma flow_probe f x ins s' sp' : flows (SProbe f x ins) s' sp'.
Proof.
  intros Hsp H [Hc _]. cbn [submit_step] in H. destruct (is_ready x s); simplify_eq; [|done].
  split; [|done]. smove Hsp.
Qed.

Lemma flow_heap f s' sp' : flows (SHeap f) s' sp'.
Proof.
  intros Hsp H _. step_of H.
  - match goal with E : place_outputs _ _ _ = Ok _ |- _ => apply place_outputs_frame in E as (dc & h & ->) end.
    split; [|done]. smove Hsp.
  - split; [|done]. smove Hsp.
Qed.

Lemma flow_count f s' sp' : flows (SCount f) s' sp'.
Proof.
  intros Hsp H _. step_of H; (split; [|done]); smove Hsp.
Qed.

Lemma flow_set_ready f s' sp' : flows (SSetReady f) s' sp'.
Proof.
  intros Hsp H _. step_of H. split; [|done].
  destruct (building_unfinished (f_tid f)) as [Ht Hf]; [by rewrite Hsp|]. smove Hsp.
  - eapply quiet_status; [apply Hy|done|by rewrite Hf].
  - pose proof (ok_sub _ _ _ (inv_ok _ Hy)) as Hs. rewrite Hsp in Hs.
    destruct Hs as ((Hlen & _) & _ & Hz). rewrite Hz in Hlen.
    assert (Hp : f_producers f = []) by (destruct (f_producers f); [done|rewrite zlength_cons in Hlen;
      pose proof (zlength_ge_0 l); lia]).
    intros t x p _ _ [_ [Ho|Ho]]; simpl in Ho; [by apply not_elem_of_nil in Ho|].
    rewrite Hp in Ho. by apply not_elem_of_nil in Ho.
Qed.

Lemma flow_set_pending f s' sp' : flows (SSetPending f) s' sp'.
Proof.
  intros Hsp H _. step_of H. split; [|done].
  destruct (building_unfinished (f_tid f)) as [Ht Hf]; [by rewrite Hsp|]. smove Hsp.
  eapply quiet_status; [apply Hy|done|by rewrite Hf].
Qed.

Lemma flow_slock f ps s' sp' : flows (SLock f ps) s' sp'.
Proof.
  intros Hsp H _. destruct ps as [|p ps]; step_of H; (split; [|done]); smove Hsp.
Qed.

Lemma flow_count_up f p ps s' sp' : flows (SCountUp f p ps) s' sp'.
Proof. intros Hsp H _. step_of H. split; [|done]. smove Hsp. Qed.

Lemma flow_read_status f p ps s' sp' : flows (SReadStatus f p ps) s' sp'.
Proof.
  intros Hsp H _. step_of H; (split; [|done]); smove Hsp.
Qed.

Lemma flow_bump f p ps s' sp' : flows (SBump f p ps) s' sp'.
Proof. intros Hsp H _. step_of H. split; [|done]. smove Hsp. Qed.

Lemma flow_unlock f p ps s' sp' : flows (SUnlock f p ps) s' sp'.
Proof. intros Hsp H _. step_of H. split; [|done]. smove Hsp. Qed.

Lemma flow_final f s' sp' : flows (SFinal f) s' sp'.
Proof.
  intros Hsp H _. step_of H; (split; [|done]); smove Hsp.
Qed.

Lemma flow_scas f s' sp' : flows (SCas f) s' sp'.
Proof.
  intros Hsp H _. destruct (task_is_last (f_tid f)) as [Ht _]; [by rewrite Hsp|].
  step_of H; (split; [|done]); smove Hsp.
  eapply quiet_status; [apply Hy|done|].
  match goal with E : status_eqb _ PENDING = true |- _ =>
    apply bool_decide_eq_true in E; by rewrite E end.
Qed.

Lemma flow_senqueue f s' sp' : flows (SEnqueue f) s' sp'.
Proof. intros Hsp H _. step_of H. split; [|done]. smove Hsp. Qed.

Lemma flow_register f s' sp' : flows (SRegister f) s' sp'.
Proof.
  intros Hsp H _. cbn [submit_step] in H. apply bind_Ok in H as (s1 & H1 & H).
  assert (exists st, s1 = s <| scope_stack_ := st |>) as [st ->].
  { destruct (0 <=? _).
    - apply bind_Ok in H1 as (st & _ & H1). exists st. by simplify_eq.
    - exists (scope_stack_ s). simplify_eq. by destruct s. }
  assert (Hm : mem (s <| scope_stack_ := st |>) (submitter y)) by (constructor; apply (inv_mem _ Hy)).
  rewrite (write_desc_ok _ _ Hm) in H. cbn [mbind outcome_bind] in H. simplify_eq. split; [|done].
  smove Hsp.
  apply (quiet_trans _ (s <| scope_stack_ := st |>)); [by apply quiet_same|].
  by apply (quiet_written (s <| scope_stack_ := st |>) (submitter y) (f_tid f) _ Hm).
Qed.

(** The link to a producer. *)
Lemma flow_prepend f p ps s' sp' : flows (SPrepend f p ps) s' sp'.
Proof.
  intros Hsp H _. pose proof (inv_mem _ Hy) as Hm. cbn [submit_step] in H. rewrite read_here in H.
  cbn [mbind outcome_bind] in H. apply bind_Ok in H as ([p' idx] & Hp & H).
  assert (Hk : here s p).
  { pose proof (ok_sub _ _ _ (inv_ok _ Hy)) as Hs. rewrite Hsp in Hs. destruct Hs as [_ Hs].
    destruct (task_is_last (f_tid f)) as [Ht _]; [by rewrite Hsp|].
    specialize (Hs p ltac:(by left)). unfold here in *. lia. }
  pose proof (wp_prepend (fun _ => True) (fanout_list_head (dsc s p)) (f_tid f) (dep_pool_ s)
    (fun r => extends (dep_pool_ s) (fst r) /\ chain (fst r) (snd r) = f_tid f :: consumers s p)) as Hw.
  rewrite Hp in Hw. simpl in Hw. destruct Hw as [Hext Hnew]; [apply Hm|by apply (mem_fanout _ _ Hm)|done| |].
  { intros q j _ Hwf _ _ _ _ Hch Hold. split; [by constructor|done]. }
  pose proof (mem_pool_extends _ _ _ Hm Hext) as Hm1. set (s1 := s <| dep_pool_ := p' |>) in *.
  rewrite (write_desc_ok _ _ Hm1) in H. cbn [mbind outcome_bind] in H. simplify_eq. split; [|done].
  set (g := fun d : LinquTaskDescriptor => d <| fanout_list_head := idx |>) in *.
  assert (Hd : forall u, here s u -> dsc (written p g s1) u = if decide (p = u) then g (dsc s p) else dsc s u)
    by (intros u Hu; by apply (dsc_updated s1 _ Hm1)).
  assert (Hc : forall u, here s u -> consumers (written p g s1) u =
    if decide (p = u) then f_tid f :: consumers s p else consumers s u).
  { intros u Hu. unfold consumers at 1. rewrite Hd by done. case_decide; [exact Hnew|].
    change (dep_pool_ (written p g s1)) with p'. apply (ext_old _ _ Hext). by apply (mem_fanout _ _ Hm). }
  smove Hsp.
  - constructor; try done.
    + intros u Hu. rewrite Hd by done. case_decide as He; [by subst u|done].
    + intros u c Hu Hin. rewrite Hc by done. case_decide as He; [subst u; by right|done].
  - intros t x q Ht Hin [Htask [Ho|[->|Ho]%elem_of_cons]]; [by apply not_elem_of_nil in Ho| |left; split; [done|by right]].
    right. right. simpl in Htask. injection Htask as <-. rewrite Hc by done. rewrite decide_True by done. by left.
Qed.

(** Step 4 records the outputs. *)
Lemma flow_insert f s' sp' : flows (SInsert f) s' sp'.
Proof.
  intros Hsp H _. cbn [submit_step] in H. apply bind_Ok in H as (s1 & Hi & H). simplify_eq.
  pose proof Hfl as Hf. unfold flow in Hf. rewrite Hsp in Hf.
  destruct (building_unfinished (f_tid f)) as [Ht Hun]; [by rewrite Hsp|].
  destruct (task_is_last (f_tid f)) as [_ Hn]; [by rewrite Hsp|].
  pose proof (fl_call _ _ _ Hf _ _ eq_refl) as Hc. pose proof (fl_map _ _ _ Hf) as Hmap. simpl in Hmap.
  rewrite <- Hn in Hmap.
  assert (Hla : LinquTensorMap.last_task_alive_ (tensor_map_ s) <= f_tid f).
  { rewrite (fl_same _ _ _ Hf). pose proof (fl_alive _ _ _ Hf (f_tid f)) as Ha.
    destruct (decide (LinquTaskRing.last_task_alive_ (task_ring_ s) <= f_tid f)); [done|].
    rewrite Ha in Hun; [done|]. unfold here in Ht. lia. }
  pose proof (map_step4 cap cs (f_tid f) _ s s' Hmap ltac:(apply Ht) Hc Hla Hcap Hi) as [Hmap' Hal].
  apply (insert_outputs_frame (current_index_ (task_ring_ s))) in Hi as (m & -> & _);
    [| |unfold here in Ht; lia].
  2: { eapply below_mono; [|apply (mem_producers _ _ (inv_mem _ Hy))]. rewrite Hsp. simpl. lia. }
  split; [|done]. constructor; try apply Hf; try done.
  - simpl in *. by replace (current_index_ (task_ring_ s)) with (f_tid f + 1) by lia.
  - simpl in *. rewrite Hal. apply Hf.
Qed.

(** Step 2: one input is looked up. *)
Lemma flow_scan f ins s' sp' : flows (SScan f ins) s' sp'.
Proof.
  intros Hsp H _. pose proof (inv_mem _ Hy) as Hm. pose proof Hfl as Hf. unfold flow in Hf.
  rewrite Hsp in Hf. destruct (task_is_last (f_tid f)) as [Ht Hn]; [by rewrite Hsp|].
  destruct ins as [|x ins]; cbn [submit_step] in H; [simplify_eq; split; [|done]; by smove Hsp|].
  (* the rest of the inputs, whatever becomes of this one *)
  assert (Hrest : forall t z p, s_owes (SScan f (x :: ins)) t z p -> z <> x ->
    t = f_tid f /\ (z ∈ ins \/ p ∈ f_producers f)).
  { intros t z p [Htask Ho] Hne. simpl in Htask. split; [congruence|]. simpl in Ho.
    rewrite elem_of_cons in Ho. tauto. }
  destruct (is_valid x) eqn:Hv; cbn [negb] in H.
  2: { simplify_eq. split; [|done]. smove Hsp. intros t z p _ (c & _ & _ & Hvz & _) Ho. left.
       destruct (Hrest t z p Ho) as [-> ?]; [congruence|]. by split. }
  apply bind_Ok in H as (r & Hl & H). pose proof (fl_map _ _ _ Hf) as Hmap. simpl in Hmap.
  pose proof (map_lookup cap cs _ _ _ _ Hmap Hl) as Hr. rewrite <- Hn in Hr.
  destruct (found r) eqn:Hfound.
  - rewrite read_here in H. cbn [mbind outcome_bind] in H. apply bind_Ok in H as ([p' idx] & Hp & H).
    pose proof (wp_prepend (fun _ => True) (dep_list_head (dsc s (f_tid f))) (result_producer r) (dep_pool_ s)
      (fun r => extends (dep_pool_ s) (fst r))) as Hw.
    rewrite Hp in Hw. simpl in Hw.
    assert (Hext : extends (dep_pool_ s) p').
    { apply Hw; [apply Hm|by apply (mem_deps _ _ Hm)|done|]. intros q j _ Hwf _ _ _ _ _ Hold. by constructor. }
    pose proof (mem_pool_extends _ _ _ Hm Hext) as Hm1. set (s1 := s <| dep_pool_ := p' |>) in *.
    rewrite (write_desc_ok _ _ Hm1) in H. cbn [mbind outcome_bind] in H. simplify_eq. split; [|done].
    smove Hsp.
    + apply (quiet_trans _ s1); [|by apply (quiet_written s1 (submitter y) (f_tid f) _ Hm1)].
      constructor; try done. intros p c Hp' Hc. unfold consumers in *.
      change (c ∈ chain p' (fanout_list_head (dsc s p))).
      by rewrite (proj2 (ext_old _ _ Hext _ (mem_fanout _ _ Hm p Hp'))).
    + intros t z p _ (c & _ & _ & _ & Hw') [Htask Ho]. simpl in Htask. injection Htask as <-. left.
      split; [done|]. simpl in Ho |- *. rewrite elem_of_app, list_elem_of_singleton.
      rewrite elem_of_cons in Ho. destruct Ho as [[->|Ho]|Ho]; [right; right|by left|right; by left].
      by eapply newest_writer_unique.
  - simplify_eq. split; [|done]. smove Hsp. intros t z p _ (c & _ & _ & _ & Hw') [Htask Ho].
    simpl in Htask. injection Htask as <-. simpl in Ho. rewrite elem_of_cons in Ho.
    destruct Ho as [[->|Ho]|Ho]; [right; left|left; split; [done|by left]|left; split; [done|by right]].
    apply (fl_alive _ _ _ Hf). rewrite <- (fl_same _ _ _ Hf). split; [apply Hw'|by apply Hr].
Qed.

(** Step 1: the call becomes a task. *)
Lemma flow_alloc c k s1 s' :
  mem s1 (SEnter c k) -> flow_at cs s1 (SEnter c k) -> has_space (task_ring_ s1) = true ->
  s' = s1 <| task_ring_ := allocated (task_ring_ s1) |> ->
  current_index_ (task_ring_ s') <= window_size_ (task_ring_ s') ->
  flow_at cs s' (SAux c (current_index_ (task_ring_ s1))).
Proof.
  intros Hm Hf Hspace -> Hw. cbn in Hw. pose proof (wf_alive _ (mem_ring _ _ Hm)) as Ha.
  set (n := current_index_ (task_ring_ s1)) in *.
  assert (Hd : forall t, here s1 t ->
    dsc (s1 <| task_ring_ := allocated (task_ring_ s1) |>) t = dsc s1 t).
  { intros t Ht. apply (alloc_dsc s1 (SEnter c k)); try done. unfold n in *. lia. }
  constructor; cbn; try apply Hf; fold n.
  - pose proof (fl_count _ _ _ Hf) as Hc. simpl in Hc. fold n in Hc. lia.
  - done.
  - intros t c' [= <- <-]. by apply (fl_enter _ _ _ Hf c k).
  - replace (n + 1 - 1) with n by lia. apply (fl_map _ _ _ Hf).
  - intros t Ht. rewrite Hd by (unfold here; fold n; lia). by apply (fl_alive _ _ _ Hf).
  - intros t x p Ht Hin. destruct (decide (t = n)) as [->|Hne].
    + left. split; [done|]. left. destruct Hin as (c' & Hc' & Hx & _). simpl.
      pose proof (fl_enter _ _ _ Hf c k eq_refl) as He. fold n in He. by simplify_eq.
    + right. assert (Ht1 : here s1 t) by (unfold here in *; cbn in Ht; fold n in Ht |- *; lia).
      pose proof (input_from_here _ _ _ _ _ Ht1 Hin) as Hp.
      destruct (fl_tied _ _ _ Hf t x p Ht1 Hin) as [[? _]|Htd]; [done|].
      unfold tied, consumers in *. by rewrite Hd.
Qed.

Lemma flow_enter c k s' sp' : flows (SEnter c k) s' sp'.
Proof.
  intros Hsp H [_ Hcalm]. pose proof (inv_mem _ Hy) as Hm. pose proof Hfl as Hf. unfold flow in Hf.
  rewrite Hsp in Hf, Hm. cbn [submit_step] in H. apply bind_Ok in H as (s1 & H1 & H).
  assert (Hs1 : mem s1 (SEnter c k) /\ flow_at cs s1 (SEnter c k) /\ executed s1 = executed s).
  { destruct (has_space (task_ring_ s)); [by simplify_eq|].
    destruct (try_advance_flow _ _ _ Hm H1) as [Hq He].
    destruct (rings_try_advance_ok _ _ Hm) as (s2 & H2 & Hm2 & _). rewrite H1 in H2. simplify_eq.
    split_and!; [done| |done]. destruct Hq as [Hq|Hq]; [|by eapply flow_retired].
    by apply (flow_quiet _ s); [apply Hm|..]. }
  destruct Hs1 as (Hm1 & Hf1 & He1). destruct (has_space (task_ring_ s1)) eqn:Hspace.
  - apply bind_Ok in H as ([ring t] & Ha & H). simplify_eq. split; [|done].
    pose proof (wp_alloc (fun _ => True) (task_ring_ s1)
      (fun r => r = (allocated (task_ring_ s1), current_index_ (task_ring_ s1)))) as Hw.
    rewrite Ha in Hw. simpl in Hw. specialize (Hw ltac:(apply Hm1) ltac:(done) ltac:(done) ltac:(done)).
    simplify_eq. by eapply flow_alloc.
  - destruct (_ <? _); simplify_eq. split; [|done]. constructor; try apply Hf1.
    intros c' k' [= <- _]. by apply (fl_enter _ _ _ Hf1 c k).
Qed.

Lemma flow_submit s' sp' :
  submit_step (submitter y) s = Ok (s', sp') -> calm s' sp' ->
  flow_at cs s' sp' /\ executed s' = executed s.
Proof.
  intros H Hc. pose proof (inv_room _ Hy) as Hroom. destruct (submitter y) eqn:Hsp;
    eauto using flow_enter, flow_aux, flow_scan, flow_probe, flow_heap, flow_insert, flow_register,
      flow_count, flow_set_ready, flow_set_pending, flow_slock, flow_prepend, flow_count_up.
  - cbn in H. simplify_eq. split; [|done]. unfold flow in Hfl. by rewrite Hsp in Hfl.
  - done.
  - by eapply flow_read_status.
  - by eapply flow_bump.
  - by eapply flow_unlock.
  - by eapply flow_final.
  - by eapply flow_scas.
  - by eapply flow_senqueue.
Qed.
End submitter.

(** ** Every action *)

(** The calls accepted by an action. *)
Definition accepts (l : label) (y : System) : list Call :=
  match l, submitter y with LCall c, SIdle => [c] | _, _ => [] end.

Lemma exec_flow {only_strict : Strict} l y y' cs :
  inv y -> flow cs y -> outputs_before cs (zlength cs) <= cap ->
  exec l y = Ok y' -> calmb y' = true ->
  flow (cs ++ accepts l y) y' /\
  (executed (shared y') = executed (shared y) \/
   exists i t, workers y !! i = Some (WRun t) /\ executed (shared y') = executed (shared y) ++ [t]).
Proof.
  intros Hy Hf Hcap He Hcalm. pose proof (inv_mem _ Hy) as Hm. unfold flow in Hf.
  assert (Hstay : forall s', quiet (shared y) s' -> flow_at (cs ++ []) s' (submitter y))
    by (intros s' Hq; rewrite app_nil_r; eapply flow_quiet; [apply Hm|done..]).
  assert (Hself : flow (cs ++ []) y) by (apply Hstay; by apply quiet_same).
  unfold flow, accepts.
  destruct l as [c|n| |i|i|a|]; cbn [exec] in He.
  - destruct (submitter y) eqn:Hsp; simplify_eq; (split; [|by left]);
      try (unfold flow in Hself; by rewrite Hsp in *).
    simpl. apply flow_accept; [apply Hm|done].
  - destruct (submitter y) eqn:Hsp; simplify_eq; (split; [|by left]);
      try (unfold flow in Hself; by rewrite Hsp in *).
    simpl. apply Hstay. by apply quiet_same.
  - apply bind_Ok in He as ([s' sp'] & Hs & He). simplify_eq/=. apply calmb_calm in Hcalm.
    destruct (flow_submit y Hy cs Hf Hcap s' sp' Hs Hcalm) as [Hf' He'].
    rewrite app_nil_r. auto.
  - destruct (workers y !! i) as [pc|] eqn:Hi; [|simplify_eq; auto].
    apply bind_Ok in He as ([s' pc'] & Hs & He). simplify_eq/=.
    destruct (worker_flow y Hy i pc s' pc' Hi Hs) as [[Hq|Hr] He]; (split; [|naive_solver]).
    + by apply Hstay.
    + rewrite app_nil_r. by eapply flow_retired.
  - destruct (scheds y !! i) as [k|] eqn:Hi; [|simplify_eq; auto].
    destruct (sched_inv y i k Hy Hi) as (k' & Hs & _). rewrite Hs in He. simplify_eq/=.
    split; [apply Hstay; by apply quiet_same|by left].
  - simplify_eq/=. split; [apply Hstay; by apply quiet_same|by left].
  - simplify_eq/=. split; [apply Hstay; by apply quiet_same|by left].
Qed.
End flow.
