(* ===== verification/LevelRuntimeDataflow.v ===== *)
(** * LevelRuntime: tasks run after the producers of their inputs

    Joins [LevelRuntimeOrder] (when a task runs, its edges are done) and
    [LevelRuntimeFlow] (every input has its edge): in a run without races the
    order of execution respects the data the calls read and write. *)

From S2P Require Import Prelude Bytes LinquTaskRing LinquTensorMap LevelRuntime.
From S2P Require Import LevelRuntimeView LevelRuntimeSteps LevelRuntimeState LevelRuntimeSafety.
From S2P Require Import LevelRuntimeDrain LevelRuntimeTheorems LevelRuntimeOrder LevelRuntimeWriters LevelRuntimeFlow.

(** The calls accepted by a run. *)
Fixpoint accepted (ls : list label) (y : System) : list Call :=
  match ls with
  | [] => []
  | l :: ls => accepts l y ++ match exec l y with Ok y => accepted ls y | Fault _ => [] end
  end.

Lemma race_free_run_app ls1 ls2 y y1 :
  race_free_run ls1 y = Some y1 -> race_free_run (ls1 ++ ls2) y = race_free_run ls2 y1.
Proof.
  revert y. induction ls1 as [|l ls1 IH]; intros y; cbn; [by intros [= ->]|].
  destruct (racing y); [done|]. destruct (exec l y) as [y2|]; [|done]. destruct (calmb y2); [apply IH|done].
Qed.

Lemma accepted_app ls1 ls2 y y1 :
  race_free_run ls1 y = Some y1 -> accepted (ls1 ++ ls2) y = accepted ls1 y ++ accepted ls2 y1.
Proof.
  revert y. induction ls1 as [|l ls1 IH]; intros y; cbn; [by intros [= ->]|].
  destruct (racing y); [done|]. destruct (exec l y) as [y2|]; [|done]. destruct (calmb y2); [|done].
  intros Hr. by rewrite IH, app_assoc.
Qed.

(** With the submitting thread idle the workers meet no race. *)
Lemma workers_race_free ls y y' :
  only_workers ls -> submitter y = SIdle -> calm_run ls y = Some y' ->
  race_free_run ls y = Some y' /\ accepted ls y = [].
Proof.
  revert y. induction ls as [|l ls IH]; intros y Hls Hsp; cbn; [done|].
  destruct (Hls l ltac:(by left)) as [i ->]. unfold racing. rewrite Hsp. cbn [exec accepts app].
  destruct (workers y !! i) as [pc|]; cbn [mbind outcome_bind].
  - destruct (worker_step pc (shared y)) as [[s' pc']|]; [|done]. cbn [mbind outcome_bind].
    destruct (calmb _); [|done]. apply IH; [|done]. intros m Hm. apply Hls. by right.
  - destruct (calmb y); [|done]. apply IH; [|done]. intros m Hm. apply Hls. by right.
Qed.

(** ** The order of execution *)

(** Every task that has run ran after the producers of its inputs. *)
Definition in_order (cs : list Call) (ex : list Z) : Prop :=
  forall l1 t l2 x p, ex = l1 ++ t :: l2 -> input_from cs t x p -> p ∈ l1.

Lemma input_from_app cs c t x p :
  t < zlength cs -> input_from (cs ++ [c]) t x p -> input_from cs t x p.
Proof.
  intros Ht (c' & Hc & Hx & Hv & Hw). exists c'. rewrite zlookup_app_l in Hc by done.
  split_and!; try done. by apply (newest_writer_app cs c); [lia|].
Qed.

Lemma in_order_snoc cs ex t :
  in_order cs ex -> (forall x p, input_from cs t x p -> p ∈ ex) -> in_order cs (ex ++ [t]).
Proof.
  intros Ho Ht l1 u l2 x p He Hin. destruct l2 as [|u2 l2' _] using rev_ind.
  - apply app_inj_tail in He as [-> ->]. by eapply Ht.
  - rewrite app_comm_cons, app_assoc in He. apply app_inj_tail in He as [-> _]. by eapply Ho.
Qed.

Lemma owes_nothing sp t x p : s_building sp <> Some t -> s_left sp = 0 -> ~ s_owes sp t x p.
Proof.
  intros Hb Hl [Ht Ho]. destruct sp; simpl in *; try done; try congruence;
    destruct Ho as [Ho|Ho]; try (by apply not_elem_of_nil in Ho);
    try (destruct ps; [by apply not_elem_of_nil in Ho|rewrite zlength_cons in Hl; pose proof (zlength_ge_0 ps); lia]).
  pose proof (zlength_ge_0 ps). lia.
Qed.

Section order.
Context (cap : Z).
Local Instance race_free : Strict := true.

Lemma exec_in_order l y y' cs :
  inv y -> flow cap cs y -> outputs_before cs (zlength cs) <= cap -> in_order cs (executed (shared y)) ->
  exec l y = Ok y' -> calmb y' = true -> in_order (cs ++ accepts l y) (executed (shared y')).
Proof.
  intros Hy Hf Hcap Ho He Hcalm. pose proof (fl_count _ _ _ _ Hf) as Hn.
  assert (Hen : 0 <= entering (submitter y)) by (by destruct (submitter y)).
  assert (Hcs : in_order (cs ++ accepts l y) (executed (shared y))).
  { intros l1 t l2 x p Hex Hin. apply (Ho l1 t l2 x p Hex).
    assert (Ht : t ∈ executed (shared y)) by (rewrite Hex; set_solver).
    apply executed_here in Ht; [|done]. unfold here in Ht.
    unfold accepts in Hin. destruct l; [destruct (submitter y)|..]; rewrite ?app_nil_r in Hin; try done.
    apply input_from_app in Hin; [done|lia]. }
  destruct (exec_flow cap l y y' cs Hy Hf Hcap He Hcalm) as [Hf' [->|(i & t & Hi & ->)]]; [done|].
  apply in_order_snoc; [done|]. intros x p Hin.
  destruct (held_gone y Hy i (WRun t) t Hi (delta_eq t)) as (Ht & _ & _ & Hb).
  destruct (held_all y Hy i (WRun t) t eq_refl Hi (delta_eq t)) as [Hleft Hdone].
  assert (Hin' : input_from cs t x p).
  { unfold accepts in Hin. unfold here in Ht.
    destruct l; [destruct (submitter y)|..]; rewrite ?app_nil_r in Hin; try done.
    apply input_from_app in Hin; [done|lia]. }
  pose proof (input_from_here _ _ _ _ _ Ht Hin') as Hp.
  apply (finished_executed y Hy p Hp). destruct (fl_tied _ _ _ _ Hf t x p Ht Hin') as [Ho'|[?|Hc]]; [|done|by apply Hdone].
  exfalso. pose proof Ho' as [Htask _]. revert Ho'. apply owes_nothing; [done|by apply Hleft].
Qed.

Lemma run_in_order ls : forall y cs y',
  inv y -> flow cap cs y -> in_order cs (executed (shared y)) ->
  race_free_run ls y = Some y' ->
  outputs_before (cs ++ accepted ls y) (zlength (cs ++ accepted ls y)) <= cap ->
  flow cap (cs ++ accepted ls y) y' /\ in_order (cs ++ accepted ls y) (executed (shared y')).
Proof.
  induction ls as [|l ls IH]; intros y cs y' Hy Hf Ho; cbn [race_free_run accepted].
  - intros [= <-] _. by rewrite app_nil_r.
  - destruct (racing y) eqn:Hr; [done|]. destruct (exec l y) as [y1|] eqn:He; [|done].
    destruct (calmb y1) eqn:Hc; [|done]. intros Hrun Hcap. rewrite app_assoc in *.
    assert (Hcap0 : outputs_before cs (zlength cs) <= cap).
    { rewrite <- app_assoc in Hcap. pose proof (outputs_before_prefix cs (accepts l y ++ accepted ls y1)). lia. }
    destruct (exec_flow cap l y y1 cs Hy Hf Hcap0 He Hc) as [Hf1 _].
    pose proof (system_exec_inv l y Hy ltac:(done)) as Hi. rewrite He in Hi.
    apply (IH y1); try done.
    + apply Hi. by apply calmb_calm.
    + by apply (exec_in_order l y y1 cs).
Qed.
End order.

(** The sizes of the tensor map. *)
Definition map_config_ok (cfg : LevelRuntimeConfig) : Prop :=
  tensormap_buckets cfg < 2 ^ 31 /\ 0 < tensormap_pool cfg < 2 ^ 31.

Lemma start_flow level st wt cfg y :
  config_ok cfg -> map_config_ok cfg -> start level st wt cfg = Ok y ->
  flow (tensormap_pool cfg) [] y.
Proof.
  intros Hc [Hb Hp] Hs. destruct (start_mem _ _ _ _ _ Hc Hs) as
    (Hm & Hn & _ & _ & _ & _ & Hsp & _).
  unfold start in Hs. apply bind_Ok in Hs as (s & Hs & H). simplify_eq/=.
  unfold new_runtime in Hs. apply bind_Ok in Hs as (ring & Hr & Hs).
  apply bind_Ok in Hs as (pool & _ & Hs). apply bind_Ok in Hs as (tm & Ht & Hs). simplify_eq/=.
  assert (Hwr : forall h t, ~ newest_writer [] 0 h t) by (intros h t (? & _); lia).
  assert (Hal : LinquTaskRing.last_task_alive_ ring = 0).
  { pose proof (wf_alive _ (mem_ring _ _ Hm)) as Ha. cbn in Ha, Hn. lia. }
  constructor; cbn; rewrite ?Hn, ?Hal; try done.
  - constructor.
    + by apply (wf_init_map _ _ _ Ht).
    + apply (unwrapped_init _ _ _ Ht). lia.
    + unfold LinquTensorMap.init in Ht. apply bind_Ok in Ht as (u & _ & Ht). by simplify_eq/=.
    + unfold LinquTensorMap.init in Ht. apply bind_Ok in Ht as (u & _ & Ht). by simplify_eq/=.
    + intros h t Hl. by destruct (init_no_binding _ _ _ h t Ht).
    + intros h t Hl. by destruct (Hwr h t).
  - unfold LinquTensorMap.init in Ht. apply bind_Ok in Ht as (u & _ & Ht). by simplify_eq/=.
  - intros t Ht'. lia.
  - intros t x p _ (c & Hc' & _). unfold zlookup in Hc'. by destruct (0 <=? t).
Qed.

(** From [start], with the invariant of the runs without races. *)
Lemma race_free_order level st wt cfg y0 ls y :
  config_ok cfg -> map_config_ok cfg -> start level st wt cfg = Ok y0 ->
  race_free_run ls y0 = Some y ->
  outputs_before (accepted ls y0) (zlength (accepted ls y0)) <= tensormap_pool cfg ->
  flow (tensormap_pool cfg) (accepted ls y0) y /\
  in_order (accepted ls y0) (executed (shared y)).
Proof.
  intros Hc Hmc Hs Hr Hcap.
  apply (run_in_order (tensormap_pool cfg) ls y0 [] y); try done.
  - by eapply start_inv.
  - by eapply start_flow.
  - destruct (start_mem _ _ _ _ _ Hc Hs) as (_ & _ & _ & _ & -> & _). by intros [] t l2 x p.
Qed.


Lemma small_map_config_ok : map_config_ok (small_config 4).
Proof. unfold map_config_ok. cbn. lia. Qed.

(** Three tasks on two workers; the first is running while the others, which
    read what it writes, are submitted. *)
Definition ordered_plan : list label :=
  replicate 3 (LTensor 1) ++ submitted "a" [] [1] ++ acts 0 3 ++ submitted "b" [1] [2] ++ acts 1 2 ++
  submitted "c" [1; 2] [3] ++ acts 0 20 ++ acts 1 30 ++ acts 0 30.
Definition ordered_end : System := default (started 4 2) (race_free_run ordered_plan (started 4 2)).

Lemma ordered_end_reached : race_free_run ordered_plan (started 4 2) = Some ordered_end.
Proof. vm_compute. reflexivity. Qed.

