(* ===== verification/RuntimeThreads.v ===== *)
(** * LevelRuntime: its threads, their waits and their end

    [LevelRuntime] says what the threads do when they run; here they also wait.
    [start] creates the orchestrator thread, the schedulers and the workers;
    [stop] asks them to end and joins them; [submit_orchestrator] queues a
    function for the orchestrator thread ([level_runtime.cpp] 65-101 and
    449-585, [level_runtime.h] 107-122).  A wait on a condition variable is the
    steps it consists of: lock the mutex, evaluate the predicate, and, when it
    is false, release the mutex and block in one step.  [should_stop] reads
    [stop_requested_] under a mutex of its own, so [stop] can set it between
    any two of these steps.  The wait of a scheduler has a limit of two
    milliseconds: it always goes on, and notifications do not matter to it. *)

From S2P Require Import Prelude Coordinate LinquTaskRing LinquDepListPool LevelRuntime.
From S2P Require Import LevelRuntimeView LevelRuntimeSteps LevelRuntimeState LevelRuntimeSafety LevelRuntimeTheorems.

#[local] Existing Instance lax.

(** ** A loop that waits on a condition variable

    [Working owes]: in the body of the loop, without the mutex; [owes]: it has
    left [enqueue_ready]'s locked section and its [notify_one] is next. *)
Inductive wait_pc :=
  | AtTop | Pred | ToSleep | Blocked | Woken | Test | Working (owes : bool) | Exited.

#[export] Instance wait_pc_eq_dec : EqDecision wait_pc.
Proof. solve_decision. Defined.

(** The thread owns the mutex of its condition variable. *)
Definition holds (pc : wait_pc) : bool :=
  match pc with Pred | ToSleep | Test => true | _ => false end.

(** One step of [cv.wait(lk, [this] { return should_stop() || nonempty; })]
    from the construction of [lk] on; [mu]: the mutex is taken. *)
Definition wait_step (stop nonempty mu : bool) (pc : wait_pc) : option (bool * wait_pc) :=
  match pc with
  | AtTop | Woken => if mu then None else Some (true, Pred)
  | Pred => Some (true, if stop || nonempty then Test else ToSleep)
  | ToSleep => Some (false, Blocked)
  | Blocked | Test | Working _ | Exited => None
  end.

Definition wake (pc : wait_pc) : wait_pc := match pc with Blocked => Woken | _ => pc end.
Definition notify_all (ws : list wait_pc) : list wait_pc := map wake ws.
(** [notify_one] wakes one of the blocked threads, here the [w]-th, if there is
    one. *)
Definition notify_one (w : nat) (ws : list wait_pc) : option (list wait_pc) :=
  if decide (Blocked ∈ ws) then
    match ws !! w with Some Blocked => Some (<[w := Woken]> ws) | _ => None end
  else Some ws.

(** ** The orchestrator thread and its queue *)
Record OrchJob := mkOrchJob { job_name : string; job_fn : Z; job_trace_pid : Z }.

(** A thread in [submit_orchestrator]: before the push, before [notify_one]. *)
Inductive client_pc := ClientIdle | ClientPush (job : OrchJob) | ClientNotify.

(** [orch_job] is the local variable [job] of the loop; [jobs_in] and
    [jobs_done] record the jobs pushed and run. *)
Record OrchQueue := mkOrchQueue {
  orch_mu_ : bool;
  orch_wait : wait_pc;
  orch_queue_ : list OrchJob;
  orch_job : option OrchJob;
  clients : list client_pc;
  jobs_in : list OrchJob;
  jobs_done : list OrchJob;
}.

#[export] Instance set_orch_mu_ : Setter orch_mu_ := fun f o =>
  mkOrchQueue (f (orch_mu_ o)) (orch_wait o) (orch_queue_ o) (orch_job o) (clients o)
    (jobs_in o) (jobs_done o).
#[export] Instance set_orch_wait : Setter orch_wait := fun f o =>
  mkOrchQueue (orch_mu_ o) (f (orch_wait o)) (orch_queue_ o) (orch_job o) (clients o)
    (jobs_in o) (jobs_done o).
#[export] Instance set_orch_queue_ : Setter orch_queue_ := fun f o =>
  mkOrchQueue (orch_mu_ o) (orch_wait o) (f (orch_queue_ o)) (orch_job o) (clients o)
    (jobs_in o) (jobs_done o).
#[export] Instance set_orch_job : Setter orch_job := fun f o =>
  mkOrchQueue (orch_mu_ o) (orch_wait o) (orch_queue_ o) (f (orch_job o)) (clients o)
    (jobs_in o) (jobs_done o).
#[export] Instance set_clients : Setter clients := fun f o =>
  mkOrchQueue (orch_mu_ o) (orch_wait o) (orch_queue_ o) (orch_job o) (f (clients o))
    (jobs_in o) (jobs_done o).
#[export] Instance set_jobs_in : Setter jobs_in := fun f o =>
  mkOrchQueue (orch_mu_ o) (orch_wait o) (orch_queue_ o) (orch_job o) (clients o)
    (f (jobs_in o)) (jobs_done o).
#[export] Instance set_jobs_done : Setter jobs_done := fun f o =>
  mkOrchQueue (orch_mu_ o) (orch_wait o) (orch_queue_ o) (orch_job o) (clients o) (jobs_in o)
    (f (jobs_done o)).

Definition no_jobs (clients : nat) : OrchQueue :=
  mkOrchQueue false Exited [] None (replicate clients ClientIdle) [] [].

Definition nonempty {A} (l : list A) : bool := match l with [] => false | _ => true end.

(** One step of [orchestrator_loop]. *)
Definition orch_step (stop : bool) (o : OrchQueue) : outcome (option OrchQueue) :=
  match orch_wait o with
  | Test =>
      if stop && negb (nonempty (orch_queue_ o))
      then Ok (Some (o <| orch_mu_ := false |> <| orch_wait := Exited |>)) else
      match orch_queue_ o with
      | job :: q =>
          Ok (Some (o <| orch_mu_ := false |> <| orch_wait := Working false |>
                      <| orch_queue_ := q |> <| orch_job := Some job |>))
      | [] => Fault OutOfBounds
      end
  | Working _ =>
      let! job := of_option NullPointer (orch_job o) in
      Ok (Some (o <| jobs_done := jobs_done o ++ [job] |> <| orch_job := None |> <| orch_wait := AtTop |>))
  | pc =>
      Ok (match wait_step stop (nonempty (orch_queue_ o)) (orch_mu_ o) pc with
          | Some (mu, pc) => Some (o <| orch_mu_ := mu |> <| orch_wait := pc |>)
          | None => None
          end)
  end.

(** The [j]-th client calls [submit_orchestrator], and its steps there. *)
Definition submit_orchestrator (j : nat) (job : OrchJob) (o : OrchQueue) : option OrchQueue :=
  match clients o !! j with
  | Some ClientIdle => Some (o <| clients := <[j := ClientPush job]> (clients o) |>)
  | _ => None
  end.

Definition client_step (j : nat) (o : OrchQueue) : option OrchQueue :=
  match clients o !! j with
  | Some (ClientPush job) =>
      if orch_mu_ o then None else
      Some (o <| orch_queue_ := orch_queue_ o ++ [job] |> <| jobs_in := jobs_in o ++ [job] |>
              <| clients := <[j := ClientNotify]> (clients o) |>)
  | Some ClientNotify =>
      Some (o <| orch_wait := wake (orch_wait o) |> <| clients := <[j := ClientIdle]> (clients o) |>)
  | _ => None
  end.

(** ** All the threads

    [control] is the thread that calls [start] and [stop]; [sub_owes] and
    [sched_owes] are the [owes] of the submitting thread and the schedulers. *)
Inductive control_pc :=
  | CtlIdle | NotifyOrch | NotifySched | NotifyWorkers | JoinOrch | JoinScheds | JoinWorkers.

Record Threads := mkThreads {
  sys : System;
  running_ : bool;
  worker_mu_ : bool;
  worker_waits : list wait_pc;
  sched_owes : list bool;
  sub_owes : bool;
  orch : OrchQueue;
  control : control_pc;
}.

#[export] Instance set_sys : Setter sys := fun f T =>
  mkThreads (f (sys T)) (running_ T) (worker_mu_ T) (worker_waits T) (sched_owes T) (sub_owes T)
    (orch T) (control T).
#[export] Instance set_running_ : Setter running_ := fun f T =>
  mkThreads (sys T) (f (running_ T)) (worker_mu_ T) (worker_waits T) (sched_owes T) (sub_owes T)
    (orch T) (control T).
#[export] Instance set_worker_mu_ : Setter worker_mu_ := fun f T =>
  mkThreads (sys T) (running_ T) (f (worker_mu_ T)) (worker_waits T) (sched_owes T) (sub_owes T)
    (orch T) (control T).
#[export] Instance set_worker_waits : Setter worker_waits := fun f T =>
  mkThreads (sys T) (running_ T) (worker_mu_ T) (f (worker_waits T)) (sched_owes T) (sub_owes T)
    (orch T) (control T).
#[export] Instance set_sched_owes : Setter sched_owes := fun f T =>
  mkThreads (sys T) (running_ T) (worker_mu_ T) (worker_waits T) (f (sched_owes T)) (sub_owes T)
    (orch T) (control T).
#[export] Instance set_sub_owes : Setter sub_owes := fun f T =>
  mkThreads (sys T) (running_ T) (worker_mu_ T) (worker_waits T) (sched_owes T) (f (sub_owes T))
    (orch T) (control T).
#[export] Instance set_orch : Setter orch := fun f T =>
  mkThreads (sys T) (running_ T) (worker_mu_ T) (worker_waits T) (sched_owes T) (sub_owes T)
    (f (orch T)) (control T).
#[export] Instance set_control : Setter control := fun f T =>
  mkThreads (sys T) (running_ T) (worker_mu_ T) (worker_waits T) (sched_owes T) (sub_owes T)
    (orch T) (f (control T)).

Definition stopping (T : Threads) : bool := stop_requested_ (shared (sys T)).
Definition rq_nonempty (T : Threads) : bool := rq_head_ (shared (sys T)) <? rq_tail_ (shared (sys T)).

(** A constructed runtime, with no thread yet. *)
Definition new_threads (y : System) (clients : nat) : Threads :=
  mkThreads y false false [] [] false (no_jobs clients) CtlIdle.

(** A step of the unsynchronised system; [k] is the rest of the step. *)
Definition step_sys (l : label) (T : Threads) (k : Threads -> Threads) : outcome (option Threads) :=
  let! y := exec l (sys T) in Ok (Some (k (T <| sys := y |>))).

(** [enqueue_ready] by any thread: the locked section. *)
Definition step_enqueue (l : label) (T : Threads) (k : Threads -> Threads) : outcome (option Threads) :=
  if worker_mu_ T then Ok None else step_sys l T k.

(** [worker_cv_.notify_one()] at the end of [enqueue_ready]. *)
Definition step_notify (w : nat) (T : Threads) : outcome (option Threads) :=
  Ok (match notify_one w (worker_waits T) with
      | Some ws => Some (T <| worker_waits := ws |>)
      | None => None
      end).

Definition set_wait (i : nat) (pc : wait_pc) (T : Threads) : Threads :=
  T <| worker_waits := <[i := pc]> (worker_waits T) |>.

(** One step of [worker_loop] of the [i]-th worker. *)
Definition worker_action (i w : nat) (T : Threads) : outcome (option Threads) :=
  match worker_waits T !! i with
  | None => Ok None
  | Some (Working true) => step_notify w (set_wait i (Working false) T)
  | Some (Working false) =>
      match workers (sys T) !! i with
      | Some WIdle => Ok (Some (set_wait i AtTop T))
      | Some (PEnqueue _ _ _) => step_enqueue (LWorker i) T (set_wait i (Working true))
      | _ => step_sys (LWorker i) T id
      end
  | Some Test =>
      let pc := if stopping T && negb (rq_nonempty T) then Exited else Working false in
      step_sys (LWorker i) T (fun T => set_wait i pc T <| worker_mu_ := false |>)
  | Some pc =>
      Ok (match wait_step (stopping T) (rq_nonempty T) (worker_mu_ T) pc with
          | Some (mu, pc) => Some (set_wait i pc T <| worker_mu_ := mu |>)
          | None => None
          end)
  end.

(** One step of [scheduler_loop] of the [i]-th scheduler. *)
Definition sched_action (i w : nat) (T : Threads) : outcome (option Threads) :=
  match sched_owes T !! i with
  | None => Ok None
  | Some true => step_notify w (T <| sched_owes := <[i := false]> (sched_owes T) |>)
  | Some false =>
      match scheds (sys T) !! i with
      | Some (KEnqueue _ _) =>
          step_enqueue (LSched i) T (fun T => T <| sched_owes := <[i := true]> (sched_owes T) |>)
      | Some KExited | None => Ok None
      | _ => step_sys (LSched i) T id
      end
  end.

(** One step of the thread in [submit_worker]. *)
Definition submit_action (w : nat) (T : Threads) : outcome (option Threads) :=
  if sub_owes T then step_notify w (T <| sub_owes := false |>) else
  match submitter (sys T) with
  | SIdle => Ok None
  | SEnqueue _ => step_enqueue LSubmit T (fun T => T <| sub_owes := true |>)
  | _ => step_sys LSubmit T id
  end.

Definition orch_action (T : Threads) : outcome (option Threads) :=
  let! o := orch_step (stopping T) (orch T) in
  Ok (match o with Some o => Some (T <| orch := o |>) | None => None end).
Definition client_action (j : nat) (T : Threads) : option Threads :=
  match client_step j (orch T) with Some o => Some (T <| orch := o |>) | None => None end.

(** [start] *)
Definition start_threads (T : Threads) : option Threads :=
  match control T with
  | CtlIdle =>
      if running_ T then Some T else
      let s := shared (sys T) in
      let nw := Z.to_nat (worker_count_ s) in
      let ns := Z.to_nat (sched_count_ s) in
      Some (T <| running_ := true |>
              <| sys := mkSystem (s <| stop_requested_ := false |>) (submitter (sys T))
                          (replicate nw WIdle) (replicate ns KIdle) |>
              <| worker_waits := replicate nw AtTop |> <| sched_owes := replicate ns false |>
              <| orch := (orch T) <| orch_wait := AtTop |> |>)
  | _ => None
  end.

(** [stop], up to the release of [state_mu_] ... *)
Definition request_stop (T : Threads) : outcome (option Threads) :=
  match control T with
  | CtlIdle => if running_ T then step_sys LStop T (fun T => T <| control := NotifyOrch |>) else Ok (Some T)
  | _ => Ok None
  end.

Definition is_exited (pc : wait_pc) : bool := match pc with Exited => true | _ => false end.
Definition sched_exited (k : sched_pc) : bool := match k with KExited => true | _ => false end.

(** ... and the rest of it; the last join and the end of [stop] are one step,
    since no thread of the runtime is left then. *)
Definition control_action (T : Threads) : option Threads :=
  match control T with
  | CtlIdle => None
  | NotifyOrch =>
      Some (T <| orch := (orch T) <| orch_wait := wake (orch_wait (orch T)) |> |> <| control := NotifySched |>)
  | NotifySched => Some (T <| control := NotifyWorkers |>)
  | NotifyWorkers =>
      Some (T <| worker_waits := notify_all (worker_waits T) |> <| control := JoinOrch |>)
  | JoinOrch => if is_exited (orch_wait (orch T)) then Some (T <| control := JoinScheds |>) else None
  | JoinScheds => if forallb sched_exited (scheds (sys T)) then Some (T <| control := JoinWorkers |>) else None
  | JoinWorkers =>
      if forallb is_exited (worker_waits T) then
        Some (T <| running_ := false |> <| worker_waits := [] |> <| sched_owes := [] |> <| control := CtlIdle |>)
      else None
  end.

(** [ACall], [ATensor], [AReady]: as [LCall], [LTensor], [LReady].  [w] is the
    worker that a [notify_one] of the step wakes.  The last two are spurious
    wake-ups. *)
Inductive action :=
  | AStart | AStop | AControl
  | ACall (c : Call) | ATensor (count : Z) | AReady (a : Z)
  | ASubmit (w : nat) | AWorker (i w : nat) | ASched (i w : nat)
  | AOrch | APush (j : nat) (job : OrchJob) | AClient (j : nat)
  | AWakeWorker (i : nat) | AWakeOrch.

(** [None]: the thread cannot take this step now. *)
Definition act (a : action) (T : Threads) : outcome (option Threads) :=
  match a with
  | AStart => Ok (start_threads T)
  | AStop => request_stop T
  | AControl => Ok (control_action T)
  | ACall c => step_sys (LCall c) T id
  | ATensor n => step_sys (LTensor n) T id
  | AReady r => step_sys (LReady r) T id
  | ASubmit w => submit_action w T
  | AWorker i w => worker_action i w T
  | ASched i w => sched_action i w T
  | AOrch => orch_action T
  | APush j job =>
      Ok (match submit_orchestrator j job (orch T) with Some o => Some (T <| orch := o |>) | None => None end)
  | AClient j => Ok (client_action j T)
  | AWakeWorker i =>
      Ok (match worker_waits T !! i with Some Blocked => Some (set_wait i Woken T) | _ => None end)
  | AWakeOrch =>
      Ok (match orch_wait (orch T) with
          | Blocked => Some (T <| orch := (orch T) <| orch_wait := Woken |> |>)
          | _ => None
          end)
  end.

(** A run of possible steps in which every state is calm ([calmb]). *)
Fixpoint perform (acts : list action) (T : Threads) : option Threads :=
  match acts with
  | [] => Some T
  | a :: acts =>
      match act a T with
      | Ok (Some T) => if calmb (sys T) then perform acts T else None
      | _ => None
      end
  end.

(** ** What a step of the system does to the ready queue *)

(** Tasks are only taken from the queue, and nobody asks to stop. *)
Record takes (s s' : LevelRuntime) : Prop := {
  tk_tail : rq_tail_ s' = rq_tail_ s;
  tk_head : rq_head_ s <= rq_head_ s';
  tk_stop : stop_requested_ s' = stop_requested_ s;
}.

Lemma takes_refl s : takes s s.
Proof. by constructor. Qed.
Lemma takes_trans s1 s2 s3 : takes s1 s2 -> takes s2 s3 -> takes s1 s3.
Proof. intros [] []. constructor; congruence || lia. Qed.

Lemma takes_write t f s s' : write_desc t f s = Ok s' -> takes s s'.
Proof. unfold write_desc. intros H. inv_ok. by constructor. Qed.

Lemma takes_retire s s' : try_advance_ring_pointers s = Ok s' -> takes s s'.
Proof.
  unfold try_advance_ring_pointers. intros H. apply bind_Ok in H as (c & _ & H).
  destruct (_ <? _); [|by simplify_eq]. destruct (_ <? _); [|by simplify_eq].
  apply bind_Ok in H as (d & _ & H). destruct (_ <? _); by simplify_eq.
Qed.

Lemma takes_lock t s s' : fanout_lock_acquire t s = Ok (Some s') -> takes s s'.
Proof.
  unfold fanout_lock_acquire. intros H. apply bind_Ok in H as (d & _ & H). destruct (_ =? _); [|by simplify_eq].
  apply bind_Ok in H as (s1 & H1 & H). simplify_eq. by eapply takes_write.
Qed.

Lemma takes_cas t s s' b : try_set_ready t s = Ok (s', b) -> takes s s'.
Proof.
  unfold try_set_ready. intros H. apply bind_Ok in H as (d & _ & H).
  destruct (status_eqb _ _); [|simplify_eq; apply takes_refl].
  apply bind_Ok in H as (s1 & H1 & H). simplify_eq. by eapply takes_write.
Qed.

Lemma takes_dequeue s s' t : dequeue_ready s = Ok (s', t) -> takes s s'.
Proof.
  unfold dequeue_ready. intros H. destruct (_ <=? _); [simplify_eq; apply takes_refl|].
  inv_ok. unfold i32_add in *. case_match; simplify_eq. constructor; cbn; lia || done.
Qed.

Lemma takes_place outs p s s' : place_outputs outs p s = Ok s' -> takes s s'.
Proof.
  revert p s. induction outs as [|t outs IH]; intros p s H; cbn [place_outputs] in H; [simplify_eq; apply takes_refl|].
  apply bind_Ok in H as (a & _ & H). apply bind_Ok in H as (u & _ & H). cbv zeta in H. apply IH in H.
  eapply takes_trans; [|exact H]. by constructor.
Qed.

Lemma takes_insert outs t s s' : insert_outputs outs t s = Ok s' -> takes s s'.
Proof.
  revert s. induction outs as [|o outs IH]; intros s H; cbn [insert_outputs] in H; [simplify_eq; apply takes_refl|].
  apply bind_Ok in H as (m & _ & H). apply IH in H. eapply takes_trans; [|exact H]. by constructor.
Qed.

Lemma takes_mark outs s : takes s (mark_all outs s).
Proof. destruct (mark_all_flags outs s) as [fl ->]. by constructor. Qed.

Create HintDb takes.
#[local] Hint Resolve takes_refl takes_write takes_retire takes_lock takes_cas takes_dequeue
  takes_place takes_insert takes_mark : takes.

(** Invert the steps of a definition that returned. *)
Ltac inv_step H :=
  repeat match type of H with
  | mbind _ _ = Ok _ => let x := fresh "x" in let Hx := fresh "Hx" in apply bind_Ok in H as (x & Hx & H)
  | (if ?b then _ else _) = Ok _ => destruct b
  | match ?o with _ => _ end = Ok _ => destruct o
  | (let (_, _) := ?p in _) = Ok _ => destruct p
  | Ok _ = Ok _ => injection H as H; try subst
  | Fault _ = Ok _ => discriminate H
  end.

Lemma worker_takes pc s s' pc' :
  worker_step pc s = Ok (s', pc') -> match pc with PEnqueue _ _ _ => False | _ => True end -> takes s s'.
Proof.
  intros H Hp. destruct pc; try (by destruct Hp); cbn [worker_step] in H; unfold fanout_unlock in H;
    inv_step H; simplify_eq; try case_match; simplify_eq; eauto with takes; by constructor.
Qed.

Lemma sched_takes k s s' k' :
  sched_step k s = Ok (s', k') -> match k with KEnqueue _ _ => False | _ => True end -> takes s s'.
Proof.
  intros H Hp. destruct k; try (by destruct Hp); cbn [sched_step] in H;
    inv_step H; simplify_eq; eauto with takes; by constructor.
Qed.

Lemma submit_takes sp s s' sp' :
  submit_step sp s = Ok (s', sp') -> match sp with SEnqueue _ => False | _ => True end -> takes s s'.
Proof.
  intros H Hp.
  assert (Ht : forall (b : bool) s', (if b then Ok s else try_advance_ring_pointers s) = Ok s' -> takes s s')
    by (intros [] s1 H1; [simplify_eq; apply takes_refl|by apply takes_retire]).
  destruct sp; try (by destruct Hp); cbn [submit_step] in H; unfold fanout_unlock in H;
    inv_step H; simplify_eq; eauto with takes; try (by constructor);
    try match goal with
    | x : LevelRuntime |- takes s _ =>
        apply (takes_trans s x); [solve [eauto with takes]|solve [by constructor | eauto with takes]]
    | E : write_desc _ _ ?x = Ok _ |- takes s _ => apply (takes_trans s x); [by constructor|by eapply takes_write]
    | E : place_outputs _ _ ?x = Ok ?z |- takes s ?y =>
        apply (takes_trans s z); [apply (takes_trans s x); [by constructor|by eapply takes_place]|by constructor]
    end.
  apply (takes_trans s x); [|by eapply takes_write]. case_match; [|simplify_eq; apply takes_refl].
  apply bind_Ok in Hx as (st & _ & Hx). simplify_eq. by constructor.
Qed.

(** The step of a label that is the locked section of [enqueue_ready]. *)
Definition enqueues (l : label) (y : System) : Prop :=
  match l with
  | LWorker i => match workers y !! i with Some (PEnqueue _ _ _) => True | _ => False end
  | LSched i => match scheds y !! i with Some (KEnqueue _ _) => True | _ => False end
  | LSubmit => match submitter y with SEnqueue _ => True | _ => False end
  | _ => False
  end.

Lemma exec_takes l y y' :
  exec l y = Ok y' -> ~ enqueues l y -> l <> LStop -> takes (shared y) (shared y').
Proof.
  intros H Hn Hl. destruct l; cbn [exec enqueues] in *.
  - destruct (submitter y); simplify_eq; apply takes_refl.
  - destruct (submitter y); simplify_eq; by constructor.
  - apply bind_Ok in H as ([s pc] & H1 & H). simplify_eq. eapply submit_takes; [exact H1|]. by destruct (submitter y).
  - destruct (workers y !! i) as [pc|] eqn:Hi; [|simplify_eq; apply takes_refl].
    apply bind_Ok in H as ([s pc'] & H1 & H). simplify_eq. eapply worker_takes; [exact H1|]. by destruct pc.
  - destruct (scheds y !! i) as [pc|] eqn:Hi; [|simplify_eq; apply takes_refl].
    apply bind_Ok in H as ([s pc'] & H1 & H). simplify_eq. eapply sched_takes; [exact H1|]. by destruct pc.
  - simplify_eq. by constructor.
  - done.
Qed.

Lemma enqueue_stop t s s' : enqueue_ready t s = Ok s' -> stop_requested_ s' = stop_requested_ s.
Proof. unfold enqueue_ready. intros H. inv_ok. done. Qed.

Lemma exec_enqueue_stop l y y' :
  exec l y = Ok y' -> enqueues l y -> stop_requested_ (shared y') = stop_requested_ (shared y).
Proof.
  intros H Hn. destruct l; try done; cbn [exec enqueues] in *.
  - destruct (submitter y); try done. cbn [submit_step] in H. inv_ok. by eapply enqueue_stop.
  - destruct (workers y !! i) as [[]|]; try done. cbn [worker_step] in H. inv_ok. by eapply enqueue_stop.
  - destruct (scheds y !! i) as [[]|]; try done. cbn [sched_step] in H. inv_ok. by eapply enqueue_stop.
Qed.

Lemma exec_workers l y y' :
  exec l y = Ok y' ->
  length (workers y') = length (workers y) /\
  forall i, l <> LWorker i -> workers y' !! i = workers y !! i.
Proof.
  intros H. destruct l; cbn [exec] in H; inv_step H; simplify_eq; cbn [workers]; try done.
  rewrite length_insert. split; [done|]. intros j Hj. apply list_lookup_insert_ne. congruence.
Qed.

(** ** Waiting does not add behaviour *)
Lemma step_sys_exec l T k T' :
  step_sys l T k = Ok (Some T') -> exists y, exec l (sys T) = Ok y /\ T' = k (T <| sys := y |>).
Proof. unfold step_sys. intros H. apply bind_Ok in H as (y & Hy & H). simplify_eq. eauto. Qed.

Lemma step_enqueue_exec l T k T' :
  step_enqueue l T k = Ok (Some T') ->
  worker_mu_ T = false /\ exists y, exec l (sys T) = Ok y /\ T' = k (T <| sys := y |>).
Proof. unfold step_enqueue. destruct (worker_mu_ T); [done|]. intros H%step_sys_exec. done. Qed.

Lemma step_notify_some w T T' :
  step_notify w T = Ok (Some T') ->
  exists ws, notify_one w (worker_waits T) = Some ws /\ T' = T <| worker_waits := ws |>.
Proof. unfold step_notify. destruct (notify_one w _) as [ws|]; intros; simplify_eq. eauto. Qed.

(** Every step but [start] is one step of the unsynchronised system or none. *)
Lemma act_refines a T T' :
  act a T = Ok (Some T') -> a <> AStart ->
  sys T' = sys T \/ exists l, exec l (sys T) = Ok (sys T').
Proof.
  intros H Ha.
  assert (Hs : forall l k, step_sys l T k = Ok (Some T') -> (forall T, sys (k T) = sys T) ->
            sys T' = sys T \/ exists l, exec l (sys T) = Ok (sys T')).
  { intros l k (y & Hy & ->)%step_sys_exec Hk. right. exists l. by rewrite Hk. }
  assert (He : forall l k, step_enqueue l T k = Ok (Some T') -> (forall T, sys (k T) = sys T) ->
            sys T' = sys T \/ exists l, exec l (sys T) = Ok (sys T')).
  { intros l k (_ & y & Hy & ->)%step_enqueue_exec Hk. right. exists l. by rewrite Hk. }
  assert (Hn : forall w T1, step_notify w T1 = Ok (Some T') -> sys T1 = sys T -> sys T' = sys T).
  { intros w T1 (ws & _ & ->)%step_notify_some. done. }
  destruct a; cbn [act] in H; try done.
  - unfold request_stop in H. destruct (control T); try done. destruct (running_ T); [exact (Hs _ _ H (fun _ => eq_refl))|simplify_eq; by left].
  - left. unfold control_action in H. repeat case_match; by simplify_eq.
  - exact (Hs _ _ H (fun _ => eq_refl)).
  - exact (Hs _ _ H (fun _ => eq_refl)).
  - exact (Hs _ _ H (fun _ => eq_refl)).
  - unfold submit_action in H. destruct (sub_owes T); [left; exact (Hn _ _ H eq_refl)|].
    destruct (submitter (sys T)); try done; exact (Hs _ _ H (fun _ => eq_refl)) || exact (He _ _ H (fun _ => eq_refl)).
  - unfold worker_action in H. destruct (worker_waits T !! i) as [pc|]; [|done].
    destruct pc as [| | | | | |[]|]; try exact (Hs _ _ H (fun _ => eq_refl)); try (left; exact (Hn _ _ H eq_refl));
      try (case_match; simplify_eq; repeat case_match; simplify_eq; by left).
    destruct (workers (sys T) !! i) as [[]|]; exact (Hs _ _ H (fun _ => eq_refl)) || exact (He _ _ H (fun _ => eq_refl)) || (simplify_eq; by left).
  - unfold sched_action in H. destruct (sched_owes T !! i) as [[]|]; [left; exact (Hn _ _ H eq_refl)| |done].
    destruct (scheds (sys T) !! i) as [[]|]; done || exact (Hs _ _ H (fun _ => eq_refl)) || exact (He _ _ H (fun _ => eq_refl)).
  - left. unfold orch_action in H. apply bind_Ok in H as (o & _ & H). case_match; by simplify_eq.
  - left. case_match; by simplify_eq.
  - left. unfold client_action in H. case_match; by simplify_eq.
  - left. repeat case_match; by simplify_eq.
  - left. repeat case_match; by simplify_eq.
Qed.

Lemma perform_refines acts T T' :
  perform acts T = Some T' -> AStart ∉ acts -> exists ls, calm_run ls (sys T) = Some (sys T').
Proof.
  revert T. induction acts as [|a acts IH]; intros T H Ha; cbn [perform] in H.
  - simplify_eq. by exists [].
  - destruct (act a T) as [[T1|]|] eqn:E; try done. destruct (calmb (sys T1)) eqn:Hc; [|done].
    apply not_elem_of_cons in Ha as [Ha1 Ha]. destruct (IH _ H Ha) as [ls Hls].
    destruct (act_refines _ _ _ E) as [He|[l He]]; [congruence| |].
    + exists ls. by rewrite <- He.
    + exists (l :: ls). cbn [calm_run]. by rewrite He, Hc.
Qed.

(** ** The invariant of a life, from [start] on *)

(** The thread will look at the queue again. *)
Definition awake (pc : wait_pc) : bool := match pc with Blocked | ToSleep | Exited => false | _ => true end.
Definition waits_as (pc : wait_pc) (wpc : worker_pc) : Prop :=
  match pc with Working _ => True | Exited => wpc = WExited | _ => wpc = WIdle end.
Definition holds_z (pc : wait_pc) : Z := Z.b2z (holds pc).
(** A thread that is no worker has still to call [notify_one]. *)
Definition owed (T : Threads) : Prop := sub_owes T = true \/ true ∈ sched_owes T.

Record orch_inv (stop : bool) (o : OrchQueue) : Prop := {
  oi_mu : orch_mu_ o = holds (orch_wait o);
  oi_sleep : orch_wait o = ToSleep -> orch_queue_ o = [];
  oi_test : orch_wait o = Test -> stop = true \/ orch_queue_ o <> [];
  oi_wake : orch_queue_ o <> [] -> orch_wait o = Blocked -> ClientNotify ∈ clients o;
  oi_fifo : jobs_in o = jobs_done o ++ option_list (orch_job o) ++ orch_queue_ o;
  oi_job : match orch_wait o with Working _ => is_Some (orch_job o) | _ => orch_job o = None end;
  oi_exit : orch_wait o = Exited -> stop = true;
}.

Record tinv (T : Threads) : Prop := {
  ti_run : running_ T = false -> stopping T = true /\ worker_waits T = [];
  ti_len : running_ T = true -> length (worker_waits T) = length (workers (sys T));
  ti_mu : zsum holds_z (worker_waits T) = Z.b2z (worker_mu_ T);
  ti_pcs : forall i pc wpc, worker_waits T !! i = Some pc -> workers (sys T) !! i = Some wpc -> waits_as pc wpc;
  ti_sleep : ToSleep ∈ worker_waits T -> rq_nonempty T = false;
  ti_wake : rq_nonempty T = true ->
    owed T \/ (exists pc, pc ∈ worker_waits T /\ awake pc = true) \/ Forall (eq Exited) (worker_waits T);
  ti_exit : Exited ∈ worker_waits T -> stopping T = true;
  ti_orch : orch_inv (stopping T) (orch T);
  ti_control : control T <> CtlIdle -> stopping T = true;
}.

Lemma elem_insert {A} (x y : A) (i : nat) (l : list A) : x ∈ <[i := y]> l -> x = y \/ x ∈ l.
Proof.
  intros [j Hj]%list_elem_of_lookup. apply list_lookup_insert_Some in Hj as [(_ & -> & _)|[_ Hj]]; [by left|].
  right. by eapply list_elem_of_lookup_2.
Qed.

Lemma insert_elem {A} (y : A) (i : nat) (l : list A) x : l !! i = Some x -> y ∈ <[i := y]> l.
Proof. intros Hi. apply list_elem_of_lookup. exists i. apply list_lookup_insert_eq. by eapply lookup_lt_Some. Qed.

Lemma no_holder ws : zsum holds_z ws = 0 -> forall pc, pc ∈ ws -> holds pc = false.
Proof.
  intros Hz pc Hpc. pose proof (zsum_elem holds_z ws pc) as Hle. unfold holds_z in Hle at 1 2.
  destruct (holds pc); [|done]. cbn [Z.b2z] in Hle.
  assert (forall y, y ∈ ws -> 0 <= Z.b2z (holds y)) by (intros y _; destruct (holds y); simpl; lia). lia || naive_solver lia.
Qed.

(** Steps of other threads than the workers. *)
Lemma tinv_others T y so su o c :
  tinv T -> takes (shared (sys T)) (shared y) -> workers y = workers (sys T) ->
  (owed T -> su = true \/ true ∈ so) -> orch_inv (stopping T) o -> (c <> CtlIdle -> stopping T = true) ->
  tinv (mkThreads y (running_ T) (worker_mu_ T) (worker_waits T) so su o c).
Proof.
  intros [H1 H2 H3 H4 H5 H6 H7 H8 H9] [Ht Hh Hs] Hw Ho Hoi Hc.
  assert (Hq : forall b, rq_nonempty (mkThreads y (running_ T) (worker_mu_ T) (worker_waits T) so su o c) = true ->
    rq_nonempty T = b -> b = true) by (unfold rq_nonempty; cbn; intros b Hb <-; lia).
  constructor; cbn; rewrite ?Hw; try done; unfold stopping in *; cbn; rewrite ?Hs; try done.
  - intros Hsl. specialize (H5 Hsl). unfold rq_nonempty in *. cbn. lia.
  - intros Hne. destruct (H6 (Hq _ Hne eq_refl)) as [Hw1|Hw1]; [left; by apply Ho|by right].
Qed.

(** A step of the [i]-th worker other than [enqueue_ready] and [notify_one]. *)
Lemma tinv_worker T y i pc pc' mu' :
  tinv T -> worker_waits T !! i = Some pc ->
  takes (shared (sys T)) (shared y) -> length (workers y) = length (workers (sys T)) ->
  (forall j, j <> i -> workers y !! j = workers (sys T) !! j) ->
  (forall wpc, workers y !! i = Some wpc -> waits_as pc' wpc) ->
  Z.b2z mu' + holds_z pc = Z.b2z (worker_mu_ T) + holds_z pc' ->
  (awake pc' = false -> rq_nonempty T = false) -> (pc' = Exited -> stopping T = true) ->
  tinv (mkThreads y (running_ T) mu' (<[i := pc']> (worker_waits T)) (sched_owes T) (sub_owes T) (orch T) (control T)).
Proof.
  intros [H1 H2 H3 H4 H5 H6 H7 H8 H9] Hi [Ht Hh Hs] Hl Hj Hpc Hmu Hq Hex.
  constructor; cbn; unfold stopping in *; cbn; rewrite ?Hs; try done.
  - intros Hr. destruct (H1 Hr) as [? ->]. done.
  - rewrite length_insert, Hl. done.
  - rewrite (zsum_insert _ _ _ pc) by done. lia.
  - intros j p wpc Hp Hwp. apply list_lookup_insert_Some in Hp as [(-> & -> & _)|[Hne Hp]]; [by apply Hpc|].
    rewrite Hj in Hwp by done. by eapply H4.
  - intros [Heq|Hsl]%elem_insert; [rewrite <- Heq in Hq; specialize (Hq eq_refl)|specialize (H5 Hsl)];
      unfold rq_nonempty in *; cbn; lia.
  - intros Hne. right. left. exists pc'. split; [by eapply insert_elem|]. destruct (awake pc'); [done|].
    specialize (Hq eq_refl). unfold rq_nonempty in *. cbn in Hne. lia.
  - intros [Heq|Hsl]%elem_insert; [by apply Hex|by apply H7].
Qed.

(** The locked section of [enqueue_ready]. *)
Lemma tinv_enqueue T y ws so su :
  tinv T -> worker_mu_ T = false -> stop_requested_ (shared y) = stop_requested_ (shared (sys T)) ->
  length (workers y) = length (workers (sys T)) ->
  (ws = worker_waits T /\ workers y = workers (sys T) /\ (su = true \/ true ∈ so) \/
   exists i b, worker_waits T !! i = Some (Working b) /\ ws = <[i := Working true]> (worker_waits T) /\
     (forall j, j <> i -> workers y !! j = workers (sys T) !! j)) ->
  tinv (mkThreads y (running_ T) false ws so su (orch T) (control T)).
Proof.
  intros [H1 H2 H3 H4 H5 H6 H7 H8 H9] Hmu Hs Hl Hcase. rewrite Hmu in H3.
  pose proof (no_holder _ H3) as Hno.
  assert (Hsl : ToSleep ∉ worker_waits T) by (intros Hin%Hno; done).
  destruct Hcase as [(-> & Hw & Ho)|(i & b & Hi & -> & Hj)].
  - constructor; cbn; unfold stopping in *; cbn; rewrite ?Hs, ?Hw; try done. intros _. by left.
  - constructor; cbn; unfold stopping in *; cbn; rewrite ?Hs; try done.
    + intros Hr. destruct (H1 Hr) as [? ->]. done.
    + rewrite length_insert, Hl. done.
    + rewrite (zsum_insert _ _ _ (Working b)) by done. rewrite H3. done.
    + intros j p wpc Hp Hwp. apply list_lookup_insert_Some in Hp as [(-> & <- & _)|[Hne Hp]]; [done|].
      rewrite Hj in Hwp by done. by eapply H4.
    + by intros [?|?]%elem_insert.
    + intros _. right. left. exists (Working true). split; [by eapply insert_elem|done].
    + intros [?|?]%elem_insert; [done|by apply H7].
Qed.

(** Waking threads: each position keeps its thread or is woken. *)
Lemma tinv_wake T ws so su c :
  tinv T -> length ws = length (worker_waits T) ->
  (forall i pc, ws !! i = Some pc ->
     worker_waits T !! i = Some pc \/ (worker_waits T !! i = Some Blocked /\ pc = Woken) \/
     (exists b b', worker_waits T !! i = Some (Working b) /\ pc = Working b')) ->
  (rq_nonempty T = true ->
   (su = true \/ true ∈ so) \/ (exists pc, pc ∈ ws /\ awake pc = true) \/ Forall (eq Exited) ws) ->
  (c <> CtlIdle -> stopping T = true) ->
  tinv (mkThreads (sys T) (running_ T) (worker_mu_ T) ws so su (orch T) c).
Proof.
  intros [H1 H2 H3 H4 H5 H6 H7 H8 H9] Hl Hpc Hwk Hc.
  assert (Hin : forall pc, pc ∈ ws -> pc ∈ worker_waits T \/ awake pc = true).
  { intros pc [i Hi]%list_elem_of_lookup. destruct (Hpc _ _ Hi) as [Hi'|[[_ ->]|(b & b' & _ & ->)]];
      [left; by eapply list_elem_of_lookup_2|by right..]. }
  constructor; cbn; try done.
  - intros Hr. destruct (H1 Hr) as [? Hn]. rewrite Hn in Hl. by destruct ws.
  - by rewrite Hl.
  - rewrite <- H3. clear -Hl Hpc. revert Hl Hpc. generalize (worker_waits T). intros l. revert ws.
    induction l as [|x l IH]; intros [|p ws] Hl Hpc; try done. simpl. rewrite (IH ws).
    + f_equal. destruct (Hpc 0%nat p eq_refl) as [E|[[E ->]|(b & b' & E & ->)]]; simplify_eq/=; done.
    + by simplify_eq/=.
    + intros i pc Hi. exact (Hpc (S i) pc Hi).
  - intros i pc wpc Hi Hw. destruct (Hpc _ _ Hi) as [Hi'|[[Hi' ->]|(b & b' & _ & ->)]]; [by eapply H4| |done].
    exact (H4 _ _ _ Hi' Hw).
  - intros Hs. destruct (Hin _ Hs) as [?|?]; [by apply H5|done].
  - intros Hs. destruct (Hin _ Hs) as [?|?]; [by apply H7|done].
Qed.

(** *** The orchestrator's part *)
Lemma orch_step_inv stop o :
  orch_inv stop o ->
  exists r, orch_step stop o = Ok r /\ match r with Some o' => orch_inv stop o' | None => True end.
Proof.
  intros [H1 H2 H3 H4 H5 H6 H7]. unfold orch_step. destruct (orch_wait o) eqn:Ew; cbn [wait_step holds] in *.
  - eexists. split; [done|]. rewrite H1. constructor; cbn; rewrite ?H6 in *; try done.
  - eexists. split; [done|]. destruct (stop || nonempty (orch_queue_ o)) eqn:Eb; constructor; cbn; rewrite ?H6 in *; try done.
    + intros _. destruct stop; [by left|right]. by destruct (orch_queue_ o).
    + intros _. destruct stop; [done|]. by destruct (orch_queue_ o).
  - eexists. split; [done|]. constructor; cbn; rewrite ?H6 in *; try done. rewrite H2; done.
  - eexists. split; [done|]. done.
  - eexists. split; [done|]. rewrite H1. constructor; cbn; rewrite ?H6 in *; try done.
  - destruct (orch_queue_ o) as [|job q] eqn:Eq.
    + destruct (H3 eq_refl) as [-> |]; [|done]. eexists. split; [done|].
      constructor; cbn; rewrite ?Eq, ?H6 in *; try done.
    + rewrite andb_false_r. eexists. split; [done|]. constructor; cbn; rewrite ?H6 in *; try done.
  - destruct H6 as [job Hj]. rewrite Hj in *. bind_simpl. eexists. split; [done|].
    constructor; cbn; try done. by rewrite H5, <- app_assoc.
  - eexists. split; [done|]. done.
Qed.

Lemma orch_wake_inv stop o : orch_inv stop o -> orch_inv stop (o <| orch_wait := wake (orch_wait o) |>).
Proof.
  intros [H1 H2 H3 H4 H5 H6 H7]. destruct (orch_wait o) eqn:Ew; constructor; cbn; rewrite ?Ew in *; try done.
Qed.

Lemma client_elem (cs : list client_pc) j pc pc' :
  ClientNotify ∈ cs -> cs !! j = Some pc -> pc <> ClientNotify -> ClientNotify ∈ <[j := pc']> cs.
Proof.
  intros [k Hk]%list_elem_of_lookup Hj Hne. apply list_elem_of_lookup. exists k.
  rewrite list_lookup_insert_ne; [done|]. intros ->. rewrite Hk in Hj. by injection Hj as <-.
Qed.

Lemma client_step_inv stop j o o' : orch_inv stop o -> client_step j o = Some o' -> orch_inv stop o'.
Proof.
  intros Ho. pose proof Ho as [H1 H2 H3 H4 H5 H6 H7]. unfold client_step.
  destruct (clients o !! j) as [[|job|]|] eqn:Hj; try done.
  - destruct (orch_mu_ o) eqn:Hmu; [done|]. intros [= <-]. constructor; cbn; try done.
    + by rewrite Hmu.
    + intros E. rewrite E in H1. done.
    + intros E. rewrite E in H1. done.
    + intros _ _. by eapply insert_elem.
    + by rewrite H5, <- !app_assoc.
  - intros [= <-]. destruct (orch_wake_inv _ _ Ho) as [K1 K2 K3 K4 K5 K6 K7]. cbn in *.
    constructor; cbn; try done. intros _ Hb. destruct (orch_wait o); done.
Qed.

Lemma submit_orchestrator_inv stop j job o o' :
  orch_inv stop o -> submit_orchestrator j job o = Some o' -> orch_inv stop o'.
Proof.
  intros [H1 H2 H3 H4 H5 H6 H7]. unfold submit_orchestrator. destruct (clients o !! j) as [[]|] eqn:Hj; try done.
  intros [= <-]. constructor; cbn; try done. intros Hq Hw. eapply client_elem; eauto.
Qed.

Lemma orch_inv_stop stop o : orch_inv stop o -> orch_inv true o.
Proof. intros []. constructor; auto. Qed.

(** *** Every step keeps the invariant *)
Lemma notify_one_wakes w ws ws' i pc :
  notify_one w ws = Some ws' -> ws' !! i = Some pc ->
  ws !! i = Some pc \/ (ws !! i = Some Blocked /\ pc = Woken).
Proof.
  unfold notify_one. case_decide; [|by intros [= <-]; left]. destruct (ws !! w) as [[]|] eqn:Hw; try done.
  intros [= <-] [(-> & -> & _)|[_ Hi]]%list_lookup_insert_Some; [by right|by left].
Qed.

Lemma notify_one_length w ws ws' : notify_one w ws = Some ws' -> length ws' = length ws.
Proof.
  unfold notify_one. case_decide; [|by intros [= <-]]. destruct (ws !! w) as [[]|]; try done.
  intros [= <-]. by rewrite length_insert.
Qed.

Lemma notify_one_awake w ws ws' :
  notify_one w ws = Some ws' -> ToSleep ∉ ws ->
  (exists pc, pc ∈ ws' /\ awake pc = true) \/ Forall (eq Exited) ws'.
Proof.
  unfold notify_one. case_decide as Hb.
  - destruct (ws !! w) as [[]|] eqn:Hw; try done. intros [= <-] _. left. exists Woken.
    split; [by eapply insert_elem|done].
  - intros [= <-] Hs. clear w. induction ws as [|pc ws IH]; [by right|].
    apply not_elem_of_cons in Hb as [Hb1 Hb]. apply not_elem_of_cons in Hs as [Hs1 Hs].
    destruct (awake pc) eqn:Ha; [left; exists pc; split; [by left|done]|].
    destruct (IH Hb Hs) as [(p & Hp & Hpa)|Hall]; [left; exists p; split; [by right|done]|].
    right. constructor; [|done]. by destruct pc.
Qed.

Lemma tinv_notify T so su w T' :
  tinv T ->
  step_notify w (mkThreads (sys T) (running_ T) (worker_mu_ T) (worker_waits T) so su (orch T) (control T)) =
    Ok (Some T') -> tinv T'.
Proof.
  intros HT (ws & Hws & ->)%step_notify_some. apply (tinv_wake T ws so su (control T)); [done|..].
  - by eapply notify_one_length.
  - intros i pc Hi. destruct (notify_one_wakes _ _ _ _ _ Hws Hi) as [?|?]; [by left|right; by left].
  - intros Hne. right. apply (notify_one_awake _ _ _ Hws). intros Hs%(ti_sleep _ HT). congruence.
  - apply HT.
Qed.

(** A step of the system that is no [enqueue_ready], by the submitting thread
    or a scheduler or from outside. *)
Lemma tinv_sys l T y :
  tinv T -> exec l (sys T) = Ok y -> ~ enqueues l (sys T) -> (forall i, l <> LWorker i) -> l <> LStop ->
  tinv (mkThreads y (running_ T) (worker_mu_ T) (worker_waits T) (sched_owes T) (sub_owes T) (orch T) (control T)).
Proof.
  intros HT He Hn Hw Hs. apply tinv_others; [done|by eapply exec_takes| |done|apply HT..].
  apply list_eq. intros i. by apply (exec_workers _ _ _ He).
Qed.

Lemma tinv_sys_enqueue l T y so su :
  tinv T -> worker_mu_ T = false -> exec l (sys T) = Ok y -> enqueues l (sys T) -> (forall i, l <> LWorker i) ->
  su = true \/ true ∈ so ->
  tinv (mkThreads y (running_ T) (worker_mu_ T) (worker_waits T) so su (orch T) (control T)).
Proof.
  intros HT Hmu He Hn Hw Ho. rewrite Hmu. apply tinv_enqueue; [done|done|by eapply exec_enqueue_stop|by eapply exec_workers|].
  left. split; [done|]. split; [|done]. apply list_eq. intros i. by apply (exec_workers _ _ _ He).
Qed.

Lemma worker_idle_step i T y :
  workers (sys T) !! i = Some WIdle -> exec (LWorker i) (sys T) = Ok y ->
  takes (shared (sys T)) (shared y) /\
  (rq_nonempty T = false -> stopping T = true -> workers y !! i = Some WExited).
Proof.
  intros Hi He. split.
  - eapply exec_takes; [exact He| |done]. cbn [enqueues]. rewrite Hi. tauto.
  - unfold rq_nonempty, stopping. intros Hq Hs. cbn [exec] in He. rewrite Hi in He. cbn [worker_step] in He.
    rewrite Hq, Hs in He. bind_simpl. cbn in He. simplify_eq. simpl. apply list_lookup_insert_eq. by eapply lookup_lt_Some.
Qed.

Lemma holder_mu T i pc :
  tinv T -> worker_waits T !! i = Some pc -> holds pc = true -> worker_mu_ T = true.
Proof.
  intros HT Hi Hh. destruct (worker_mu_ T) eqn:Hmu; [done|]. pose proof (ti_mu _ HT) as Hz. rewrite Hmu in Hz.
  rewrite (no_holder _ Hz pc) in Hh; [done|]. by eapply list_elem_of_lookup_2.
Qed.

(** A step of a wait. *)
Lemma tinv_wait_step T i pc mu' pc' :
  tinv T -> worker_waits T !! i = Some pc ->
  wait_step (stopping T) (rq_nonempty T) (worker_mu_ T) pc = Some (mu', pc') ->
  tinv (mkThreads (sys T) (running_ T) mu' (<[i := pc']> (worker_waits T)) (sched_owes T) (sub_owes T) (orch T) (control T)).
Proof.
  intros HT Hi Hw. pose proof (holder_mu T i pc HT Hi) as Hmu.
  assert (Hidle : forall wpc, workers (sys T) !! i = Some wpc -> waits_as pc' wpc).
  { intros wpc Hwpc. pose proof (ti_pcs _ HT _ _ _ Hi Hwpc) as Hp.
    destruct pc; cbn [wait_step] in Hw; try case_match; simplify_eq; try done. }
  apply (tinv_worker T (sys T) i pc pc' mu'); try done; try apply takes_refl.
  - destruct pc; cbn [wait_step] in Hw; try (case_match; simplify_eq); simplify_eq; try done;
      rewrite Hmu by done; done.
  - intros Ha. destruct pc; cbn [wait_step] in Hw; try (case_match; simplify_eq); simplify_eq; try done.
    + by destruct (stopping T), (rq_nonempty T).
    + apply (ti_sleep _ HT). by eapply list_elem_of_lookup_2.
  - intros ->. destruct pc; cbn [wait_step] in Hw; repeat case_match; simplify_eq.
Qed.

Lemma worker_of_wait T i pc :
  tinv T -> worker_waits T !! i = Some pc -> exists wpc, workers (sys T) !! i = Some wpc.
Proof.
  intros HT Hi. destruct (running_ T) eqn:Hr.
  - apply lookup_lt_is_Some. rewrite <- (ti_len _ HT) by done. by eapply lookup_lt_Some.
  - destruct (ti_run _ HT Hr) as [_ E]. by rewrite E in Hi.
Qed.

Lemma worker_action_inv i w T T' :
  tinv T -> worker_action i w T = Ok (Some T') -> tinv T'.
Proof.
  intros HT H. unfold worker_action in H. destruct (worker_waits T !! i) as [pc|] eqn:Hi; [|done].
  pose proof (tinv_wait_step T i pc) as Hwait.
  assert (Hown : forall y, exec (LWorker i) (sys T) = Ok y -> takes (shared (sys T)) (shared y) -> forall pc' mu',
    (forall wpc, workers y !! i = Some wpc -> waits_as pc' wpc) ->
    Z.b2z mu' + holds_z pc = Z.b2z (worker_mu_ T) + holds_z pc' ->
    (awake pc' = false -> rq_nonempty T = false) -> (pc' = Exited -> stopping T = true) ->
    tinv (mkThreads y (running_ T) mu' (<[i := pc']> (worker_waits T)) (sched_owes T) (sub_owes T) (orch T) (control T))).
  { intros y He Ht pc' mu' Hw Hmu Ha Hx. destruct (exec_workers _ _ _ He) as [Hl Hj].
    apply (tinv_worker T y i pc pc' mu'); try done. intros j Hne. apply Hj. congruence. }
  destruct pc as [| | | | | |[]|].
  1-5, 9: destruct (wait_step _ _ _ _) as [[mu pc']|] eqn:Ew; simplify_eq; by apply (Hwait mu pc').
  - apply step_sys_exec in H as (y & He & ->).
    destruct (worker_of_wait T i Test HT Hi) as [wpc Hw]. pose proof (ti_pcs _ HT _ _ _ Hi Hw) as Hp. simpl in Hp. subst wpc.
    destruct (worker_idle_step _ _ _ Hw He) as [Ht Hx]. pose proof (holder_mu _ _ _ HT Hi eq_refl) as Hmu.
    destruct (stopping T) eqn:Hs, (rq_nonempty T) eqn:Hq; cbn [andb negb]; (apply Hown; [exact He|exact Ht|..]; rewrite ?Hmu; try done).
    intros wpc Hwpc. change (workers y !! i = Some wpc) in Hwpc. rewrite Hx in Hwpc by done. by injection Hwpc as <-.
  - apply (tinv_notify (set_wait i (Working false) T) (sched_owes T) (sub_owes T) w); [|exact H].
    apply (tinv_worker T (sys T) i (Working true) (Working false)); done || apply takes_refl.
  - destruct (worker_of_wait T i _ HT Hi) as [wpc Hw]. rewrite Hw in H.
    assert (Hbody : step_sys (LWorker i) T id = Ok (Some T') -> ~ enqueues (LWorker i) (sys T) -> tinv T').
    { intros (y & He & ->)%step_sys_exec Hn. pose proof (exec_takes _ _ _ He Hn ltac:(done)) as Ht.
      specialize (Hown y He Ht (Working false) (worker_mu_ T) ltac:(done) eq_refl ltac:(done) ltac:(done)).
      by rewrite list_insert_id in Hown. }
    destruct wpc; try (apply Hbody; [exact H|cbn [enqueues]; rewrite Hw; tauto]).
    + simplify_eq. apply (tinv_worker T (sys T) i (Working false) AtTop); try done.
      intros wpc Hwpc. rewrite Hw in Hwpc. by injection Hwpc as <-.
    + apply step_enqueue_exec in H as (Hmu & y & He & ->).
      destruct (exec_workers _ _ _ He) as [Hl Hj]. assert (Hn : enqueues (LWorker i) (sys T)) by (cbn [enqueues]; by rewrite Hw).
      pose proof (tinv_enqueue T y (<[i := Working true]> (worker_waits T)) (sched_owes T) (sub_owes T)
        HT Hmu (exec_enqueue_stop _ _ _ He Hn) Hl) as Hr. rewrite <- Hmu in Hr. apply Hr.
      right. exists i, false. split_and!; [done..|]. intros j Hne. apply Hj. congruence.
Qed.

Lemma sched_action_inv i w T T' :
  tinv T -> sched_action i w T = Ok (Some T') -> tinv T'.
Proof.
  intros HT H. unfold sched_action in H. destruct (sched_owes T !! i) as [[]|] eqn:Hi; [|..|done].
  - eapply tinv_notify; [exact HT|exact H].
  - destruct (scheds (sys T) !! i) as [k|] eqn:Hk; [|done].
    assert (Hbody : step_sys (LSched i) T id = Ok (Some T') -> ~ enqueues (LSched i) (sys T) -> tinv T').
    { intros (y & He & ->)%step_sys_exec Hn. by apply (tinv_sys _ _ _ HT He Hn). }
    destruct k; try done; try (apply Hbody; [exact H|cbn [enqueues]; rewrite Hk; tauto]).
    apply step_enqueue_exec in H as (Hmu & y & He & ->).
    apply (tinv_sys_enqueue (LSched i) T y (<[i := true]> (sched_owes T)) (sub_owes T)); try done.
    + cbn [enqueues]. by rewrite Hk.
    + right. by eapply insert_elem.
Qed.

Lemma submit_action_inv w T T' : tinv T -> submit_action w T = Ok (Some T') -> tinv T'.
Proof.
  intros HT H. unfold submit_action in H. destruct (sub_owes T) eqn:Ho.
  - eapply tinv_notify; [exact HT|exact H].
  - assert (Hbody : step_sys LSubmit T id = Ok (Some T') -> ~ enqueues LSubmit (sys T) -> tinv T').
    { intros (y & He & ->)%step_sys_exec Hn. by apply (tinv_sys _ _ _ HT He Hn). }
    destruct (submitter (sys T)) eqn:Hs; try done; try (apply Hbody; [exact H|cbn [enqueues]; rewrite Hs; tauto]).
    apply step_enqueue_exec in H as (Hmu & y & He & ->).
    apply (tinv_sys_enqueue LSubmit T y (sched_owes T) true); try done; [|by left].
    cbn [enqueues]. by rewrite Hs.
Qed.

Lemma notify_all_lookup ws i pc :
  notify_all ws !! i = Some pc -> ws !! i = Some pc \/ (ws !! i = Some Blocked /\ pc = Woken).
Proof.
  unfold notify_all. rewrite list_lookup_fmap. destruct (ws !! i) as [p|]; [|done]. intros [= <-].
  destruct p; simpl; auto.
Qed.

Lemma notify_all_awake ws :
  ToSleep ∉ ws -> (exists pc, pc ∈ notify_all ws /\ awake pc = true) \/ Forall (eq Exited) (notify_all ws).
Proof.
  induction ws as [|pc ws IH]; intros Hs; [by right|]. apply not_elem_of_cons in Hs as [Hs1 Hs]. cbn.
  destruct (awake (wake pc)) eqn:Ha; [left; exists (wake pc); split; [by left|done]|].
  destruct (IH Hs) as [(p & Hp & Hpa)|Hall]; [left; exists p; split; [by right|done]|].
  right. constructor; [|done]. by destruct pc.
Qed.

Lemma all_exited ws : forallb is_exited ws = true -> forall pc, pc ∈ ws -> pc = Exited.
Proof.
  rewrite forallb_forall. intros Hf pc Hpc%list_elem_of_In. specialize (Hf pc Hpc). by destruct pc.
Qed.

Lemma control_action_inv T T' : tinv T -> control_action T = Some T' -> tinv T'.
Proof.
  intros HT H. unfold control_action in H.
  assert (Hstop : control T <> CtlIdle -> stopping T = true) by apply HT.
  assert (Hctl : forall o c, orch_inv (stopping T) o -> (c <> CtlIdle -> stopping T = true) ->
    tinv (mkThreads (sys T) (running_ T) (worker_mu_ T) (worker_waits T) (sched_owes T) (sub_owes T) o c)).
  { intros o c Ho Hc. apply tinv_others; try done. }
  destruct (control T) eqn:Ec; try done; try specialize (Hstop ltac:(done)).
  - simplify_eq. by apply Hctl; [apply orch_wake_inv, HT|].
  - simplify_eq. by apply Hctl; [apply HT|].
  - simplify_eq. apply (tinv_wake T (notify_all (worker_waits T)) (sched_owes T) (sub_owes T) JoinOrch); try done.
    + apply length_map.
    + intros i pc Hi. destruct (notify_all_lookup _ _ _ Hi) as [?|?]; auto.
    + intros Hne. right. apply notify_all_awake. intros Hs%(ti_sleep _ HT). congruence.
  - case_match; simplify_eq. by apply Hctl; [apply HT|].
  - case_match; simplify_eq. by apply Hctl; [apply HT|].
  - case_match eqn:Hall; simplify_eq. pose proof (all_exited _ Hall) as Hall'.
    destruct HT as [H1 H2 H3 H4 H5 H6 H7 H8 H9]. constructor; cbn; try done.
    + rewrite <- H3. symmetry. apply zsum_zero. intros pc Hpc. by rewrite (Hall' pc Hpc).
    + by intros ?%not_elem_of_nil.
    + intros _. right. right. constructor.
Qed.

Lemma act_inv a T T' : tinv T -> act a T = Ok (Some T') -> a <> AStart -> tinv T'.
Proof.
  intros HT H Ha. assert (Hoi : forall o, orch_inv (stopping T) o -> tinv (T <| orch := o |>)).
  { intros o Ho. apply (tinv_others T (sys T) (sched_owes T) (sub_owes T) o (control T)); try done. apply HT. }
  destruct a; cbn [act] in H; try done.
  - unfold request_stop in H. destruct (control T); try done. destruct (running_ T) eqn:Hr; [|by simplify_eq].
    apply step_sys_exec in H as (y & He & ->). simpl in He. simplify_eq. destruct HT as [H1 H2 H3 H4 H5 H6 H7 H8 H9].
    constructor; cbn; try done; unfold stopping; cbn; try done; [congruence|]. by eapply orch_inv_stop.
  - injection H as H. by eapply control_action_inv.
  - apply step_sys_exec in H as (y & He & ->). apply (tinv_sys _ _ _ HT He); cbn; tauto || done.
  - apply step_sys_exec in H as (y & He & ->). apply (tinv_sys _ _ _ HT He); cbn; tauto || done.
  - apply step_sys_exec in H as (y & He & ->). apply (tinv_sys _ _ _ HT He); cbn; tauto || done.
  - by eapply submit_action_inv.
  - by eapply worker_action_inv.
  - by eapply sched_action_inv.
  - unfold orch_action in H. destruct (orch_step_inv _ _ (ti_orch _ HT)) as (r & Er & Hr). rewrite Er in H. cbn in H.
    destruct r as [o|]; simplify_eq. by apply Hoi.
  - destruct (submit_orchestrator j job (orch T)) as [o|] eqn:E; simplify_eq. apply Hoi.
    eapply submit_orchestrator_inv; [apply HT|done].
  - unfold client_action in H. destruct (client_step j (orch T)) as [o|] eqn:E; simplify_eq. apply Hoi.
    eapply client_step_inv; [apply HT|done].
  - destruct (worker_waits T !! i) as [[]|] eqn:Hi; simplify_eq.
    apply (tinv_worker T (sys T) i Blocked Woken); try done.
    intros wpc Hw. exact (ti_pcs _ HT _ _ _ Hi Hw).
  - destruct (orch_wait (orch T)) eqn:E; simplify_eq. apply Hoi. pose proof (orch_wake_inv _ _ (ti_orch _ HT)) as Hw.
    by rewrite E in Hw.
Qed.

Lemma exec_scheds l y y' : exec l y = Ok y' -> length (scheds y') = length (scheds y).
Proof. intros H. destruct l; cbn [exec] in H; inv_step H; simplify_eq; cbn [scheds]; try done. by rewrite length_insert. Qed.

(** Each scheduler has its [owes]; [stop] is only under way while it runs. *)
Definition sched_sizes (T : Threads) : Prop :=
  (running_ T = true -> length (sched_owes T) = length (scheds (sys T))) /\
  (running_ T = false -> control T = CtlIdle).

Lemma act_frame a T T' :
  act a T = Ok (Some T') -> a <> AStart -> a <> AControl -> a <> AStop ->
  running_ T' = running_ T /\ control T' = control T /\ length (sched_owes T') = length (sched_owes T).
Proof.
  intros H Ha Hc Ht.
  set (same := fun T1 => running_ T1 = running_ T /\ control T1 = control T /\
                         length (sched_owes T1) = length (sched_owes T)).
  change (same T').
  assert (Hs : forall l k, step_sys l T k = Ok (Some T') -> (forall y, same (k (T <| sys := y |>))) -> same T').
  { intros l k (y & _ & ->)%step_sys_exec Hk. apply Hk. }
  assert (He : forall l k, step_enqueue l T k = Ok (Some T') -> (forall y, same (k (T <| sys := y |>))) -> same T').
  { intros l k (_ & y & _ & ->)%step_enqueue_exec Hk. apply Hk. }
  assert (Hn : forall w T1, step_notify w T1 = Ok (Some T') -> same T1 -> same T').
  { intros w T1 (ws & _ & ->)%step_notify_some. done. }
  destruct a; cbn [act] in H; try done;
    unfold submit_action, worker_action, sched_action, orch_action, client_action in H;
    repeat first [ exact (Hs _ _ H (fun _ => conj eq_refl (conj eq_refl eq_refl)))
      | exact (He _ _ H (fun _ => conj eq_refl (conj eq_refl eq_refl)))
      | exact (He _ _ H (fun _ => conj eq_refl (conj eq_refl (length_insert _ _ _))))
      | exact (Hn _ _ H (conj eq_refl (conj eq_refl eq_refl)))
      | exact (Hn _ _ H (conj eq_refl (conj eq_refl (length_insert _ _ _))))
      | progress simplify_eq | exact (conj eq_refl (conj eq_refl eq_refl))
      | match type of H with mbind _ _ = Ok _ => apply bind_Ok in H as (? & _ & H) end | case_match; try discriminate H ].
Qed.

(** The two actions that [act_frame] leaves out. *)
Lemma stop_frame T T' :
  request_stop T = Ok (Some T') ->
  running_ T' = running_ T /\ sched_owes T' = sched_owes T /\ control T = CtlIdle /\
  (control T' = NotifyOrch \/ T' = T /\ running_ T = false).
Proof.
  unfold request_stop. destruct (control T) eqn:E; try done. destruct (running_ T) eqn:Er.
  - intros (y & _ & ->)%step_sys_exec. split; [exact Er|]. split; [done|]. split; [done|]. by left.
  - intros. simplify_eq. split_and!; auto.
Qed.

Lemma control_frame T T' :
  control_action T = Some T' ->
  (running_ T' = running_ T /\ sched_owes T' = sched_owes T /\ control T <> CtlIdle /\ control T' <> CtlIdle) \/
  (running_ T' = false /\ control T' = CtlIdle).
Proof. unfold control_action. intros H. repeat case_match; simplify_eq; (by right) || by left. Qed.

Lemma act_sizes a T T' : sched_sizes T -> act a T = Ok (Some T') -> a <> AStart -> sched_sizes T'.
Proof.
  intros [HT Hi] H Ha.
  assert (Hs : length (scheds (sys T')) = length (scheds (sys T))).
  { destruct (act_refines _ _ _ H Ha) as [->|[l He]]; [done|by eapply exec_scheds]. }
  assert (Hc : a = AControl \/ a = AStop \/ (a <> AControl /\ a <> AStop)) by (destruct a; auto).
  unfold sched_sizes. rewrite Hs. destruct Hc as [->|[->|[H1 H2]]].
  - injection H as H. destruct (control_frame _ _ H) as [(E & -> & Hne & _)|[E1 E2]]; [|split; congruence].
    rewrite E. split; [done|]. by intros ?%Hi.
  - destruct (stop_frame _ _ H) as (E & -> & Hid & Hor). rewrite E. split; [done|]. intros Hr.
    destruct Hor as [Hn|[-> _]]; [|done]. cbn [act] in H. unfold request_stop in H. rewrite Hid, Hr in H. by simplify_eq.
  - destruct (act_frame _ _ _ H Ha H1 H2) as (-> & -> & ->). done.
Qed.

(** ** When [stop] was seen

    The thread is past the last test of its predicate, or before it has seen
    [stop_requested_]: the notification of [stop] can miss it. *)
Definition unseen (pc : wait_pc) : bool := match pc with ToSleep | Blocked => true | _ => false end.
Definition all_seen (T : Threads) : Prop :=
  stopping T = true /\ (forall pc, pc ∈ worker_waits T -> unseen pc = false) /\ unseen (orch_wait (orch T)) = false.
(** [stop] is under way or has returned. *)
Definition ending (T : Threads) : Prop := control T <> CtlIdle \/ running_ T = false.

Lemma wait_step_seen mu pc ne mu' pc' :
  wait_step true ne mu pc = Some (mu', pc') -> unseen pc = false -> unseen pc' = false.
Proof. destruct pc; cbn; repeat case_match; intros; by simplify_eq. Qed.

Lemma seen_insert (i : nat) (pc : wait_pc) (ws : list wait_pc) :
  (forall p, p ∈ ws -> unseen p = false) -> unseen pc = false -> forall p, p ∈ <[i := pc]> ws -> unseen p = false.
Proof. intros Hw Hp p [->|Hin]%elem_insert; [done|by apply Hw]. Qed.

Lemma seen_notify w ws ws' :
  notify_one w ws = Some ws' -> (forall p, p ∈ ws -> unseen p = false) -> forall p, p ∈ ws' -> unseen p = false.
Proof.
  intros Hn Hw p [i Hi]%list_elem_of_lookup. destruct (notify_one_wakes _ _ _ _ _ Hn Hi) as [Hi'|[_ ->]]; [|done].
  apply Hw. by eapply list_elem_of_lookup_2.
Qed.
Lemma exec_stop l y y' :
  exec l y = Ok y' -> stop_requested_ (shared y) = true -> stop_requested_ (shared y') = true.
Proof.
  intros He Hs. assert (Hl : l = LStop \/ l <> LStop) by (destruct l; auto; by right).
  destruct Hl as [->|Hl]; [cbn in He; by simplify_eq|].
  assert (Hd : enqueues l y \/ ~ enqueues l y) by (destruct l; cbn; repeat case_match; tauto).
  destruct Hd as [Hd|Hd]; [by rewrite (exec_enqueue_stop _ _ _ He Hd)|].
  by rewrite (tk_stop _ _ (exec_takes _ _ _ He Hd Hl)).
Qed.

Section seen.
Context (T T' : Threads) (Hseen : all_seen T).

(** A step of the system, after which the waits are again such. *)
Lemma seen_sys l k :
  step_sys l T k = Ok (Some T') -> (forall T, sys (k T) = sys T) -> (forall y, orch (k (T <| sys := y |>)) = orch T) ->
  (forall y p, p ∈ worker_waits (k (T <| sys := y |>)) -> unseen p = false) -> all_seen T'.
Proof.
  intros (y & He & ->)%step_sys_exec Hk Ho Hw. destruct Hseen as (Hs & _ & Hu).
  split; [|split; [by apply Hw|by rewrite Ho]]. unfold stopping in *. rewrite Hk. by eapply exec_stop.
Qed.

Lemma seen_enqueue l k :
  step_enqueue l T k = Ok (Some T') -> (forall T, sys (k T) = sys T) -> (forall y, orch (k (T <| sys := y |>)) = orch T) ->
  (forall y p, p ∈ worker_waits (k (T <| sys := y |>)) -> unseen p = false) -> all_seen T'.
Proof. unfold step_enqueue. destruct (worker_mu_ T); [done|]. apply seen_sys. Qed.

Lemma seen_step_notify w T1 : all_seen T1 -> step_notify w T1 = Ok (Some T') -> all_seen T'.
Proof.
  intros (Hs & Hw & Hu) (ws & Hn & ->)%step_notify_some. split; [done|]. split; [|done].
  exact (seen_notify _ _ _ Hn Hw).
Qed.

Lemma seen_worker i w : worker_action i w T = Ok (Some T') -> all_seen T'.
Proof.
  intros H. pose proof Hseen as (Hs & Hw & Hu). unfold worker_action in H.
  destruct (worker_waits T !! i) as [pc|] eqn:Hi; [|done].
  assert (Hpc : unseen pc = false) by (apply Hw; by eapply list_elem_of_lookup_2).
  destruct pc as [| | | | | |[]|].
  1-5, 9: destruct (wait_step _ _ _ _) as [[mu pc']|] eqn:Ew; simplify_eq; rewrite Hs in Ew;
    (split; [done|]; split; [|done]); (apply seen_insert; [done|by eapply wait_step_seen]).
  - apply (seen_sys _ _ H); try done. intros y p. apply seen_insert; [exact Hw|by case_match].
  - eapply seen_step_notify; [|exact H]. split; [done|]. split; [|done]. by apply seen_insert.
  - destruct (workers (sys T) !! i) as [[]|]; try (by apply (seen_sys _ _ H)).
    + simplify_eq. split; [done|]. split; [|done]. by apply seen_insert.
    + apply (seen_enqueue _ _ H); try done. intros y p. apply seen_insert; done.
Qed.

Lemma seen_act a : act a T = Ok (Some T') -> a <> AStart -> all_seen T'.
Proof.
  intros H Ha. pose proof Hseen as (Hs & Hw & Hu).
  assert (Ho : forall o c, unseen (orch_wait o) = false -> all_seen (T <| orch := o |> <| control := c |>)) by (by intros; split).
  assert (Hwk : unseen (wake (orch_wait (orch T))) = false) by (by destruct (orch_wait (orch T))).
  destruct a; cbn [act] in H; try done; try (by apply (seen_sys _ _ H)).
  - unfold request_stop in H. repeat case_match; simplify_eq; [|done]. by apply (seen_sys _ _ H).
  - unfold control_action in H. repeat case_match; simplify_eq; try (by split); try (by apply (Ho _ NotifySched)).
    + split; [done|]. split; [|done]. cbn. unfold notify_all. intros p (q & -> & Hq)%list_elem_of_fmap.
      specialize (Hw q Hq). by destruct q.
    + split; [done|]. split; [|done]. by intros p ?%not_elem_of_nil.
  - unfold submit_action in H. destruct (sub_owes T); [eapply (seen_step_notify w); [|exact H]; exact Hseen|].
    destruct (submitter (sys T)); try done; (by apply (seen_sys _ _ H)) || by apply (seen_enqueue _ _ H).
  - by eapply seen_worker.
  - unfold sched_action in H. destruct (sched_owes T !! i) as [[]|]; 
      [eapply (seen_step_notify w); [|exact H]; exact Hseen| |done].
    destruct (scheds (sys T) !! i) as [[]|]; try done; (by apply (seen_sys _ _ H)) || by apply (seen_enqueue _ _ H).
  - unfold orch_action in H. apply bind_Ok in H as ([o|] & Hr & H); simplify_eq. apply (Ho o (control T)).
    unfold orch_step in Hr. rewrite Hs in Hr.
    destruct (orch_wait (orch T)) eqn:E; try done;
      try (destruct (wait_step _ _ _ _) as [[mu pc']|] eqn:Ew; simplify_eq; by eapply wait_step_seen).
    + repeat case_match; by simplify_eq.
    + apply bind_Ok in Hr as (job & _ & Hr). by simplify_eq.
  - unfold submit_orchestrator in H. repeat case_match; simplify_eq. by apply (Ho _ (control T)).
  - unfold client_action, client_step in H. repeat case_match; simplify_eq; by apply (Ho _ (control T)).
  - destruct (worker_waits T !! i) as [[]|] eqn:Hi; simplify_eq. split; [done|]. split; [|done]. by apply seen_insert.
  - by destruct (orch_wait (orch T)) eqn:E; simplify_eq.
Qed.
End seen.
(** ** A life of the runtime: from [start] until it is started again *)
Section life.
Context (level sched_threads worker_threads : Z) (cfg : LevelRuntimeConfig) (y0 : System).
Context (Hcfg : config_ok cfg) (Hstart : start level sched_threads worker_threads cfg = Ok y0).
Context (n : nat) (T0 : Threads) (Hlaunch : start_threads (new_threads y0 n) = Some T0).

Definition life (acts : list action) (T : Threads) : Prop := (AStart ∉ acts) /\ perform acts T0 = Some T.

Lemma launch_eq :
  T0 = mkThreads y0 true false (replicate (length (workers y0)) AtTop) (replicate (length (scheds y0)) false)
         false ((no_jobs n) <| orch_wait := AtTop |>) CtlIdle.
Proof.
  unfold start in Hstart. apply bind_Ok in Hstart as (s & Hs & H). injection H as <-.
  cbn in Hlaunch. injection Hlaunch as <-. cbn [workers scheds]. rewrite !length_replicate. f_equal.
  unfold new_runtime in Hs. inv_ok. done.
Qed.

Lemma some_worker : (0 < length (workers y0))%nat.
Proof.
  unfold start in Hstart. apply bind_Ok in Hstart as (s & Hs & H). injection H as <-. cbn.
  rewrite length_replicate. unfold new_runtime in Hs. inv_ok. cbn. destruct (Z.ltb_spec 0 worker_threads); lia.
Qed.

Lemma launch_inv : tinv T0 /\ sched_sizes T0.
Proof.
  rewrite launch_eq. pose proof (start_mem _ _ _ _ _ Hcfg Hstart) as (_ & _ & _ & _ & _ & _ & _ & Hw & _).
  split; [|split; [intros _; cbn; by rewrite length_replicate|done]]. constructor; cbn; try done.
  - by rewrite length_replicate.
  - apply zsum_zero. by intros pc [-> _]%elem_of_replicate.
  - intros i pc wpc [-> _]%lookup_replicate. apply Hw.
  - by intros [? _]%elem_of_replicate.
  - intros _. right. left. exists AtTop. split; [|done]. apply elem_of_replicate. pose proof some_worker. split; [done|lia].
  - by intros [? _]%elem_of_replicate.
Qed.

Lemma life_inv acts T : life acts T -> tinv T /\ sched_sizes T.
Proof.
  intros [Ha Hp]. destruct launch_inv as [HT Hs]. revert HT Hs Hp. generalize T0.
  induction acts as [|a acts IH]; intros T1 HT Hs Hp; cbn [perform] in Hp; [by simplify_eq|].
  apply not_elem_of_cons in Ha as [Ha1 Ha]. destruct (act a T1) as [[T2|]|] eqn:E; try done.
  destruct (calmb (sys T2)); [|done]. apply (IH Ha T2); [by eapply act_inv|by eapply act_sizes|done].
Qed.

Lemma life_sys acts T : life acts T -> exists ls, calm_run ls y0 = Some (sys T).
Proof. intros [Ha Hp]. pose proof (perform_refines _ _ _ Hp Ha) as Hr. by rewrite launch_eq in Hr. Qed.

Lemma life_sys_inv acts T : life acts T -> inv (sys T).
Proof. intros [ls Hls]%life_sys. by eapply system_reachable_inv. Qed.

Lemma life_workers acts T : life acts T -> length (workers (sys T)) = length (workers y0).
Proof.
  intros [ls Hls]%life_sys. revert Hls. generalize y0. induction ls as [|l ls IH]; intros y; cbn [calm_run]; [by intros [= <-]|].
  destruct (exec l y) as [y1|] eqn:E; [|done]. destruct (calmb y1); [|done]. intros H.
  rewrite (IH _ H). apply (exec_workers _ _ _ E).
Qed.

Lemma life_app acts1 acts2 T1 T2 :
  life acts1 T1 -> AStart ∉ acts2 -> perform acts2 T1 = Some T2 -> life (acts1 ++ acts2) T2.
Proof.
  intros [Ha1 H1] Ha2 H2. split; [by rewrite not_elem_of_app|]. revert H1. generalize T0. clear Ha1.
  induction acts1 as [|a acts1 IH]; intros T H1; cbn in *; [by simplify_eq|].
  destruct (act a T) as [[T'|]|]; try done. destruct (calmb (sys T')); [|done]. by apply IH.
Qed.

(** The threads of the runtime, and those inside its functions. *)
Definition thread_action (a : action) : bool :=
  match a with
  | AControl | ASubmit _ | AWorker _ _ | ASched _ _ | AOrch | AClient _ => true
  | _ => false
  end.

(** *** Waiting refines running *)
Lemma threads_return acts T a :
  life acts T -> thread_action a = true -> (forall w, a <> ASubmit w) -> exists r, act a T = Ok r.
Proof.
  intros Hl Ha Hs. pose proof (life_sys_inv _ _ Hl) as Hinv. destruct (life_inv _ _ Hl) as [HT _].
  assert (Hex : forall l k, (exists i, l = LWorker i \/ l = LSched i) -> exists r, step_sys l T k = Ok r).
  { intros l k [i Hi]. unfold step_sys. destruct (threads_no_fault _ i Hinv) as [[y1 H1] [y2 H2]].
    destruct Hi as [-> | ->]; [rewrite H1|rewrite H2]; by eexists. }
  destruct a; try done; cbn [act]; try (by eexists); [by destruct (Hs w)|..].
  - unfold worker_action, step_enqueue, step_notify. repeat case_match; try (by eexists); apply Hex; eauto.
  - unfold sched_action, step_enqueue, step_notify. repeat case_match; try (by eexists); apply Hex; eauto.
  - unfold orch_action. destruct (orch_step_inv _ _ (ti_orch _ HT)) as (r & -> & _). by eexists.
Qed.


(** *** Threads that cannot go on *)

(** No thread can take a step, the periodic scan of a scheduler apart. *)
Definition at_rest (T : Threads) : Prop :=
  forall a, thread_action a = true ->
    act a T = Ok None \/
    exists i w, a = ASched i w /\ sched_owes T !! i = Some false /\ scheds (sys T) !! i = Some KIdle /\
      stopping T = false.

Lemma notify_one_possible ws : exists w ws', notify_one w ws = Some ws'.
Proof.
  unfold notify_one. case_decide as Hb; [|by exists 0%nat, ws].
  apply list_elem_of_lookup in Hb as [i Hi]. exists i, (<[i := Woken]> ws). by rewrite Hi.
Qed.

Lemma notify_not_stuck T : ~ forall w, step_notify w T = Ok None.
Proof.
  intros H. destruct (notify_one_possible (worker_waits T)) as (w & ws & E). specialize (H w).
  unfold step_notify in H. by rewrite E in H.
Qed.

Section rest.
Context (acts : list action) (T : Threads) (Hlife : life acts T) (Hrest : at_rest T).

Lemma rest_none a : thread_action a = true -> (forall i w, a <> ASched i w) -> act a T = Ok None.
Proof. intros Ha Hs. destruct (Hrest a Ha) as [H|(i & w & -> & _)]; [done|by destruct (Hs i w)]. Qed.

Lemma step_sys_moves l k : step_sys l T k <> Ok None.
Proof. unfold step_sys. by destruct (exec l (sys T)). Qed.

(** A thread that owns [worker_mu_] can go on, so nobody does. *)
Lemma rest_mutex : worker_mu_ T = false.
Proof.
  destruct (life_inv _ _ Hlife) as [HT _]. destruct (worker_mu_ T) eqn:Hmu; [|done]. exfalso.
  assert (Hz : forall pc, pc ∈ worker_waits T -> holds pc = false).
  { intros pc [i Hi]%list_elem_of_lookup. destruct (holds pc) eqn:Hh; [|done]. exfalso.
    pose proof (rest_none (AWorker i 0) eq_refl ltac:(done)) as Hn. cbn [act] in Hn. unfold worker_action in Hn.
    rewrite Hi in Hn. destruct pc; try done. by apply step_sys_moves in Hn. }
  pose proof (ti_mu _ HT) as Hmu'. rewrite Hmu, zsum_zero in Hmu'; [done|].
  intros pc Hpc. unfold holds_z. by rewrite (Hz pc Hpc).
Qed.

Lemma rest_worker i pc : worker_waits T !! i = Some pc -> pc = Blocked \/ pc = Exited.
Proof.
  intros Hi. pose proof rest_mutex as Hmu.
  pose proof (fun w => rest_none (AWorker i w) eq_refl ltac:(done)) as Hn. cbn [act] in Hn. unfold worker_action in Hn.
  rewrite Hi in Hn. destruct pc as [| | | | | |[]|]; try (by specialize (Hn 0%nat); cbn [wait_step] in Hn; rewrite ?Hmu in Hn);
    try (by left); try (by right); exfalso.
  - specialize (Hn 0%nat). by apply step_sys_moves in Hn.
  - by apply notify_not_stuck in Hn.
  - specialize (Hn 0%nat). unfold step_enqueue in Hn. rewrite Hmu in Hn.
    destruct (workers (sys T) !! i) as [[]|]; try (by apply step_sys_moves in Hn); done.
Qed.

Lemma rest_orch : orch_wait (orch T) = Blocked \/ orch_wait (orch T) = Exited.
Proof.
  destruct (life_inv _ _ Hlife) as [HT _]. pose proof (ti_orch _ HT) as Ho.
  pose proof (rest_none AOrch eq_refl ltac:(done)) as Hn. cbn [act] in Hn. unfold orch_action in Hn.
  pose proof (oi_mu _ _ Ho) as Hmu. pose proof (oi_job _ _ Ho) as Hj.
  apply bind_Ok in Hn as (r & Hr & Hn). destruct r; [done|]. unfold orch_step in Hr.
  destruct (orch_wait (orch T)) eqn:E; cbn [wait_step holds] in *; rewrite ?Hmu in Hr; try done; try (by left); try (by right).
  - exfalso. repeat case_match; done.
  - destruct Hj as [job Hj]. by rewrite Hj in Hr.
Qed.

Lemma rest_submitter : submitter (sys T) = SIdle /\ sub_owes T = false.
Proof.
  pose proof rest_mutex as Hmu.
  pose proof (fun w => rest_none (ASubmit w) eq_refl ltac:(done)) as Hn. cbn [act] in Hn. unfold submit_action in Hn.
  destruct (sub_owes T); [by apply notify_not_stuck in Hn|]. specialize (Hn 0%nat). unfold step_enqueue in Hn.
  rewrite Hmu in Hn. destruct (submitter (sys T)); try done; by apply step_sys_moves in Hn.
Qed.

Lemma rest_scheds : true ∉ sched_owes T.
Proof.
  intros [i Hi]%list_elem_of_lookup. apply (notify_not_stuck (T <| sched_owes := <[i := false]> (sched_owes T) |>)).
  intros w. destruct (Hrest (ASched i w) eq_refl) as [H|(j & v & E & Hj & _)]; [|by simplify_eq].
  cbn [act] in H. unfold sched_action in H. by rewrite Hi in H.
Qed.

Lemma rest_clients : ClientNotify ∉ clients (orch T).
Proof.
  intros [j Hj]%list_elem_of_lookup. pose proof (rest_none (AClient j) eq_refl ltac:(done)) as Hn.
  cbn [act] in Hn. unfold client_action, client_step in Hn. by rewrite Hj in Hn.
Qed.

(** Nobody has asked to stop. *)
Context (Hgo : stopping T = false).

Lemma rest_running : running_ T = true.
Proof.
  destruct (life_inv _ _ Hlife) as [HT _]. destruct (running_ T) eqn:E; [done|].
  destruct (ti_run _ HT E). congruence.
Qed.

Lemma rest_blocked : Forall (eq Blocked) (worker_waits T).
Proof.
  destruct (life_inv _ _ Hlife) as [HT _]. apply Forall_forall. intros pc Hpc.
  pose proof Hpc as [i Hi]%list_elem_of_lookup. destruct (rest_worker _ _ Hi) as [->| ->]; [done|].
  rewrite (ti_exit _ HT Hpc) in Hgo. done.
Qed.

Lemma rest_orch_blocked : orch_wait (orch T) = Blocked.
Proof.
  destruct (life_inv _ _ Hlife) as [HT _]. destruct rest_orch as [|Hx]; [done|].
  rewrite (oi_exit _ _ (ti_orch _ HT) Hx) in Hgo. done.
Qed.

Lemma rest_queue : rq_nonempty T = false.
Proof.
  destruct (life_inv _ _ Hlife) as [HT _]. destruct (rq_nonempty T) eqn:Hne; [exfalso|done].
  pose proof rest_blocked as Hall. rewrite Forall_forall in Hall.
  destruct (ti_wake _ HT Hne) as [[Hsub|Hsc]|[(pc & Hpc & Ha)|Hex]].
  - destruct rest_submitter. congruence.
  - by apply rest_scheds.
  - by rewrite <- (Hall pc Hpc) in Ha.
  - pose proof (ti_len _ HT rest_running) as Hlen. rewrite (life_workers _ _ Hlife) in Hlen.
    pose proof some_worker as Hw. destruct (worker_waits T) as [|pc ws]; [simpl in Hlen; lia|].
    pose proof (Hall pc ltac:(left)) as <-. by inversion Hex.
Qed.

Lemma rest_quiescent : quiescent (sys T).
Proof.
  destruct (life_inv _ _ Hlife) as [HT _]. split; [apply rest_submitter|]. split.
  - pose proof rest_queue as Hq. unfold rq_nonempty in Hq.
    destruct (mem_queue _ _ (inv_mem _ (life_sys_inv _ _ Hlife))) as [Hm _]. lia.
  - intros i wpc Hwpc. left. pose proof rest_blocked as Hall. rewrite Forall_forall in Hall.
    destruct (lookup_lt_is_Some_2 (worker_waits T) i) as [pc Hi].
    { rewrite (ti_len _ HT rest_running). by eapply lookup_lt_Some. }
    pose proof (ti_pcs _ HT _ _ _ Hi Hwpc) as Hp. rewrite <- (Hall pc) in Hp; [done|by eapply list_elem_of_lookup_2].
Qed.

Lemma rest_jobs : jobs_done (orch T) = jobs_in (orch T).
Proof.
  destruct (life_inv _ _ Hlife) as [HT _]. pose proof (ti_orch _ HT) as Ho.
  pose proof (oi_job _ _ Ho) as Hj. rewrite rest_orch_blocked in Hj. rewrite (oi_fifo _ _ Ho), Hj. simpl.
  destruct (orch_queue_ (orch T)) eqn:Eq; [by rewrite app_nil_r|]. exfalso.
  apply rest_clients. apply (oi_wake _ _ Ho); [by rewrite Eq|apply rest_orch_blocked].
Qed.
End rest.


(** *** The queue of the orchestrator *)

(** C11.  Orchestrator functions run once, in order, and none is dropped at the
    end: the functions pushed are those that have run, the one running and
    those queued, in this order; and the orchestrator thread ends only after
    [stop] was called and everything pushed until then has run. *)
Theorem runtime_jobs_in_order acts T :
  life acts T ->
  jobs_in (orch T) = jobs_done (orch T) ++ option_list (orch_job (orch T)) ++ orch_queue_ (orch T) /\
  forall T', act AOrch T = Ok (Some T') -> orch_wait (orch T') = Exited ->
    stopping T = true /\ jobs_done (orch T') = jobs_in (orch T').
Proof.
  intros Hl. destruct (life_inv _ _ Hl) as [HT _]. pose proof (ti_orch _ HT) as Ho. split; [apply Ho|].
  intros T' Ha Hx. pose proof Ha as Hi. apply act_inv in Hi; [|done..].
  pose proof (ti_orch _ Hi) as Ho'. pose proof (oi_job _ _ Ho') as Hj'. rewrite Hx in Hj'.
  pose proof (oi_exit _ _ Ho' Hx) as Hs. cbn [act] in Ha. unfold orch_action in Ha.
  apply bind_Ok in Ha as ([o|] & Hs1 & Ha); [|done]. injection Ha as <-. cbn in *. unfold stopping in Hs. cbn in Hs.
  split; [exact Hs|]. rewrite (oi_fifo _ _ Ho'), Hj'. simpl. unfold orch_step in Hs1.
  destruct (orch_wait (orch T)) eqn:E; cbn [wait_step] in Hs1; repeat case_match; simplify_eq; try done;
    try (apply bind_Ok in Hs1 as (? & _ & Hs1); by simplify_eq).
  cbn. destruct (orch_queue_ (orch T)); [by rewrite app_nil_r|]. by rewrite andb_false_r in H.
Qed.

(** *** Stopping *)
Lemma ending_act a T T' : ending T -> act a T = Ok (Some T') -> a <> AStart -> ending T'.
Proof.
  intros He H Ha.
  assert (Hc : a = AControl \/ a = AStop \/ (a <> AControl /\ a <> AStop)) by (destruct a; auto).
  destruct Hc as [->|[->|[H1 H2]]].
  - injection H as H. destruct (control_frame _ _ H) as [(_ & _ & _ & E)|[E _]]; [by left|by right].
  - destruct (stop_frame _ _ H) as (_ & _ & _ & [E|[-> _]]); [left; by rewrite E|done].
  - destruct (act_frame _ _ _ H Ha H1 H2) as (E1 & E2 & _). unfold ending. by rewrite E1, E2.
Qed.

Lemma seen_perform acts T T' :
  all_seen T -> ending T -> AStart ∉ acts -> perform acts T = Some T' -> all_seen T' /\ ending T'.
Proof.
  revert T. induction acts as [|a acts IH]; intros T Hs He Ha H; cbn [perform] in H; [by simplify_eq|].
  apply not_elem_of_cons in Ha as [Ha1 Ha]. destruct (act a T) as [[T1|]|] eqn:E; try done.
  destruct (calmb (sys T1)); [|done].
  apply (IH T1); [by eapply seen_act|by eapply ending_act|done|done].
Qed.

Lemma rest_seen_ends acts T :
  life acts T -> at_rest T -> all_seen T -> control T = CtlIdle.
Proof.
  intros Hl Hr (Hs & Hw & Hu). pose proof (rest_none _ Hr AControl eq_refl ltac:(done)) as Hn. cbn [act] in Hn.
  assert (Ho : orch_wait (orch T) = Exited) by (destruct (rest_orch _ _ Hl Hr) as [E|]; [by rewrite E in Hu|done]).
  assert (Hwx : forallb is_exited (worker_waits T) = true).
  { apply forallb_forall. intros pc Hpc%list_elem_of_In. specialize (Hw pc Hpc).
    apply list_elem_of_lookup in Hpc as [i Hi]. by destruct (rest_worker _ _ Hl Hr _ _ Hi) as [-> | ->]. }
  assert (Hk : running_ T = true -> forallb sched_exited (scheds (sys T)) = true).
  { intros Hrun. apply forallb_forall. intros k Hk%list_elem_of_In. apply list_elem_of_lookup in Hk as [i Hi].
    destruct (life_inv _ _ Hl) as [_ [Hsz _]]. specialize (Hsz Hrun).
    destruct (lookup_lt_is_Some_2 (sched_owes T) i) as [b Hb]; [rewrite Hsz; by eapply lookup_lt_Some|].
    destruct b; [destruct (rest_scheds _ Hr); by eapply list_elem_of_lookup_2|].
    destruct (Hr (ASched i 0) eq_refl) as [H|(j & v & _ & _ & _ & E)]; [|congruence].
    cbn [act] in H. unfold sched_action, step_enqueue in H. rewrite Hb, Hi, (rest_mutex _ _ Hl Hr) in H.
    destruct k; try done; by apply step_sys_moves in H. }
  destruct (running_ T) eqn:Hrun.
  - unfold control_action in Hn. rewrite Ho, Hwx, (Hk eq_refl) in Hn. by destruct (control T).
  - by apply (proj2 (life_inv _ _ Hl)).
Qed.

End life.

(** A test that implies [at_rest]. *)
Definition asleep (pc : wait_pc) : bool := match pc with Blocked | Exited => true | _ => false end.
Definition restsb (T : Threads) : bool :=
  forallb asleep (worker_waits T) && asleep (orch_wait (orch T)) && negb (sub_owes T) &&
  match submitter (sys T) with SIdle => true | _ => false end &&
  forallb negb (sched_owes T) &&
  forallb (fun k => match k with KExited => true | KIdle => negb (stopping T) | _ => false end) (scheds (sys T)) &&
  forallb (fun c => match c with ClientIdle => true | _ => false end) (clients (orch T)) &&
  match control_action T with None => true | _ => false end.

Lemma forallb_lookup {A} (f : A -> bool) l i x : forallb f l = true -> l !! i = Some x -> f x = true.
Proof. rewrite forallb_forall. intros Hf Hi. apply Hf, list_elem_of_In. by eapply list_elem_of_lookup_2. Qed.

Lemma restsb_sound T : restsb T = true -> at_rest T.
Proof.
  unfold restsb. rewrite !andb_true_iff. intros [[[[[[[Hw Ho] Hso] Hs] Hk] Hks] Hc] Hct] a Ha.
  destruct a; try done; cbn [act].
  - left. by destruct (control_action T).
  - left. unfold submit_action. destruct (sub_owes T), (submitter (sys T)); done.
  - left. unfold worker_action. destruct (worker_waits T !! i) as [pc|] eqn:Hi; [|done].
    pose proof (forallb_lookup _ _ _ _ Hw Hi). by destruct pc.
  - unfold sched_action. destruct (sched_owes T !! i) as [b|] eqn:Hi; [|by left].
    pose proof (forallb_lookup _ _ _ _ Hk Hi). destruct b; [done|].
    destruct (scheds (sys T) !! i) as [k|] eqn:Hki; [|by left].
    pose proof (forallb_lookup _ _ _ _ Hks Hki) as Hk1. destruct k; try done; [right|by left].
    exists i, w. split_and!; try done. by destruct (stopping T).
  - left. unfold orch_action, orch_step. by destruct (orch_wait (orch T)).
  - left. unfold client_action, client_step. destruct (clients (orch T) !! j) as [c|] eqn:Hj; [|done].
    pose proof (forallb_lookup _ _ _ _ Hc Hj). by destruct c.
Qed.

(** ** Concrete lives *)
Definition launched (window ws : Z) (n : nat) : Threads :=
  match start_threads (new_threads (started window ws) n) with
  | Some T => T
  | None => new_threads (started window ws) n
  end.
(** The actions of a list that are possible when their turn comes. *)
Fixpoint possible (acts : list action) (T : Threads) : list action :=
  match acts with
  | [] => []
  | a :: acts => match act a T with Ok (Some T) => a :: possible acts T | _ => possible acts T end
  end.
Definition after (acts : list action) (T : Threads) : Threads := default T (perform acts T).

Definition round (w : nat) : list action := [ASubmit w; AWorker 0 w; AWorker 1 w; AOrch; AClient 0].
Fixpoint rounds (k : nat) : list action :=
  match k with O => [] | S k => round 0 ++ round 1 ++ rounds k end.

(** Two workers and one client: a task that writes a tensor, one that reads it
    and an orchestrator function, until nothing moves. *)
Definition job : OrchJob := mkOrchJob "reduce" 1 (-1).
Definition chain_life : list action :=
  [ATensor 1; ATensor 1] ++ rounds 4 ++ [ACall (task_call "a" [] [1])] ++ rounds 30 ++
  [APush 0 job; ACall (task_call "b" [1] [2])] ++ rounds 60.

Definition small_life (acts : list action) : list action := possible acts (launched 4 2 1).
Definition life_end (acts : list action) : Threads := after (small_life acts) (launched 4 2 1).

Lemma launched_small : start_threads (new_threads (started 4 2) 1) = Some (launched 4 2 1).
Proof. vm_compute. reflexivity. Qed.

Lemma startless (acts : list action) :
  forallb (fun a => match a with AStart => false | _ => true end) acts = true -> AStart ∉ acts.
Proof. rewrite forallb_forall. intros H Hin%list_elem_of_In. by specialize (H _ Hin). Qed.

(** The two conditions that a concrete list of actions is a life. *)
Definition livesb (acts : list action) : bool :=
  forallb (fun a => match a with AStart => false | _ => true end) acts &&
  match perform acts (launched 4 2 1) with Some _ => true | None => false end.
Lemma livesb_life acts : livesb acts = true -> life (launched 4 2 1) acts (after acts (launched 4 2 1)).
Proof.
  unfold livesb. intros [H1 H2]%andb_true_iff. split; [by apply startless|].
  unfold after. by destruct (perform acts (launched 4 2 1)).
Qed.



(** The orchestrator thread holds a function while another is pushed. *)
Definition jobs_life : list action :=
  [APush 0 job] ++ replicate 2 (AClient 0) ++ replicate 3 AOrch ++
  [APush 0 (mkOrchJob "second" 2 0); AClient 0].
Lemma runtime_jobs_in_order_witness :
  jobs_in (orch (life_end jobs_life)) =
    jobs_done (orch (life_end jobs_life)) ++ option_list (orch_job (orch (life_end jobs_life))) ++
    orch_queue_ (orch (life_end jobs_life)) /\
  orch_job (orch (life_end jobs_life)) = Some job.
Proof.
  split; [|vm_compute; reflexivity].
  exact (proj1 (runtime_jobs_in_order 3 1 2 (small_config 4) (started 4 2) runtime_config_ok start_small 1
    (launched 4 2 1) launched_small (small_life jobs_life) (life_end jobs_life)
    (livesb_life (small_life jobs_life) ltac:(vm_compute; reflexivity)))).
Defined.

(** [stop] is called while everybody is blocked. *)
Definition idle_stop : list action := rounds 10 ++ [AStop; AControl; AControl; AControl].
Definition ending_acts : list action := rounds 10 ++ [ASched 0 0] ++ replicate 4 AControl.


(** [stop] sets its flag and notifies between the test of the predicate and
    the block of the orchestrator thread; in the second list, of a worker. *)
Definition missed_by_orch : list action :=
  [AOrch; AOrch; AStop] ++ replicate 3 AControl ++ [AOrch] ++ ending_acts.
Definition missed_by_worker : list action :=
  [AWorker 0 0; AWorker 0 0; AStop] ++ replicate 3 AControl ++ [AWorker 0 0] ++ ending_acts.

(** C13.  [stop] can hang.  It sets [stop_requested_] and notifies without
    holding the mutex of the condition variable, so its one notification can
    fall between a thread's last test of its predicate and its block.  In the
    first life the orchestrator thread then waits for a notification that does
    not come while [stop] waits for that thread to end; everything else has
    ended.  In the second it is a worker. *)
Theorem runtime_stop_can_hang :
  (exists acts T, life (launched 4 2 1) acts T /\ at_rest T /\ stopping T = true /\ control T = JoinOrch /\
     orch_wait (orch T) = Blocked /\ orch_queue_ (orch T) = [] /\ Forall (eq Exited) (worker_waits T)) /\
  (exists acts T, life (launched 4 2 1) acts T /\ at_rest T /\ stopping T = true /\ control T = JoinWorkers /\
     orch_wait (orch T) = Exited /\ rq_nonempty T = false /\ worker_waits T = [Blocked; Exited]).
Proof.
  split; [exists (small_life missed_by_orch), (life_end missed_by_orch)|
          exists (small_life missed_by_worker), (life_end missed_by_worker)];
    (split; [apply livesb_life; vm_compute; reflexivity|]);
    (split; [apply restsb_sound; vm_compute; reflexivity|]);
    split_and!; try (vm_compute; reflexivity).
  replace (worker_waits (life_end missed_by_orch)) with [Exited; Exited] by (vm_compute; reflexivity).
  repeat constructor.
Qed.
