(* ===== verification/TraceWriter.v ===== *)
(** * The trace writer

    Models [src/src/profiling/trace_writer.h] and [trace_writer.cpp], and the
    two methods of [LevelRuntime] that name its threads in a trace.  The clock
    is an argument ([now_us] is a reading of it); every method holds [mu_], so
    each is one step.  The file written is the text, and whether the stream
    opened is an argument. *)

From S2P Require Import Prelude Coordinate Paths RingMetrics Json.

Record TraceEvent := mkTraceEvent {
  e_name : string; e_cat : string; e_pid : Z; e_tid : Z; e_ts : Z; e_dur : Z; e_args : string;
}.
Record MetaEvent := mkMetaEvent { m_ph : string; m_pid : Z; m_tid : Z; m_name : string; m_value : string }.

Record TraceWriter := mkTraceWriter {
  enabled_ : bool;
  meta_ : list MetaEvent;
  events_ : list TraceEvent;
}.

#[export] Instance set_enabled_ : Setter enabled_ := fun f w =>
  mkTraceWriter (f (enabled_ w)) (meta_ w) (events_ w).
#[export] Instance set_meta_ : Setter meta_ := fun f w =>
  mkTraceWriter (enabled_ w) (f (meta_ w)) (events_ w).
#[export] Instance set_events_ : Setter events_ := fun f w =>
  mkTraceWriter (enabled_ w) (meta_ w) (f (events_ w)).

Definition new_writer : TraceWriter := mkTraceWriter false [] [].
Definition set_enabled (v : bool) (w : TraceWriter) : TraceWriter := w <| enabled_ := v |>.

Definition add_complete (name cat : string) (pid tid ts_us dur_us : Z) (args : string) (w : TraceWriter) : TraceWriter :=
  if negb (enabled_ w) then w else
  w <| events_ := events_ w ++ [mkTraceEvent name cat pid tid ts_us dur_us args] |>.
Definition set_process_name (pid : Z) (name : string) (w : TraceWriter) : TraceWriter :=
  if negb (enabled_ w) then w else
  w <| meta_ := meta_ w ++ [mkMetaEvent "M" pid 0 "process_name" name] |>.
Definition set_thread_name (pid tid : Z) (name : string) (w : TraceWriter) : TraceWriter :=
  if negb (enabled_ w) then w else
  w <| meta_ := meta_ w ++ [mkMetaEvent "M" pid tid "thread_name" name] |>.

(** [TraceScope]: what its constructor reads and what its destructor does; the
    scope may have no writer. *)
Record TraceScope := mkTraceScope {
  sc_name : string; sc_cat : string; sc_pid : Z; sc_tid : Z; sc_args : string; sc_ts : Z;
}.
Definition scope_open (w : option TraceWriter) (name cat : string) (pid tid : Z) (args : string) (now_us : Z)
    : TraceScope :=
  mkTraceScope name cat pid tid args
    (match w with Some w => if enabled_ w then now_us else 0 | None => 0 end).
Definition scope_close (s : TraceScope) (now_us : Z) (w : TraceWriter) : TraceWriter :=
  if enabled_ w then add_complete (sc_name s) (sc_cat s) (sc_pid s) (sc_tid s) (sc_ts s) (now_us - sc_ts s) (sc_args s) w
  else w.

(** ** The JSON text *)
Fixpoint json_escape (s : string) : string :=
  match s with
  | EmptyString => ""
  | String c s =>
      (if code c =? 34 then String backslash dq
       else if code c =? 92 then String backslash (String backslash "")
       else if code c =? 10 then String backslash "n"
       else if code c =? 9 then String backslash "t"
       else String c "") +:+ json_escape s
  end.

Definition meta_text (m : MetaEvent) : string :=
  "{" +:+ quoted "ph" +:+ ":" +:+ quoted "M" +:+ "," +:+ quoted "pid" +:+ ":" +:+ show_int (m_pid m) +:+
  "," +:+ quoted "tid" +:+ ":" +:+ show_int (m_tid m) +:+
  "," +:+ quoted "name" +:+ ":" +:+ quoted (m_name m) +:+
  "," +:+ quoted "args" +:+ ":{" +:+ quoted "name" +:+ ":" +:+ quoted (json_escape (m_value m)) +:+ "}}".

Definition event_text (e : TraceEvent) : string :=
  "{" +:+ quoted "ph" +:+ ":" +:+ quoted "X" +:+ "," +:+ quoted "name" +:+ ":" +:+ quoted (json_escape (e_name e)) +:+
  "," +:+ quoted "cat" +:+ ":" +:+ quoted (json_escape (e_cat e)) +:+
  "," +:+ quoted "pid" +:+ ":" +:+ show_int (e_pid e) +:+
  "," +:+ quoted "tid" +:+ ":" +:+ show_int (e_tid e) +:+
  "," +:+ quoted "ts" +:+ ":" +:+ show_int (e_ts e) +:+
  "," +:+ quoted "dur" +:+ ":" +:+ show_int (e_dur e) +:+
  (if String.eqb (e_args e) "" then "" else
   "," +:+ quoted "args" +:+ ":{" +:+ quoted "detail" +:+ ":" +:+ quoted (json_escape (e_args e)) +:+ "}") +:+
  "}".

(** The two loops share the flag [first]. *)
Fixpoint write_items (first : bool) (texts : list string) : string :=
  match texts with
  | [] => ""
  | t :: texts => (if first then "" else "," +:+ nl) +:+ t +:+ write_items false texts
  end.

Definition trace_text (w : TraceWriter) : string :=
  "{" +:+ quoted "traceEvents" +:+ ":[" +:+ nl +:+
  write_items true ((meta_text <$> meta_ w) ++ (event_text <$> events_ w)) +:+
  nl +:+ "]}" +:+ nl.

(** The path returned, and the text written. *)
Definition write_json (opens : string -> bool) (path : string) (w : TraceWriter) : string * option string :=
  if negb (opens path) then ("", None) else (path, Some (trace_text w)).

(** ** The threads of a level runtime in the trace

    The tids: 0 the orchestrator, then the schedulers, then the workers. *)
Section level.
Context (level sched_count worker_count : Z).

Definition trace_tid_orch : Z := 0.
Definition trace_tid_sched (idx : Z) : Z := 1 + idx.
Definition trace_tid_worker (idx : Z) : Z := 1 + sched_count + idx.

Definition name_threads (n : Z) (tid : Z -> Z) (pid : Z) (prefix : string) (w : TraceWriter) : TraceWriter :=
  fold_left (fun w i => set_thread_name pid (tid i) (prefix +:+ show_int i) w) (seqZ 0 n) w.

(** [trace_] becomes the writer; what happens to it. *)
Definition set_trace_writer (w : TraceWriter) : TraceWriter :=
  if negb (enabled_ w) then w else
  name_threads sched_count trace_tid_sched level "Scheduler-" (set_process_name level ("L" +:+ show_int level) w).

Definition register_trace_instance (trace_pid : Z) (label : string) (w : TraceWriter) : TraceWriter :=
  if negb (enabled_ w) then w else
  name_threads worker_count trace_tid_worker trace_pid "Worker-"
    (set_thread_name trace_pid trace_tid_orch "Orchestrator" (set_process_name trace_pid label w)).
End level.

(** ** What a trace is *)

(** The calls that record something. *)
Inductive trace_op :=
  | OpComplete (name cat : string) (pid tid ts dur : Z) (args : string)
  | OpProcess (pid : Z) (name : string)
  | OpThread (pid tid : Z) (name : string).

Definition record_op (o : trace_op) (w : TraceWriter) : TraceWriter :=
  match o with
  | OpComplete name cat pid tid ts dur args => add_complete name cat pid tid ts dur args w
  | OpProcess pid name => set_process_name pid name w
  | OpThread pid tid name => set_thread_name pid tid name w
  end.
Definition record (ops : list trace_op) (w : TraceWriter) : TraceWriter := fold_left (fun w o => record_op o w) ops w.

(** The JSON values of an event; a trace lists the names first. *)
Definition meta_value (pid tid : Z) (kind name : string) : json :=
  JObj [("ph", JStr "M"); ("pid", JNum pid); ("tid", JNum tid); ("name", JStr kind); ("args", JObj [("name", JStr name)])].
Definition op_meta (o : trace_op) : list json :=
  match o with
  | OpComplete _ _ _ _ _ _ _ => []
  | OpProcess pid name => [meta_value pid 0 "process_name" name]
  | OpThread pid tid name => [meta_value pid tid "thread_name" name]
  end.
Definition op_event (o : trace_op) : list json :=
  match o with
  | OpComplete name cat pid tid ts dur args =>
      [JObj ([("ph", JStr "X"); ("name", JStr name); ("cat", JStr cat); ("pid", JNum pid); ("tid", JNum tid);
              ("ts", JNum ts); ("dur", JNum dur)] ++
             if String.eqb args "" then [] else [("args", JObj [("detail", JStr args)])])]
  | _ => []
  end.
Definition trace_value (ops : list trace_op) : json :=
  JObj [("traceEvents", JArr ((ops ≫= op_meta) ++ (ops ≫= op_event)))].

Definition op_strings (o : trace_op) : list string :=
  match o with
  | OpComplete name cat _ _ _ _ args => [name; cat; args]
  | OpProcess _ name => [name]
  | OpThread _ _ name => [name]
  end.
(** The control characters that [json_escape] knows are line feed and tab. *)
Definition escapable (c : ascii) : bool := (32 <=? code c) || (code c =? 10) || (code c =? 9).
Definition op_escapable (o : trace_op) : bool := forallb (all_chars escapable) (op_strings o).

Lemma escape_chars s : all_chars escapable s = true -> json_chars s (json_escape s).
Proof.
  induction s as [|c s IH]; [constructor|]. cbn [all_chars]. intros [Hc Hs]%andb_true_iff. specialize (IH Hs).
  assert (Hchar : forall n, code c = n -> c = ascii_of_nat (Z.to_nat n)).
  { intros n <-. unfold code. by rewrite Nat2Z.id, ascii_nat_embedding. }
  cbn [json_escape].
  destruct (Z.eqb_spec (code c) 34) as [E|E34]; [rewrite (Hchar _ E); exact (chars_escape (ascii_of_nat 34) _ s _ eq_refl IH)|].
  destruct (Z.eqb_spec (code c) 92) as [E|E92]; [rewrite (Hchar _ E); exact (chars_escape (ascii_of_nat 92) _ s _ eq_refl IH)|].
  destruct (Z.eqb_spec (code c) 10) as [E|E10]; [rewrite (Hchar _ E); exact (chars_escape "n" _ s _ eq_refl IH)|].
  destruct (Z.eqb_spec (code c) 9) as [E|E9]; [rewrite (Hchar _ E); exact (chars_escape "t" _ s _ eq_refl IH)|].
  apply chars_plain; [|exact IH]. unfold plain_char, escapable in *. rewrite !andb_true_iff, !negb_true_iff. lia.
Qed.

Lemma escape_text s : all_chars escapable s = true -> json_text (JStr s) (quoted (json_escape s)).
Proof. intros Hs. by apply text_str, escape_chars. Qed.

(** [json_escape] passes every other character on. *)
Lemma escape_passes s : all_chars text_char (json_escape s) = true -> all_chars text_char s = true.
Proof.
  induction s as [|c s IH]; [done|]. cbn [json_escape all_chars]. rewrite all_chars_app, !andb_true_iff.
  intros [Hc Hs]. split; [|auto].
  assert (Hk : all_chars text_char (String c "") = text_char c) by (cbn [all_chars]; by rewrite andb_true_r).
  repeat case_match; try (rewrite Hk in Hc; exact Hc); unfold text_char, ws_char; rewrite !orb_true_iff; lia.
Qed.

(** ** The text of a trace *)
(** What an operation adds to an enabled writer. *)
Definition added_meta (o : trace_op) : list MetaEvent :=
  match o with
  | OpComplete _ _ _ _ _ _ _ => []
  | OpProcess pid name => [mkMetaEvent "M" pid 0 "process_name" name]
  | OpThread pid tid name => [mkMetaEvent "M" pid tid "thread_name" name]
  end.
Definition added_events (o : trace_op) : list TraceEvent :=
  match o with
  | OpComplete name cat pid tid ts dur args => [mkTraceEvent name cat pid tid ts dur args]
  | _ => []
  end.

Lemma record_adds ops w :
  enabled_ w = true ->
  record ops w = mkTraceWriter true (meta_ w ++ (ops ≫= added_meta)) (events_ w ++ (ops ≫= added_events)).
Proof.
  revert w. induction ops as [|o ops IH]; intros w Hw.
  - cbn. rewrite !app_nil_r. destruct w. simpl in *. by subst.
  - change (record (o :: ops) w) with (record ops (record_op o w)).
    assert (E : record_op o w = mkTraceWriter true (meta_ w ++ added_meta o) (events_ w ++ added_events o)).
    { destruct w as [b m e]. simpl in Hw. subst b.
      destruct o; cbn; unfold add_complete, set_process_name, set_thread_name; cbn; by rewrite ?app_nil_r. }
    rewrite E, IH by done. cbn. by rewrite <- !app_assoc.
Qed.

(** The members of an object on one line, without white space. *)
Lemma member_next k v tv l rest :
  plain k = true -> json_text v tv -> json_members l rest ->
  json_members ((k, v) :: l) (quoted k +:+ ":" +:+ tv +:+ "," +:+ rest).
Proof. intros. constructor; [by apply text_plain|done|done]. Qed.
Lemma member_end k v tv : plain k = true -> json_text v tv -> json_members [(k, v)] (quoted k +:+ ":" +:+ tv).
Proof. intros. constructor; [by apply text_plain|done]. Qed.

Lemma nested_text k s :
  plain k = true -> all_chars escapable s = true ->
  json_text (JObj [(k, JStr s)]) ("{" +:+ (quoted k +:+ ":" +:+ quoted (json_escape s)) +:+ "}").
Proof. intros Hk Hs. apply text_obj, member_end; [done|by apply escape_text]. Qed.

Lemma meta_is_json pid tid kind name :
  plain kind = true -> all_chars escapable name = true ->
  json_text (meta_value pid tid kind name) (meta_text (mkMetaEvent "M" pid tid kind name)).
Proof.
  intros Hk Hn.
  replace (meta_text (mkMetaEvent "M" pid tid kind name)) with ("{" +:+ (
      quoted "ph" +:+ ":" +:+ quoted "M" +:+ "," +:+ (quoted "pid" +:+ ":" +:+ show_int pid +:+ "," +:+
      (quoted "tid" +:+ ":" +:+ show_int tid +:+ "," +:+ (quoted "name" +:+ ":" +:+ quoted kind +:+ "," +:+
      (quoted "args" +:+ ":" +:+ ("{" +:+ (quoted "name" +:+ ":" +:+ quoted (json_escape name)) +:+ "}")))))) +:+ "}")
    by (unfold meta_text, quoted; cbn [m_pid m_tid m_name m_value]; rewrite <- !sapp_assoc; reflexivity).
  apply text_obj. do 4 (apply member_next; [done|by (apply text_plain || apply text_num)|]).
  apply member_end; [done|]. by apply nested_text.
Qed.

Lemma event_is_json name cat pid tid ts dur args :
  op_escapable (OpComplete name cat pid tid ts dur args) = true ->
  Forall (fun v => json_text v (event_text (mkTraceEvent name cat pid tid ts dur args)))
    (op_event (OpComplete name cat pid tid ts dur args)).
Proof.
  unfold op_escapable. cbn [op_strings forallb op_event]. rewrite !andb_true_iff. intros (Hn & Hc & Ha & _).
  constructor; [|constructor].
  set (tail := if String.eqb args "" then quoted "dur" +:+ ":" +:+ show_int dur else
    quoted "dur" +:+ ":" +:+ show_int dur +:+ "," +:+
    (quoted "args" +:+ ":" +:+ ("{" +:+ (quoted "detail" +:+ ":" +:+ quoted (json_escape args)) +:+ "}"))).
  replace (event_text (mkTraceEvent name cat pid tid ts dur args)) with ("{" +:+ (
      quoted "ph" +:+ ":" +:+ quoted "X" +:+ "," +:+ (quoted "name" +:+ ":" +:+ quoted (json_escape name) +:+ "," +:+
      (quoted "cat" +:+ ":" +:+ quoted (json_escape cat) +:+ "," +:+ (quoted "pid" +:+ ":" +:+ show_int pid +:+ "," +:+
      (quoted "tid" +:+ ":" +:+ show_int tid +:+ "," +:+ (quoted "ts" +:+ ":" +:+ show_int ts +:+ "," +:+ tail)))))) +:+ "}")
    by (unfold tail, event_text, quoted; cbn [e_name e_cat e_pid e_tid e_ts e_dur e_args];
        destruct (String.eqb args ""); rewrite <- !sapp_assoc; reflexivity).
  apply text_obj. cbn [app].
  do 6 (apply member_next; [done|by (apply text_plain || apply text_num || apply escape_text)|]).
  unfold tail. destruct (String.eqb args ""); [apply member_end; [done|apply text_num]|].
  apply member_next; [done|apply text_num|]. apply member_end; [done|]. by apply nested_text.
Qed.

Lemma items_text vs ts : Forall2 json_text vs ts -> ts <> [] -> json_items vs (write_items true ts).
Proof.
  induction 1 as [|v t vs ts Hv Hvs IH]; intros Hne; [done|]. destruct Hvs as [|v' t' vs ts Hv' Hvs].
  - change (write_items true [t]) with (t +:+ ""). rewrite sapp_nil_r. by constructor.
  - replace (write_items true (t :: t' :: ts)) with (t +:+ "," +:+ (nl +:+ write_items true (t' :: ts)))
      by (cbn [write_items]; rewrite <- ?sapp_assoc; reflexivity).
    constructor; [done|]. apply items_before; [done|]. by apply IH.
Qed.

Lemma recorded_texts ops :
  forallb op_escapable ops = true ->
  Forall2 json_text ((ops ≫= op_meta) ++ (ops ≫= op_event))
    ((meta_text <$> (ops ≫= added_meta)) ++ (event_text <$> (ops ≫= added_events))).
Proof.
  intros Hok. apply Forall2_app; induction ops as [|o ops IH]; try (by constructor); cbn in Hok;
    apply andb_true_iff in Hok as [Ho Hok]; cbn [mbind list_bind]; rewrite fmap_app; (apply Forall2_app; [|by apply IH]).
  - destruct o; [constructor|..]; unfold op_escapable in Ho; cbn in Ho; rewrite andb_true_r in Ho;
      (constructor; [by apply meta_is_json|constructor]).
  - destruct o; try (by constructor). constructor; [|constructor].
    exact (Forall_inv (event_is_json _ _ _ _ _ _ _ Ho)).
Qed.

Lemma recorded_none ops :
  (meta_text <$> (ops ≫= added_meta)) ++ (event_text <$> (ops ≫= added_events)) = [] ->
  (ops ≫= op_meta) ++ (ops ≫= op_event) = [].
Proof.
  intros H. apply app_eq_nil in H as [H1 H2]. apply fmap_nil_inv in H1, H2.
  induction ops as [|o ops IH]; [done|]. cbn in *. apply app_eq_nil in H1 as [E1 H1]. apply app_eq_nil in H2 as [E2 H2].
  by destruct o.
Qed.

Lemma items_chars p first ts t : all_chars p (write_items first ts) = true -> t ∈ ts -> all_chars p t = true.
Proof.
  revert first. induction ts as [|u ts IH]; intros first H Ht; [by apply not_elem_of_nil in Ht|].
  cbn [write_items] in H. rewrite !all_chars_app, !andb_true_iff in H. destruct H as (_ & Hu & Hts).
  apply elem_of_cons in Ht as [->|Ht]; [done|by eapply IH].
Qed.

Lemma recorded_chars ops o s :
  all_chars text_char (write_items true ((meta_text <$> (ops ≫= added_meta)) ++ (event_text <$> (ops ≫= added_events)))) = true ->
  o ∈ ops -> s ∈ op_strings o -> all_chars text_char s = true.
Proof.
  intros H Ho Hs.
  assert (Hm : forall m, m ∈ added_meta o -> all_chars text_char (meta_text m) = true).
  { intros m Hm. apply (items_chars _ _ _ _ H), elem_of_app. left. apply list_elem_of_fmap_2, list_elem_of_bind. eauto. }
  assert (He : forall e, e ∈ added_events o -> all_chars text_char (event_text e) = true).
  { intros e He. apply (items_chars _ _ _ _ H), elem_of_app. right. apply list_elem_of_fmap_2, list_elem_of_bind. eauto. }
  destruct o as [name cat pid tid ts dur args|pid name|pid tid name]; cbn [op_strings added_meta added_events] in *.
  - specialize (He _ ltac:(left)). unfold event_text, quoted in He. cbn [e_name e_cat e_args] in He.
    rewrite !all_chars_app, !andb_true_iff in He.
    apply elem_of_cons in Hs as [->|[->|[->|Hs%not_elem_of_nil]%elem_of_cons]%elem_of_cons]; [..|done];
      try (apply escape_passes; tauto).
    destruct (String.eqb_spec args "") as [->|_]; [done|]. rewrite !all_chars_app, !andb_true_iff in He.
    apply escape_passes; tauto.
  - specialize (Hm _ ltac:(left)). unfold meta_text, quoted in Hm. cbn [m_value] in Hm.
    rewrite !all_chars_app, !andb_true_iff in Hm. apply list_elem_of_singleton in Hs as ->. apply escape_passes; tauto.
  - specialize (Hm _ ltac:(left)). unfold meta_text, quoted in Hm. cbn [m_value] in Hm.
    rewrite !all_chars_app, !andb_true_iff in Hm. apply list_elem_of_singleton in Hs as ->. apply escape_passes; tauto.
Qed.


Definition sample_ops (name : string) : list trace_op :=
  [OpProcess 3 "L3"; OpThread 3 1 "Scheduler-0"; OpComplete name "worker" 3 2 10 7 "";
   OpComplete ("say " +:+ dq +:+ "hi" +:+ dq) "worker" 3 2 20 1 "a\b"].
Definition bell : string := String (ascii_of_nat 7) "done".

