(* ===== verification/TreeReduce.v ===== *)
(** * tree_reduce: a reduction as a tree of tasks

    Models [src/src/runtime/tree_reduce.h].  What the function needs of the
    runtime is the class [ReduceRuntime]: making a tensor with a fresh handle
    and submitting a call; [LevelRuntime] is an instance, with the calls in
    the order of submission.  A call stands for its closure
    [pair_fn(a, b, out)]: its inputs are [a] and [b], its output is [out].

    What the calls compute is stated for any function [f] that [pair_fn]
    applies to the contents of the tensors, and for every order in which the
    tasks can run: a task runs after the tasks that produce its inputs
    ([runnable]). *)

From S2P Require Import Prelude Bytes LinquTaskRing LevelRuntime.

Class ReduceRuntime (R : Type) := {
  rt_make : Z -> R -> R * LinquTensor;
  rt_submit : Call -> R -> R;
  (** The handle of the next tensor. *)
  rt_next : R -> Z;
  rt_make_handle n r : tensor_id (rt_make n r).2 = rt_next r;
  rt_make_count n r : tensor_count (rt_make n r).2 = n;
  rt_make_next n r : 0 <= rt_next r < 2 ^ 64 - 1 -> rt_next (rt_make n r).1 = rt_next r + 1;
  rt_submit_next c r : rt_next (rt_submit c r) = rt_next r;
}.

#[export] Program Instance level_runtime_reduce : ReduceRuntime (LevelRuntime * list Call) := {|
  rt_make n r := let '(s, t) := make_tensor n r.1 in ((s, r.2), t);
  rt_submit c r := (r.1, r.2 ++ [c]);
  rt_next r := g_next_handle r.1;
|}.
Next Obligation. done. Qed.
Next Obligation. done. Qed.
Next Obligation. intros n [s cs] H. simpl in *. apply u64_id. unfold in_u64. lia. Qed.
Next Obligation. done. Qed.

Section tree_reduce.
Context {R : Type} `{ReduceRuntime R}.
Context (pair_name : string) (pair_fn trace_pid : Z).

Definition pair_call (a b out : LinquTensor) : Call := mkCall pair_name pair_fn [a; b] [out] trace_pid.

(** The inner loop: [next], the runtime, and the calls submitted. *)
Fixpoint reduce_round (current : list LinquTensor) (r : R) : list LinquTensor * R * list Call :=
  match current with
  | a :: b :: rest =>
      let '(r, out) := rt_make (tensor_count a) r in
      let c := pair_call a b out in
      let '(next, r, calls) := reduce_round rest (rt_submit c r) in
      (out :: next, r, c :: calls)
  | _ => (current, r, [])
  end.

(** [while (current.size() > 1)] *)
Fixpoint reduce_loop (fuel : nat) (current : list LinquTensor) (r : R)
    : outcome (LinquTensor * R * list Call) :=
  match current with
  | [] => Fault OutOfBounds
  | [root] => Ok (root, r, [])
  | _ =>
      match fuel with
      | O => Fault OutOfFuel
      | S fuel =>
          let '(next, r, calls) := reduce_round current r in
          let! (root, r, calls') := reduce_loop fuel next r in
          Ok (root, r, calls ++ calls')
      end
  end.

(** The number of rounds is at most the logarithm of the number of leaves. *)
Definition rounds (n : nat) : nat := Z.to_nat (Z.log2_up (Z.of_nat n)).

Definition tree_reduce (leaves : list LinquTensor) (r : R) : outcome (LinquTensor * R * list Call) :=
  do! assert_that (negb (zlength leaves =? 0)) in
  reduce_loop (rounds (length leaves)) leaves r.

(** ** Handles *)
Definition out_of (c : Call) : list Z := tensor_id <$> call_outputs c.
Definition ins_of (c : Call) : list Z := tensor_id <$> call_inputs c.

(** The handles of the leaves, and of what is made of them. *)
Definition fresh_from (lo hi : Z) (calls : list Call) : Prop :=
  concat (out_of <$> calls) = seqZ lo (hi - lo).

Lemma round_spec current : forall r next r' calls,
  reduce_round current r = (next, r', calls) ->
  0 <= rt_next r -> rt_next r + zlength current < 2 ^ 64 ->
  (forall t, t ∈ current -> tensor_id t < rt_next r) ->
  rt_next r' = rt_next r + zlength calls /\
  2 * zlength calls <= zlength current /\ zlength current <= 2 * zlength calls + 1 /\
  zlength next + zlength calls = zlength current /\
  fresh_from (rt_next r) (rt_next r') calls /\
  (forall t, t ∈ next -> tensor_id t < rt_next r').
Proof.
  induction current as [current IH] using (induction_ltof1 _ length). unfold ltof in IH.
  intros r next r' calls Hr H0 Hb Hlt.
  destruct current as [|a [|b rest]]; simpl in Hr.
  1-2: injection Hr as <- <- <-; unfold fresh_from; simpl; rewrite Z.sub_diag;
    unfold zlength; simpl; split_and!; try lia; done.
  destruct (rt_make (tensor_count a) r) as [r1 out] eqn:Em.
  destruct (reduce_round rest (rt_submit (pair_call a b out) r1)) as [[next1 r2] calls1] eqn:Er.
  injection Hr as <- <- <-. rewrite !zlength_cons in *.
  pose proof (zlength_ge_0 rest) as Hrest.
  pose proof (rt_make_handle (tensor_count a) r) as Hh. rewrite Em in Hh. simpl in Hh.
  assert (Hlow : 0 <= rt_next r < 2 ^ 64 - 1) by lia.
  pose proof (rt_make_next (tensor_count a) r Hlow) as Hn. rewrite Em in Hn. simpl in Hn.
  destruct (IH rest ltac:(simpl; lia) _ _ _ _ Er) as (E1 & E2 & E3 & E4 & E5 & E6);
    [rewrite rt_submit_next; lia|rewrite rt_submit_next; lia|
     rewrite rt_submit_next, Hn; intros t Ht; specialize (Hlt t ltac:(set_solver)); lia|].
  rewrite rt_submit_next, Hn in *. pose proof (zlength_ge_0 calls1) as Hc.
  split_and!; [lia..| |].
  - unfold fresh_from in *. cbn [fmap list_fmap concat]. rewrite E5. unfold out_of at 1. simpl.
    rewrite Hh, (seqZ_cons (rt_next r)) by lia. f_equal. f_equal; lia.
  - intros t [->|Ht]%elem_of_cons; [lia|]. by apply E6.
Qed.

(** A call of [pair_fn] whose output is younger than its inputs. *)
Definition ordered (c : Call) : Prop :=
  exists a b out, c = pair_call a b out /\ tensor_id a < tensor_id out /\ tensor_id b < tensor_id out.

Lemma round_ordered current : forall r next r' calls,
  reduce_round current r = (next, r', calls) ->
  0 <= rt_next r -> rt_next r + zlength current < 2 ^ 64 ->
  (forall t, t ∈ current -> tensor_id t < rt_next r) -> Forall ordered calls.
Proof.
  induction current as [current IH] using (induction_ltof1 _ length). unfold ltof in IH.
  intros r next r' calls Hr H0 Hb Hlt.
  destruct current as [|a [|b rest]]; simpl in Hr; [injection Hr as <- <- <-; constructor..|].
  destruct (rt_make (tensor_count a) r) as [r1 out] eqn:Em.
  destruct (reduce_round rest (rt_submit (pair_call a b out) r1)) as [[next1 r2] calls1] eqn:Er.
  injection Hr as <- <- <-. rewrite !zlength_cons in *. pose proof (zlength_ge_0 rest) as Hrest.
  pose proof (rt_make_handle (tensor_count a) r) as Hh. rewrite Em in Hh. simpl in Hh.
  assert (Hlow : 0 <= rt_next r < 2 ^ 64 - 1) by lia.
  pose proof (rt_make_next (tensor_count a) r Hlow) as Hn. rewrite Em in Hn. simpl in Hn.
  pose proof (Hlt a ltac:(set_solver)). pose proof (Hlt b ltac:(set_solver)). constructor.
  - exists a, b, out. split_and!; [done|lia|lia].
  - apply (IH rest ltac:(simpl; lia) _ _ _ _ Er); rewrite rt_submit_next, ?Hn; [lia..|].
    intros t Ht. specialize (Hlt t ltac:(set_solver)). lia.
Qed.

Lemma fresh_app lo mid hi c1 c2 : lo <= mid <= hi ->
  fresh_from lo mid c1 -> fresh_from mid hi c2 -> fresh_from lo hi (c1 ++ c2).
Proof.
  intros Hm H1 H2. unfold fresh_from in *. rewrite fmap_app, concat_app, H1, H2.
  replace (hi - lo) with ((mid - lo) + (hi - mid)) by lia.
  rewrite seqZ_app by lia. by replace (lo + (mid - lo)) with mid by lia.
Qed.

(** The loop ends, with one call less than leaves. *)
Lemma loop_spec fuel : forall current r,
  current <> [] -> zlength current <= 2 ^ Z.of_nat fuel ->
  0 <= rt_next r -> rt_next r + zlength current < 2 ^ 64 ->
  (forall t, t ∈ current -> tensor_id t < rt_next r) ->
  exists root r' calls, reduce_loop fuel current r = Ok (root, r', calls) /\
    zlength calls = zlength current - 1 /\ rt_next r' = rt_next r + zlength calls /\
    fresh_from (rt_next r) (rt_next r') calls /\ Forall ordered calls.
Proof.
  induction fuel as [|fuel IH]; intros current r Hne Hf H0 Hb Hlt;
    (destruct current as [|a [|b rest]]; [done| |]).
  1,3: exists a, r, []; split_and!; [done|done|unfold zlength; simpl; lia| |done];
    unfold fresh_from; by rewrite Z.sub_diag.
  { rewrite !zlength_cons in Hf. pose proof (zlength_ge_0 rest). simpl in Hf. lia. }
  destruct (reduce_round (a :: b :: rest) r) as [[next r1] calls1] eqn:Er.
  destruct (round_spec _ _ _ _ _ Er H0 Hb Hlt) as (E1 & E2 & E3 & E4 & E5 & E6).
  pose proof (round_ordered _ _ _ _ _ Er H0 Hb Hlt) as Ho.
  assert (Hlen : 2 <= zlength (a :: b :: rest))
    by (rewrite !zlength_cons; pose proof (zlength_ge_0 rest); lia).
  destruct (IH next r1) as (root & r2 & calls2 & L1 & L2 & L3 & L4 & L5).
  - intros ->. unfold zlength in E4 at 1. simpl in E4. lia.
  - rewrite Nat2Z.inj_succ, Z.pow_succ_r in Hf by lia. lia.
  - pose proof (zlength_ge_0 calls1). lia.
  - lia.
  - exact E6.
  - exists root, r2, (calls1 ++ calls2). cbn [reduce_loop]. rewrite Er. rewrite L1. bind_simpl.
    rewrite zlength_app. pose proof (zlength_ge_0 calls1). pose proof (zlength_ge_0 calls2).
    split_and!; [done|lia|lia| |by apply Forall_app].
    apply (fresh_app _ (rt_next r1)); [lia|done|done].
Qed.

(** [root_fut]: the future of the call submitted last, nothing before any. *)
Definition root_fut (calls : list Call) : option Call := last calls.

(** The call waited for is the one that makes the root. *)
Lemma loop_last fuel : forall current r root r' calls,
  reduce_loop fuel current r = Ok (root, r', calls) ->
  match root_fut calls with Some c => call_outputs c = [root] | None => current = [root] end.
Proof.
  induction fuel as [|fuel IH]; intros current r root r' calls Hl;
    (destruct current as [|a [|b rest]]; [done|by injection Hl as <- <- <-|]); [done|].
  cbn [reduce_loop reduce_round] in Hl.
  destruct (rt_make (tensor_count a) r) as [r1 out].
  destruct (reduce_round rest _) as [[next r2] calls1] eqn:Er.
  apply bind_Ok in Hl as ([[root2 r3] calls2] & Hl & [= <- <- <-]).
  apply IH in Hl. unfold root_fut in *. change (out :: next) with ([out] ++ next) in *.
  change ((?c :: calls1) ++ calls2) with (c :: (calls1 ++ calls2)).
  rewrite last_cons, last_app. destruct (last calls2); [done|].
  injection Hl as <- ->. destruct rest as [|a' [|b' rest]]; simpl in Er.
  - injection Er as <- <-. done.
  - done.
  - destruct (rt_make (tensor_count a') _) as [r4 out'].
    by destruct (reduce_round rest _) as [[? ?] ?].
Qed.

(** ** What the calls compute *)
Section values.
Context {V : Type} (f : V -> V -> V).

(** [f v1 (f v2 (... vn))], nothing for the empty list. *)
Definition reduce_list (l : list V) : option V :=
  foldr (fun x acc => Some (match acc with Some y => f x y | None => x end)) None l.

(** The contents of the tensors, by handle, after one call. *)
Definition run_call (v : Z -> V) (c : Call) : Z -> V :=
  match call_inputs c, call_outputs c with
  | [a; b], [out] => <[tensor_id out := f (v (tensor_id a)) (v (tensor_id b))]> v
  | _, _ => v
  end.
Definition run_calls (calls : list Call) (v : Z -> V) : Z -> V := fold_left run_call calls v.

(** Every task runs after the tasks that produce its inputs. *)
Definition runnable (sched : list Call) : Prop :=
  forall s1 c s2 h, sched = s1 ++ c :: s2 -> h ∈ ins_of c -> h ∉ concat (out_of <$> (c :: s2)).

(** The contents fit the calls. *)
Definition solves (v : Z -> V) (c : Call) : Prop :=
  match call_inputs c, call_outputs c with
  | [a; b], [out] => v (tensor_id out) = f (v (tensor_id a)) (v (tensor_id b))
  | _, _ => False
  end.

Lemma round_value `{!Assoc (=) f} (v : Z -> V) current : forall r next r' calls,
  reduce_round current r = (next, r', calls) -> Forall (solves v) calls ->
  reduce_list (v ∘ tensor_id <$> next) = reduce_list (v ∘ tensor_id <$> current).
Proof.
  induction current as [current IH] using (induction_ltof1 _ length). unfold ltof in IH.
  intros r next r' calls Hr Hs.
  destruct current as [|a [|b rest]]; simpl in Hr; [by injection Hr as <- <- <-..|].
  destruct (rt_make (tensor_count a) r) as [r1 out].
  destruct (reduce_round rest (rt_submit (pair_call a b out) r1)) as [[next1 r2] calls1] eqn:Er.
  injection Hr as <- <- <-. apply Forall_cons in Hs as [Hc Hs].
  specialize (IH rest ltac:(simpl; lia) _ _ _ _ Er Hs). unfold solves in Hc. simpl in Hc.
  cbn [fmap list_fmap reduce_list foldr] in *. unfold reduce_list in *. cbn [foldr].
  rewrite IH. cbn [compose]. rewrite Hc.
  destruct (foldr _ None (v ∘ tensor_id <$> rest)); simpl; [by rewrite (assoc f)|done].
Qed.

Lemma loop_value `{!Assoc (=) f} (v : Z -> V) fuel : forall current r root r' calls,
  reduce_loop fuel current r = Ok (root, r', calls) -> Forall (solves v) calls ->
  reduce_list (v ∘ tensor_id <$> current) = Some (v (tensor_id root)).
Proof.
  induction fuel as [|fuel IH]; intros current r root r' calls Hl Hs;
    (destruct current as [|a [|b rest]]; [done|by injection Hl as <- <- <-|]); [done|].
  cbn [reduce_loop] in Hl.
  destruct (reduce_round (a :: b :: rest) r) as [[next r1] calls1] eqn:Er.
  apply bind_Ok in Hl as ([[root2 r2] calls2] & Hl & [= <- <- <-]).
  apply Forall_app in Hs as [Hs1 Hs2].
  rewrite <- (round_value v _ _ _ _ _ Er Hs1). by eapply IH.
Qed.

(** ** Running the calls *)
Lemma run_untouched calls : forall v k,
  k ∉ concat (out_of <$> calls) -> run_calls calls v k = v k.
Proof.
  induction calls as [|c calls IH]; intros v k Hk; [done|].
  cbn [fmap list_fmap concat] in Hk. apply not_elem_of_app in Hk as [Hc Hk].
  unfold run_calls in *. simpl. rewrite IH by done. unfold run_call, out_of in *.
  destruct (call_inputs c) as [|a [|b []]]; try done.
  destruct (call_outputs c) as [|out []]; try done. apply fn_lookup_insert_ne. set_solver.
Qed.

Lemma run_app s1 s2 v : run_calls (s1 ++ s2) v = run_calls s2 (run_calls s1 v).
Proof. apply fold_left_app. Qed.

Lemma run_solves sched v :
  NoDup (concat (out_of <$> sched)) -> runnable sched -> Forall ordered sched ->
  Forall (solves (run_calls sched v)) sched.
Proof.
  intros Hnd Hrun Hord. apply Forall_forall. intros c Hc.
  rewrite Forall_forall in Hord. destruct (Hord c Hc) as (a & b & out & -> & Ha & Hb).
  apply list_elem_of_split in Hc as (s1 & s2 & ->). unfold solves. simpl.
  rewrite fmap_app, concat_app in Hnd. cbn [fmap list_fmap concat] in Hnd.
  apply NoDup_app in Hnd as (_ & _ & Hnd). apply NoDup_app in Hnd as (_ & Hout & _).
  assert (Hin : forall h, h ∈ ins_of (pair_call a b out) ->
    run_calls (s1 ++ pair_call a b out :: s2) v h = run_calls s1 v h).
  { intros h Hh. rewrite run_app. apply run_untouched. by apply (Hrun s1 _ s2 h). }
  rewrite (Hin (tensor_id a)), (Hin (tensor_id b)) by (change (ins_of _) with [tensor_id a; tensor_id b]; rewrite !elem_of_cons; tauto).
  rewrite run_app. unfold run_calls at 1. simpl.
  fold (run_calls s2). rewrite run_untouched by (apply Hout; change (out_of _) with [tensor_id out]; rewrite elem_of_cons; tauto).
  unfold run_call. simpl. by rewrite fn_lookup_insert.
Qed.
End values.

Lemma concat_Permutation {A B} (g : A -> list B) l k :
  l ≡ₚ k -> concat (g <$> l) ≡ₚ concat (g <$> k).
Proof.
  induction 1 as [|x l k _ IH|x y l|l k m _ IH1 _ IH2]; simpl; [done| | |by rewrite IH1].
  - by apply Permutation_app_head.
  - apply Permutation_app_swap_app.
Qed.

(** The order of submission is one of the orders in which the tasks can run. *)
Lemma submission_runnable lo hi calls :
  fresh_from lo hi calls -> Forall ordered calls -> runnable calls.
Proof.
  intros Hf Ho s1 c s2 h -> Hh Hin. apply Forall_app in Ho as [_ Ho].
  apply Forall_cons in Ho as [(a & b & out & -> & Ha & Hb) _].
  unfold fresh_from in Hf. rewrite fmap_app, concat_app in Hf.
  set (l1 := concat (out_of <$> s1)) in *.
  assert (Hd : concat (out_of <$> pair_call a b out :: s2) = drop (length l1) (seqZ lo (hi - lo)))
    by (by rewrite <- Hf, drop_app_length).
  assert (Hge : forall k, k ∈ drop (length l1) (seqZ lo (hi - lo)) -> lo + zlength l1 <= k).
  { intros k (i & Hi)%list_elem_of_lookup. rewrite lookup_drop in Hi.
    apply lookup_seqZ in Hi as [-> ?]. unfold zlength. lia. }
  assert (Hout : tensor_id out = lo + zlength l1).
  { assert (Hz : concat (out_of <$> pair_call a b out :: s2) !! 0%nat = Some (tensor_id out)) by done.
    rewrite Hd, lookup_drop in Hz. apply lookup_seqZ in Hz as [-> ?]. unfold zlength. lia. }
  rewrite Hd in Hin. apply Hge in Hin. unfold ins_of in Hh. simpl in Hh.
  apply elem_of_cons in Hh as [->|Hh]; [lia|]. apply elem_of_cons in Hh as [->|Hh]; [lia|].
  by apply not_elem_of_nil in Hh.
Qed.

Lemma tree_reduce_spec leaves r :
  leaves <> [] -> 0 <= rt_next r -> rt_next r + zlength leaves < 2 ^ 64 ->
  (forall t, t ∈ leaves -> tensor_id t < rt_next r) ->
  exists root r' calls, tree_reduce leaves r = Ok (root, r', calls) /\
    zlength calls = zlength leaves - 1 /\ fresh_from (rt_next r) (rt_next r') calls /\
    Forall ordered calls /\
    match root_fut calls with Some c => call_outputs c = [root] | None => leaves = [root] end /\
    forall V (f : V -> V -> V) (v : Z -> V) sched, Assoc (=) f -> sched ≡ₚ calls -> runnable sched ->
      reduce_list f (v ∘ tensor_id <$> leaves) = Some (run_calls f sched v (tensor_id root)).
Proof.
  intros Hne H0 Hb Hlt.
  assert (Hfuel : zlength leaves <= 2 ^ Z.of_nat (rounds (length leaves))).
  { unfold rounds. rewrite Z2Nat.id by apply Z.log2_up_nonneg. unfold zlength.
    destruct (decide (length leaves = 1)%nat) as [->|]; [done|].
    apply Z.log2_up_spec. destruct leaves; [done|]. simpl in *. lia. }
  destruct (loop_spec _ leaves r Hne Hfuel H0 Hb Hlt) as (root & r' & calls & Hl & Hn & _ & Hfr & Ho).
  exists root, r', calls. split_and!; [|done|done|done|by eapply loop_last|].
  - unfold tree_reduce. destruct (Z.eqb_spec (zlength leaves) 0) as [Hz|_]; [|done].
    destruct leaves; [done|]. rewrite zlength_cons in Hz. pose proof (zlength_ge_0 leaves). lia.
  - intros V f v sched Hassoc Hperm Hrun.
    assert (Hs : Forall (solves f (run_calls f sched v)) calls).
    { rewrite <- Hperm. apply run_solves; [|done|by rewrite Hperm].
      rewrite (concat_Permutation out_of _ _ Hperm). unfold fresh_from in Hfr. rewrite Hfr.
      apply NoDup_seqZ. }
    rewrite <- (loop_value f _ _ _ _ _ _ _ Hl Hs). f_equal. apply list_fmap_ext.
    intros i t Ht. simpl. symmetry. apply run_untouched.
    rewrite (concat_Permutation out_of _ _ Hperm). unfold fresh_from in Hfr. rewrite Hfr.
    rewrite elem_of_seqZ. apply list_elem_of_lookup_2, Hlt in Ht. lia.
Qed.
(** C33.  The tree computes the reduction of the leaves.  For any leaves there
    are, [tree_reduce] submits one task less than there are leaves, in an
    order in which every task follows the tasks it depends on, and waits for
    the one that makes the root; and in every order in which the tasks can run, when [pair_fn] combines the contents of
    two tensors by an associative operation, the root ends up holding the
    leaves' contents combined from left to right. *)
Theorem tree_reduce_value leaves r :
  leaves <> [] -> 0 <= rt_next r -> rt_next r + zlength leaves < 2 ^ 64 ->
  (forall t, t ∈ leaves -> tensor_id t < rt_next r) ->
  exists root r' calls, tree_reduce leaves r = Ok (root, r', calls) /\
    zlength calls = zlength leaves - 1 /\ runnable calls /\
    match root_fut calls with Some c => call_outputs c = [root] | None => leaves = [root] end /\
    forall V (f : V -> V -> V) (v : Z -> V) sched, Assoc (=) f -> sched ≡ₚ calls -> runnable sched ->
      reduce_list f (v ∘ tensor_id <$> leaves) = Some (run_calls f sched v (tensor_id root)).
Proof.
  intros Hne H0 Hb Hlt.
  destruct (tree_reduce_spec leaves r Hne H0 Hb Hlt) as (root & r' & calls & Ht & Hn & Hf & Ho & Hl & Hv).
  exists root, r', calls. split_and!; try done. by eapply submission_runnable.
Qed.
End tree_reduce.

(** Five leaves on a [LevelRuntime]. *)
Definition leaf (h : Z) : LinquTensor := mkTensor h 1 (Some h) (Some h).
Definition five_leaves : list LinquTensor := leaf <$> [1; 2; 3; 4; 5].
Definition five_leaf_runtime : outcome (LevelRuntime * list Call) :=
  let! s := new_runtime 3 1 2 (mkRuntimeConfig 8 1024 16 4 8 8) in
  Ok (s <| g_next_handle := 6 |>, []).

Lemma tree_reduce_value_witness : exists r root r' calls,
  five_leaf_runtime = Ok r /\
  tree_reduce "sum" 0 (-1) five_leaves r = Ok (root, r', calls) /\ zlength calls = 4 /\
  Some (run_calls Z.add calls id (tensor_id root)) = Some 15.
Proof.
  destruct five_leaf_runtime as [r|] eqn:Er; [|vm_compute in Er; discriminate].
  assert (Hn : rt_next r = 6) by (vm_compute in Er; injection Er as <-; vm_compute; reflexivity).
  destruct (tree_reduce_value "sum" 0 (-1) five_leaves r ltac:(discriminate) ltac:(rewrite Hn; lia)
    ltac:(rewrite Hn; vm_compute; reflexivity)
    ltac:(intros t Ht; rewrite Hn; apply list_elem_of_fmap in Ht as (h & -> & Ht); simpl;
          rewrite !elem_of_cons in Ht; set_solver by lia))
    as (root & r' & calls & H1 & H2 & H3 & _ & H4).
  exists r, root, r', calls. split; [reflexivity|]. split; [exact H1|]. split; [exact H2|].
  rewrite <- (H4 Z Z.add id calls Z.add_assoc (Permutation_refl _) H3). reflexivity.
Defined.
