(* ===== verification/ReduceOnRuntime.v ===== *)
(** * tree_reduce on LevelRuntime

    Puts [TreeReduce] on the threads of [LevelRuntime]: the calls that
    [tree_reduce] makes are the calls a run accepts, and the order in which the
    workers call the functions decides what the tensors hold.  The functions
    themselves are [run_calls]: each writes its output from its inputs. *)

From S2P Require Import Prelude Bytes LinquTaskRing LevelRuntime TreeReduce.
From S2P Require Import LevelRuntimeView LevelRuntimeState LevelRuntimeSafety LevelRuntimeTheorems.
From S2P Require Import LevelRuntimeDrain LevelRuntimeOrder LevelRuntimeWriters LevelRuntimeFlow LevelRuntimeDataflow.

#[local] Existing Instance lax.

(** The calls of the tasks that have run. *)
Definition executed_calls (cs : list Call) (ex : list Z) : list Call := omap (zlookup cs) ex.

Lemma omap_in_range {A} (cs : list A) k :
  0 <= k <= zlength cs -> omap (zlookup cs) (seqZ 0 k) = take (Z.to_nat k) cs.
Proof.
  intros Hk. rewrite <- (Z2Nat.id k) by lia. assert (Hn : (Z.to_nat k <= length cs)%nat) by (unfold zlength in Hk; lia).
  clear Hk. induction (Z.to_nat k) as [|n IH]; [done|].
  rewrite Nat2Z.inj_succ, <- Z.add_1_r, seqZ_app, omap_app, IH by lia. rewrite Nat2Z.id.
  destruct (lookup_lt_is_Some_2 cs n ltac:(lia)) as [x Hx].
  rewrite Z2Nat.inj_add, Nat2Z.id by lia. replace (n + Z.to_nat 1)%nat with (S n) by lia.
  rewrite (take_S_r _ _ _ Hx). f_equal.
  rewrite Z.add_0_l, seqZ_cons, seqZ_nil by lia. cbn. unfold zlookup.
  by rewrite (proj2 (Z.leb_le 0 _)), Nat2Z.id, Hx by lia.
Qed.

Lemma omap_Permutation {A B} (f : A -> option B) l k : l ≡ₚ k -> omap f l ≡ₚ omap f k.
Proof.
  induction 1 as [|x l k _ IH|x y l|l k m _ IH1 _ IH2]; simpl; [done| | |by rewrite IH1].
  - destruct (f x); [by constructor|done].
  - destruct (f x), (f y); try done. constructor.
Qed.

Lemma executed_all cs ex : ex ≡ₚ seqZ 0 (zlength cs) -> executed_calls cs ex ≡ₚ cs.
Proof.
  intros He. unfold executed_calls. rewrite (omap_Permutation _ _ _ He), omap_in_range
    by (pose proof (zlength_ge_0 cs); lia).
  unfold zlength. by rewrite Nat2Z.id, firstn_all.
Qed.

(** A call in the middle of what was executed. *)
Lemma executed_split cs ex s1 c s2 :
  executed_calls cs ex = s1 ++ c :: s2 ->
  exists l1 t l2, ex = l1 ++ t :: l2 /\ zlookup cs t = Some c /\ executed_calls cs l2 = s2.
Proof.
  revert s1. induction ex as [|u ex IH]; intros s1; cbn; [by destruct s1|].
  destruct (zlookup cs u) as [d|] eqn:Hu.
  - destruct s1 as [|d' s1]; cbn.
    + intros [= -> <-]. by exists [], u, ex.
    + intros [= _ (l1 & t & l2 & -> & Ht & Hl)%IH]. by exists (u :: l1), t, l2.
  - intros (l1 & t & l2 & -> & Ht & Hl)%IH. by exists (u :: l1), t, l2.
Qed.

(** The calls of a reduction are numbered by their outputs. *)
Lemma fresh_lookup name fn pid calls : forall lo hi i c,
  fresh_from lo hi calls -> Forall (ordered name fn pid) calls -> zlookup calls i = Some c ->
  out_of c = [lo + i].
Proof.
  induction calls as [|d calls IH]; intros lo hi i c Hf Ho Hi; [by destruct (zlookup_Some_range _ _ _ Hi); unfold zlength in *; simpl in *; lia|].
  apply Forall_cons in Ho as [(a & b & out & -> & _) Ho]. unfold fresh_from in Hf.
  cbn [fmap list_fmap concat] in Hf. change (out_of (pair_call name fn pid a b out)) with [tensor_id out] in Hf.
  assert (Hpos : 0 < hi - lo) by (destruct (decide (0 < hi - lo)); [done|rewrite seqZ_nil in Hf by lia; discriminate]).
  rewrite seqZ_cons in Hf by lia. injection Hf as Hout Hf.
  destruct (decide (i = 0)) as [->|Hne].
  - injection Hi as <-. change (out_of (pair_call name fn pid a b out)) with [tensor_id out].
    by rewrite Hout, Z.add_0_r.
  - pose proof (zlookup_Some_range _ _ _ Hi).
    replace (lo + i) with (Z.succ lo + (i - 1)) by lia. apply (IH (Z.succ lo) hi).
    + unfold fresh_from. rewrite Hf. f_equal. lia.
    + done.
    + unfold zlookup in *. rewrite (proj2 (Z.leb_le 0 i)) in Hi by lia.
      rewrite (proj2 (Z.leb_le 0 (i - 1))) by lia.
      replace (Z.to_nat i) with (S (Z.to_nat (i - 1))) in Hi by lia. done.
Qed.

(** Dataflow order is what [runnable] asks. *)
Lemma in_order_runnable name fn pid lo hi calls ex :
  0 < lo -> fresh_from lo hi calls -> Forall (ordered name fn pid) calls -> NoDup ex ->
  in_order calls ex -> runnable (executed_calls calls ex).
Proof.
  intros Hlo Hf Ho Hnd Hord s1 c s2 h Hs Hh Hin.
  destruct (executed_split _ _ _ _ _ Hs) as (l1 & t & l2 & -> & Ht & Hl2).
  pose proof (fresh_lookup _ _ _ _ _ _ _ _ Hf Ho Ht) as Hct.
  rewrite Forall_forall in Ho. assert (Hc : c ∈ calls).
  { unfold zlookup in Ht. destruct (0 <=? t); [|done]. by eapply list_elem_of_lookup_2. }
  pose proof (zlookup_Some_range _ _ _ Ht) as Hrt.
  (* the writer of [h], among the tasks that have not run before [t] *)
  assert (exists p cp, p ∈ t :: l2 /\ zlookup calls p = Some cp /\ h ∈ out_of cp) as (p & cp & Hp & Hcp & Hhp).
  { cbn [fmap list_fmap concat] in Hin. apply elem_of_app in Hin as [Hin|Hin]; [exists t, c; split_and!; [by left|done..]|].
    apply list_elem_of_In, in_concat in Hin as (o & Ho' & Hho). apply list_elem_of_In in Ho', Hho.
    apply list_elem_of_fmap in Ho' as (cp & -> & Hcp). rewrite <- Hl2 in Hcp.
    apply list_elem_of_omap in Hcp as (p & Hp & Hcp). exists p, cp. split_and!; [by right|done..]. }
  assert (Hall : Forall (ordered name fn pid) calls) by (by apply Forall_forall).
  rewrite (fresh_lookup _ _ _ _ _ _ _ _ Hf Hall Hcp), list_elem_of_singleton in Hhp. subst h.
  destruct (Ho c Hc) as (a & b & out & -> & Ha & Hb).
  change (out_of _) with [tensor_id out] in Hct. injection Hct as Hout.
  pose proof (zlookup_Some_range _ _ _ Hcp) as Hrp. change (ins_of _) with [tensor_id a; tensor_id b] in Hh.
  assert (Hlt : p < t) by (rewrite !elem_of_cons, elem_of_nil in Hh; lia).
  assert (Hx : exists x, x ∈ [a; b] /\ tensor_id x = lo + p).
  { rewrite !elem_of_cons, elem_of_nil in Hh. destruct Hh as [Hh|[Hh|[]]]; [exists a|exists b]; split; set_solver by lia. }
  destruct Hx as (x & Hx & Hxp).
  assert (Hpl : p ∈ l1).
  { apply (Hord l1 t l2 x p eq_refl). exists (pair_call name fn pid a b out). split_and!; try done.
    - unfold is_valid, INVALID_HANDLE. rewrite Hxp. apply negb_true_iff, Z.eqb_neq. lia.
    - split; [lia|]. split.
      + exists cp. split; [done|]. change (tensor_id <$> call_outputs cp) with (out_of cp).
        rewrite (fresh_lookup _ _ _ _ _ _ _ _ Hf Hall Hcp), Hxp. by left.
      + intros q Hq (cq & Hcq & Hin'). change (tensor_id <$> call_outputs cq) with (out_of cq) in Hin'.
        rewrite (fresh_lookup _ _ _ _ _ _ _ _ Hf Hall Hcq), Hxp, list_elem_of_singleton in Hin'. lia. }
  apply NoDup_app in Hnd as (_ & Hdis & _). by apply (Hdis p).
Qed.

Lemma outputs_pairs name fn pid calls :
  Forall (ordered name fn pid) calls -> outputs_before calls (zlength calls) = zlength calls.
Proof.
  intros Ho. unfold outputs_before. replace (take _ calls) with calls
    by (unfold zlength; by rewrite Nat2Z.id, firstn_all).
  induction Ho as [|c calls (a & b & out & -> & _) _ IH]; [done|].
  cbn [zsum]. rewrite IH, zlength_cons. done.
Qed.

(** The value of a reduction in a run that has come to rest. *)
Lemma reduced_at_rest name fn pid leaves (r r' : LevelRuntime * list Call) root calls
    level st wt cfg y0 ls y :
  leaves <> [] -> 0 < rt_next r -> rt_next r + zlength leaves < 2 ^ 64 ->
  (forall t, t ∈ leaves -> tensor_id t < rt_next r) ->
  tree_reduce name fn pid leaves r = Ok (root, r', calls) ->
  config_ok cfg -> map_config_ok cfg -> start level st wt cfg = Ok y0 ->
  race_free_run ls y0 = Some y -> quiescent y -> accepted ls y0 = calls ->
  zlength leaves <= tensormap_pool cfg ->
  forall V (f : V -> V -> V) (v : Z -> V), Assoc (=) f ->
    reduce_list f (v ∘ tensor_id <$> leaves) =
    Some (run_calls f (executed_calls calls (executed (shared y))) v (tensor_id root)).
Proof.
  intros Hne H0 Hb Hlt Ht Hc Hmc Hs Hr Hq Hacc Hroom V f v Hassoc.
  destruct (tree_reduce_spec name fn pid leaves r Hne (Z.lt_le_incl _ _ H0) Hb Hlt)
    as (root1 & r1 & calls1 & Ht1 & Hn & Hf & Ho & _ & Hv).
  rewrite Ht in Ht1. injection Ht1 as <- <- <-.
  assert (Hcap : outputs_before calls (zlength calls) <= tensormap_pool cfg).
  { rewrite (outputs_pairs name fn pid) by done. lia. }
  rewrite <- Hacc in Hcap. destruct (race_free_order _ _ _ _ _ _ _ Hc Hmc Hs Hr Hcap) as [Hfl Hord].
  rewrite Hacc in *. pose proof (fl_count _ _ _ _ Hfl) as Hcount. destruct Hq as [Hsp Hq'].
  rewrite Hsp in Hcount. simpl in Hcount. rewrite Z.add_0_r in Hcount.
  pose proof (run_inv _ _ _ _ _ Hc Hs _ _ (race_free_run_calm _ _ _ Hr)) as Hy.
  destruct (quiescent_all_done y Hy (conj Hsp Hq')) as [Hex _]. rewrite <- Hcount in Hex.
  apply Hv; [done|by apply executed_all|].
  eapply in_order_runnable; [exact H0|exact Hf|exact Ho| |exact Hord].
  rewrite Hex. apply NoDup_seqZ.
Qed.


(** ** Four leaves on two workers *)

Definition four_leaves : list LinquTensor := tensor <$> [1; 2; 3; 4].

(** The leaves are made and their contents arrive. *)
Definition leaves_plan : list label := replicate 4 (LTensor 1) ++ (LReady <$> [1; 2; 3; 4]).
Definition leaves_made : System := default (started 4 2) (race_free_run leaves_plan (started 4 2)).

Definition four_reduced : outcome (LinquTensor * (LevelRuntime * list Call) * list Call) :=
  tree_reduce "sum" 7 (-1) four_leaves (shared leaves_made, []).
Definition four_calls : list Call := match four_reduced with Ok (_, _, cs) => cs | Fault _ => [] end.
Definition submitting (k : nat) : list label :=
  LTensor 1 :: from_option (fun c => LCall c :: replicate 40 LSubmit) [] (four_calls !! k).

(** The second pair is submitted while the first is being summed, and the root
    while both are. *)
Definition reduce_plan : list label :=
  leaves_plan ++ submitting 0 ++ acts 0 3 ++ submitting 1 ++ acts 1 3 ++ submitting 2 ++
  acts 0 40 ++ acts 1 40 ++ acts 0 40.
Definition reduce_end : System := default (started 4 2) (race_free_run reduce_plan (started 4 2)).

(** The first pair has been summed, but its propagation has not started, when
    the root is submitted; the second pair has not been summed. *)
Definition reduce_race_plan : list label :=
  leaves_plan ++ submitting 0 ++ submitting 1 ++ acts 0 6 ++ acts 1 1 ++ submitting 2 ++
  acts 0 40 ++ acts 1 40 ++ acts 0 40.

(** Nothing but the leaves has contents at first. *)
Definition leaf_contents (h : Z) : Z := if h <=? 4 then h else 0.

Lemma reduce_end_quiescent : quiescent reduce_end.
Proof.
  split_and!; [vm_compute; reflexivity..|].
  intros [|[|i]] pc Hi; vm_compute in Hi; simplify_eq; by left.
Qed.

(** All the calls are submitted, the root waits for the second pair. *)
Definition reduce_submitted_plan : list label :=
  leaves_plan ++ submitting 0 ++ acts 0 3 ++ submitting 1 ++ acts 1 3 ++ submitting 2.
Definition reduce_submitted : System := default (started 4 2) (race_free_run reduce_submitted_plan (started 4 2)).
Definition reduce_rest_plan : list label := acts 0 40 ++ acts 1 40 ++ acts 0 40.


(** C34.  A reduction can go wrong.  On the same leaves and calls there is a
    calm run, at rest at the end with every task run, in which the root is
    summed before the second pair: the first pair finishes while the root is
    being linked to it, the root is counted twice for it and becomes ready.  It
    ends up with the sum of the first pair only. *)
Theorem tree_reduce_wrong_in_a_race : exists ls y root r',
  tree_reduce "sum" 7 (-1) four_leaves (shared leaves_made, []) = Ok (root, r', four_calls) /\
  calm_run ls (started 4 2) = Some y /\ quiescent y /\ accepted ls (started 4 2) = four_calls /\
  executed (shared y) = [0; 2; 1] /\
  reduce_list Z.add (leaf_contents ∘ tensor_id <$> four_leaves) = Some 10 /\
  run_calls Z.add (executed_calls four_calls (executed (shared y))) leaf_contents (tensor_id root) = 3.
Proof.
  exists reduce_race_plan. eexists _, (tensor 7), _. split; [vm_compute; reflexivity|].
  split; [vm_compute; reflexivity|]. split_and!; try (vm_compute; reflexivity).
  split_and!; [vm_compute; reflexivity..|].
  intros [|[|i]] pc Hi; vm_compute in Hi; simplify_eq; by left.
Qed.
